(* ===== verification/_CoqProject ===== *)
-Q . S2P
Prelude.v
ByteStream.v
WrappingIntegers.v
StreamReassembler.v
Buffer.v
Parser.v
Checksum.v
TCPHeader.v
TCPSegment.v
IPv4Header.v
IPv4Datagram.v
Ethernet.v
ARPMessage.v
TCPReceiver.v
TCPSender.v
TCPState.v
TCPConnection.v
EndToEnd.v
Progress.v
Duplex.v
Recovery.v
Benchmark.v
Completion.v
Handshake.v
Address.v
NetworkInterface.v
Router.v
Safety.v
Adapters.v
Show.v
FileDescriptor.v
EventLoop.v
Socket.v
BidirectionalCopy.v
Bouncer.v
SpongeSocket.v
NetworkSimulator.v
Lab7.v
CommandLine.v
Names.v
Doctests.v
Tcpdump.v
Usage.v
Sniffer.v
Tools.v
Setup.v
Programs.v
Threads.v
