(* ===== verification/Prelude.v ===== *)
(** * A verification of the sponge TCP/IP stack

    [libsponge] is a user-space network stack.  From the bottom up: byte buffers
    and a parser; the wire formats of Ethernet frames, ARP messages, IPv4
    datagrams and TCP segments with the Internet checksum; a network interface
    that resolves next hops with ARP; a router; and TCP itself, which is a sender
    (a byte stream cut into segments, with retransmission), a receiver (segments
    put back together by a stream reassembler), and a connection that joins the
    two.  Adapters carry the connection's segments over a device or a socket.
    Around them stand the wrappers of the operating system: reference-counted file
    descriptors, sockets, TUN and TAP devices and an event loop over [poll]; the
    socket that runs a connection in a thread of its own with such a loop; and the
    programs under [apps].

    ** Conventions of the model

    - A method that changes an object is a function from the old record to the
      new one; the record has the members of the class.  A method that can throw
      returns [result], with the exception as a value; behaviour that C++ leaves
      undefined ([front()] of an empty list, a shift by too much) is
      [Throw undefined_behaviour], with two exceptions, which the theorems that exclude
      [undefined_behaviour] therefore do not exclude.  A value that the source reads through
      an end iterator (in [NetworkInterface::send_datagram]) is an argument called
      [garbage], about which nothing is assumed.  The decrement of [begin()] in the insertion
      loop of the reassembler has the meaning that circular lists give it; [insert_iter] is
      the loop in which it is undefined, and [front_merge_undefined] says when that is reached.
    - An integer of w bits is a [Z] and each operation that can wrap is followed
      by [u8], [u16], [u32] or [u64].  [size_t] has 64 bits.
    - Strings, buffers and packets are [list byte]; [std::list], [std::queue] and
      [std::vector] are lists; [std::map] is [gmap].
    - Output to [cerr] is left out, except in [Lab7].
    - Code that makes system calls is in the monad [IO] of [FileDescriptor]: a
      function from a [world], which is a kernel and the heap of shared
      descriptors, to a [result] with the new world.  A kernel is an instance of
      the classes [Kernel] and [NetKernel], one operation per system call, about
      which the theorems assume the laws [KernelLaws], [NetLaws], [SentLaws] and [OpenLaws]: what [read(2)]
      returns was taken from the descriptor's input, what [writev(2)] accepts is a
      prefix of what it was given, and so on.  Concrete kernels ([toy], [mail], [still], [counted])
      show that the laws can hold and run the witnesses.
    - The C library's resolver and the pcap library are the classes [NameService]
      and [Pcap]; the laws that theorems assume of the resolver are [NameLaws].
    - Callbacks of the event loop are functions on the variables they capture,
      in the same monad.

    ** Files, bottom up (sources under [src/libsponge], where nothing else is said)

    - [Prelude]: machine integers, exceptions, byte strings, tactics ([case_Z],
      [inv_ok], [size_lia]) and the hint database [sponge].
    - [ByteStream] (byte_stream): the bounded stream.  A fresh stream refines a
      bounded FIFO.
    - [WrappingIntegers] (wrapping_integers): 32-bit sequence numbers.  [unwrap]
      is the closest preimage of [wrap].
    - [StreamReassembler] (stream_reassembler): [push_substring] as the
      composition of the insertion loop, the two trimmings and the delivery.  [arrival] says
      which excerpts the theorems on runs are about.  The
      invariant [wf S] says that everything held is at its own index of the
      peer's stream [S]; [step] interleaves arrivals and reads, and the theorems
      are by induction on its runs.
    - [Buffer], [Parser] (util/buffer, util/parser): [P] is the parser monad;
      [runs] describes what a parser does on an input, [keeps] what it preserves.
    - [Checksum] (util/util): [InternetChecksum].
    - [TCPHeader], [TCPSegment], [IPv4Header], [IPv4Datagram], [Ethernet],
      [ARPMessage] (tcp_helpers): [wire] is the specification of the format, and
      [parse] and [serialize] are proved against it, which gives the round trips.
    - [TCPReceiver] (tcp_receiver): [segment_received], [ackno], [window_size];
      the invariant of the runs relates them to the peer's stream.
    - [TCPSender] (tcp_sender, tcp_config): [fill_window], [ack_received], [tick]
      and the timer; the invariant says which part of the stream each outstanding
      segment carries.
    - [TCPState] (tcp_helpers/tcp_state): the state summaries.
    - [TCPConnection] (tcp_connection): the whole handlers; the invariant of the
      sender is lifted to the connection.
    - [EndToEnd]: a sender, a network that loses, repeats and reorders, and a
      receiver; the bytes delivered are a prefix of the bytes written.
    - [Duplex]: two connections, each with an application, over such a network.  [link]
      is the invariant of one direction, [joined] that of both; [orderly] is the
      one thing the network must not do.
    - [Recovery]: a schedule of retransmissions, [recover], for two such connections; [lively]
      is what each endpoint keeps so that the other can answer, [sound] joins it to [link].
    - [Address] (util/address): socket addresses as bytes.
    - [NetworkInterface] (network_interface): ARP and the queue of datagrams that
      wait for it; two interfaces are put together in [arp_exchange_delivers].
    - [Router] (router): longest-prefix match and forwarding.
    - [Adapters] (tcp_helpers/tcp_over_ip, fd_adapter, lossy_fd_adapter,
      tuntap_adapter): segments in datagrams, UDP payloads and frames.  The class
      [Resolver] states what is used of the C library's address functions, and
      [FdAdapter] what the lossy adapter needs of the one it wraps.
    - [Safety]: parsing, ARP and routing never yield [undefined_behaviour]; [yields] and
      [parses] are Hoare triples for [result] and for parsers, and [extends] says
      that a router has kept its routes and its queued frames.
    - [Progress]: the sender and the receiver exchange segments and acknowledgements
      in rounds; [sending] and [received] describe both between two rounds.
    - [Benchmark] (apps/tcp_benchmark): two connections that exchange segments.
    - [Completion]: the loops of the benchmark, on top of [Recovery]; [spans] says that the
      segments under way follow each other, [paired] holds between two operations of the
      program, [head] between two turns of a loop and [round] relates two of these.
    - [Handshake]: the states of two endpoints from opening to closing, written out and
      shown to be what the handlers compute.
    - [Show] ([to_string] and [summary] of the headers, [hexdump] of util/util).
    - [FileDescriptor] (util/file_descriptor, [SystemCall] of util/util): the monad
      [IO], the wrappers with their reference counts, [read], [write] and closing.
      [outcome m w Q E] is a Hoare triple: from [w], [m] returns with [Q] or throws
      with [E].
    - [EventLoop] (util/eventloop): rules, [wait_next_event] and the ownership of the
      descriptors that the rules hold; [wait_next_event_outcome] is the rule by
      which a client carries an invariant through a turn of the loop.
    - [Socket] (util/socket, util/tun), and [mail], a kernel with datagrams.
    - [BidirectionalCopy] (apps/bidirectional_stream_copy): the four rules between
      standard input, standard output and a socket.
    - [Bouncer] (apps/bouncer): the pairs of sockets and their rules.
    - [SpongeSocket] (tcp_helpers/tcp_sponge_socket): the thread of a connection.
      The class [DatagramAdapter] states what it needs of the template parameter,
      [AdapterLaws] what is proved of the adapters over UDP, TUN and TAP.
    - [NetworkSimulator] (apps/network_simulator): hosts, links and the tests.
    - [Lab7] (apps/lab7): the adapter of a host to its router is an instance of
      [DatagramAdapter] and [AdapterLaws]; the four rules of the network thread.
    - [CommandLine] ([get_config] of apps/tcp_udp, tcp_ipv4, tcp_ip_ethernet): [prog]
      is the monad of code that may call [exit].
    - [Names] (util/address): the constructors of [Address] from names, and the accessors,
      through the resolver; [resolver] is an instance of [Resolver].
    - [Doctests] (doctests): the examples of the documentation, and [loopback], a kernel
      on which those with sockets run.
    - [Tcpdump] (apps/udp_tcpdump): from a captured packet to what is printed.
    - [Usage] ([show_usage] of the programs): the help texts.
    - [Sniffer] ([main] of apps/udp_tcpdump): the set-up of a capture and its loop.
    - [Tools] (apps/webget, tun, tcp_native).
    - [Setup] (util/socket, util/tun, tcp_sponge_socket, lossy_fd_adapter): what the
      constructors leave, with [OpenLaws] for the calls that open descriptors;
      [lossy_device] is the lossy adapter over a device.
    - [Programs] ([main] of the programs under apps): [ending] says how a program ends.
    - [Threads] (tcp_sponge_socket and the programs): [observed] is a kernel that other
      threads change between the calls of one thread; the two threads of a socket.

    ** What the theorems show

    - Safety of transfer: [reliable_transfer], and its two halves, the sender's
      [sent_segments_carry_stream] and the receiver's [receiver_correct], which
      rests on [reassembly_correct].  [duplex_transfer] is the same for both
      directions of a whole connection, with acknowledgements, windows and ends of
      streams; there [duplex_beliefs] says that what each endpoint believes of the
      other is true, and [duplex_total] that nothing is thrown.  On which segments
      and networks they rely is said under the assumptions below.
    - Liveness: [transfer_completes] bounds the number of round trips after which
      everything has arrived and is acknowledged, with a network that delivers and
      with one that loses all but retransmissions.  [connection_recovers] is about whole
      connections: from every state they can reach over a bad but [orderly] network, without
      having given up, a bounded number of retransmissions completes both directions, their ends included,
      and closes them.  [benchmark_completes] is about the program that connects two
      connections directly.  [connection_lifecycle] takes two
      endpoints from the handshake to the end, for all configurations.
    - The system around a connection: [socket_runs_connection] shows that the rules
      and the loop of the socket thread only perform operations of the connection,
      writing to it what the kernel reports to have taken from the owner and handing over
      all that it reads, so that the theorems on the connection apply to it; [copy_is_faithful] does the same for the copying
      program, and [network_thread_routes] for the thread that runs a router between
      two descriptors, which never calls [front()] of an empty queue;
      [event_loop_references] and [closed_with_last_reference] for the
      ownership of descriptors; [event_loop_serves_ready] says which rules a turn
      of the loop serves, and [write_all_writes_everything] that [write] finishes.
    - The programs from their command lines on: [programs_serve] joins the options, the
      resolver, the devices, the socket and its thread, and [threads_relay] this thread and
      the one that copies, while they run at the same time.  [numeric_address_roundtrip]
      and [name_resolution_outcome] are about the resolver, [usage_names_options] about
      the help texts, and [sniffer_prints] about the whole sniffer.
    - The parts of programs: [packet_shows_payload] and [process_in_bounds] of the sniffer,
      [options_understood] and [config_in_bounds] of the command lines,
      [exchange_delivers_once] and [check_is_exact] of the network simulator,
      [bounce_forwards] and [setup_covers_ports] of the bouncer, [set_up_routes] and
      [datagram_crosses] of lab7, [fetch_prints_answer] of webget,
      [show_packet_defined] of tun and [write_input_fills] of the benchmark.
    - The sender's protocol: [outstanding_consistent], [fill_window_fills],
      [ack_received_correct], [tick_retransmits_oldest].
    - The connection: what it sends ([connection_sends_stream],
      [queued_segments_acknowledge]), that it does not fail
      ([connection_tick_safe]) and how it ends ([reset_is_final],
      [ninth_retransmission_aborts], [linger_expires]).
    - Round trips and error detection of every packet format.
    - Forwarding: [send_datagram_outcome], [arp_reply_releases_queue],
      [arp_exchange_delivers], [longest_prefix_match],
      [route_one_datagram_outcome], [route_forwards_everything], [tun_delivers],
      [eth_delivers].
    - Where the code departs from its documentation or from TCP, a theorem shows
      the behaviour on a concrete family of inputs, for instance
      [early_fin_acknowledged], [linger_decided_one_segment_late],
      [any_reset_kills], [front_merge_undefined], [beyond_window_stored_then_throws], [datagram_errors_ignored],
      [success_without_event], [simulator_fails], [sniffer_failures],
      [option_surprises], [usage_divergences] or [program_surprises].

    ** Fuel

    - [Checksum.fold_carry] runs three rounds: a 32-bit sum is below 2^16 after
      two, and the third changes nothing.
    - [TCPSender.fill_loop] has [2 + window_size] rounds: each sends at least one
      sequence number of the window, or the loop stops; [fill_window_fills] shows
      that more fuel gives the same result.
    - [Router.drain] has as much as the queue is long; [route_forwards_everything]
      shows that the queue is empty at the end.
    - [FileDescriptor.write_loop] has one round more than there are bytes, since each
      round writes at least one; [write_all_writes_everything] shows that it ends.
    - [Tcpdump.skip_extensions] and [CommandLine.options_loop] have one round more
      than there are bytes or arguments; [process_in_bounds] and [config_in_bounds]
      show that this is never used up.
    - [Benchmark.write_input] has one round more than there are bytes; see
      [write_input_fills].  [Bouncer.add_pairs] has one more than there are pairs of
      ports; see [setup_covers_ports].
    - [Benchmark.loop_while] says whether its loop has ended; one turn for each byte and nineteen
      more are enough without reordering, see [benchmark_completes].  With reordering, only
      concrete runs are evaluated ([benchmark_runs]).
    - [Recovery.recover] has as many turns as [connection_recovers] says are enough, three for
      each byte and fifteen more.
    - [BidirectionalCopy.copy_loop], [SpongeSocket.tcp_loop], [Lab7.network_loop],
      [Bouncer.serve_pairs], [Tools.print_all],
      [Tools.show_packets] and [Sniffer.listen] run as long as their peers want.  They take
      a number of rounds, or one element of the environment for each, and say whether they
      have ended; the theorems hold after any number.
    All other recursion is structural.

    ** Assumptions

    The theorems on the runs of the reassembler and the receiver speak of segments that can be
    placed ([arrival], [peer_segment]): their sequence number is within 2^31 of the first
    missing byte, their data starts in the window or right behind it, a FIN comes with data that
    is not cut or after all the data, and once the end is known no empty segment comes at the
    first missing byte.  [early_fin_acknowledged], [early_end_marker_truncates],
    [truncated_end_is_signalled] and [beyond_window_stored_then_throws]
    show what happens otherwise.  Streams stay below 2^63 bytes.  In [Duplex] only
    [orderly] is left of this: there it is proved that a receiver can place what its peer
    sends, for streams shorter than 2^31 - 3 bytes.

    ** Not modelled

    The seeding of random generators and the clock, whose values are arguments; the texts
    of exceptions, which are values without text, and other output to [cerr]; the time
    measurement of the benchmark and what it prints.  Threads are
    interleaved at their system calls: [Threads] allows any change of the kernel there that
    closes no descriptor in use.  The flag [_abort], which the owner of a socket sets, may
    have any value in every round of the thread.  What is left of the sources are declarations, type aliases and template instantiations. *)
From Stdlib Require Import ZArith Lia.
From Stdlib Require Strings.Byte.
From stdpp Require Export base list list_numbers numbers option gmap strings.
From coqutil Require Export Byte.

#[global] Open Scope Z_scope.
#[export] Set Default Goal Selector "!".

(** ** Machine integers

    A value of a w-bit unsigned type is a [Z] in [[0, 2^w)]; every arithmetic
    operation of the source is followed by the reduction of its C++ type. *)

Definition u8 (z : Z) : Z := z mod 256.
Definition u16 (z : Z) : Z := z mod 65536.
Definition u32 (z : Z) : Z := z mod 4294967296.
Definition u64 (z : Z) : Z := z mod 18446744073709551616.

#[global] Arguments u8 _ : simpl never.
#[global] Arguments u16 _ : simpl never.
#[global] Arguments u32 _ : simpl never.
#[global] Arguments u64 _ : simpl never.

(** Conversion of an unsigned 32-bit value to [int32_t]. *)
Definition i32 (z : Z) : Z :=
  let r := u32 z in if r <? 2147483648 then r else r - 4294967296.

Notation "'M32'" := 4294967296 (only parsing) : Z_scope.
Notation "'M64'" := 18446744073709551616 (only parsing) : Z_scope.

Lemma u8_range z : 0 <= u8 z < 256.
Proof. unfold u8. apply Z.mod_pos_bound. lia. Qed.
Lemma u16_range z : 0 <= u16 z < 65536.
Proof. unfold u16. apply Z.mod_pos_bound. lia. Qed.
Lemma u32_range z : 0 <= u32 z < M32.
Proof. unfold u32. apply Z.mod_pos_bound. lia. Qed.
Lemma u64_range z : 0 <= u64 z < M64.
Proof. unfold u64. apply Z.mod_pos_bound. lia. Qed.

Lemma u8_id z : 0 <= z < 256 -> u8 z = z.
Proof. apply Z.mod_small. Qed.
Lemma u16_id z : 0 <= z < 65536 -> u16 z = z.
Proof. apply Z.mod_small. Qed.
Lemma u32_id z : 0 <= z < M32 -> u32 z = z.
Proof. apply Z.mod_small. Qed.
Lemma u64_id z : 0 <= z < M64 -> u64 z = z.
Proof. apply Z.mod_small. Qed.

(** Reduction by an explicit multiple: the form in which wrap-around is used. *)
Lemma u64_shift k z : 0 <= z - k * M64 < M64 -> u64 z = z - k * M64.
Proof.
  intros H. unfold u64. symmetry. apply (Z.mod_unique_pos _ _ k); lia.
Qed.
Lemma u32_shift k z : 0 <= z - k * M32 < M32 -> u32 z = z - k * M32.
Proof.
  intros H. unfold u32. symmetry. apply (Z.mod_unique_pos _ _ k); lia.
Qed.

Lemma u64_idem z : u64 (u64 z) = u64 z.
Proof. apply u64_id, u64_range. Qed.
Lemma u64_add_u64 a n : u64 (u64 a + n) = u64 (a + n).
Proof. unfold u64. apply Zplus_mod_idemp_l. Qed.

(** Disjoint bit fields: [a] above [n] bits of [b], and how to take them apart. *)
Lemma lor_fields a b n : 0 <= n -> 0 <= b < 2 ^ n -> Z.lor (a * 2 ^ n) b = a * 2 ^ n + b.
Proof.
  intros Hn Hb. pose proof (Z.add_lor_land (a * 2 ^ n) b) as E.
  assert (Z.land (a * 2 ^ n) b = 0); [clear E|lia].
  rewrite <- (Z.mod_small b (2 ^ n)), <- Z.land_ones by lia.
  rewrite (Z.land_comm b), Z.land_assoc, Z.land_ones by lia.
  by rewrite Z.mod_mul by lia.
Qed.

Lemma shiftr_fields a b n : 0 <= n -> 0 <= b < 2 ^ n -> Z.shiftr (a * 2 ^ n + b) n = a.
Proof.
  intros Hn Hb. rewrite Z.shiftr_div_pow2 by lia.
  rewrite Z.div_add_l, Z.div_small by lia. lia.
Qed.

Lemma land_fields a b n :
  0 <= n -> 0 <= b < 2 ^ n -> Z.land (a * 2 ^ n + b) (Z.ones n) = b.
Proof.
  intros Hn Hb. rewrite Z.land_ones by lia.
  rewrite Z.add_comm, Z_mod_plus_full. by apply Z.mod_small.
Qed.

(** Removes the reductions that arithmetic shows to be the identity. *)
Ltac unwrap_ints :=
  repeat match goal with
  | |- context [u64 ?z] => rewrite (u64_id z) by lia
  | |- context [u32 ?z] => rewrite (u32_id z) by lia
  | |- context [u16 ?z] => rewrite (u16_id z) by lia
  | |- context [u8 ?z] => rewrite (u8_id z) by lia
  | H : context [u64 ?z] |- _ => rewrite (u64_id z) in H by lia
  | H : context [u32 ?z] |- _ => rewrite (u32_id z) in H by lia
  | H : context [u16 ?z] |- _ => rewrite (u16_id z) in H by lia
  | H : context [u8 ?z] |- _ => rewrite (u8_id z) in H by lia
  end.

(** Case analysis on the boolean integer comparisons of the source. *)
Ltac case_Z :=
  match goal with
  | |- context [?a <? ?b] => destruct (Z.ltb_spec a b)
  | |- context [?a <=? ?b] => destruct (Z.leb_spec a b)
  | |- context [?a =? ?b] => destruct (Z.eqb_spec a b)
  | |- context [?a >? ?b] => rewrite (Z.gtb_ltb a b)
  | |- context [?a >=? ?b] => rewrite (Z.geb_leb a b)
  | H : context [?a <? ?b] |- _ => destruct (Z.ltb_spec a b)
  | H : context [?a <=? ?b] |- _ => destruct (Z.leb_spec a b)
  | H : context [?a =? ?b] |- _ => destruct (Z.eqb_spec a b)
  | H : context [?a >? ?b] |- _ => rewrite (Z.gtb_ltb a b) in H
  | H : context [?a >=? ?b] |- _ => rewrite (Z.geb_leb a b) in H
  end.

(** ** Exceptions

    A C++ function that can throw returns a [result].  [undefined_behaviour]
    is the outcome of an operation the standard leaves undefined, up to the two
    exceptions named in the conventions. *)

Inductive exn :=
  | out_of_range
  | runtime_error
  | bad_optional_access
  | length_error
  | invalid_argument
  | unix_error (errno : Z)
  | gai_error (code : Z)      (* a [tagged_error] of [getaddrinfo] or [getnameinfo] *)
  | undefined_behaviour.

#[export] Instance exn_eq_dec : EqDecision exn.
Proof. solve_decision. Defined.

Inductive result (A : Type) :=
  | Ok (a : A)
  | Throw (e : exn).
Arguments Ok {A} _.
Arguments Throw {A} _.

#[export] Instance result_ret : MRet result := fun A a => Ok a.
#[export] Instance result_bind : MBind result := fun A B f m =>
  match m with Ok a => f a | Throw e => Throw e end.
#[export] Instance result_fmap : FMap result := fun A B f m =>
  match m with Ok a => Ok (f a) | Throw e => Throw e end.

Lemma result_bind_Ok {A B} (f : A -> result B) (m : result A) b :
  m ≫= f = Ok b <-> exists a, m = Ok a /\ f a = Ok b.
Proof.
  destruct m as [a|e]; cbn; split.
  - intros H. by exists a.
  - by intros (a' & [= ->] & H).
  - intros [=].
  - by intros (a' & [=] & _).
Qed.

(** Opens every [bind] that is known to return normally. *)
Ltac inv_ok :=
  repeat match goal with
  | H : _ ≫= _ = Ok _ |- _ => apply result_bind_Ok in H as (? & ? & ?)
  | H : mret _ = Ok _ |- _ => cbv [mret result_ret] in H
  | H : Ok _ = Ok _ |- _ => injection H as H
  | H : Throw _ = Ok _ |- _ => discriminate H
  | H : Ok _ = Throw _ |- _ => discriminate H
  end.

(** ** Byte strings *)

Abbreviation byte := Corelib.Init.Byte.byte.
Abbreviation bytes := (list byte).

#[export] Instance byte_eq_dec : EqDecision byte := Stdlib.Strings.Byte.byte_eq_dec.

(** [size()] of a string, list, queue or vector, as a [size_t]. *)
Definition size {A} (l : list A) : Z := Z.of_nat (length l).
#[global] Arguments size {A} _ : simpl never.

Lemma size_nonneg {A} (l : list A) : 0 <= size l.
Proof. unfold size. lia. Qed.
Lemma size_cons {A} (x : A) l : size (x :: l) = 1 + size l.
Proof. unfold size. cbn [length]. lia. Qed.
Lemma size_app {A} (l k : list A) : size (l ++ k) = size l + size k.
Proof. unfold size. rewrite length_app. lia. Qed.
Lemma size_take {A} n (l : list A) :
  0 <= n <= size l -> size (take (Z.to_nat n) l) = n.
Proof. unfold size. intros. rewrite length_take. lia. Qed.
Lemma size_drop {A} n (l : list A) :
  0 <= n <= size l -> size (drop (Z.to_nat n) l) = size l - n.
Proof. unfold size. intros. rewrite length_drop. lia. Qed.
Lemma size_0_nil {A} (l : list A) : size l = 0 -> l = [].
Proof. destruct l; [done|]. rewrite size_cons. pose proof (size_nonneg l). lia. Qed.
Lemma size_map {A B} (f : A -> B) l : size (f <$> l) = size l.
Proof. unfold size. by rewrite length_fmap. Qed.

Create HintDb sponge.
Create Rewrite HintDb sponge.
#[export] Hint Resolve size_nonneg u8_range u16_range u32_range u64_range : sponge.
#[export] Hint Rewrite @size_cons @size_app @size_map : sponge.

(** Computes the size of the list operations it sees. *)
Ltac size_simpl :=
  repeat change (size (@nil _)) with 0 in *; autorewrite with sponge in *;
  repeat change (size (@nil _)) with 0 in *.

(** Brings the non-negativity of every [size] in sight into the context. *)
Ltac sizes :=
  repeat match goal with
  | |- context [size ?l] =>
      lazymatch goal with
      | _ : 0 <= size l |- _ => fail
      | _ => pose proof (size_nonneg l)
      end
  | _ : context [size ?l] |- _ =>
      lazymatch goal with
      | _ : 0 <= size l |- _ => fail
      | _ => pose proof (size_nonneg l)
      end
  end.
Ltac size_lia := sizes; lia.

Lemma Forall_sublist {A} (P : A -> Prop) l k : sublist l k -> Forall P k -> Forall P l.
Proof. induction 1; rewrite ?Forall_cons; [done|intros [? ?]; auto..]. Qed.

(** [std::string::substr(pos, n)]: throws when [pos] is past the end, and
    otherwise copies at most [n] characters. *)
Definition substr (s : bytes) (pos n : Z) : result bytes :=
  if size s <? pos then Throw out_of_range
  else Ok (take (Z.to_nat (Z.min n (size s - pos))) (drop (Z.to_nat pos) s)).

(** The default second argument of [substr]. *)
Definition npos : Z := 18446744073709551615.

Lemma substr_tail s pos :
  0 <= pos <= size s -> size s <= npos ->
  substr s pos npos = Ok (drop (Z.to_nat pos) s).
Proof.
  intros Hp Hn. unfold substr. case_Z; [lia|]. f_equal.
  apply take_ge. rewrite length_drop. unfold size in *. lia.
Qed.

(** [substr(0, n)] starts at 0 and never throws; it is also what
    [string::erase(0, n)] removes and [substr0_rest] is what it leaves. *)
Definition substr0 (s : bytes) (n : Z) : bytes :=
  take (Z.to_nat (Z.min n (size s))) s.
Definition substr0_rest (s : bytes) (n : Z) : bytes :=
  drop (Z.to_nat (Z.min n (size s))) s.

#[global] Arguments substr0 _ _ : simpl never.
#[global] Arguments substr0_rest _ _ : simpl never.

Lemma substr_0 s n : substr s 0 n = Ok (substr0 s n).
Proof.
  unfold substr, substr0. case_Z; [size_lia|].
  by rewrite Z.sub_0_r, drop_0.
Qed.

Lemma substr0_app s n : substr0 s n ++ substr0_rest s n = s.
Proof. apply take_drop. Qed.

Lemma substr0_size s n : 0 <= n -> size (substr0 s n) = Z.min n (size s).
Proof. intros. unfold substr0. rewrite size_take; size_lia. Qed.

Lemma substr0_rest_size s n :
  0 <= n -> size (substr0_rest s n) = size s - Z.min n (size s).
Proof. intros. unfold substr0_rest. rewrite size_drop; size_lia. Qed.

Lemma substr0_all s n : size s <= n -> substr0 s n = s.
Proof.
  intros. unfold substr0. rewrite Z.min_r by lia.
  apply take_ge. unfold size. lia.
Qed.

(** ** Slices of an ideal infinite stream

    The reference against which reassembly is stated: [S i] is byte [i] of the
    peer's stream and [slice S a n] its [n] bytes from offset [a]. *)

Definition slice (S : Z -> byte) (a : Z) (n : nat) : bytes :=
  (fun k => S (a + Z.of_nat k)) <$> seq 0 n.
#[global] Arguments slice _ _ _ : simpl never.

Lemma slice_length S a n : length (slice S a n) = n.
Proof. unfold slice. by rewrite length_fmap, length_seq. Qed.
Lemma slice_size S a n : size (slice S a n) = Z.of_nat n.
Proof. unfold size. by rewrite slice_length. Qed.

Lemma slice_lookup S a n k :
  (k < n)%nat -> slice S a n !! k = Some (S (a + Z.of_nat k)).
Proof.
  intros Hk. unfold slice. rewrite list_lookup_fmap, lookup_seq_lt by done. done.
Qed.

Lemma slice_app S a n m :
  slice S a (n + m) = slice S a n ++ slice S (a + Z.of_nat n) m.
Proof.
  unfold slice. rewrite seq_app, fmap_app. f_equal.
  rewrite Nat.add_0_l. rewrite <- (Nat.add_0_r n) at 1.
  rewrite <- fmap_add_seq, <- list_fmap_compose. apply list_fmap_ext.
  intros i k _. cbn. f_equal. lia.
Qed.

Lemma slice_take S a n k :
  take k (slice S a n) = slice S a (Nat.min k n).
Proof.
  unfold slice. rewrite <- fmap_take. f_equal. apply take_seq.
Qed.

Lemma slice_drop S a n k :
  drop k (slice S a n) = slice S (a + Z.of_nat k) (n - k).
Proof.
  destruct (Nat.le_gt_cases k n) as [Hk|Hk].
  - replace n with (k + (n - k))%nat at 1 by lia.
    rewrite slice_app, drop_app_length'; [done|]. by rewrite slice_length.
  - replace (n - k)%nat with 0%nat by lia.
    apply drop_ge. rewrite slice_length. lia.
Qed.
