(* ===== verification/ByteStream.v ===== *)
(** The flow-controlled in-order byte stream of [libsponge/byte_stream.hh] and
    [byte_stream.cc]: its state, every method, the capacity and accounting
    invariant, and the FIFO property of an arbitrary sequence of calls. *)
From S2P Require Import Prelude.

(** The private members of [class ByteStream]. *)
Record ByteStream := mkByteStream {
  bs_error : bool;      (* _error *)
  bs_end : bool;        (* end *)
  content : bytes;
  alread : Z;
  alwritten : Z;
  bs_max : Z            (* max *)
}.

Definition construct (capacity : Z) : ByteStream :=
  mkByteStream false false [] 0 0 capacity.

Definition buffer_size (b : ByteStream) : Z := size (content b).

Definition buffer_empty (b : ByteStream) : bool := size (content b) =? 0.

Definition remaining_capacity (b : ByteStream) : Z :=
  u64 (bs_max b - size (content b)).

Definition write (data : bytes) (b : ByteStream) : Z * ByteStream :=
  let n := if size data <=? remaining_capacity b then size data
           else remaining_capacity b in
  (n, mkByteStream (bs_error b) (bs_end b) (content b ++ substr0 data n)
        (alread b) (u64 (alwritten b + n)) (bs_max b)).

Definition peek_output (len : Z) (b : ByteStream) : bytes :=
  let n := if len <=? buffer_size b then len else buffer_size b in
  substr0 (content b) n.

Definition pop_output (len : Z) (b : ByteStream) : ByteStream :=
  let n := if len <=? buffer_size b then len else buffer_size b in
  mkByteStream (bs_error b) (bs_end b) (substr0_rest (content b) n)
    (u64 (alread b + n)) (alwritten b) (bs_max b).

Definition read (len : Z) (b : ByteStream) : bytes * ByteStream :=
  let n := if len <=? buffer_size b then len else buffer_size b in
  (peek_output n b, pop_output n b).

Definition end_input (b : ByteStream) : ByteStream :=
  mkByteStream (bs_error b) true (content b) (alread b) (alwritten b) (bs_max b).

Definition set_error (b : ByteStream) : ByteStream :=
  mkByteStream true (bs_end b) (content b) (alread b) (alwritten b) (bs_max b).

Definition input_ended (b : ByteStream) : bool := bs_end b.
Definition error (b : ByteStream) : bool := bs_error b.
Definition eof (b : ByteStream) : bool := bs_end b && buffer_empty b.
Definition bytes_written (b : ByteStream) : Z := alwritten b.
Definition bytes_read (b : ByteStream) : Z := alread b.

(** ** The invariant of the class *)

Record wf (b : ByteStream) : Prop := {
  wf_capacity : 0 <= size (content b) <= bs_max b;
  wf_max : bs_max b < M64;
  wf_read : 0 <= alread b < M64;
  wf_account : alwritten b = u64 (alread b + size (content b))
}.

Lemma construct_wf c : 0 <= c < M64 -> wf (construct c).
Proof. intros. constructor; cbn; size_simpl; lia || reflexivity. Qed.

Lemma remaining_capacity_eq b :
  wf b -> remaining_capacity b = bs_max b - size (content b).
Proof. intros []. unfold remaining_capacity. by unwrap_ints. Qed.

Lemma write_accepts data b :
  wf b -> fst (write data b) = Z.min (size data) (bs_max b - size (content b)).
Proof.
  intros Hwf. cbn. rewrite (remaining_capacity_eq b Hwf). case_Z; lia.
Qed.

Lemma write_content data b :
  wf b ->
  content (snd (write data b)) = content b ++ substr0 data (fst (write data b)).
Proof. done. Qed.

Lemma write_wf data b : wf b -> wf (snd (write data b)).
Proof.
  intros Hwf. pose proof (write_accepts data b Hwf) as Hn.
  destruct Hwf as [Hc Hm Hr Ha]. cbn in *. pose proof (size_nonneg data).
  constructor; cbn; rewrite ?size_app, ?substr0_size by lia; try lia.
  rewrite Ha, u64_add_u64. f_equal. lia.
Qed.

Lemma pop_wf len b : 0 <= len -> wf b -> wf (pop_output len b).
Proof.
  intros Hl [Hc Hm Hr Ha]. unfold pop_output, buffer_size.
  constructor; cbn; auto with sponge;
    rewrite ?substr0_rest_size by (case_Z; lia).
  - case_Z; lia.
  - rewrite u64_add_u64, Ha. f_equal. case_Z; lia.
Qed.

Lemma peek_pop_content len b :
  peek_output len b ++ content (pop_output len b) = content b.
Proof. apply substr0_app. Qed.

Lemma read_peek_pop len b :
  0 <= len -> read len b = (peek_output len b, pop_output len b).
Proof.
  intros. unfold read, peek_output, pop_output, buffer_size.
  repeat case_Z; try lia; done.
Qed.

(** Reading no more than is there. *)
Lemma read_exact n b :
  wf b -> 0 <= n <= buffer_size b ->
  exists b', read n b = (take (Z.to_nat n) (content b), b') /\ wf b' /\
    content b' = drop (Z.to_nat n) (content b) /\ alread b' = u64 (alread b + n) /\
    bs_end b' = bs_end b /\ bs_max b' = bs_max b.
Proof.
  intros Hwf Hn. rewrite read_peek_pop by lia. exists (pop_output n b).
  unfold peek_output, pop_output, buffer_size in *. case_Z; [|lia]. split_and!; try done.
  - unfold substr0. by rewrite Z.min_l by lia.
  - pose proof (pop_wf n b ltac:(lia) Hwf) as Hp. unfold pop_output, buffer_size in Hp.
    revert Hp. case_Z; [done|lia].
  - cbn. unfold substr0_rest. by rewrite Z.min_l by lia.
Qed.

#[export] Hint Resolve construct_wf write_wf pop_wf : sponge.

(** ** Sequences of calls *)

Inductive op :=
  | Write (data : bytes)
  | Pop (len : Z)
  | Read (len : Z)
  | EndInput
  | SetError.

Definition op_ok (o : op) : Prop :=
  match o with Pop len | Read len => 0 <= len | _ => True end.

(** One call: the bytes it accepts, the bytes it removes, the next state. *)
Definition step (o : op) (b : ByteStream) : bytes * bytes * ByteStream :=
  match o with
  | Write data => let '(n, b') := write data b in (substr0 data n, [], b')
  | Pop len => ([], peek_output len b, pop_output len b)
  | Read len => let '(s, b') := read len b in ([], s, b')
  | EndInput => ([], [], end_input b)
  | SetError => ([], [], set_error b)
  end.

Fixpoint run (ops : list op) (b : ByteStream) : bytes * bytes * ByteStream :=
  match ops with
  | [] => ([], [], b)
  | o :: ops' =>
      let '(i, r, b1) := step o b in
      let '(i', r', b2) := run ops' b1 in
      (i ++ i', r ++ r', b2)
  end.

Lemma step_wf o b i r b' :
  op_ok o -> wf b -> step o b = (i, r, b') -> wf b' /\ bs_max b' = bs_max b.
Proof.
  intros Ho Hwf. destruct o; cbn.
  - intros [= <- <- <-]. by split; [apply (write_wf data b)|].
  - intros [= <- <- <-]. by split; [apply pop_wf|].
  - intros [= <- <- <-]. split; [|done]. apply pop_wf; [|done]. cbn in Ho.
    unfold buffer_size. case_Z; size_lia.
  - intros [= <- <- <-]. destruct Hwf. by split.
  - intros [= <- <- <-]. destruct Hwf. by split.
Qed.

Lemma step_fifo o b i r b' :
  op_ok o -> step o b = (i, r, b') -> content b ++ i = r ++ content b'.
Proof.
  intros Ho. destruct o; cbn -[peek_output pop_output].
  - by intros [= <- <- <-].
  - intros [= <- <- <-]. by rewrite app_nil_r, peek_pop_content.
  - intros [= <- <- <-]. by rewrite app_nil_r, peek_pop_content.
  - intros [= <- <- <-]. by rewrite app_nil_r.
  - intros [= <- <- <-]. by rewrite app_nil_r.
Qed.

Lemma run_wf ops : forall b i r b',
  Forall op_ok ops -> wf b -> run ops b = (i, r, b') ->
  wf b' /\ bs_max b' = bs_max b.
Proof.
  induction ops as [|o ops IH]; cbn; intros b i r b' Hok Hwf H.
  { by injection H as <- <- <-. }
  apply Forall_cons in Hok as [Ho Hok].
  destruct (step o b) as [[i1 r1] b1] eqn:E1.
  destruct (run ops b1) as [[i2 r2] b2] eqn:E2. injection H as <- <- <-.
  apply step_wf in E1 as [Hwf1 Hm1]; [|done..].
  apply IH in E2 as [? ?]; [|done..]. split; [done|congruence].
Qed.

Lemma run_fifo ops : forall b i r b',
  Forall op_ok ops -> run ops b = (i, r, b') -> content b ++ i = r ++ content b'.
Proof.
  induction ops as [|o ops IH]; cbn; intros b i r b' Hok H.
  { injection H as <- <- <-. by rewrite app_nil_r. }
  apply Forall_cons in Hok as [Ho Hok].
  destruct (step o b) as [[i1 r1] b1] eqn:E1.
  destruct (run ops b1) as [[i2 r2] b2] eqn:E2. injection H as <- <- <-.
  apply step_fifo in E1; [|done]. apply IH in E2; [|done].
  by rewrite app_assoc, E1, <- !app_assoc, E2.
Qed.

Lemma step_counts o b i r b' :
  op_ok o -> step o b = (i, r, b') -> wf b ->
  alread b' = u64 (alread b + size r) /\ alwritten b' = u64 (alwritten b + size i).
Proof.
  intros Ho H Hwf. pose proof (wf_read _ Hwf) as Hr.
  assert (Hw : 0 <= alwritten b < M64) by (rewrite (wf_account _ Hwf); apply u64_range).
  destruct o; cbn in H; injection H as <- <- <-; cbn; size_simpl.
  - pose proof (write_accepts data b Hwf) as Hn. cbn in Hn. rewrite Hn.
    pose proof (wf_capacity _ Hwf).
    rewrite substr0_size by size_lia. split; [by rewrite Z.add_0_r, u64_id|].
    do 2 f_equal. size_lia.
  - cbn in Ho. unfold peek_output, buffer_size. split.
    + rewrite substr0_size by (case_Z; size_lia). do 2 f_equal. case_Z; size_lia.
    + by rewrite Z.add_0_r, u64_id.
  - cbn in Ho. unfold peek_output, buffer_size. split.
    + rewrite substr0_size by (repeat case_Z; size_lia). do 2 f_equal.
      repeat case_Z; size_lia.
    + by rewrite Z.add_0_r, u64_id.
  - by rewrite !Z.add_0_r, !u64_id.
  - by rewrite !Z.add_0_r, !u64_id.
Qed.

Lemma run_counts ops : forall b i r b',
  Forall op_ok ops -> run ops b = (i, r, b') -> wf b ->
  alread b' = u64 (alread b + size r) /\ alwritten b' = u64 (alwritten b + size i).
Proof.
  induction ops as [|o ops IH]; cbn; intros b i r b' Hok H Hwf.
  { injection H as <- <- <-. size_simpl. rewrite !Z.add_0_r.
    rewrite (wf_account _ Hwf), u64_idem. split; [|done].
    symmetry. by apply u64_id, wf_read. }
  apply Forall_cons in Hok as [Ho Hok].
  destruct (step o b) as [[i1 r1] b1] eqn:E1.
  destruct (run ops b1) as [[i2 r2] b2] eqn:E2. injection H as <- <- <-.
  pose proof E1 as Hs. apply step_wf in Hs as [Hwf1 _]; [|done..].
  apply step_counts in E1 as [Hr1 Hw1]; [|done..].
  apply IH in E2 as [-> ->]; [|done..]. rewrite Hr1, Hw1.
  rewrite !size_app, !u64_add_u64. split; f_equal; lia.
Qed.

(** C33: the stream is a bounded FIFO.  After any sequence of calls on a fresh
    stream of capacity [c], the bytes removed by [read]/[pop_output] followed by
    the bytes still buffered are exactly the bytes [write] accepted, in order;
    the buffer never exceeds the capacity; and the two counters are the numbers
    of bytes accepted and removed (modulo the width of [size_t]). *)
Theorem run_is_bounded_fifo c ops i r b' :
  0 <= c < M64 -> Forall op_ok ops -> run ops (construct c) = (i, r, b') ->
  i = r ++ content b' /\ buffer_size b' <= c /\
  bytes_written b' = u64 (size i) /\ bytes_read b' = u64 (size r).
Proof.
  intros Hc Hok H. pose proof (construct_wf c Hc) as Hwf.
  pose proof (run_fifo _ _ _ _ _ Hok H) as Hf. cbn in Hf.
  destruct (run_wf _ _ _ _ _ Hok Hwf H) as [Hwf' Hm].
  destruct (run_counts _ _ _ _ _ Hok H Hwf) as [Hr Hw].
  pose proof (wf_capacity _ Hwf'). cbn in *. unfold buffer_size.
  repeat split; [done|lia|done..].
Qed.

Lemma run_is_bounded_fifo_witness :
  exists i r b',
    run [Write [Byte.x61; Byte.x62; Byte.x63]; Read 1; Write [Byte.x64; Byte.x65]]
        (construct 3) = (i, r, b') /\
    i = [Byte.x61; Byte.x62; Byte.x63; Byte.x64] /\ r = [Byte.x61] /\
    i = r ++ content b' /\ buffer_size b' <= 3.
Proof.
  do 3 eexists. split; [vm_compute; reflexivity|].
  split; [reflexivity|]. split; [reflexivity|].
  destruct (run_is_bounded_fifo 3
    [Write [Byte.x61; Byte.x62; Byte.x63]; Read 1; Write [Byte.x64; Byte.x65]]
    [Byte.x61; Byte.x62; Byte.x63; Byte.x64] [Byte.x61]
    (mkByteStream false false [Byte.x62; Byte.x63; Byte.x64] 1 4 3)) as (H1 & H2 & _).
  - lia.
  - repeat constructor; cbn; lia.
  - vm_compute. reflexivity.
  - split; [exact H1|exact H2].
Defined.

(** The end of the stream is not stable.  [end_input] does not stop the
    writer: once the reader has seen [eof], a non-empty [write] on a stream of
    non-zero capacity is accepted and [eof] becomes false again. *)
Theorem write_reopens_eof data b :
  wf b -> eof b = true -> 0 < bs_max b -> data <> [] ->
  0 < fst (write data b) /\ eof (snd (write data b)) = false.
Proof.
  intros Hwf He Hm Hd. unfold eof, buffer_empty in *.
  apply andb_true_iff in He as [He Hs]. apply Z.eqb_eq, size_0_nil in Hs.
  assert (Hpos : 0 < fst (write data b)).
  { rewrite (write_accepts data b Hwf), Hs. size_simpl. destruct data; [done|].
    rewrite size_cons. size_lia. }
  split; [done|]. rewrite write_content by done. rewrite Hs, app_nil_l.
  rewrite substr0_size by lia. destruct data; [done|]. rewrite size_cons in *.
  apply andb_false_iff. right. apply Z.eqb_neq. size_lia.
Qed.

Lemma write_reopens_eof_witness :
  let b := end_input (construct 4) in
  eof b = true /\ eof (snd (write [Byte.x61] b)) = false.
Proof.
  split; [reflexivity|].
  apply (write_reopens_eof [Byte.x61] (end_input (construct 4))).
  - apply Build_wf; vm_compute; intuition congruence.
  - reflexivity.
  - reflexivity.
  - discriminate.
Defined.
