(* ===== verification/WrappingIntegers.v ===== *)
(** 32-bit sequence numbers relative to an initial sequence number:
    [libsponge/wrapping_integers.hh] and [wrapping_integers.cc].  [wrap] is the
    reduction of an absolute number, [unwrap] the absolute number closest to a
    checkpoint; the theorems relate the two and bound the result. *)
From S2P Require Import Prelude.

(** [class WrappingInt32]: its single member. *)
Record WrappingInt32 := mkWrappingInt32 { raw_value : Z }.

#[export] Instance WrappingInt32_eq_dec : EqDecision WrappingInt32.
Proof. solve_decision. Defined.

Definition wi_wf (a : WrappingInt32) : Prop := 0 <= raw_value a < M32.

(** [operator-(WrappingInt32, WrappingInt32)], an [int32_t]. *)
Definition wi_diff (a b : WrappingInt32) : Z := i32 (raw_value a - raw_value b).

Definition wi_eqb (a b : WrappingInt32) : bool := raw_value a =? raw_value b.

(** [operator+(WrappingInt32, uint32_t)]. *)
Definition wi_add (a : WrappingInt32) (b : Z) : WrappingInt32 :=
  mkWrappingInt32 (u32 (raw_value a + b)).

(** [operator-(WrappingInt32, uint32_t)], written [a + -b] in the source. *)
Definition wi_sub (a : WrappingInt32) (b : Z) : WrappingInt32 :=
  wi_add a (u32 (- b)).

Definition wrap (n : Z) (isn : WrappingInt32) : WrappingInt32 :=
  let temp := u64 (n + raw_value isn) in
  let temp := temp mod 4294967296 in
  mkWrappingInt32 (u32 temp).

Definition unwrap (n isn : WrappingInt32) (checkpoint : Z) : Z :=
  let sqenocheck := wrap checkpoint isn in
  let difference1 := u32 (raw_value n - raw_value sqenocheck) in
  let difference2 := u32 (raw_value sqenocheck - raw_value n) in
  if difference2 <? difference1 then
    if difference2 <=? checkpoint then u64 (checkpoint - difference2)
    else u64 (checkpoint + difference1)
  else u64 (checkpoint + difference1).

(** The stream index of absolute sequence number [a]: the SYN is number 0 and
    shares the index of the first byte. *)
Definition index_of (a : Z) : Z := if a =? 0 then 0 else a - 1.

(** ** Arithmetic of [wrap] *)

Lemma wrap_raw n isn : raw_value (wrap n isn) = (n + raw_value isn) mod M32.
Proof.
  cbn. unfold u32, u64. rewrite Z.mod_mod by lia.
  rewrite Z.mod_mod_divide; [done|]. exists M32. reflexivity.
Qed.

Lemma wrap_wf n isn : wi_wf (wrap n isn).
Proof. unfold wi_wf. rewrite wrap_raw. apply Z.mod_pos_bound. lia. Qed.
#[export] Hint Resolve wrap_wf : sponge.

Lemma wi_ext a b : raw_value a = raw_value b -> a = b.
Proof. destruct a, b. cbn. by intros ->. Qed.

Lemma wrap_0 isn : wi_wf isn -> wrap 0 isn = isn.
Proof. intros H. apply wi_ext. rewrite wrap_raw. apply Z.mod_small, H. Qed.

Lemma wrap_eq_iff n m isn : wrap n isn = wrap m isn <-> n mod M32 = m mod M32.
Proof.
  split; intros H.
  - apply (f_equal raw_value) in H. rewrite !wrap_raw in H.
    replace n with ((n + raw_value isn) - raw_value isn) by lia.
    replace m with ((m + raw_value isn) - raw_value isn) by lia.
    by rewrite Zminus_mod, H, <- Zminus_mod.
  - apply wi_ext. rewrite !wrap_raw. by rewrite Zplus_mod, H, <- Zplus_mod.
Qed.

Lemma wrap_add n k isn : 0 <= k < M32 -> wrap (n + k) isn = wi_add (wrap n isn) k.
Proof.
  intros. apply wi_ext. rewrite wrap_raw. unfold wi_add. cbn [raw_value].
  rewrite wrap_raw. unfold u32. rewrite Zplus_mod_idemp_l. f_equal. lia.
Qed.

(** The two differences of [unwrap], for a checkpoint written as the number to
    find minus its signed distance. *)
Lemma wrap_distance a c isn :
  u32 (raw_value (wrap a isn) - raw_value (wrap c isn)) = (a - c) mod M32.
Proof.
  rewrite !wrap_raw. unfold u32. rewrite <- Zminus_mod. f_equal. lia.
Qed.

(** Every relative number is the [wrap] of some absolute one. *)
Lemma wrap_surj n isn :
  wi_wf n -> exists a, 0 <= a < M32 /\ n = wrap a isn.
Proof.
  intros Hn. exists ((raw_value n - raw_value isn) mod M32).
  split; [apply Z.mod_pos_bound; lia|]. apply wi_ext. rewrite wrap_raw, Zplus_mod_idemp_l.
  rewrite Z.sub_add. symmetry. by apply Z.mod_small.
Qed.

(** [unwrap] in closed form over an absolute number [a] that wraps to [n]. *)
Lemma unwrap_form a isn c :
  unwrap (wrap a isn) isn c =
  (let d1 := (a - c) mod M32 in let d2 := (c - a) mod M32 in
   if (d2 <? d1) && (d2 <=? c) then u64 (c - d2) else u64 (c + d1)).
Proof.
  unfold unwrap. cbv zeta. rewrite !wrap_distance.
  repeat case_Z; done.
Qed.

Lemma distance_cases a c :
  let d1 := (a - c) mod M32 in let d2 := (c - a) mod M32 in
  0 <= d1 < M32 /\ ((d1 = 0 /\ d2 = 0) \/ (d1 + d2 = M32)).
Proof.
  cbv zeta. pose proof (Z.mod_pos_bound (a - c) M32 ltac:(lia)) as H.
  split; [done|]. replace (c - a) with (- (a - c)) by lia.
  destruct (Z.eq_dec ((a - c) mod M32) 0) as [E|E].
  - left. split; [done|]. by apply Z.mod_opp_l_z.
  - right. rewrite Z.mod_opp_l_nz by done. lia.
Qed.

(** [unwrap] recovers the absolute number within half the space of the checkpoint. *)
Lemma unwrap_range n isn c : 0 <= unwrap n isn c < M64.
Proof. unfold unwrap. cbv zeta. repeat case_Z; apply u64_range. Qed.

Lemma unwrap_wrap_near a isn c :
  0 <= a < M64 -> 0 <= c -> Z.abs (a - c) < 2147483648 ->
  unwrap (wrap a isn) isn c = a.
Proof.
  intros Ha Hc Hd. rewrite unwrap_form. cbv zeta.
  destruct (Z.le_gt_cases c a) as [H|H].
  - rewrite (Z.mod_small (a - c)) by lia.
    pose proof (distance_cases a c) as [_ [[H1 H2]|H2]]; cbv zeta in *;
      rewrite (Z.mod_small (a - c)) in * by lia.
    + rewrite H2, H1. cbn. rewrite u64_id; lia.
    + case_Z; [lia|]. cbn. rewrite u64_id; lia.
  - rewrite (Z.mod_small (c - a)) by lia.
    pose proof (distance_cases c a) as [_ [[H1 H2]|H2]]; cbv zeta in *;
      rewrite (Z.mod_small (c - a)) in * by lia; [lia|].
    repeat case_Z; cbn; try lia. rewrite u64_id; lia.
Qed.

(** Two absolute numbers that wrap alike differ by a multiple of [2^32]. *)
Lemma wrap_eq_multiple a b isn :
  wrap a isn = wrap b isn -> exists k, a = b + k * M32.
Proof.
  intros H%wrap_eq_iff. exists (a / M32 - b / M32).
  rewrite (Z.div_mod a M32), (Z.div_mod b M32) at 1 by lia. lia.
Qed.

Lemma wrap_shift a k isn : wrap (a + k * M32) isn = wrap a isn.
Proof. apply wrap_eq_iff. apply Z_mod_plus_full. Qed.

Lemma diff_multiple a c :
  exists k, (a - c) mod M32 = a - c + k * M32 /\ (c - a) mod M32 = c - a + (- k) * M32 \/
            (a - c) mod M32 = a - c + k * M32 /\ (c - a) mod M32 = c - a + (1 - k) * M32.
Proof.
  exists (- ((a - c) / M32)). pose proof (Z.div_mod (a - c) M32 ltac:(lia)).
  destruct (distance_cases a c) as [_ [[H1 H2]|H2]]; lia.
Qed.

(** C22: [unwrap] returns a 64-bit number that wraps to [n], and no non-negative
    number that wraps to [n] is closer to the checkpoint; a tie is resolved
    upwards.  The checkpoint may be anything that is half a 32-bit range away
    from the end of the 64-bit range. *)
Theorem unwrap_closest n isn c :
  wi_wf n -> 0 <= c < M64 - 2147483648 ->
  let r := unwrap n isn c in
  0 <= r < M64 /\ wrap r isn = n /\
  (forall r', 0 <= r' -> wrap r' isn = n -> Z.abs (r - c) <= Z.abs (r' - c)) /\
  (forall r', 0 <= r' -> wrap r' isn = n -> Z.abs (r - c) = Z.abs (r' - c) -> r' <= r).
Proof.
  intros Hn Hc. cbv zeta.
  destruct (wrap_surj n isn Hn) as (a & Ha & ->).
  rewrite unwrap_form. cbv zeta.
  pose proof (distance_cases a c) as [H1 H2]. cbv zeta in *.
  pose proof (distance_cases c a) as [H3 _]. cbv zeta in *.
  destruct (diff_multiple a c) as [k Hk].
  set (d1 := (a - c) mod M32) in *. set (d2 := (c - a) mod M32) in *.
  assert (Hr : exists r, (if (d2 <? d1) && (d2 <=? c) then u64 (c - d2) else u64 (c + d1)) = r
    /\ 0 <= r < M64 /\ (exists j, r = a + j * M32) /\
    ((r = c - d2 /\ d2 < d1 /\ d2 <= c) \/ (r = c + d1 /\ (d1 <= d2 \/ c < d2)))).
  { eexists; split; [reflexivity|]. repeat case_Z; cbn; rewrite u64_id by lia.
    - split; [lia|]. split; [|lia].
      destruct Hk as [[? ?]|[? ?]]; [exists k|exists (k - 1)]; lia.
    - split; [lia|]. split; [exists k; lia|lia].
    - split; [lia|]. split; [exists k; lia|lia].
    - split; [lia|]. split; [exists k; lia|lia]. }
  destruct Hr as (r & -> & Hr & (j & Hj) & Hcase).
  split; [done|]. split; [rewrite Hj; apply wrap_shift|].
  split; intros r' Hr' [m ->]%wrap_eq_multiple; nia.
Qed.

Lemma unwrap_closest_witness :
  let isn := mkWrappingInt32 16 in let n := mkWrappingInt32 15 in
  unwrap n isn 0 = 4294967295 /\
  (forall r', 0 <= r' -> wrap r' isn = n ->
     Z.abs (4294967295 - 0) <= Z.abs (r' - 0)).
Proof.
  split; [reflexivity|].
  apply (unwrap_closest (mkWrappingInt32 15) (mkWrappingInt32 16) 0).
  - unfold wi_wf. cbn. lia.
  - lia.
Defined.

(** [operator-] on two sequence numbers is the signed distance between the
    absolute numbers they stand for, whenever these are less than half the
    space apart, across any wrap of the 32-bit space; and adding a distance and
    subtracting it again is the identity. *)
Theorem wi_diff_distance a b isn d :
  -2147483648 <= a - b < 2147483648 ->
  wi_diff (wrap a isn) (wrap b isn) = a - b /\
  wi_sub (wi_add (wrap a isn) d) d = wrap a isn.
Proof.
  intros H. split.
  - unfold wi_diff, i32. cbv zeta. rewrite wrap_distance.
    destruct (Z.le_gt_cases b a).
    + rewrite Z.mod_small by lia. case_Z; lia.
    + rewrite <- (Z_mod_plus_full (a - b) 1 M32), Z.mod_small by lia.
      case_Z; lia.
  - apply wi_ext. unfold wi_sub, wi_add. cbn [raw_value]. unfold u32.
    rewrite Zplus_mod_idemp_l, Zplus_mod_idemp_r, wrap_raw.
    replace ((a + raw_value isn) mod M32 + d + - d)
      with ((a + raw_value isn) mod M32) by lia.
    by rewrite Z.mod_mod.
Qed.

Lemma wi_diff_distance_witness :
  let isn := mkWrappingInt32 4294967290 in
  wi_diff (wrap 10 isn) (wrap 3 isn) = 7 /\
  wi_sub (wi_add (wrap 10 isn) 5) 5 = wrap 10 isn.
Proof.
  apply (wi_diff_distance 10 3 (mkWrappingInt32 4294967290) 5). lia.
Defined.
