(* ===== verification/StreamReassembler.v ===== *)
(** The reassembler of [libsponge/stream_reassembler.hh] and
    [stream_reassembler.cc]: excerpts of a stream arrive in any order, possibly
    overlapping, and are merged into a sorted list whose front is written to
    the output [ByteStream] as soon as it is contiguous with it. *)
From S2P Require Import Prelude.
From S2P Require ByteStream.

Abbreviation BS := ByteStream.ByteStream.

(** [class inforsubstr]: one stored excerpt. *)
Record inforsubstr := mkInfor {
  first : Z;
  last : Z;
  data : bytes
}.

(** The private members of [class StreamReassembler]. *)
Record StreamReassembler := mkReassembler {
  private_unassembled_bytes : Z;
  checkeof : bool;
  storelist : list inforsubstr;
  firstindex : Z;
  output : BS;          (* _output *)
  capacity : Z          (* _capacity *)
}.

Definition construct (c : Z) : StreamReassembler :=
  mkReassembler 0 false [] 0 (ByteStream.construct c) c.

Definition unassembled_bytes (st : StreamReassembler) : Z :=
  private_unassembled_bytes st.

Definition empty (st : StreamReassembler) : bool :=
  (size (storelist st) =? 0) && (unassembled_bytes st =? 0).

Definition stream_out (st : StreamReassembler) : BS := output st.

(** The write access [stream_out()] gives its callers. *)
Definition set_output (o : BS) (st : StreamReassembler) : StreamReassembler :=
  mkReassembler (private_unassembled_bytes st) (checkeof st) (storelist st)
    (firstindex st) o (capacity st).

Definition set_store (l : list inforsubstr) (u : Z) (st : StreamReassembler)
  : StreamReassembler :=
  mkReassembler u (checkeof st) l (firstindex st) (output st) (capacity st).

(** The union of a stored excerpt [temp] with the new one, which touch. *)
Definition merge_overlap (temp : inforsubstr) (sub_begin sub_end : Z)
    (sub_string : bytes) : result (Z * Z * bytes) :=
  if (first temp <=? sub_begin) && (sub_end <=? last temp) then
    Ok (first temp, last temp, data temp)
  else if (first temp <=? sub_begin) && (last temp <=? sub_end) then
    t ← substr sub_string (u64 (u64 (last temp + 1) - sub_begin)) npos;
    Ok (first temp, sub_end, data temp ++ t)
  else if (sub_begin <=? first temp) && (sub_end <=? last temp) then
    t ← substr (data temp) (u64 (u64 (sub_end + 1) - first temp)) npos;
    Ok (sub_begin, last temp, sub_string ++ t)
  else Ok (sub_begin, sub_end, sub_string).

(** The [for] loop over [storelist].  It returns the list, whether the new
    excerpt was inserted, the excerpt (as merged so far) and the byte count.
    After an erase the source steps the iterator back and the loop header steps
    it forward again, so the loop goes on with the element after the erased
    one.  When the erased element was the first, this decrements [begin()], which
    C++ leaves undefined; the loop is given the meaning it has in an
    implementation with circular lists, which goes to [end()] and back.
    [insert_iter] is the loop without this licence. *)
Fixpoint insert_loop (l : list inforsubstr) (sub_begin sub_end : Z)
    (sub_string : bytes) (u : Z)
  : result (list inforsubstr * bool * inforsubstr * Z) :=
  match l with
  | [] => Ok ([], false, mkInfor sub_begin sub_end sub_string, u)
  | temp :: rest =>
      if u64 (first temp + size (data temp)) <? sub_begin then
        '(l', ins, sub, u') ← insert_loop rest sub_begin sub_end sub_string u;
        Ok (temp :: l', ins, sub, u')
      else if u64 (sub_end + 1) <? first temp then
        let sub := mkInfor sub_begin sub_end sub_string in
        Ok (sub :: temp :: rest, true, sub, u64 (u + size sub_string))
      else
        let u := u64 (u - size (data temp)) in
        '(sb, se, ss) ← merge_overlap temp sub_begin sub_end sub_string;
        insert_loop rest sb se ss u
  end.

(** The same loop with its iterator: [before] are the elements that the iterator
    has passed, the nearest first, and [iter--] is undefined without one. *)
Fixpoint insert_iter (before l : list inforsubstr) (sub_begin sub_end : Z)
    (sub_string : bytes) (u : Z)
  : result (list inforsubstr * bool * inforsubstr * Z) :=
  match l with
  | [] => Ok (reverse before, false, mkInfor sub_begin sub_end sub_string, u)
  | temp :: rest =>
      if u64 (first temp + size (data temp)) <? sub_begin then
        insert_iter (temp :: before) rest sub_begin sub_end sub_string u
      else if u64 (sub_end + 1) <? first temp then
        let sub := mkInfor sub_begin sub_end sub_string in
        Ok (reverse before ++ sub :: temp :: rest, true, sub, u64 (u + size sub_string))
      else
        let u := u64 (u - size (data temp)) in
        '(sb, se, ss) ← merge_overlap temp sub_begin sub_end sub_string;
        match before with
        | [] => Throw undefined_behaviour
        | _ :: _ => insert_iter before rest sb se ss u
        end
  end.

(** The first stored excerpt touches the new one. *)
Definition merges_front (l : list inforsubstr) (sub_begin sub_end : Z) : bool :=
  match l with
  | [] => false
  | temp :: _ => negb (u64 (first temp + size (data temp)) <? sub_begin) &&
                 negb (u64 (sub_end + 1) <? first temp)
  end.

(** Lines 105-114: bytes of the front excerpt that were already written. *)
Definition trim_front (st : StreamReassembler) : result StreamReassembler :=
  match storelist st with
  | [] => Throw undefined_behaviour
  | f :: rest =>
      if first f <? firstindex st then
        let u := u64 (private_unassembled_bytes st - size (data f)) in
        d ← substr (data f) (u64 (firstindex st - first f)) npos;
        Ok (set_store (mkInfor (firstindex st) (last f) d :: rest)
              (u64 (u + size d)) st)
      else Ok st
  end.

(** Lines 115-124: bytes of the back excerpt past the capacity. *)
Definition trim_back (st : StreamReassembler) : result StreamReassembler :=
  match list.last (storelist st) with
  | None => Throw undefined_behaviour
  | Some b =>
      if u64 (firstindex st + capacity st) <=? u64 (last b + 1) then
        let u := u64 (private_unassembled_bytes st - size (data b)) in
        let d := substr0 (data b) (u64 (u64 (firstindex st + capacity st) - first b)) in
        let b' := mkInfor (first b) (u64 (u64 (firstindex st + capacity st) - 1)) d in
        Ok (set_store (removelast (storelist st) ++ [b']) (u64 (u + size d)) st)
      else Ok st
  end.

(** Lines 131-144: the bytes of the front excerpt that fit in [rc], the list
    they leave and the next [firstindex]. *)
Definition take_front (rc : Z) (f : inforsubstr) (rest : list inforsubstr)
  : result (bytes * list inforsubstr * Z) :=
  if rc <? size (data f) then
    d ← substr (data f) rc npos;
    let f' := mkInfor (u64 (first f + rc)) (last f) d in
    Ok (substr0 (data f) rc, f' :: rest, first f')
  else Ok (data f, rest, u64 (last f + 1)).

(** Lines 126-151: write the front excerpt when it is next in line. *)
Definition deliver (st : StreamReassembler) : result StreamReassembler :=
  match storelist st with
  | [] => Throw undefined_behaviour
  | f :: rest =>
      if first f =? firstindex st then
        let rc := ByteStream.remaining_capacity (output st) in
        '(send, l, fi) ← take_front rc f rest;
        let st1 := mkReassembler (u64 (private_unassembled_bytes st - size send))
                     (checkeof st) l fi (snd (ByteStream.write send (output st)))
                     (capacity st) in
        Ok (if empty st1 && checkeof st1
            then set_output (ByteStream.end_input (output st1)) st1 else st1)
      else Ok st
  end.

Definition set_checkeof (e : bool) (st : StreamReassembler) : StreamReassembler :=
  mkReassembler (private_unassembled_bytes st) e (storelist st) (firstindex st)
    (output st) (capacity st).

Definition push_substring (d : bytes) (index : Z) (eof : bool)
    (st : StreamReassembler) : result StreamReassembler :=
  let st := set_checkeof (if eof then eof else checkeof st) st in
  if size d =? 0 then
    Ok (if checkeof st && (firstindex st =? index)
        then set_output (ByteStream.end_input (output st)) st else st)
  else
    let sub_begin := index in
    let sub_end := u64 (u64 (sub_begin + size d) - 1) in
    if sub_end <? firstindex st then Ok st
    else
      '(l, is_inserted, sub, u) ←
        insert_loop (storelist st) sub_begin sub_end d (private_unassembled_bytes st);
      let st := if is_inserted : bool then set_store l u st
                else set_store (l ++ [sub]) (u64 (u + size (data sub))) st in
      st ← trim_front st;
      st ← trim_back st;
      deliver st.

(** ** The invariant

    [S] is the peer's stream; every stored byte is the byte of [S] at its
    index, and the stored excerpts are sorted with a gap between neighbours. *)

Definition stop (e : inforsubstr) : Z := first e + size (data e).

Record elt_ok (S : Z -> byte) (e : inforsubstr) : Prop := {
  elt_first : 0 <= first e;
  elt_last : last e = stop e - 1;
  elt_data : data e = slice S (first e) (length (data e))
}.

(** [chain S lo l]: sorted, separated, consistent with [S], from [lo] on. *)
Fixpoint chain (S : Z -> byte) (lo : Z) (l : list inforsubstr) : Prop :=
  match l with
  | [] => True
  | e :: l' => lo <= first e /\ elt_ok S e /\ chain S (stop e + 1) l'
  end.

(** An index held by some excerpt of the list. *)
Definition covered (l : list inforsubstr) (i : Z) : Prop :=
  exists e, e ∈ l /\ first e <= i < stop e.

Fixpoint total (l : list inforsubstr) : Z :=
  match l with [] => 0 | e :: l' => size (data e) + total l' end.

(** Bounds that the excerpts respect between the insertion and the trimming:
    each starts at most at [hi], and ends between [F] and [top]. *)
Definition bounds (F hi top : Z) (e : inforsubstr) : Prop :=
  first e <= hi /\ F <= stop e <= top.

Lemma total_nonneg l : 0 <= total l.
Proof. induction l; cbn; size_lia. Qed.

Lemma total_app l k : total (l ++ k) = total l + total k.
Proof. induction l; cbn; lia. Qed.

Lemma covered_nil i : covered [] i <-> False.
Proof. split; [|done]. intros (e & He & _). by apply elem_of_nil in He. Qed.

Lemma covered_cons e l i :
  covered (e :: l) i <-> first e <= i < stop e \/ covered l i.
Proof.
  unfold covered. split.
  - intros (e' & [->|He]%elem_of_cons & Hi); [by left|]. right. eauto.
  - intros [H|(e' & He & Hi)].
    + exists e. split; [apply list_elem_of_here|done].
    + exists e'. split; [by apply list_elem_of_further|done].
Qed.

Lemma covered_app l k i : covered (l ++ k) i <-> covered l i \/ covered k i.
Proof.
  induction l as [|e l IH]; cbn; [rewrite covered_nil; tauto|].
  rewrite !covered_cons, IH. tauto.
Qed.

Lemma chain_weaken S lo lo' l : lo' <= lo -> chain S lo l -> chain S lo' l.
Proof. destruct l; cbn; [done|]. intros ? (? & ?). split; [lia|done]. Qed.

Lemma chain_lower S lo l : chain S lo l -> Forall (fun e => lo <= first e) l.
Proof.
  revert lo. induction l as [|e l IH]; cbn; intros lo H; [done|].
  destruct H as (H1 & H2 & H3). constructor; [done|].
  eapply Forall_impl; [apply (IH _ H3)|]. cbn. unfold stop. intros. size_lia.
Qed.

Lemma chain_covered_lower S lo l i : chain S lo l -> covered l i -> lo <= i.
Proof.
  intros H (e & He & Hi). apply chain_lower in H.
  rewrite Forall_forall in H. specialize (H _ He). cbn in H. lia.
Qed.

(** The bytes a chain holds fit between its bounds. *)
Lemma chain_total S lo hi l :
  chain S lo l -> Forall (fun e => stop e <= hi) l -> lo <= hi -> total l <= hi - lo.
Proof.
  revert lo. induction l as [|e l IH]; cbn; intros lo H Hf Hlo; [lia|].
  destruct H as (H1 & H2 & H3). apply Forall_cons in Hf as [Hs Hf].
  destruct l as [|e2 l]; [cbn; unfold stop in *; lia|].
  assert (stop e + 1 <= hi).
  { cbn in H3. destruct H3 as (H3 & H4 & _). apply Forall_cons in Hf as [Hs2 _].
    unfold stop in *. size_lia. }
  specialize (IH _ H3 Hf ltac:(lia)). unfold stop in *. lia.
Qed.

Lemma slice_join S a n m :
  slice S a n ++ slice S (a + Z.of_nat n) m = slice S a (n + m).
Proof. symmetry. apply slice_app. Qed.

(** ** Merging *)

Section Merge.
Context (S : Z -> byte) (temp : inforsubstr) (sb se : Z) (ss : bytes).
Context (Htemp : elt_ok S temp) (Hsb : 0 <= sb) (Hse : se = sb + size ss - 1)
  (Hne : 0 < size ss) (Hss : ss = slice S sb (length ss)).
Context (Htop : stop temp < M64 - 1) (Htop2 : sb + size ss < M64 - 1).
(** The two excerpts touch: the loop's two tests failed. *)
Context (Hl : sb <= stop temp) (Hr : first temp <= se + 1).

Lemma merge_overlap_spec :
  exists sb' se' ss', merge_overlap temp sb se ss = Ok (sb', se', ss') /\
    sb' = Z.min sb (first temp) /\ se' = sb' + size ss' - 1 /\
    sb' + size ss' = Z.max (sb + size ss) (stop temp) /\
    ss' = slice S sb' (length ss').
Proof using All.
  destruct Htemp as [H0 Hla Hd]. unfold stop in *. unfold merge_overlap.
  pose proof (size_nonneg (data temp)) as Hs.
  destruct (Z.leb_spec (first temp) sb) as [C1|C1]; cbn [andb].
  - destruct (Z.leb_spec se (last temp)) as [C2|C2].
    + do 3 eexists. split; [reflexivity|]. repeat split; try lia. done.
    + destruct (Z.leb_spec (last temp) se) as [C3|C3]; [|lia].
      unwrap_ints.
      rewrite substr_tail by (unfold npos; lia). cbn.
      do 3 eexists. split; [reflexivity|].
      rewrite size_app, size_drop by lia. repeat split; try lia.
      rewrite length_app, length_drop, Hd, Hss, !slice_length, slice_drop.
      replace (sb + Z.of_nat (Z.to_nat (last temp + 1 - sb)))
        with (first temp + Z.of_nat (length (data temp))) by (unfold size in *; lia).
      by rewrite slice_join.
  - destruct (Z.leb_spec sb (first temp)) as [C2|C2]; [|lia]. cbn [andb].
    destruct (Z.leb_spec se (last temp)) as [C3|C3].
    + unwrap_ints.
      rewrite substr_tail by (unfold npos; lia). cbn.
      do 3 eexists. split; [reflexivity|].
      rewrite size_app, size_drop by lia. repeat split; try lia.
      rewrite length_app, length_drop, Hd, Hss, !slice_length, slice_drop.
      replace (first temp + Z.of_nat (Z.to_nat (se + 1 - first temp)))
        with (sb + Z.of_nat (length ss)) by (unfold size in *; lia).
      by rewrite slice_join.
    + do 3 eexists. split; [reflexivity|]. repeat split; try lia. done.
Qed.
End Merge.

(** ** The insertion loop *)

(** The list after lines 97-102, from what the loop returns. *)
Definition inserted (l : list inforsubstr) (ins : bool) (sub : inforsubstr) :=
  if ins then l else l ++ [sub].

Lemma fresh_cons S l lo sb se ss F hi top :
  0 <= lo <= sb -> se = sb + size ss - 1 -> 0 < size ss -> ss = slice S sb (length ss) ->
  chain S (sb + size ss + 1) l -> Forall (bounds F hi top) l -> bounds F hi top (mkInfor sb se ss) ->
  chain S lo (mkInfor sb se ss :: l) /\ Forall (bounds F hi top) (mkInfor sb se ss :: l) /\
  (forall i, covered (mkInfor sb se ss :: l) i <-> covered l i \/ sb <= i < sb + size ss).
Proof.
  intros Hlo Hse Hne Hss Hch Hb Hbs. split; [|split; [by constructor|]].
  - cbn. split_and!; [lia| |done]. constructor; cbn; [lia|unfold stop; cbn; lia|done].
  - intros i. rewrite covered_cons. unfold stop. cbn. tauto.
Qed.

Lemma insert_loop_spec S l : forall lo sb se ss k F hi top,
  chain S lo l -> 0 <= lo <= sb -> se = sb + size ss - 1 -> 0 < size ss ->
  ss = slice S sb (length ss) -> top < M64 - 1 ->
  Forall (bounds F hi top) l -> bounds F hi top (mkInfor sb se ss) ->
  0 <= k -> k + total l + size ss < M64 ->
  exists l' ins sub u',
    insert_loop l sb se ss (k + total l) = Ok (l', ins, sub, u') /\
    chain S lo (inserted l' ins sub) /\
    Forall (bounds F hi top) (inserted l' ins sub) /\
    u' = k + total l' /\
    total (inserted l' ins sub) <= total l + size ss /\
    (forall i, covered (inserted l' ins sub) i <->
               covered l i \/ sb <= i < sb + size ss).
Proof.
  induction l as [|t l IH]; intros lo sb se ss k F hi top
    Hch Hlo Hse Hne Hss Htop Hb Hbs Hk Htot.
  - destruct (fresh_cons S [] lo sb se ss F hi top) as (Hc & Hf & Hcov); try done.
    cbn [insert_loop]. do 4 eexists. split; [reflexivity|]. unfold inserted. cbn [app total data].
    split_and!; done || lia.
  - cbn in Hch. destruct Hch as (H1 & H2 & H3). apply Forall_cons in Hb as [Hbt Hb].
    cbn [total] in Htot. pose proof (total_nonneg l) as Htl.
    pose proof (size_nonneg (data t)) as Hst. pose proof (elt_first _ _ H2) as Hft.
    destruct Hbt as [Hbt1 Hbt2]. destruct Hbs as [Hbs1 Hbs2]. unfold stop in Hbs2.
    cbn in Hbs1, Hbs2. assert (Hstop : 0 <= stop t) by (unfold stop; lia).
    cbn [insert_loop total]. fold (stop t). unwrap_ints.
    destruct (Z.ltb_spec (stop t) sb) as [C1|C1];
      [|destruct (Z.ltb_spec (se + 1) (first t)) as [C2|C2]].
    + (* the loop goes on *)
      destruct (IH (stop t + 1) sb se ss (k + size (data t)) F hi top)
        as (l' & ins & sub & u' & He & Hc & Hf & Hu & Htt & Hcov);
        try done; try (unfold stop in *; lia).
      rewrite Z.add_assoc, He. cbn. do 4 eexists. split; [reflexivity|].
      assert (E : inserted (t :: l') ins sub = t :: inserted l' ins sub) by (by destruct ins).
      rewrite E. cbn. split_and!; try done; try lia.
      * constructor; [by split|done].
      * intros i. rewrite !covered_cons, Hcov. tauto.
    + (* inserted before t *)
      destruct (fresh_cons S (t :: l) lo sb se ss F hi top) as (Hc & Hf & Hcov); try done.
      { cbn. split_and!; [lia|done..]. }
      { by constructor; [split|]. }
      do 4 eexists. split; [reflexivity|]. cbn [inserted total data].
      split_and!; try done; unwrap_ints; lia.
    + (* merged with t *)
      destruct (merge_overlap_spec S t sb se ss) as
        (sb' & se' & ss' & -> & Hsb' & Hse' & Hend & Hss'); try done; try lia.
      cbn. replace (k + (size (data t) + total l) - size (data t))
        with (k + total l) by lia.
      destruct (IH lo sb' se' ss' k F hi top)
        as (l' & ins & sub & u' & He & Hc & Hf & Hu & Htt & Hcov);
        try done; try (unfold stop in *; lia).
      * eapply chain_weaken; [|done]. unfold stop. lia.
      * split; unfold stop; cbn; lia.
      * do 4 eexists. split; [exact He|]. split_and!; try done; [unfold stop in *; lia|].
        intros i. rewrite Hcov, covered_cons.
        assert (sb' <= i < sb' + size ss' <->
                first t <= i < stop t \/ sb <= i < sb + size ss) as ->
          by (unfold stop in *; lia).
        tauto.
Qed.

(** ** Trimming *)

Lemma chain_snoc S lo l b :
  chain S lo (l ++ [b]) <->
  chain S lo l /\ lo <= first b /\ Forall (fun e => stop e < first b) l /\ elt_ok S b.
Proof.
  revert lo. induction l as [|e l IH]; intros lo; cbn.
  - split; [intros (? & ? & ?)|intros (_ & ? & _ & ?)]; split_and!; done.
  - rewrite IH, Forall_cons. split.
    + intros (H1 & H2 & H3 & H4 & H5 & H6). split_and!; try done; try lia.
      pose proof (elt_first _ _ H2). unfold stop in *. size_lia.
    + intros ((H1 & H2 & H3) & H4 & [H5 H6] & H7). split_and!; try done; lia.
Qed.

Lemma set_store_id st : set_store (storelist st) (private_unassembled_bytes st) st = st.
Proof. by destruct st. Qed.

(** The last element may be replaced by one that ends earlier. *)
Lemma chain_cut S lo l b c hi :
  chain S lo (l ++ [b]) -> elt_ok S c -> first c = first b -> first b <= hi -> stop c = hi -> hi <= stop b ->
  chain S lo (l ++ [c]) /\ Forall (fun e => stop e <= hi) (l ++ [c]) /\
  (forall i, covered (l ++ [c]) i <-> covered (l ++ [b]) i /\ i < hi).
Proof.
  rewrite !chain_snoc. intros (H1 & H2 & H3 & _) Hc Ef Hhi Es Hle. rewrite Ef.
  assert (Hl : Forall (fun e => stop e <= hi) l) by (eapply Forall_impl; [exact H3|]; cbn; lia).
  split; [done|]. split; [apply Forall_app; split; [done|]; constructor; [lia|done]|].
  intros i. rewrite !covered_app, !covered_cons, !covered_nil, Ef, Es.
  assert (Hlt : covered l i -> i < hi); [|intuition lia].
  intros (e & He & Hi). rewrite Forall_forall in Hl. specialize (Hl _ He). cbn in Hl. lia.
Qed.

Lemma elt_take S e n :
  elt_ok S e -> 0 <= n <= size (data e) ->
  elt_ok S (mkInfor (first e) (first e + n - 1) (take (Z.to_nat n) (data e))).
Proof.
  intros [H1 H2 H3] Hn. constructor; cbn; [done|unfold stop; cbn; rewrite size_take; lia|].
  rewrite H3 at 1. rewrite slice_take, length_take. f_equal.
Qed.

Lemma elt_drop S e n l :
  elt_ok S e -> 0 <= n <= size (data e) -> l = last e ->
  elt_ok S (mkInfor (first e + n) l (drop (Z.to_nat n) (data e))).
Proof.
  intros [H1 H2 H3] Hn ->. unfold stop in *.
  constructor; unfold stop; cbn; [lia|rewrite size_drop; lia|].
  rewrite H3 at 1. rewrite slice_drop, length_drop. f_equal. lia.
Qed.

Section Trim.
Context (S : Z -> byte) (st : StreamReassembler) (hi top : Z).
Let F := firstindex st.
Context (HF : 0 <= F) (Htop : top < M64 - 1)
  (Hu : private_unassembled_bytes st = total (storelist st))
  (Hu64 : total (storelist st) < M64)
  (Hb : Forall (bounds F hi top) (storelist st))
  (Hne : storelist st <> []).

Lemma trim_front_spec lo :
  0 <= lo -> chain S lo (storelist st) -> F <= hi ->
  exists l', trim_front st = Ok (set_store l' (total l') st) /\
    chain S F l' /\ Forall (bounds F hi top) l' /\ l' <> [] /\ total l' < M64 /\
    (forall i, covered l' i <-> covered (storelist st) i /\ F <= i).
Proof using All.
  intros Hlo Hch HFhi. unfold trim_front. subst F.
  destruct (storelist st) as [|f rest] eqn:El; [done|].
  cbn in Hch. destruct Hch as (H1 & H2 & H3). apply Forall_cons in Hb as [Hbf Hbr].
  cbn [total] in *. pose proof (total_nonneg rest). pose proof (elt_first _ _ H2) as H0.
  destruct Hbf as [Hb1 Hb2]. pose proof (size_nonneg (data f)).
  assert (Hrest : forall i, covered rest i -> stop f < i).
  { intros i Hi. eapply chain_covered_lower in Hi; [|done]. lia. }
  destruct (Z.ltb_spec (first f) (firstindex st)) as [C|C].
  - rewrite Hu. rewrite (u64_id (firstindex st - first f)) by (unfold stop in *; lia).
    rewrite substr_tail by (unfold npos, stop in *; lia). cbn.
    set (d := drop _ _).
    assert (Hd : size d = stop f - firstindex st).
    { subst d. rewrite size_drop; unfold stop in *; lia. }
    exists (mkInfor (firstindex st) (last f) d :: rest). split.
    { f_equal. f_equal. cbn. unwrap_ints. unfold stop in *. rewrite u64_id; lia. }
    assert (Hok : elt_ok S (mkInfor (firstindex st) (last f) d)).
    { replace (firstindex st) with (first f + (firstindex st - first f)) at 1 by lia.
      subst d. apply elt_drop; [done|unfold stop in *; lia|done]. }
    assert (Hst : stop (mkInfor (firstindex st) (last f) d) = stop f).
    { unfold stop at 1. cbn. lia. }
    cbn. rewrite Hst. split_and!; try done; try (unfold stop in *; lia).
    + apply Forall_cons. split; [|done]. split; [done|]. by rewrite Hst.
    + intros i. rewrite !covered_cons, Hst. cbn. split.
      * intros [?|Hi]; [split; [left|]; lia|]. specialize (Hrest _ Hi).
        split; [by right|lia].
      * intros [[?|?] ?]; [left; lia|by right].
  - exists (f :: rest). split.
    { f_equal. rewrite <- (set_store_id st) at 1. by rewrite Hu, El. }
    split_and!; try done; try lia.
    + by apply Forall_cons.
    + intros i. split; [|tauto]. intros Hi. split; [done|].
      apply (chain_covered_lower S (firstindex st)) in Hi; [done|]. cbn. done.
Qed.

Lemma trim_back_spec :
  hi = F + capacity st -> 0 < capacity st -> hi < M64 -> chain S F (storelist st) ->
  exists l', trim_back st = Ok (set_store l' (total l') st) /\
    chain S F l' /\ Forall (fun e => stop e <= hi) l' /\ l' <> [] /\
    (forall i, covered l' i <-> covered (storelist st) i /\ i < hi).
Proof using All.
  intros Hhi Hcap Hhi64 Hch. unfold trim_back. subst F.
  destruct (storelist st) as [|b l _] eqn:El using rev_ind; [done|].
  rewrite list.last_snoc. pose proof Hch as (H1 & H2 & H3 & H4)%chain_snoc.
  apply Forall_app in Hb as [Hbl Hbb]. apply Forall_cons in Hbb as [[Hb1 Hb2] _].
  pose proof (elt_first _ _ H4) as H0. pose proof (elt_last _ _ H4) as Hlast.
  pose proof (size_nonneg (data b)). pose proof (total_nonneg l).
  rewrite total_app in Hu, Hu64. cbn in Hu, Hu64.
  rewrite <- Hhi, Hlast. rewrite (u64_id hi), (u64_id (stop b - 1 + 1)) by (unfold stop in *; lia).
  destruct (Z.leb_spec hi (stop b - 1 + 1)) as [C|C].
  - rewrite (u64_id (hi - first b)) by lia.
    set (d := substr0 _ _). rewrite List.removelast_last.
    assert (Hd : d = take (Z.to_nat (hi - first b)) (data b)).
    { subst d. unfold substr0. rewrite Z.min_l; [done|unfold stop in *; lia]. }
    assert (Hds : size d = hi - first b) by (rewrite Hd, size_take; unfold stop in *; lia).
    exists (l ++ [mkInfor (first b) (hi - 1) d]). split.
    { rewrite total_app, (u64_id (hi - 1)), Hu by lia. cbn [total data].
      do 2 f_equal. unfold stop in *. unwrap_ints. lia. }
    destruct (chain_cut S (firstindex st) l b (mkInfor (first b) (hi - 1) d) hi) as (? & ? & ?);
      try done; [|unfold stop; cbn; lia|lia|by split_and!; try (by destruct l)].
    rewrite Hd. replace (hi - 1) with (first b + (hi - first b) - 1) by lia.
    apply elt_take; [done|unfold stop in *; lia].
  - exists (l ++ [b]). split.
    { f_equal. rewrite <- (set_store_id st) at 1. rewrite Hu, El, total_app. cbn.
      by rewrite Z.add_0_r. }
    destruct (chain_cut S (firstindex st) l b b (stop b)) as (_ & Hs & Hc); try done; [unfold stop in *; lia|].
    split_and!; [done| |by destruct l|].
    + eapply Forall_impl; [exact Hs|]. cbn. lia.
    + intros i. specialize (Hc i). intuition lia.
Qed.
End Trim.

(** ** Delivery and the whole operation *)

Record wf (S : Z -> byte) (st : StreamReassembler) : Prop := {
  wf_out : ByteStream.wf (output st);
  wf_cap : 0 < capacity st;
  wf_max : ByteStream.bs_max (output st) = capacity st;
  wf_written : ByteStream.alwritten (output st) = firstindex st;
  wf_first : firstindex st =
    ByteStream.alread (output st) + size (ByteStream.content (output st));
  wf_content : ByteStream.content (output st) =
    slice S (ByteStream.alread (output st)) (length (ByteStream.content (output st)));
  wf_chain : chain S (firstindex st) (storelist st);
  wf_upper : Forall (fun e => stop e <= firstindex st + capacity st) (storelist st);
  wf_count : private_unassembled_bytes st = total (storelist st)
}.

(** An index whose byte is in the output stream or in the store. *)
Definition known (st : StreamReassembler) (i : Z) : Prop :=
  0 <= i < firstindex st \/ covered (storelist st) i.

Lemma reassembler_construct_wf S c : 0 < c < M64 -> wf S (construct c).
Proof.
  intros Hc. constructor; cbn; try done; try lia. apply ByteStream.construct_wf. lia.
Qed.

Lemma reassembler_end_input_wf S st :
  wf S st -> wf S (set_output (ByteStream.end_input (output st)) st).
Proof. intros [[] ?]. by constructor; [constructor|..]. Qed.

Lemma set_checkeof_wf S e st : wf S st -> wf S (set_checkeof e st).
Proof. by intros []. Qed.

Lemma wf_first_nonneg S st : wf S st -> 0 <= firstindex st.
Proof.
  intros H. rewrite (wf_first _ _ H). pose proof (ByteStream.wf_read _ (wf_out _ _ H)).
  size_lia.
Qed.

Lemma wf_remaining S st :
  wf S st -> ByteStream.remaining_capacity (output st) =
             capacity st - size (ByteStream.content (output st)).
Proof.
  intros H. rewrite ByteStream.remaining_capacity_eq by apply (wf_out _ _ H).
  by rewrite (wf_max _ _ H).
Qed.

(** Writing the next bytes of [S] to the output keeps the output part. *)
Lemma write_next S o send fi :
  ByteStream.wf o -> fi = ByteStream.alread o + size (ByteStream.content o) ->
  ByteStream.alwritten o = fi ->
  ByteStream.content o = slice S (ByteStream.alread o) (length (ByteStream.content o)) ->
  send = slice S fi (length send) -> fi + size send < M64 ->
  size send <= ByteStream.bs_max o - size (ByteStream.content o) ->
  let o' := snd (ByteStream.write send o) in
  ByteStream.wf o' /\ ByteStream.alread o' = ByteStream.alread o /\
  ByteStream.alwritten o' = fi + size send /\
  ByteStream.bs_max o' = ByteStream.bs_max o /\
  ByteStream.bs_end o' = ByteStream.bs_end o /\
  size (ByteStream.content o') = size (ByteStream.content o) + size send /\
  ByteStream.content o' = slice S (ByteStream.alread o) (length (ByteStream.content o')).
Proof.
  intros Hwf Hfi Hw Hc Hs Hlt Hroom. cbv zeta.
  pose proof (ByteStream.write_wf send o Hwf) as Hwf'.
  pose proof (ByteStream.write_accepts send o Hwf) as Hn.
  pose proof (ByteStream.wf_read _ Hwf).
  rewrite Z.min_l in Hn by done. cbn in Hn, Hwf' |- *. rewrite Hn in *.
  rewrite substr0_all in * by lia. rewrite size_app, Hw. sizes.
  rewrite Hw in Hwf'. split_and!; try done; [apply u64_id; lia|].
  rewrite length_app, slice_app, <- Hc. f_equal. rewrite Hs at 1.
  f_equal. unfold size in *. lia.
Qed.

Lemma take_front_spec S rc f rest hi :
  elt_ok S f -> chain S (stop f + 1) rest -> stop f < M64 - 1 -> 0 <= rc ->
  Forall (fun e => stop e <= hi) (f :: rest) ->
  exists send l fi, take_front rc f rest = Ok (send, l, fi) /\
    send = slice S (first f) (length send) /\ size send <= rc /\
    fi = first f + size send /\ chain S fi l /\ Forall (fun e => stop e <= hi) l /\
    size send + total l = size (data f) + total rest /\
    (forall i, covered (f :: rest) i <-> first f <= i < fi \/ covered l i) /\
    (covered l fi -> size send = rc).
Proof.
  intros Hf Hrest Hstop Hrc [Hhi Hhir]%Forall_cons. unfold take_front.
  pose proof (elt_first _ _ Hf). pose proof (elt_last _ _ Hf) as Hl.
  pose proof (elt_data _ _ Hf) as Hd. pose proof (size_nonneg (data f)).
  unfold stop in Hstop, Hl, Hhi.
  destruct (Z.ltb_spec rc (size (data f))) as [C|C].
  - rewrite substr_tail by (unfold npos; lia). cbn. unwrap_ints.
    pose proof (elt_drop S f rc (last f) Hf ltac:(lia) eq_refl) as Hok.
    do 3 eexists. split; [reflexivity|].
    assert (Hsz : size (substr0 (data f) rc) = rc) by (rewrite substr0_size; lia).
    assert (Hst : stop (mkInfor (first f + rc) (last f) (drop (Z.to_nat rc) (data f)))
                  = stop f).
    { unfold stop. cbn. rewrite size_drop; lia. }
    split_and!; rewrite ?Hsz; try lia; cbn [chain total]; rewrite ?Hst.
    + unfold substr0. rewrite Z.min_l by lia. rewrite Hd at 1.
      rewrite slice_take, length_take. done.
    + split_and!; done.
    + apply Forall_cons. split; [|done]. rewrite Hst. unfold stop. lia.
    + cbn. rewrite size_drop; lia.
    + intros i. rewrite !covered_cons, Hst. unfold stop. cbn.
      assert (first f <= i < first f + size (data f) <->
        first f <= i < first f + rc \/
        first f + rc <= i < first f + size (data f)) as -> by lia.
      tauto.
  - do 3 eexists. split; [reflexivity|]. rewrite Hl. unwrap_ints.
    replace (first f + size (data f) - 1 + 1) with (first f + size (data f)) by lia.
    split_and!; try done; try lia.
    + eapply chain_weaken; [|done]. unfold stop. lia.
    + intros i. rewrite covered_cons. unfold stop. done.
    + intros Hi. apply (chain_covered_lower S _ _ _ Hrest) in Hi. unfold stop in Hi. lia.
Qed.

Section Deliver.
Context (S : Z -> byte) (st : StreamReassembler).
Context (Hwf : wf S st) (Hne : storelist st <> []).
Context (Htop : firstindex st + capacity st < M64 - 1).

Lemma gap_unknown f rest :
  storelist st = f :: rest -> first f <> firstindex st -> ~ known st (firstindex st).
Proof using Hwf.
  intros El C [?|Hk]; [lia|]. pose proof (wf_chain _ _ Hwf) as Hch. rewrite El in Hk, Hch.
  cbn in Hch. destruct Hch as (H1 & H2 & H3). rewrite covered_cons in Hk. destruct Hk as [?|Hk]; [lia|].
  pose proof (chain_covered_lower _ _ _ _ H3 Hk). unfold stop in *. size_lia.
Qed.

Lemma deliver_spec :
  exists st', deliver st = Ok st' /\ wf S st' /\
    capacity st' = capacity st /\ firstindex st <= firstindex st' /\
    (forall i, known st' i <-> known st i) /\
    (known st' (firstindex st') -> ByteStream.remaining_capacity (output st') = 0) /\
    (ByteStream.input_ended (output st') = true ->
       ByteStream.input_ended (output st) = true \/
       (checkeof st = true /\ storelist st' = [])).
Proof using All.
  pose proof (wf_first_nonneg _ _ Hwf) as HF.
  pose proof (wf_remaining _ _ Hwf) as Hrem. unfold deliver.
  destruct Hwf as [Hout Hcap Hmax Hw Hfi Hcont Hch Hup Hcnt].
  destruct (storelist st) as [|f rest] eqn:El; [done|].
  cbn in Hch. destruct Hch as (H1 & H2 & H3).
  destruct (ByteStream.wf_capacity _ Hout) as [Hc1 Hc2].
  destruct (Z.eqb_spec (first f) (firstindex st)) as [C|C]; cycle 1.
  { exists st. split; [done|]. split; [done|]. split_and!; try done; try tauto.
    by intros ?%(gap_unknown f rest). }
  destruct (take_front_spec S (ByteStream.remaining_capacity (output st)) f rest
              (firstindex st + capacity st))
    as (send & l & fi & -> & Hs & Hrc & Hfi' & Hch' & Hup' & Htot & Hcov & Hfull);
    try done; [|lia|].
  { apply Forall_cons in Hup as [? ?]. lia. }
  cbn [mbind result_bind]. rewrite C in *. pose proof (size_nonneg send). pose proof (total_nonneg l).
  destruct (write_next S (output st) send (firstindex st))
    as (Hwf' & Hrd & Hwr & Hmx & Hend & Hsz & Hsl); try done; [lia..|].
  set (o' := snd (ByteStream.write send (output st))) in *. clearbody o'.
  set (st1 := mkReassembler _ _ _ _ _ _).
  assert (Hwf1 : wf S st1).
  { constructor; cbn; try done; try lia.
    - by rewrite Hrd.
    - eapply Forall_impl; [exact Hup'|]. cbn. lia.
    - cbn [total] in Hcnt. rewrite Hcnt.
      pose proof (chain_total _ _ _ _ Hch' Hup'). rewrite u64_id; [lia|].
      assert (firstindex st + size send <= firstindex st + capacity st) by lia.
      lia. }
  assert (Hknown : forall i, known st1 i <-> known st i).
  { intros i. unfold known. cbn. rewrite El, Hcov.
    assert (0 <= i < fi <-> 0 <= i < firstindex st \/ firstindex st <= i < fi) as ->
      by lia.
    tauto. }
  assert (Hmax' : known st1 fi -> ByteStream.remaining_capacity o' = 0).
  { intros [Hx|Hk]; [cbn in Hx; lia|]. apply Hfull in Hk.
    pose proof (wf_remaining S st1 Hwf1) as Hr1. cbn in Hr1.
    rewrite Hr1. lia. }
  destruct (empty st1 && checkeof st1) eqn:Ee.
  - eexists. split; [reflexivity|]. split; [by apply reassembler_end_input_wf|].
    apply andb_true_iff in Ee as [Ee Ec]. unfold empty in Ee.
    apply andb_true_iff in Ee as [Ee _]. apply Z.eqb_eq, size_0_nil in Ee.
    split_and!; try done; [cbn; lia|]. intros _. right. done.
  - eexists. split; [reflexivity|]. split_and!; try done; [cbn; lia|].
    cbn. unfold ByteStream.input_ended. rewrite Hend. by left.
Qed.
End Deliver.

(** What a non-empty excerpt of [S] that starts inside the window does. *)
Section Push.
Context (S : Z -> byte) (st : StreamReassembler) (d : bytes) (index : Z) (eof : bool).
Context (Hwf : wf S st) (Hd : d = slice S index (length d)).
Context (Hi : 0 <= index <= firstindex st + capacity st).
Context (Hi63 : index + size d < 9223372036854775808).
Context (Hf63 : firstindex st + capacity st < 9223372036854775808).
Let F := firstindex st.
Let hi := firstindex st + capacity st.

(** The store after the loop, before the two trimmings. *)
Lemma push_inserts :
  0 < size d -> firstindex st < index + size d ->
  let st1 := set_checkeof (if eof then eof else checkeof st) st in
  exists l2,
    push_substring d index eof st =
      (st ← trim_front (set_store l2 (total l2) st1); st ← trim_back st; deliver st) /\
    chain S (Z.min index F) l2 /\ Forall (bounds F hi (Z.max (index + size d) hi)) l2 /\
    l2 <> [] /\ total l2 <= total (storelist st) + size d /\
    forall i, covered l2 i <-> covered (storelist st) i \/ index <= i < index + size d.
Proof using All.
  intros Hne Hnew st1. unfold push_substring. cbv zeta. subst F hi. fold st1.
  change (firstindex st1) with (firstindex st). change (storelist st1) with (storelist st).
  change (private_unassembled_bytes st1) with (private_unassembled_bytes st).
  pose proof (wf_first_nonneg _ _ Hwf) as HF. pose proof (wf_cap _ _ Hwf) as Hcap.
  pose proof (wf_count _ _ Hwf) as Hcnt. pose proof (wf_chain _ _ Hwf) as Hch.
  pose proof (wf_upper _ _ Hwf) as Hup.
  pose proof (chain_total _ _ _ _ Hch Hup ltac:(lia)) as Htot.
  replace (size d =? 0) with false by (symmetry; apply Z.eqb_neq; lia).
  unwrap_ints.
  replace (index + size d - 1 <? firstindex st) with false
    by (symmetry; apply Z.ltb_ge; lia).
  destruct (insert_loop_spec S (storelist st) (Z.min index (firstindex st))
    index (index + size d - 1) d 0 (firstindex st) (firstindex st + capacity st)
    (Z.max (index + size d) (firstindex st + capacity st)))
    as (l & ins & sub & u & He & Hc & Hb & Hu & Ht & Hcov); try done; try lia.
  { eapply chain_weaken; [|done]. lia. }
  { rewrite Forall_forall in Hup |- *. intros e Hel. specialize (Hup _ Hel).
    apply chain_lower in Hch. rewrite Forall_forall in Hch. specialize (Hch _ Hel).
    cbn in *. split; unfold stop in *; size_lia. }
  { split; unfold stop; cbn; lia. }
  rewrite Z.add_0_l in He. rewrite Hcnt, He. cbn [mbind result_bind].
  exists (inserted l ins sub). split_and!; try done.
  - f_equal. f_equal. destruct ins; cbn [inserted]; f_equal; [lia|].
    pose proof (total_nonneg l). cbn [inserted] in *. rewrite total_app in *.
    cbn in *. rewrite Hu. rewrite u64_id; size_lia.
  - intros E. specialize (Hcov index). rewrite E, covered_nil in Hcov. lia.
Qed.

Lemma push_fresh :
  0 < size d -> firstindex st < index + size d ->
  exists st', push_substring d index eof st = Ok st' /\ wf S st' /\
    capacity st' = capacity st /\ firstindex st <= firstindex st' /\
    (forall i, known st' i <-> known st i \/ (0 <= index <= i /\ i < index + size d /\ i < hi)) /\
    (known st' (firstindex st') -> ByteStream.remaining_capacity (output st') = 0) /\
    (ByteStream.input_ended (output st') = true ->
       ByteStream.input_ended (output st) = true \/
       (eof || checkeof st = true /\ storelist st' = [])).
Proof using All.
  intros Hne Hnew. destruct (push_inserts Hne Hnew) as (l2 & -> & Hc & Hb & Hnn & Ht & Hcov).
  subst F hi. set (st1 := set_checkeof _ st).
  pose proof (wf_first_nonneg _ _ Hwf) as HF. pose proof (wf_cap _ _ Hwf) as Hcap.
  pose proof (wf_chain _ _ Hwf) as Hch. pose proof (wf_upper _ _ Hwf) as Hup.
  pose proof (chain_total _ _ _ _ Hch Hup ltac:(lia)) as Htot.
  set (top := Z.max (index + size d) (firstindex st + capacity st)) in *.
  destruct (trim_front_spec S (set_store l2 (total l2) st1)
              (firstindex st + capacity st) top) with (lo := Z.min index (firstindex st))
    as (l3 & -> & Hc3 & Hb3 & Hn3 & Ht3 & Hcov3); try done; cbn; try lia.
  destruct (trim_back_spec S (set_store l3 (total l3) st1)
              (firstindex st + capacity st) top)
    as (l4 & E4 & Hc4 & Hup4 & Hn4 & Hcov4); try done; cbn; try lia.
  cbn [mbind result_bind].
  change (set_store l3 (total l3) (set_store l2 (total l2) st1))
    with (set_store l3 (total l3) st1).
  rewrite E4. cbn [mbind result_bind].
  set (st4 := set_store l4 (total l4) _).
  assert (Hwf4 : wf S st4).
  { destruct Hwf. constructor; try done. }
  destruct (deliver_spec S st4 Hwf4) as
    (st5 & E5 & Hwf5 & Hcap5 & Hfi5 & Hk5 & Hmax5 & Hend5); [done|cbn; lia|].
  exists st5. split_and!; try done; cycle 1.
  { intros Hx. destruct (Hend5 Hx) as [?|[? ?]]; [by left|right].
    split; [by destruct eof|done]. }
  intros i. rewrite Hk5. unfold known. cbn. rewrite Hcov4, Hcov3, Hcov. cbn.
  assert (covered (storelist st) i -> firstindex st <= i < firstindex st + capacity st).
  { intros (e & Hel & Hr). rewrite Forall_forall in Hup. specialize (Hup _ Hel).
    apply chain_lower in Hch. rewrite Forall_forall in Hch. specialize (Hch _ Hel).
    cbn in *. lia. }
  destruct (Z.lt_ge_cases i (firstindex st)); split; intros; intuition lia.
Qed.
End Push.

(** An excerpt that ends before [firstindex], or is empty, leaves the store. *)
Lemma push_stale st d index eof :
  0 <= index -> index + size d < 9223372036854775808 ->
  0 < size d -> index + size d <= firstindex st ->
  push_substring d index eof st = Ok (set_checkeof (eof || checkeof st) st).
Proof.
  intros Hi Hb Hne Hold. unfold push_substring. cbv zeta.
  replace (size d =? 0) with false by (symmetry; apply Z.eqb_neq; lia).
  cbn [firstindex set_checkeof]. unwrap_ints.
  replace (index + size d - 1 <? firstindex st) with true
    by (symmetry; apply Z.ltb_lt; lia).
  by destruct eof.
Qed.

Lemma push_empty st index eof :
  push_substring [] index eof st =
  Ok (let st := set_checkeof (eof || checkeof st) st in
      if checkeof st && (firstindex st =? index)
      then set_output (ByteStream.end_input (output st)) st else st).
Proof. by destruct eof. Qed.

(** What the phases of [push_substring] leave alone, on every path. *)
Definition same_frame (s s' : StreamReassembler) : Prop :=
  checkeof s' = checkeof s /\ capacity s' = capacity s /\
  ByteStream.alread (output s') = ByteStream.alread (output s).

Lemma trim_front_frame s s' : trim_front s = Ok s' -> same_frame s s'.
Proof.
  unfold trim_front. destruct (storelist s); [done|]. destruct (_ <? _); intros H; inv_ok;
    by subst.
Qed.

Lemma trim_back_frame s s' : trim_back s = Ok s' -> same_frame s s'.
Proof.
  unfold trim_back. destruct (list.last _); [|done].
  destruct (_ <=? _); intros H; inv_ok; by subst.
Qed.

Lemma deliver_frame s s' : deliver s = Ok s' -> same_frame s s'.
Proof.
  unfold deliver. destruct (storelist s); [done|].
  destruct (_ =? _); intros H; inv_ok; subst; [|done].
  repeat match goal with x : (_ * _)%type |- _ => destruct x end. inv_ok. subst.
  by destruct (_ && _).
Qed.

Lemma push_frame d index eof st st' :
  push_substring d index eof st = Ok st' ->
  same_frame (set_checkeof (eof || checkeof st) st) st'.
Proof.
  unfold push_substring. cbv zeta.
  assert (Hcf : (if eof then eof else checkeof st) = eof || checkeof st) by by destruct eof.
  rewrite Hcf. destruct (size d =? 0); [|destruct (_ <? _)].
  - intros [= <-]. by destruct (_ && _).
  - by intros [= <-].
  - intros H. inv_ok.
    repeat match goal with x : (_ * _)%type |- _ => destruct x end. inv_ok.
    repeat match goal with
    | H : trim_front _ = _ |- _ => apply trim_front_frame in H
    | H : trim_back _ = _ |- _ => apply trim_back_frame in H
    | H : deliver _ = _ |- _ => apply deliver_frame in H
    end.
    unfold same_frame in *. destruct_and!.
    repeat match goal with b : bool |- _ => destruct b end; cbn in *; split_and!; congruence.
Qed.

(** When the last stored bytes have been written and the end is known, the stream ends. *)
Lemma deliver_ends S st st' :
  deliver st = Ok st' -> firstindex st' <> firstindex st -> wf S st' -> storelist st' = [] ->
  checkeof st' = true -> ByteStream.input_ended (output st') = true.
Proof.
  unfold deliver. destruct (storelist st); [done|]. destruct (_ =? _); intros H; inv_ok; [|by subst].
  repeat match goal with x : (_ * _)%type |- _ => destruct x end. inv_ok. subst.
  intros _. set (st1 := mkReassembler _ _ _ _ _ _). destruct (empty st1 && checkeof st) eqn:Ee; [by intros|].
  intros Hwf El Ec. pose proof (wf_count _ _ Hwf) as Hc. rewrite El in Hc.
  unfold empty, unassembled_bytes in Ee. rewrite El, Hc in Ee. change (checkeof st = true) in Ec. rewrite Ec in Ee. discriminate Ee.
Qed.

Lemma trim_first st1 st2 st3 : trim_front st1 = Ok st2 -> trim_back st2 = Ok st3 ->
  firstindex st3 = firstindex st1.
Proof.
  unfold trim_front, trim_back. destruct (storelist st1); [done|].
  destruct (_ <? _); intros H; inv_ok; subst; destruct (list.last _); try done;
    destruct (_ <=? _); intros H2; inv_ok; by subst.
Qed.

Lemma push_ends S st d index eof st' :
  push_substring d index eof st = Ok st' -> wf S st' -> firstindex st' <> firstindex st ->
  storelist st' = [] -> eof || checkeof st = true -> ByteStream.input_ended (output st') = true.
Proof.
  intros Hp Hwf Hf El Hc. destruct (push_frame _ _ _ _ _ Hp) as [Hck _].
  revert Hp. unfold push_substring. cbv zeta. destruct (size d =? 0); [|destruct (_ <? _)].
  - intros [= <-]. by destruct (_ && _).
  - by intros [= <-].
  - intros H. inv_ok. repeat match goal with x : (_ * _)%type |- _ => destruct x end. inv_ok.
    match goal with Ht : trim_front _ = Ok ?a, Hb : trim_back ?a = Ok ?b, Hd : deliver ?b = Ok _ |- _ =>
      pose proof (trim_first _ _ _ Ht Hb) as Ef; apply (deliver_ends S _ _ Hd) end; try done.
    + rewrite Ef. by repeat match goal with b : bool |- _ => destruct b end.
    + by rewrite Hck.
Qed.

(** Where stored excerpts start: at the start of an excerpt that arrived, at the
    first missing byte, or, with bytes that found no room, at the new first index. *)
Section Starts.
Context (B : Z).
Abbreviation starts_below := (Forall (fun e => first e < B)).

Lemma insert_loop_starts l : forall sb se ss u l' ins sub u',
  insert_loop l sb se ss u = Ok (l', ins, sub, u') -> sb < B -> starts_below l ->
  starts_below (inserted l' ins sub).
Proof using.
  induction l as [|t l IH]; intros sb se ss u l' ins sub u'; cbn [insert_loop].
  - intros [= <- <- <- <-] Hsb _. cbn. by repeat constructor.
  - intros H Hsb [Ht Hl]%Forall_cons. destruct (_ <? sb); [|destruct (_ <? first t)].
    + inv_ok. destruct x as [[[l2 ins2] sub2] u2]. inv_ok. subst.
      specialize (IH _ _ _ _ _ _ _ _ ltac:(eassumption) Hsb Hl). destruct ins; cbn in *; by constructor.
    + injection H as <- <- <- <-. cbn. by repeat constructor.
    + inv_ok. destruct x as [[sb2 se2] ss2]. eapply IH; [eassumption| |done].
      match goal with H : merge_overlap _ _ _ _ = _ |- _ => revert H end. unfold merge_overlap.
      repeat case_match; intros H'; inv_ok; simplify_eq; lia.
Qed.

Lemma trims_start st1 st2 st3 :
  trim_front st1 = Ok st2 -> trim_back st2 = Ok st3 -> firstindex st1 < B ->
  starts_below (storelist st1) -> starts_below (storelist st3).
Proof using.
  intros H1 H2 HF Hl. assert (Hl2 : starts_below (storelist st2)).
  { revert H1. unfold trim_front. destruct (storelist st1) as [|f l] eqn:El; [done|].
    apply Forall_cons in Hl as [Hf Hl].
    destruct (_ <? _); intros H; inv_ok; subst; [by constructor|rewrite El; by constructor]. }
  revert H2. unfold trim_back. destruct (list.last (storelist st2)) as [b|] eqn:Eb; [|done].
  destruct (_ <=? _); intros H; inv_ok; subst; [|done]. cbn.
  apply list.last_Some in Eb as [l El]. rewrite El, Forall_app in Hl2.
  rewrite El, List.removelast_last. apply Forall_app. split; [apply Hl2|].
  destruct Hl2 as [_ [Hb _]%Forall_cons]. by repeat constructor.
Qed.

Lemma deliver_starts st st' :
  deliver st = Ok st' -> starts_below (storelist st) ->
  Forall (fun e => first e < B \/ first e = firstindex st' /\ 0 < size (data e)) (storelist st').
Proof using.
  assert (Hw : forall l, starts_below l ->
    Forall (fun e => first e < B \/ first e = firstindex st' /\ 0 < size (data e)) l).
  { intros l Hl. eapply Forall_impl; [exact Hl|]. by left. }
  unfold deliver. destruct (storelist st) as [|f l] eqn:El; [done|].
  intros H Hl. destruct (_ =? _); inv_ok; [|subst; apply Hw; by rewrite El].
  destruct x as [[send l2] fi]. inv_ok. apply Forall_cons in Hl as [_ Hl].
  assert (El2 : storelist st' = l2 /\ firstindex st' = fi) by (subst st'; by destruct (_ && _)).
  destruct El2 as [-> Ef]. match goal with H : _ = st' |- _ => clear H end. match goal with H : take_front _ _ _ = _ |- _ => revert H end.
  unfold take_front. case_Z; intros H'; inv_ok; simplify_eq; [|by apply Hw].
  constructor; [right|by apply Hw]. split; [done|]. cbn.
  pose proof (u64_range (ByteStream.bs_max (output st) - size (ByteStream.content (output st)))).
  unfold ByteStream.remaining_capacity in *.
  match goal with H : substr _ _ _ = Ok _ |- _ => unfold substr, npos in H; revert H end.
  case_Z; [done|]. intros [= <-]. unfold size in *. rewrite length_take, length_drop. lia.
Qed.

Lemma push_starts d index eof st st' :
  push_substring d index eof st = Ok st' -> index < B -> firstindex st < B ->
  starts_below (storelist st) ->
  Forall (fun e => first e < B \/ first e = firstindex st' /\ 0 < size (data e)) (storelist st').
Proof using.
  intros Hp Hi HF Hl. revert Hp. unfold push_substring. cbv zeta.
  destruct (size d =? 0); [|destruct (_ <? _)].
  - intros [= <-]. destruct (_ && _); (eapply Forall_impl; [exact Hl|]; by left).
  - intros [= <-]. eapply Forall_impl; [exact Hl|]. by left.
  - intros H. inv_ok. destruct x as [[[l ins] sub] u]. inv_ok.
    match goal with H : insert_loop _ _ _ _ _ = _ |- _ => apply insert_loop_starts in H; [|done|done] end.
    eapply deliver_starts; [eassumption|]. eapply trims_start; [eassumption..| |].
    + by destruct ins.
    + by destruct ins.
Qed.
End Starts.

Lemma push_spec S st d index eof :
  wf S st -> d = slice S index (length d) ->
  0 <= index <= firstindex st + capacity st ->
  index + size d < 9223372036854775808 ->
  firstindex st + capacity st < 9223372036854775808 ->
  exists st', push_substring d index eof st = Ok st' /\ wf S st' /\
    (forall i, known st' i <-> known st i \/
       (index <= i < index + size d /\ i < firstindex st + capacity st)) /\
    (0 < size d -> firstindex st < index + size d -> known st' (firstindex st') ->
       ByteStream.remaining_capacity (output st') = 0).
Proof.
  intros Hwf Hd Hi H63 Hf63. pose proof (size_nonneg d).
  pose proof (wf_first_nonneg _ _ Hwf). pose proof (wf_cap _ _ Hwf).
  destruct (Z.eq_dec (size d) 0) as [E|E].
  - apply size_0_nil in E. subst d. rewrite push_empty. eexists. split; [reflexivity|].
    size_simpl. cbv zeta. split.
    { destruct (_ && _); [apply reassembler_end_input_wf|]; by apply set_checkeof_wf. }
    split; [|lia]. intros i. destruct (_ && _); unfold known; cbn; lia || intuition lia.
  - destruct (Z.lt_ge_cases (firstindex st) (index + size d)) as [Hn|Ho].
    + destruct (push_fresh S st d index eof) as
        (st' & E1 & Hwf' & _ & _ & Hk & Hm & _); try done; try lia.
      exists st'. split_and!; try done. intros i. rewrite Hk. intuition lia.
    + rewrite push_stale by (done || lia). eexists. split; [reflexivity|].
      split; [by apply set_checkeof_wf|]. split; [|lia].
      intros i. unfold known. cbn. intuition lia.
Qed.

(** C21: pushing any excerpt of the peer's stream [S] that starts within the
    window (at most [capacity] past the first unassembled byte) succeeds and
    keeps the invariant: the output holds a prefix of [S], the store holds bytes
    of [S] at their own indices, sorted, disjoint and inside the window.  The
    bytes known afterwards are those known before plus the excerpt cut at the
    end of the window; and when the excerpt brings a new byte, delivery is
    greedy: it stops only at an unknown byte or when the output is full. *)
Theorem push_substring_correct S st d index eof :
  wf S st -> d = slice S index (length d) ->
  0 <= index <= firstindex st + capacity st ->
  index + size d < 9223372036854775808 ->
  firstindex st + capacity st < 9223372036854775808 ->
  exists st', push_substring d index eof st = Ok st' /\ wf S st' /\
    (forall i, known st' i <-> known st i \/
       (index <= i < index + size d /\ i < firstindex st + capacity st)) /\
    (0 < size d -> firstindex st < index + size d -> known st' (firstindex st') ->
       ByteStream.remaining_capacity (output st') = 0).
Proof. apply push_spec. Qed.

Lemma push_substring_correct_witness :
  let S := fun i => if i =? 1 then Byte.x62 else Byte.x61 in
  exists st', push_substring [Byte.x62; Byte.x61] 1 false (construct 8) = Ok st' /\
    known st' 2 /\ unassembled_bytes st' = 2.
Proof.
  set (S := fun i => if i =? 1 then Byte.x62 else Byte.x61).
  destruct (push_substring_correct S (construct 8) [Byte.x62; Byte.x61] 1 false)
    as (st' & E & Hwf & Hk & _).
  - apply reassembler_construct_wf. lia.
  - reflexivity.
  - cbn. lia.
  - vm_compute. reflexivity.
  - vm_compute. reflexivity.
  - exists st'. split; [done|]. split; [apply Hk; right; vm_compute; intuition congruence|].
    vm_compute in E. injection E as <-. reflexivity.
Defined.

(** ** Runs: arrivals and reads in any order *)

Section Run.
(** The peer's stream is the first [L] bytes of [S]. *)
Context (S : Z -> byte) (L : Z) (HL0 : 0 <= L) (HL63 : L < 9223372036854775808).

(** An arrival: an excerpt of the stream that starts in the window and, when
    it carries the end of the stream, ends the stream inside the window.  An
    empty excerpt that marks the end finds all of the stream there; one that
    does not, finds the end unmarked, or is not at the first unassembled
    byte, or all of the stream is there. *)
Definition arrival (st : StreamReassembler) (d : bytes) (index : Z) (eof : bool) : Prop :=
  d = slice S index (length d) /\ 0 <= index <= firstindex st + capacity st /\
  index + size d <= L /\ firstindex st + capacity st < 9223372036854775808 /\
  (eof = true -> index + size d = L /\ L <= firstindex st + capacity st) /\
  (d = [] -> (eof = true /\ firstindex st = L) \/
    (eof = false /\ (checkeof st = true -> firstindex st = index -> firstindex st = L))).

(** One step, with the bytes the application has read so far. *)
Inductive step : bytes * StreamReassembler -> bytes * StreamReassembler -> Prop :=
| step_push r st st' d index eof :
    arrival st d index eof -> push_substring d index eof st = Ok st' ->
    step (r, st) (r, st')
| step_read r st len s o :
    0 <= len -> ByteStream.read len (output st) = (s, o) ->
    step (r, st) (r ++ s, set_output o st).

Record run_inv (r : bytes) (st : StreamReassembler) : Prop := {
  inv_wf : wf S st;
  inv_read : r = slice S 0 (length r);
  inv_alread : ByteStream.alread (output st) = size r;
  inv_known : forall i, known st i -> i < L;
  inv_eof : checkeof st = true -> 0 < L -> known st (L - 1);
  inv_end : ByteStream.input_ended (output st) = true -> firstindex st = L;
  inv_stored : Forall (fun e => first e < L) (storelist st)
}.

Lemma read_output_wf st len s o :
  wf S st -> 0 <= len -> ByteStream.read len (output st) = (s, o) ->
  firstindex st < M64 ->
  wf S (set_output o st) /\ s = slice S (ByteStream.alread (output st)) (length s) /\
  ByteStream.alread o = ByteStream.alread (output st) + size s /\
  ByteStream.input_ended o = ByteStream.input_ended (output st).
Proof using.
  intros Hwf Hl. rewrite ByteStream.read_peek_pop by done. intros [= <- <-] H64.
  destruct Hwf as [Ho Hc Hm Hw Hf Hct Hch Hu Hcnt].
  pose proof (ByteStream.pop_wf len _ Hl Ho) as Ho'.
  pose proof (ByteStream.wf_read _ Ho).
  pose proof (ByteStream.peek_pop_content len (output st)) as Happ.
  set (p := ByteStream.peek_output len (output st)) in *.
  set (c := ByteStream.content (ByteStream.pop_output len (output st))) in *.
  assert (Hp : p = take (length p) (ByteStream.content (output st))).
  { rewrite <- Happ. by rewrite take_app_length. }
  assert (Hc' : c = drop (length p) (ByteStream.content (output st))).
  { rewrite <- Happ. by rewrite drop_app_length. }
  assert (Hsz : size (ByteStream.content (output st)) = size p + size c).
  { rewrite <- Happ. apply size_app. }
  assert (Hrd : ByteStream.alread (ByteStream.pop_output len (output st))
                = ByteStream.alread (output st) + size p).
  { cbn. assert (size p = if len <=? ByteStream.buffer_size (output st) then len
                         else ByteStream.buffer_size (output st)) as <-.
    { subst p. unfold ByteStream.peek_output, ByteStream.buffer_size.
      rewrite substr0_size; case_Z; size_lia. }
    apply u64_id. size_lia. }
  split_and!; try done.
  - constructor; cbn [output set_output]; try done.
    + rewrite Hrd. fold c. change (firstindex (set_output _ st)) with (firstindex st).
      lia.
    + rewrite Hrd. fold c. rewrite Hc' at 1. rewrite Hct at 1. rewrite slice_drop.
      rewrite Hc', length_drop. done.
  - rewrite Hp at 1. rewrite Hct at 1. rewrite slice_take. f_equal.
    unfold size in Hsz. lia.
Qed.

Lemma inv_first_le r st : run_inv r st -> firstindex st <= L.
Proof using HL0.
  intros Hinv. pose proof (wf_first_nonneg _ _ (inv_wf _ _ Hinv)).
  destruct (Z.eq_dec (firstindex st) 0); [lia|].
  pose proof (inv_known _ _ Hinv (firstindex st - 1) ltac:(left; lia)). lia.
Qed.

Lemma push_empty_inv r st index eof st' :
  run_inv r st -> arrival st [] index eof -> push_substring [] index eof st = Ok st' ->
  run_inv r st'.
Proof using.
  intros [Hwf Hr Har Hk He Hend Hst] (_ & _ & _ & _ & _ & Hemp) Hp.
  rewrite push_empty in Hp. injection Hp as <-. cbv zeta.
  assert (Hc' : eof || checkeof st = true -> 0 < L -> known st (L - 1)).
  { intros Hc HLp. destruct (Hemp eq_refl) as [[_ HF]|[-> _]]; [left; lia|by apply He]. }
  destruct ((eof || checkeof st) && (firstindex st =? index)) eqn:Hb;
    cbn in Hb |- *; rewrite ?Hb; constructor; cbn; try done.
  all: first [by apply set_checkeof_wf
             |by apply (reassembler_end_input_wf S (set_checkeof _ st)), set_checkeof_wf|idtac].
  intros _. apply andb_true_iff in Hb as [Hb1 Hb2%Z.eqb_eq].
  destruct (Hemp eq_refl) as [[_ HF]|[-> HF]]; [done|]. by apply HF.
Qed.

Lemma push_fresh_inv r st d index eof st' :
  run_inv r st -> arrival st d index eof -> 0 < size d -> firstindex st < index + size d ->
  push_substring d index eof st = Ok st' -> run_inv r st'.
Proof using All.
  intros [Hwf Hr Har Hk He Hend Hst] (Hd & Hi & HL & H63 & Heof & _) E Hn Hp.
  destruct (push_fresh S st d index eof) as
    (st2 & E1 & Hwf' & Hc2 & Hf2 & Hk2 & _ & Hend2); try done; try lia.
  rewrite E1 in Hp. injection Hp as ->. destruct (push_frame _ _ _ _ _ E1) as (Hx & _ & Hrd).
  assert (Hk' : forall i, known st' i -> i < L).
  { intros i [Hki|?]%Hk2; [by apply Hk|lia]. }
  assert (He' : checkeof st' = true -> 0 < L -> known st' (L - 1)).
  { intros Hc HLp. apply Hk2. rewrite Hx in Hc.
    destruct eof; [right; destruct (Heof eq_refl); lia|left; by apply He]. }
  constructor; try done; [by rewrite Hrd| |].
  - intros Hie. destruct (Hend2 Hie) as [Hold|[Hc Hnil]]; [apply Hend in Hold; lia|].
    assert (Hkl : known st' (L - 1)) by (apply He'; [by rewrite Hx|lia]).
    pose proof (wf_first_nonneg _ _ Hwf').
    destruct (Z.eq_dec (firstindex st') 0) as [|Hpos];
      [|specialize (Hk' (firstindex st' - 1) ltac:(left; lia))];
      destruct Hkl as [?|Hkl]; try lia; rewrite Hnil in Hkl; by apply covered_nil in Hkl.
  - pose proof (push_starts L _ _ _ _ _ E1 ltac:(lia) ltac:(lia) Hst) as Hs.
    rewrite Forall_forall in Hs |- *. intros e Hin.
    destruct (Hs e Hin) as [?|[Hf Hsz]]; [done|]. apply Hk'. right. exists e. split; [done|].
    unfold stop. lia.
Qed.

Lemma push_stale_inv r st d index eof st' :
  run_inv r st -> arrival st d index eof -> 0 < size d -> index + size d <= firstindex st ->
  firstindex st <= L -> push_substring d index eof st = Ok st' -> run_inv r st'.
Proof using All.
  intros [Hwf Hr Har Hk He Hend Hst] (Hd & Hi & HL & H63 & Heof & _) E Ho HF Hp.
  rewrite push_stale in Hp by (done || lia). injection Hp as <-.
  constructor; cbn; try done; [by apply set_checkeof_wf|].
  intros Hc HLp. destruct eof; [|by apply He]. destruct (Heof eq_refl). left. cbn. lia.
Qed.

Lemma read_inv r st len s o :
  run_inv r st -> 0 <= len -> ByteStream.read len (output st) = (s, o) -> firstindex st < M64 ->
  run_inv (r ++ s) (set_output o st).
Proof using.
  intros [Hwf Hr Har Hk He Hend Hst] Hlen Hrd H64.
  destruct (read_output_wf st len s o) as (Hwf' & Hs & Ha & Hie); try done.
  constructor; cbn; try done.
  - rewrite length_app, slice_app, <- Hr. f_equal. rewrite Hs at 1. f_equal. by rewrite Har.
  - by rewrite Ha, Har, size_app.
  - by rewrite Hie.
Qed.

Lemma reassembler_step_inv r st r' st' :
  run_inv r st -> step (r, st) (r', st') -> run_inv r' st'.
Proof using All.
  intros Hinv Hstep. pose proof (inv_first_le _ _ Hinv) as HF.
  inversion Hstep as [? ? ? d index eof Ha Hp|? ? len s o Hlen Hrd]; subst;
    [|apply (read_inv _ _ len); try done; lia].
  pose proof (size_nonneg d).
  destruct (Z.eq_dec (size d) 0) as [E%size_0_nil|E]; [|destruct (Z.lt_ge_cases (firstindex st) (index + size d))].
  - subst d. by eapply push_empty_inv.
  - eapply push_fresh_inv; [done|done|lia|done|done].
  - eapply push_stale_inv; [done|done|lia|done|done|done].
Qed.

(** No arrival throws. *)
Lemma arrival_ok r st d index eof :
  run_inv r st -> arrival st d index eof ->
  exists st', push_substring d index eof st = Ok st' /\ step (r, st) (r, st').
Proof using All.
  intros Hinv Ha. pose proof Ha as (Hd & Hi & HL & H63 & _).
  destruct (push_spec S st d index eof) as (st' & Hp & _);
    [apply Hinv|done|done|lia|done|].
  exists st'. split; [done|]. by econstructor.
Qed.

Lemma run_content r st :
  run_inv r st -> r ++ ByteStream.content (output st) = slice S 0 (Z.to_nat (firstindex st)).
Proof using.
  intros [Hwf Hr Har _ _ _ _].
  rewrite Hr, (wf_content _ _ Hwf), Har. unfold size. rewrite <- (slice_app S 0).
  f_equal. rewrite (wf_first _ _ Hwf), Har. unfold size. lia.
Qed.

Lemma reassembler_run_reaches c r st :
  0 < c < M64 -> rtc step ([], construct c) (r, st) -> run_inv r st.
Proof using All.
  intros Hc Hrun. change (run_inv (r, st).1 (r, st).2).
  revert Hrun. generalize (r, st). apply rtc_ind_r.
  - constructor; cbn; try done; [by apply reassembler_construct_wf|].
    intros i [?|Hi]; cbn in *; [lia|]. by apply covered_nil in Hi.
  - intros [r1 st1] [r2 st2] _ Hs Hinv. by eapply reassembler_step_inv.
Qed.

(** C13: end-to-end reassembly, for excerpts that respect the window.  Start from an
    empty reassembler and let excerpts of a stream of [L] bytes arrive, in any order and
    with any overlap that [arrival] allows, interleaved with reads: each excerpt starts in the
    window of its moment, or right behind it; one that carries the end of the stream fits
    in that window; and an empty one marks the end only when every byte is assembled, nor does
    an empty one without the mark come at the first missing byte once the end is marked.
    Then what the application has read, followed by
    what it can still read, is exactly the first [firstindex] bytes of the
    stream; the end of input is signalled only once all [L] bytes are there;
    the bytes waiting in the store never exceed the capacity; and no further such excerpt
    makes [push_substring] throw.  Without the three conditions this is false:
    [beyond_window_stored_then_throws], [truncated_end_is_signalled] and
    [early_end_marker_truncates]. *)
Theorem reassembly_correct c r st :
  0 < c < M64 -> rtc step ([], construct c) (r, st) ->
  r ++ ByteStream.content (output st) = slice S 0 (Z.to_nat (firstindex st)) /\
  firstindex st <= L /\
  (ByteStream.input_ended (output st) = true -> firstindex st = L) /\
  unassembled_bytes st <= capacity st /\
  (forall d index eof, arrival st d index eof -> exists st', push_substring d index eof st = Ok st').
Proof using All.
  intros Hc Hrun. pose proof (reassembler_run_reaches c r st Hc Hrun) as Hinv.
  pose proof (arrival_ok r st) as Hok.
  pose proof (inv_first_le _ _ Hinv) as HF. pose proof Hinv as [Hwf Hr Har Hk He Hend].
  pose proof (wf_cap _ _ Hwf).
  pose proof (chain_total _ _ _ _ (wf_chain _ _ Hwf) (wf_upper _ _ Hwf) ltac:(lia)).
  split_and!; try done.
  - by apply run_content.
  - unfold unassembled_bytes. rewrite (wf_count _ _ Hwf). lia.
  - intros d index eof Ha. destruct (Hok d index eof Hinv Ha) as (st' & E & _). by exists st'.
Qed.
End Run.

Lemma reassembly_correct_witness :
  let S := fun i => if i =? 0 then Byte.x61 else Byte.x62 in
  exists st, rtc (step S 3) ([], construct 8) ([Byte.x61], st) /\
    ByteStream.content (output st) = [Byte.x62; Byte.x62] /\
    ([Byte.x61] ++ ByteStream.content (output st) = slice S 0 3) /\
    (ByteStream.input_ended (output st) = true -> firstindex st = 3).
Proof.
  set (S := fun i => if i =? 0 then Byte.x61 else Byte.x62).
  assert (Hrun : rtc (step S 3) ([], construct 8) ([Byte.x61],
    mkReassembler 0 true [] 3
      (ByteStream.mkByteStream false true [Byte.x62; Byte.x62] 1 3 8) 8)).
  { eapply rtc_l.
    { eapply (step_push S 3) with (d := [Byte.x62; Byte.x62]) (index := 1) (eof := true).
      - unfold arrival. cbn. split_and!; try done; vm_compute; intuition congruence.
      - vm_compute. reflexivity. }
    eapply rtc_l.
    { eapply (step_push S 3) with (d := [Byte.x61; Byte.x62]) (index := 0) (eof := false).
      - unfold arrival. cbn. split_and!; try done; vm_compute; intuition congruence.
      - vm_compute. reflexivity. }
    apply rtc_once.
    exact (step_read S 3 [] (mkReassembler 0 true [] 3 (ByteStream.mkByteStream false true
        [Byte.x61; Byte.x62; Byte.x62] 0 3 8) 8) 1 [Byte.x61]
      (ByteStream.mkByteStream false true [Byte.x62; Byte.x62] 1 3 8)
      ltac:(lia) eq_refl). }
  eexists. split; [exact Hrun|]. split; [reflexivity|].
  destruct (reassembly_correct S 3 ltac:(lia) ltac:(lia) 8 _ _ ltac:(lia) Hrun)
    as (H1 & _ & H2 & _).
  split; [exact H1|exact H2].
Defined.

(** ** Arrivals outside the window, and the end of the stream *)

(** A single excerpt pushed into a fresh reassembler, past its window. *)
Lemma push_beyond c d index :
  0 < c < 4611686018427387904 -> c < index < 4611686018427387904 ->
  0 < size d < 4611686018427387904 ->
  push_substring d index false (construct c) =
  Ok (mkReassembler (size d) false [mkInfor index (c - 1) d] 0
        (ByteStream.construct c) c).
Proof.
  intros Hc Hi Hd.
  set (st1 := mkReassembler (size d) false [mkInfor index (index + size d - 1) d] 0
                (ByteStream.construct c) c).
  set (st2 := mkReassembler (size d) false [mkInfor index (c - 1) d] 0
                (ByteStream.construct c) c).
  assert (E1 : trim_front st1 = Ok st1).
  { unfold trim_front. cbn. case_Z; [lia|done]. }
  assert (E2 : trim_back st1 = Ok st2).
  { unfold trim_back. cbn. rewrite (u64_id (0 + c)), (u64_id (index + size d - 1 + 1)) by lia.
    case_Z; [|lia]. rewrite (u64_shift (-1) (0 + c - index)), (u64_id (0 + c - 1)) by lia.
    rewrite substr0_all by lia. unfold set_store. cbn. unfold st2.
    rewrite (u64_id (size d - size d)), (u64_id (size d - size d + size d)) by lia.
    repeat f_equal; lia. }
  assert (E3 : deliver st2 = Ok st2).
  { unfold deliver. cbn. case_Z; [lia|done]. }
  unfold push_substring. cbv zeta.
  replace (size d =? 0) with false by (symmetry; apply Z.eqb_neq; lia).
  cbn [construct set_checkeof checkeof firstindex storelist private_unassembled_bytes
       insert_loop mbind result_bind data].
  rewrite (u64_id (index + size d)), (u64_id (index + size d - 1)), (u64_id (0 + size d)) by lia.
  case_Z; [lia|]. rewrite Z.add_0_l. 
  change ((s ← trim_front st1; s' ← trim_back s; deliver s') = Ok st2).
  rewrite E1. cbn [mbind result_bind]. rewrite E2. exact E3.
Qed.

(** Once the iterator has passed an element, the two loops do the same. *)
Lemma insert_iter_passed l : forall e before sb se ss u,
  insert_iter (e :: before) l sb se ss u =
  ('(l', ins, sub, u') ← insert_loop l sb se ss u; Ok (reverse (e :: before) ++ l', ins, sub, u')).
Proof.
  induction l as [|t l IH]; intros e before sb se ss u; cbn [insert_iter insert_loop].
  - cbn. by rewrite app_nil_r.
  - destruct (_ <? sb).
    { rewrite IH. destruct (insert_loop l sb se ss u) as [[[[l' ins] sub] u']|]; [|done].
      cbn [mbind result_bind]. by rewrite (reverse_cons _ t), <- app_assoc. }
    destruct (_ <? first t); [done|].
    destruct (merge_overlap t sb se ss) as [[[sb' se'] ss']|]; [|done]. cbn [mbind result_bind]. apply IH.
Qed.

(** The insertion loop has defined behaviour exactly when the new excerpt does not touch
    the first stored one, and then it does what [insert_loop] says.  Otherwise the first
    element is erased and the iterator, then at the beginning, is decremented. *)
Theorem front_merge_undefined l sb se ss u :
  insert_iter [] l sb se ss u =
  match l with
  | t :: _ => if merges_front l sb se then _ ← merge_overlap t sb se ss; Throw undefined_behaviour
              else insert_loop l sb se ss u
  | [] => insert_loop l sb se ss u
  end.
Proof.
  destruct l as [|t l]; [done|]. cbn [insert_iter insert_loop merges_front].
  destruct (_ <? sb); cbn [negb andb].
  { rewrite insert_iter_passed. by destruct (insert_loop l sb se ss u) as [[[[l' ins] sub] u']|]. }
  destruct (_ <? first t); [done|]. cbn [negb].
  by destruct (merge_overlap t sb se ss) as [[[sb' se'] ss']|].
Qed.

(** It takes two adjacent excerpts in the wrong order. *)
Example reordered_bytes_undefined :
  (st ← push_substring [Byte.x62] 1 false (construct 8);
   insert_iter [] (storelist st) 0 0 [Byte.x61] (private_unassembled_bytes st))
  = Throw undefined_behaviour.
Proof. by vm_compute. Qed.

(** Nothing discards an excerpt that starts past the window.  It is stored
    whole, whatever the capacity, with an end index that does not match its
    data; and a second excerpt that touches the first one makes
    [push_substring] throw [std::out_of_range] from inside [substr]. *)
Theorem beyond_window_stored_then_throws c d index d2 :
  0 < c < 4611686018427387904 -> c < index < 4611686018427387904 ->
  1 < size d < 4611686018427387904 -> 0 < size d2 < 4611686018427387904 ->
  exists st, push_substring d index false (construct c) = Ok st /\
    unassembled_bytes st = size d /\
    push_substring d2 (index + size d - 1) false st = Throw out_of_range.
Proof.
  intros Hc Hi Hd Hd2. eexists. split; [apply push_beyond; lia|]. split; [done|].
  unfold push_substring. cbv zeta.
  replace (size d2 =? 0) with false by (symmetry; apply Z.eqb_neq; lia).
  cbn. unwrap_ints.
  replace (index + size d - 1 + size d2 - 1 <? 0) with false
    by (symmetry; apply Z.ltb_ge; lia).
  replace (index + size d <? index + size d - 1) with false
    by (symmetry; apply Z.ltb_ge; lia).
  replace (index + size d - 1 + size d2 - 1 + 1 <? index) with false
    by (symmetry; apply Z.ltb_ge; lia).
  unfold merge_overlap. cbn.
  replace (index <=? index + size d - 1) with true by (symmetry; apply Z.leb_le; lia).
  replace (index + size d - 1 + size d2 - 1 <=? c - 1) with false
    by (symmetry; apply Z.leb_gt; lia).
  replace (c - 1 <=? index + size d - 1 + size d2 - 1) with true
    by (symmetry; apply Z.leb_le; lia). cbn.
  unwrap_ints. rewrite (u64_shift (-1)) by lia. unfold substr.
  case_Z; [done|lia].
Qed.

Lemma beyond_window_stored_then_throws_witness :
  exists st, push_substring [Byte.x61; Byte.x62; Byte.x63] 5 false (construct 2) = Ok st /\
    unassembled_bytes st = 3 /\
    push_substring [Byte.x63] 7 false st = Throw out_of_range.
Proof.
  apply (beyond_window_stored_then_throws 2 [Byte.x61; Byte.x62; Byte.x63] 5 [Byte.x63]);
    vm_compute; intuition congruence.
Defined.

(** The next excerpt in order, with nothing stored and an empty output: it is
    cut at the capacity, written, and ends the input when the end was seen. *)
Lemma push_alone F ck o c d eof :
  0 <= F -> 0 < c -> F + c < 4611686018427387904 ->
  0 < size d -> F + size d < 4611686018427387904 ->
  ByteStream.content o = [] -> ByteStream.bs_max o = c ->
  push_substring d F eof (mkReassembler 0 ck [] F o c) =
  let o' := snd (ByteStream.write (substr0 d c) o) in
  Ok (mkReassembler 0 (eof || ck) [] (F + Z.min c (size d))
        (if eof || ck then ByteStream.end_input o' else o') c).
Proof.
  intros HF Hc HFc Hd HFd Ho Hm.
  set (st1 := mkReassembler (size d) (eof || ck) [mkInfor F (F + size d - 1) d] F o c).
  set (n := Z.min c (size d)).
  set (st2 := mkReassembler n (eof || ck) [mkInfor F (F + n - 1) (substr0 d c)] F o c).
  assert (Hn : size (substr0 d c) = n) by (rewrite substr0_size; lia).
  assert (E1 : trim_front st1 = Ok st1).
  { unfold trim_front. cbn. case_Z; [lia|done]. }
  assert (E2 : trim_back st1 = Ok st2).
  { unfold trim_back. cbn.
    rewrite (u64_id (F + c)), (u64_id (F + size d - 1 + 1)) by lia.
    rewrite (u64_id (F + c - F)), (u64_id (F + c - 1)), (u64_id (size d - size d)) by lia.
    replace (F + c - F) with c by lia. rewrite Hn.
    unfold set_store. cbn. subst st2. case_Z.
    - rewrite u64_id by lia. repeat f_equal; lia.
    - rewrite substr0_all by lia. subst st1. repeat f_equal; lia. }
  set (o' := snd (ByteStream.write (substr0 d c) o)).
  assert (E3 : deliver st2 = Ok (mkReassembler 0 (eof || ck) [] (F + n)
        (if eof || ck then ByteStream.end_input o' else o') c)).
  { subst st2. unfold deliver. cbn [storelist first firstindex output data].
    rewrite Z.eqb_refl. unfold take_front. cbn [data first last].
    unfold ByteStream.remaining_capacity. rewrite Ho, Hm. size_simpl.
    rewrite Hn, (u64_id (c - 0)) by lia. case_Z; [lia|].
    cbn [mbind result_bind private_unassembled_bytes capacity checkeof].
    rewrite Hn, (u64_id (n - n)), (u64_id (F + n - 1 + 1)) by lia.
    unfold empty, unassembled_bytes. cbn. fold o'.
    replace (n - n) with 0 by lia. replace (F + n - 1 + 1) with (F + n) by lia.
    cbn. by destruct (eof || ck). }
  unfold push_substring. cbv zeta.
  replace (size d =? 0) with false by (symmetry; apply Z.eqb_neq; lia).
  replace (if eof then eof else _) with (eof || ck) by by destruct eof.
  cbn [set_checkeof checkeof firstindex storelist private_unassembled_bytes
       insert_loop mbind result_bind data].
  rewrite (u64_id (F + size d)), (u64_id (F + size d - 1)), (u64_id (0 + size d)) by lia.
  replace (F + size d - 1 <? F) with false by (symmetry; apply Z.ltb_ge; lia).
  rewrite Z.add_0_l.
  change ((s ← trim_front st1; s' ← trim_back s; deliver s') =
          Ok (mkReassembler 0 (eof || ck) [] (F + n)
                (if eof || ck then ByteStream.end_input o' else o') c)).
  rewrite E1. cbn [mbind result_bind]. rewrite E2. exact E3.
Qed.

(** The end of the stream is tracked as a flag, not as an index.  When an
    empty excerpt announces the end at index [n] before the data (a bare FIN
    that overtook it), the first byte that then arrives in order ends the input
    although [n - 1] bytes are still missing. *)
Theorem early_end_marker_truncates c n x :
  0 < c < 2305843009213693952 -> 1 < n ->
  exists st st', push_substring [] n true (construct c) = Ok st /\
    push_substring [x] 0 false st = Ok st' /\
    ByteStream.input_ended (output st') = true /\
    ByteStream.bytes_written (output st') = 1 /\ 1 < n.
Proof.
  intros Hc Hn. rewrite push_empty. cbv zeta. cbn [construct checkeof firstindex set_checkeof orb andb].
  replace (0 =? n) with false by (symmetry; apply Z.eqb_neq; lia).
  do 2 eexists. split; [reflexivity|]. split.
  { apply push_alone; cbn; try lia; try done. }
  cbv zeta. cbn [orb output]. split; [done|]. split; [|done].
  assert (Hw : ByteStream.wf (ByteStream.construct c)) by (apply ByteStream.construct_wf; lia).
  assert (H1 : size [x] = 1) by reflexivity. cbn [construct capacity output].
  rewrite substr0_all by lia.
  pose proof (ByteStream.write_accepts [x] _ Hw) as Ha. rewrite H1 in Ha.
  unfold ByteStream.bytes_written. cbn in Ha |- *. rewrite Ha. size_simpl.
  rewrite Z.min_l by lia. reflexivity.
Qed.

Lemma early_end_marker_truncates_witness :
  exists st st', push_substring [] 3 true (construct 8) = Ok st /\
    push_substring [Byte.x61] 0 false st = Ok st' /\
    ByteStream.input_ended (output st') = true /\
    ByteStream.bytes_written (output st') = 1 /\ 1 < 3.
Proof. apply (early_end_marker_truncates 8 3 Byte.x61); lia. Defined.

(** An excerpt that carries the end of the stream but does not fit in the
    window is cut at the capacity, and the input is ended all the same: the
    bytes past the capacity are lost and the reader sees a complete stream. *)
Theorem truncated_end_is_signalled c d :
  0 < c -> c < size d < 2305843009213693952 ->
  exists st, push_substring d 0 true (construct c) = Ok st /\
    ByteStream.input_ended (output st) = true /\
    ByteStream.content (output st) = substr0 d c /\
    ByteStream.bytes_written (output st) = c.
Proof.
  intros Hc Hd. eexists. split; [apply push_alone; cbn; lia || done|].
  cbv zeta. cbn [orb output]. split; [done|].
  assert (Hw : ByteStream.wf (ByteStream.construct c)) by (apply ByteStream.construct_wf; lia).
  assert (Hs : size (substr0 d c) = c) by (rewrite substr0_size; lia).
  pose proof (ByteStream.write_accepts (substr0 d c) _ Hw) as Ha.
  cbn in Ha |- *. unfold ByteStream.bytes_written. cbn. rewrite Ha, Hs. size_simpl.
  rewrite Z.sub_0_r, Z.min_id. rewrite (substr0_all (substr0 d c)) by lia.
  split; [done|]. rewrite u64_id; lia.
Qed.

Lemma truncated_end_is_signalled_witness :
  exists st, push_substring [Byte.x61; Byte.x62; Byte.x63] 0 true (construct 2) = Ok st /\
    ByteStream.input_ended (output st) = true /\
    ByteStream.content (output st) = [Byte.x61; Byte.x62] /\
    ByteStream.bytes_written (output st) = 2.
Proof.
  apply (truncated_end_is_signalled 2 [Byte.x61; Byte.x62; Byte.x63]);
    vm_compute; intuition congruence.
Defined.
