(* ===== verification/Buffer.v ===== *)
(** Reference-counted strings that discard bytes from the front:
    [libsponge/util/buffer.hh] and [buffer.cc].  A [Buffer] is a shared,
    never-modified string and an offset, so sharing is not observable; a
    [BufferList] is a discontiguous string made of several of them. *)
From S2P Require Import Prelude.

(** [class Buffer]: the storage (a null pointer is [None]) and the offset. *)
Record Buffer := mkBuffer {
  storage : option bytes;
  starting_offset : Z
}.

Definition empty_buffer : Buffer := mkBuffer None 0.

(** The constructor that takes ownership of a string. *)
Definition of_string (s : bytes) : Buffer := mkBuffer (Some s) 0.

Definition str (b : Buffer) : bytes :=
  match storage b with
  | None => []
  | Some s => substr0 (substr0_rest s (starting_offset b)) (u64 (size s - starting_offset b))
  end.

#[global] Arguments str _ : simpl never.

(** [str().at(n)] *)
Definition at_ (b : Buffer) (n : Z) : result byte :=
  match str b !! Z.to_nat n with
  | Some x => Ok x
  | None => Throw out_of_range
  end.

Definition buf_size (b : Buffer) : Z := size (str b).
Definition copy (b : Buffer) : bytes := str b.

Definition remove_prefix (n : Z) (b : Buffer) : result Buffer :=
  if size (str b) <? n then Throw out_of_range
  else
    let off := u64 (starting_offset b + n) in
    match storage b with
    | Some s => if off =? size s then Ok (mkBuffer None off) else Ok (mkBuffer (Some s) off)
    | None => Ok (mkBuffer None off)
    end.

(** Offsets stay inside the storage. *)
Definition buf_wf (b : Buffer) : Prop :=
  match storage b with
  | Some s => 0 <= starting_offset b <= size s /\ size s < M64
  | None => True
  end.

Lemma str_drop s off :
  0 <= off <= size s -> size s < M64 ->
  str (mkBuffer (Some s) off) = drop (Z.to_nat off) s.
Proof.
  intros Ho Hs. unfold str. cbn. rewrite u64_id by lia.
  rewrite substr0_all by (rewrite substr0_rest_size; lia).
  unfold substr0_rest. by rewrite Z.min_l by lia.
Qed.

Lemma str_of_string s : size s < M64 -> str (of_string s) = s.
Proof. intros. unfold of_string. rewrite str_drop by size_lia. done. Qed.

Lemma of_string_wf s : size s < M64 -> buf_wf (of_string s).
Proof. intros. cbn. size_lia. Qed.

(** [remove_prefix] drops [n] bytes, or throws and nothing else, exactly when
    there are fewer than [n]. *)
Lemma remove_prefix_spec n b :
  buf_wf b -> 0 <= n -> 
  (n <= size (str b) /\ exists b', remove_prefix n b = Ok b' /\ buf_wf b' /\
     str b' = drop (Z.to_nat n) (str b)) \/
  (size (str b) < n /\ remove_prefix n b = Throw out_of_range).
Proof.
  intros Hwf Hn. unfold remove_prefix.
  destruct (Z.ltb_spec (size (str b)) n) as [C|C]; [by right|left; split; [done|]].
  destruct b as [[s|] off]; cbn in Hwf; cbn [storage starting_offset].
  - destruct Hwf as [Ho Hs]. rewrite (str_drop s off) in C |- * by done.
    rewrite size_drop in C by lia.
    rewrite (u64_id (off + n)) by lia. rewrite drop_drop, <- Z2Nat.inj_add by lia.
    case_Z.
    + eexists. split; [reflexivity|]. split; [done|]. cbn. symmetry.
      apply drop_ge. unfold size in *. lia.
    + eexists. split; [reflexivity|]. split; [cbn; lia|]. rewrite str_drop by lia. done.
  - eexists. split; [reflexivity|]. split; [done|]. unfold str. cbn.
    by rewrite drop_nil.
Qed.

(** ** Buffer lists *)

(** [class BufferList] is its deque of buffers. *)
Definition BufferList := list Buffer.

Definition bl_of_buffer (b : Buffer) : BufferList := [b].
Definition bl_of_string (s : bytes) : BufferList := [of_string s].

Definition append (l other : BufferList) : BufferList := l ++ other.

(** [operator Buffer()]: only a list of at most one buffer is contiguous. *)
Definition to_buffer (l : BufferList) : result Buffer :=
  match l with
  | [] => Ok empty_buffer
  | [b] => Ok b
  | _ => Throw runtime_error
  end.

Fixpoint concatenate (l : BufferList) : bytes :=
  match l with [] => [] | b :: l' => str b ++ concatenate l' end.

Fixpoint bl_size (l : BufferList) : Z :=
  match l with [] => 0 | b :: l' => u64 (buf_size b + bl_size l') end.

Fixpoint bl_remove_prefix (n : Z) (l : BufferList) : result BufferList :=
  if 0 <? n then
    match l with
    | [] => Throw out_of_range
    | b :: l' =>
        if n <? size (str b) then b' ← remove_prefix n b; Ok (b' :: l')
        else bl_remove_prefix (u64 (n - size (str b))) l'
    end
  else Ok l.

(** ** View lists: the same on non-owning views *)

Definition BufferViewList := list bytes.

Definition bvl_of_list (l : BufferList) : BufferViewList := str <$> l.
Definition bvl_of_view (s : bytes) : BufferViewList := [s].

Fixpoint bvl_size (l : BufferViewList) : Z :=
  match l with [] => 0 | v :: l' => u64 (size v + bvl_size l') end.

Fixpoint bvl_remove_prefix (n : Z) (l : BufferViewList) : result BufferViewList :=
  if 0 <? n then
    match l with
    | [] => Throw out_of_range
    | v :: l' =>
        if n <? size v then Ok (substr0_rest v n :: l')
        else bvl_remove_prefix (u64 (n - size v)) l'
    end
  else Ok l.

(** The bytes and lengths handed to [writev]. *)
Definition as_iovecs (l : BufferViewList) : list (bytes * Z) :=
  (fun v => (v, size v)) <$> l.

Definition bl_wf (l : BufferList) : Prop := Forall buf_wf l.

Lemma concatenate_app l k : concatenate (l ++ k) = concatenate l ++ concatenate k.
Proof. induction l; cbn; [done|]. by rewrite IHl, app_assoc. Qed.

Lemma bl_size_concatenate l :
  size (concatenate l) < M64 -> bl_size l = size (concatenate l).
Proof.
  induction l as [|b l IH]; cbn; [done|]. rewrite size_app. intros H.
  rewrite IH by size_lia. unfold buf_size. apply u64_id. size_lia.
Qed.

(** A [BufferList] behaves as one string under [remove_prefix]: it drops
    exactly the first [n] bytes of its concatenation, whatever the buffers they
    are spread over, and throws [std::out_of_range] exactly when [n] exceeds
    its size. *)
Theorem bl_remove_prefix_correct l : forall n,
  bl_wf l -> 0 <= n < M64 ->
  match bl_remove_prefix n l with
  | Ok l' => n <= size (concatenate l) /\ bl_wf l' /\
             concatenate l' = drop (Z.to_nat n) (concatenate l)
  | Throw e => e = out_of_range /\ size (concatenate l) < n
  end.
Proof.
  induction l as [|b l IH]; intros n Hwf Hn; cbn -[remove_prefix].
  - case_Z; cbn; [split; [done|]; size_simpl; lia|].
    split; [size_simpl; lia|]. split; [done|]. by rewrite drop_nil.
  - apply Forall_cons in Hwf as [Hb Hl]. rewrite size_app. pose proof (size_nonneg (str b)).
    case_Z; cycle 1.
    { replace n with 0 by lia. split; [size_lia|]. split; [by apply Forall_cons|done]. }
    case_Z.
    + destruct (remove_prefix_spec n b Hb ltac:(lia))
        as [(_ & b' & -> & Hb' & Hs)|[? _]]; [|lia].
      cbn. rewrite Hs. split; [size_lia|]. split; [by apply Forall_cons|].
      rewrite drop_app_le; [done|]. unfold size in *. lia.
    + rewrite u64_id by lia. specialize (IH (n - size (str b)) Hl ltac:(lia)).
      destruct (bl_remove_prefix _ l) as [l'|e]; [|split; [apply IH|]; lia].
      destruct IH as (IH1 & IH2 & IH3). split; [lia|]. split; [done|]. rewrite IH3.
      rewrite drop_app_ge by (unfold size in *; lia). f_equal. unfold size. lia.
Qed.

Lemma bl_remove_prefix_correct_witness :
  exists l', bl_remove_prefix 3 [of_string [Byte.x61; Byte.x62];
                                of_string [Byte.x63; Byte.x64]] = Ok l' /\
    concatenate l' = [Byte.x64].
Proof.
  set (l := [of_string [Byte.x61; Byte.x62]; of_string [Byte.x63; Byte.x64]]).
  assert (E : bl_remove_prefix 3 l = Ok [mkBuffer (Some [Byte.x63; Byte.x64]) 1])
    by (vm_compute; reflexivity).
  assert (Hwf : bl_wf l).
  { apply Forall_cons; split; [|apply Forall_cons; split; [|apply Forall_nil; done]];
      apply of_string_wf; reflexivity. }
  eexists. split; [exact E|].
  pose proof (bl_remove_prefix_correct l 3 Hwf ltac:(lia)) as H. rewrite E in H.
  destruct H as (_ & _ & H). rewrite H. vm_compute. reflexivity.
Defined.

(** The two kinds of list agree. *)
Lemma bvl_remove_prefix_correct l : forall n,
  0 <= n < M64 ->
  match bvl_remove_prefix n l with
  | Ok l' => n <= size (concat l) /\ concat l' = drop (Z.to_nat n) (concat l)
  | Throw e => e = out_of_range /\ size (concat l) < n
  end.
Proof.
  induction l as [|v l IH]; intros n Hn; cbn.
  - case_Z; cbn; [split; [done|]; size_simpl; lia|].
    split; [size_simpl; lia|]. by rewrite drop_nil.
  - rewrite size_app. pose proof (size_nonneg v).
    case_Z; cycle 1.
    { replace n with 0 by lia. split; [size_lia|done]. }
    case_Z.
    + cbn. split; [size_lia|]. unfold substr0_rest. rewrite Z.min_l by lia.
      rewrite drop_app_le; [done|]. unfold size in *. lia.
    + rewrite u64_id by lia. specialize (IH (n - size v) ltac:(lia)).
      destruct (bvl_remove_prefix _ l) as [l'|e]; [|split; [apply IH|]; lia].
      destruct IH as (IH1 & IH3). split; [lia|]. rewrite IH3.
      rewrite drop_app_ge by (unfold size in *; lia). f_equal. unfold size. lia.
Qed.
