(* ===== verification/Parser.v ===== *)
(** Network-byte-order integers: [libsponge/util/parser.hh] and [parser.cc].
    [NetParser] reads integers from the front of a [Buffer] and keeps the first
    error; [NetUnparser] appends them to a string. *)
From S2P Require Import Prelude.
From S2P Require Import Buffer.

Inductive ParseResult :=
  | NoError
  | BadChecksum
  | PacketTooShort
  | WrongIPVersion
  | HeaderTooShort
  | TruncatedPacket
  | Unsupported.

#[export] Instance ParseResult_eq_dec : EqDecision ParseResult.
Proof. solve_decision. Defined.

(** [static_cast<size_t>(r)] *)
Definition ParseResult_index (r : ParseResult) : nat :=
  match r with
  | NoError => 0 | BadChecksum => 1 | PacketTooShort => 2 | WrongIPVersion => 3
  | HeaderTooShort => 4 | TruncatedPacket => 5 | Unsupported => 6
  end.

(** The table [_names] of [as_string], and the indexing of it. *)
Definition names : list string :=
  ["NoError"; "BadChecksum"; "PacketTooShort"; "WrongIPVersion"; "HeaderTooShort";
   "TruncatedPacket"].

Definition as_string (r : ParseResult) : result string :=
  match names !! ParseResult_index r with
  | Some s => Ok s
  | None => Throw undefined_behaviour
  end.

(** [class NetParser] *)
Record NetParser := mkParser {
  buffer : Buffer;
  p_error : ParseResult        (* _error *)
}.

Definition construct (b : Buffer) : NetParser := mkParser b NoError.
Definition get_error (p : NetParser) : ParseResult := p_error p.
Definition set_error (r : ParseResult) (p : NetParser) : NetParser := mkParser (buffer p) r.
Definition error (p : NetParser) : bool := bool_decide (p_error p <> NoError).

(** The methods change the parser and may throw: a state and error monad. *)
Definition P (A : Type) : Type := NetParser -> result (A * NetParser).

#[export] Instance P_ret : MRet P := fun A a p => Ok (a, p).
#[export] Instance P_bind : MBind P := fun A B f m p =>
  match m p with Ok (a, p') => f a p' | Throw e => Throw e end.

(** The current parser, for the calls of [error()] and [get_error()]. *)
Definition get : P NetParser := fun p => Ok (p, p).

Definition check_size (n : Z) (p : NetParser) : NetParser :=
  if buf_size (buffer p) <? n then set_error PacketTooShort p else p.

(** The loop of [_parse_int]: [i] runs over the indices left to read. *)
Fixpoint parse_loop (w : Z) (idx : list nat) (b : Buffer) (ret : Z) : result Z :=
  match idx with
  | [] => Ok ret
  | i :: idx' =>
      let ret := (ret * 256) mod w in
      x ← at_ b (Z.of_nat i);
      parse_loop w idx' b ((ret + byte.unsigned x) mod w)
  end.

(** [_parse_int<T>] for a [T] of [len] bytes. *)
Definition parse_int (len : nat) : P Z := fun p =>
  let p := check_size (Z.of_nat len) p in
  if error p then Ok (0, p)
  else
    ret ← parse_loop (256 ^ Z.of_nat len) (seq 0 len) (buffer p) 0;
    b ← remove_prefix (Z.of_nat len) (buffer p);
    Ok (ret, mkParser b (p_error p)).

Definition p_u32 : P Z := parse_int 4.
Definition p_u16 : P Z := parse_int 2.
Definition p_u8 : P Z := parse_int 1.

(** [NetParser::remove_prefix] *)
Definition p_remove_prefix (n : Z) : P unit := fun p =>
  let p := check_size n p in
  if error p then Ok (tt, p)
  else b ← remove_prefix n (buffer p); Ok (tt, mkParser b (p_error p)).

(** A fixed number of bytes read one by one, as the address loops do. *)
Fixpoint p_u8s (n : nat) : P bytes :=
  match n with
  | O => mret []
  | S n' => x ← p_u8; xs ← p_u8s n'; mret (byte.of_Z x :: xs)
  end.

(** [NetUnparser::_unparse_int<T>] *)
Definition unparse_int (len : nat) (val : Z) (s : bytes) : bytes :=
  s ++ ((fun i => byte.of_Z (Z.land (Z.shiftr val ((Z.of_nat len - Z.of_nat i - 1) * 8)) 255))
          <$> seq 0 len).

Definition un_u32 (val : Z) (s : bytes) : bytes := unparse_int 4 val s.
Definition un_u16 (val : Z) (s : bytes) : bytes := unparse_int 2 val s.
Definition un_u8 (val : Z) (s : bytes) : bytes := unparse_int 1 val s.

(** ** Big-endian digits *)

Fixpoint be_bytes (n : nat) (v : Z) : bytes :=
  match n with
  | O => []
  | S m => byte.of_Z (v / 256 ^ Z.of_nat m) :: be_bytes m v
  end.

Lemma be_bytes_length n v : length (be_bytes n v) = n.
Proof. induction n; cbn; congruence. Qed.
Lemma be_bytes_size n v : size (be_bytes n v) = Z.of_nat n.
Proof. unfold size. by rewrite be_bytes_length. Qed.

Lemma of_Z_land z : byte.of_Z (Z.land z 255) = byte.of_Z z.
Proof.
  apply byte.unsigned_inj. rewrite !byte.unsigned_of_Z. unfold byte.wrap.
  change 255 with (Z.ones 8). rewrite Z.land_ones by lia. by rewrite Z.mod_mod.
Qed.

Lemma unparse_int_be len val s : unparse_int len val s = s ++ be_bytes len val.
Proof.
  unfold unparse_int. f_equal.
  assert (H : forall n k, (n <= k)%nat -> (fun i => byte.of_Z (Z.land (Z.shiftr val
    ((Z.of_nat k - Z.of_nat i - 1) * 8)) 255)) <$> seq (k - n) n = be_bytes n val).
  { induction n as [|n IH]; intros k Hk; [done|]. cbn [seq fmap list_fmap be_bytes].
    f_equal.
    - rewrite of_Z_land. f_equal. rewrite Z.shiftr_div_pow2 by lia. f_equal.
      replace 256 with (2 ^ 8) by reflexivity. rewrite <- Z.pow_mul_r by lia. f_equal. lia.
    - specialize (IH k ltac:(lia)). replace (S (k - S n))%nat with (k - n)%nat by lia.
      exact IH. }
  specialize (H len len ltac:(lia)). by rewrite Nat.sub_diag in H.
Qed.

Fixpoint be_value (acc : Z) (s : bytes) : Z :=
  match s with
  | [] => acc
  | x :: s' => be_value (acc * 256 + byte.unsigned x) s'
  end.

Lemma be_value_app acc s t : be_value acc (s ++ t) = be_value (be_value acc s) t.
Proof. revert acc. induction s; intros; cbn; auto. Qed.

Lemma be_value_range acc s :
  0 <= acc ->
  acc * 256 ^ size s <= be_value acc s < (acc + 1) * 256 ^ size s.
Proof.
  revert acc. induction s as [|x s IH]; intros acc Ha; cbn.
  - size_simpl. lia.
  - pose proof (byte.unsigned_range x). rewrite size_cons, Z.add_comm, Z.pow_add_r by size_lia.
    specialize (IH (acc * 256 + byte.unsigned x) ltac:(lia)).
    assert (0 < 256 ^ size s) by (apply Z.pow_pos_nonneg; size_lia). nia.
Qed.

Lemma be_value_be_bytes n v acc :
  be_value acc (be_bytes n v) = acc * 256 ^ Z.of_nat n + v mod 256 ^ Z.of_nat n.
Proof.
  revert acc. induction n as [|n IH]; intros acc.
  - cbn. rewrite Z.mod_1_r. lia.
  - cbn [be_bytes be_value]. rewrite IH, byte.unsigned_of_Z. unfold byte.wrap.
    rewrite Nat2Z.inj_succ, Z.pow_succ_r by lia. set (m := 256 ^ Z.of_nat n).
    assert (0 < m) by (apply Z.pow_pos_nonneg; lia).
    rewrite (Z.mul_comm 256 m), Z.rem_mul_r by lia. change (2 ^ 8) with 256. ring.
Qed.

Lemma at_lookup b i x : str b !! i = Some x -> at_ b (Z.of_nat i) = Ok x.
Proof. intros H. unfold at_. by rewrite Nat2Z.id, H. Qed.

Lemma parse_loop_value w b n : forall i acc,
  (i + n <= length (str b))%nat -> 0 <= acc -> (acc + 1) * 256 ^ Z.of_nat n <= w ->
  parse_loop w (seq i n) b acc = Ok (be_value acc (take n (drop i (str b)))).
Proof.
  induction n as [|n IH]; intros i acc Hi Ha Hw; [done|]. cbn [seq parse_loop].
  assert (Hlt : (i < length (str b))%nat) by lia.
  destruct (lookup_lt_is_Some_2 _ _ Hlt) as [x Hx].
  rewrite (at_lookup b i x Hx). cbn [mbind result_bind].
  pose proof (byte.unsigned_range x).
  rewrite Nat2Z.inj_succ, Z.pow_succ_r in Hw by lia.
  assert (0 < 256 ^ Z.of_nat n) by (apply Z.pow_pos_nonneg; lia).
  rewrite (Z.mod_small (acc * 256)) by nia. rewrite Z.mod_small by nia.
  rewrite IH by (lia || nia).
  rewrite (drop_S _ _ _ Hx). done.
Qed.

(** The parser is at the front of [s] and has seen no error. *)
Record holds (p : NetParser) (s : bytes) : Prop := {
  holds_str : str (buffer p) = s;
  holds_wf : buf_wf (buffer p);
  holds_ok : p_error p = NoError
}.

Lemma construct_holds s : size s < M64 -> holds (construct (of_string s)) s.
Proof.
  intros. constructor; cbn; [by apply str_of_string|by apply of_string_wf|done].
Qed.

Lemma check_size_ok n p s : holds p s -> n <= size s -> check_size n p = p /\ error p = false.
Proof.
  intros [Hs _ Ho] Hn. unfold check_size, error, buf_size. rewrite Hs, Ho.
  by case_Z; [lia|].
Qed.

Lemma parse_int_take n p s :
  holds p s -> Z.of_nat n <= size s ->
  exists p', parse_int n p = Ok (be_value 0 (take n s), p') /\ holds p' (drop n s).
Proof.
  intros H Hn. unfold parse_int. destruct (check_size_ok (Z.of_nat n) p s H Hn) as [-> ->].
  destruct H as [Hs Hw Ho].
  rewrite parse_loop_value by (unfold size in *; rewrite ?Hs; lia).
  rewrite Hs. cbn [mbind result_bind].
  destruct (remove_prefix_spec (Z.of_nat n) (buffer p) Hw ltac:(lia))
    as [(_ & b' & -> & Hb' & Hstr)|[? _]]; [|rewrite Hs in *; lia].
  cbn. eexists. split; [rewrite drop_0; reflexivity|].
  constructor; cbn; [by rewrite Hstr, Hs, Nat2Z.id|done|done].
Qed.

(** ** Reasoning about parsers

    [runs m s a t]: started at the front of [s] without an error, [m] returns
    [a] and leaves the parser at [t], still without an error. *)
Definition runs {A} (m : P A) (s : bytes) (a : A) (t : bytes) : Prop :=
  forall p, holds p s -> exists p', m p = Ok (a, p') /\ holds p' t.

Lemma runs_ret {A} (a : A) s : runs (mret a) s a s.
Proof. intros p H. by exists p. Qed.

Lemma runs_bind {A B} (m : P A) (k : A -> P B) s a t b u :
  runs m s a t -> runs (k a) t b u -> runs (m ≫= k) s b u.
Proof.
  intros Hm Hk p Hp. destruct (Hm p Hp) as (p1 & E1 & H1).
  destruct (Hk p1 H1) as (p2 & E2 & H2). exists p2. split; [|done].
  unfold mbind, P_bind. by rewrite E1.
Qed.

Lemma runs_get {B} (k : NetParser -> P B) s b u :
  (forall p, holds p s -> runs (k p) s b u) -> runs (get ≫= k) s b u.
Proof. intros Hk p Hp. apply (Hk p Hp p Hp). Qed.

Lemma runs_int n v s :
  0 <= v < 256 ^ Z.of_nat n -> runs (parse_int n) (be_bytes n v ++ s) v s.
Proof.
  intros Hv p H. destruct (parse_int_take n p _ H) as (p' & -> & Hp').
  { rewrite size_app, be_bytes_size. size_lia. }
  rewrite drop_app_length' in Hp' by (by rewrite be_bytes_length).
  exists p'. rewrite take_app_length' by (by rewrite be_bytes_length).
  by rewrite be_value_be_bytes, Z.mod_small by done.
Qed.

Lemma runs_take n s :
  (n <= length s)%nat -> runs (parse_int n) s (be_value 0 (take n s)) (drop n s).
Proof. intros Hn p H. apply parse_int_take; [done|]. unfold size. lia. Qed.

Lemma runs_skip n s t :
  n = size s -> runs (p_remove_prefix n) (s ++ t) tt t.
Proof.
  intros -> p H. unfold p_remove_prefix.
  destruct (check_size_ok (size s) p _ H) as [-> ->]; [rewrite size_app; size_lia|].
  destruct H as [Hs Hw Ho].
  destruct (remove_prefix_spec (size s) (buffer p) Hw ltac:(size_lia))
    as [(_ & b' & -> & Hb' & Hstr)|[Hlt _]].
  - eexists. split; [reflexivity|]. constructor; cbn; [|done|done].
    rewrite Hstr, Hs. unfold size. by rewrite Nat2Z.id, drop_app_length.
  - rewrite Hs, size_app in Hlt. size_lia.
Qed.

Lemma be_bytes_1 x : be_bytes 1 (byte.unsigned x) = [x].
Proof. cbn. by rewrite Z.div_1_r, byte.of_Z_unsigned. Qed.

Lemma runs_u8s n s t : length s = n -> runs (p_u8s n) (s ++ t) s t.
Proof.
  revert n t. induction s as [|x s IH]; intros [|n] t Hn; try done; [apply runs_ret|].
  cbn [p_u8s]. eapply runs_bind.
  { change ((x :: s) ++ t) with ([x] ++ (s ++ t)). rewrite <- be_bytes_1.
    apply runs_int. apply (byte.unsigned_range x). }
  eapply runs_bind; [apply IH; by injection Hn|].
  rewrite byte.of_Z_unsigned. apply runs_ret.
Qed.

(** One step of a parser on the bytes an unparser wrote. *)
Ltac parse_step :=
  first
    [ apply runs_ret
    | eapply runs_bind; [first [apply runs_int; cbn; lia | apply runs_u8s; done]|] ].

(** [keeps I m]: from a state that satisfies [I], [m] does not throw and ends in
    one that satisfies [I]. *)
Definition keeps (I : NetParser -> Prop) {A} (m : P A) : Prop :=
  forall p, I p -> exists a p', m p = Ok (a, p') /\ I p'.

(** Whatever it is given, a parser keeps its buffer well formed; once an error is
    set, it stays. *)
Definition sane (p : NetParser) : Prop := buf_wf (buffer p).
Definition failed (p : NetParser) : Prop := buf_wf (buffer p) /\ p_error p = PacketTooShort.

Lemma keeps_ret I {A} (a : A) : keeps I (mret a).
Proof. intros p H. by exists a, p. Qed.

Lemma keeps_get I : keeps I get.
Proof. intros p H. by exists p, p. Qed.

Lemma keeps_bind I {A B} (m : P A) (k : A -> P B) :
  keeps I m -> (forall a, keeps I (k a)) -> keeps I (m ≫= k).
Proof.
  intros Hm Hk p Hp. destruct (Hm p Hp) as (a & p1 & E1 & H1).
  destruct (Hk a p1 H1) as (b & p2 & E2 & H2). exists b, p2. split; [|done].
  unfold mbind, P_bind. by rewrite E1.
Qed.

Lemma check_size_buffer n p : buffer (check_size n p) = buffer p.
Proof. unfold check_size. by case_Z. Qed.

Lemma check_size_failed n p :
  error p = true \/ buf_size (buffer p) < n -> error (check_size n p) = true.
Proof. unfold check_size. case_Z; [done|]. by intros [?|?]; [|lia]. Qed.

Lemma check_size_keeps n p : failed p -> failed (check_size n p) /\ error (check_size n p) = true.
Proof.
  intros [Hw He]. unfold check_size, failed, error. by case_Z; cbn; rewrite ?He.
Qed.

Lemma check_size_enough n p :
  error (check_size n p) = false -> n <= buf_size (buffer p) /\ error p = false.
Proof. unfold check_size. case_Z; [done|]. intros. split; [lia|done]. Qed.

Lemma int_sane n : keeps sane (parse_int n).
Proof.
  intros p Hw. unfold sane in *. unfold parse_int. destruct (error (check_size _ p)) eqn:He.
  { exists 0, (check_size (Z.of_nat n) p). by rewrite check_size_buffer. }
  apply check_size_enough in He as [Hn He]. unfold buf_size, size in Hn.
  rewrite check_size_buffer, parse_loop_value by lia. cbn [mbind result_bind].
  destruct (remove_prefix_spec (Z.of_nat n) (buffer p) Hw ltac:(lia))
    as [(_ & b' & -> & Hb' & _)|[Hlt _]]; [|unfold size in Hlt; lia].
  by do 2 eexists.
Qed.

Lemma skip_sane n : 0 <= n -> keeps sane (p_remove_prefix n).
Proof.
  intros H0 p Hw. unfold sane in *. unfold p_remove_prefix.
  destruct (error (check_size _ p)) eqn:He.
  { exists tt, (check_size n p). by rewrite check_size_buffer. }
  apply check_size_enough in He as [Hn He]. unfold buf_size in Hn.
  rewrite check_size_buffer.
  destruct (remove_prefix_spec n (buffer p) Hw H0) as [(_ & b' & -> & Hb' & _)|[Hlt _]]; [|lia].
  by do 2 eexists.
Qed.

Lemma int_failed n : keeps failed (parse_int n).
Proof.
  intros p Hp. destruct (check_size_keeps (Z.of_nat n) p Hp) as [H1 H2].
  unfold parse_int. rewrite H2. by do 2 eexists.
Qed.

Lemma skip_failed n : keeps failed (p_remove_prefix n).
Proof.
  intros p Hp. destruct (check_size_keeps n p Hp) as [H1 H2].
  unfold p_remove_prefix. rewrite H2. by do 2 eexists.
Qed.

Lemma u8s_keeps I n : keeps I p_u8 -> keeps I (p_u8s n).
Proof.
  intros H. induction n; cbn [p_u8s]; [apply keeps_ret|].
  apply keeps_bind; [done|]. intros x. apply keeps_bind; [done|].
  intros xs. apply keeps_ret.
Qed.

#[export] Hint Resolve keeps_ret keeps_get int_sane int_failed skip_failed : sponge.

(** Discharges [keeps] goals by following the structure of the parser. *)
Ltac solve_keeps :=
  unfold p_u8, p_u16, p_u32;
  repeat match goal with
  | |- keeps _ (_ ≫= _) => apply keeps_bind; [|intros]
  | |- keeps _ (if ?c then _ else _) => destruct c eqn:?
  | |- keeps _ (let '(_, _) := ?x in _) => destruct x
  | |- keeps _ (p_u8s _) => apply u8s_keeps
  | |- keeps sane (p_remove_prefix _) => apply skip_sane
  | |- keeps _ _ => solve [auto with sponge]
  end.

(** [needs m n]: on fewer than [n] bytes [m] ends in [PacketTooShort]. *)
Definition needs {A} (m : P A) (n : Z) : Prop :=
  forall p s, holds p s -> size s < n -> exists a p', m p = Ok (a, p') /\ failed p'.

Lemma needs_0 {A} (m : P A) n : n <= 0 -> needs m n.
Proof. intros Hn p s _ Hs. size_lia. Qed.

Lemma needs_int {B} j (k : Z -> P B) n :
  (forall a, keeps failed (k a)) -> (forall a, needs (k a) (n - Z.of_nat j)) ->
  needs (parse_int j ≫= k) n.
Proof.
  intros Hf Hk p s H Hs. unfold mbind, P_bind.
  destruct (Z.lt_ge_cases (size s) (Z.of_nat j)) as [C|C].
  - assert (error (check_size (Z.of_nat j) p) = true) as E.
    { apply check_size_failed. right. unfold buf_size. by rewrite (holds_str _ _ H). }
    unfold parse_int. rewrite E. destruct (Hf 0 (check_size (Z.of_nat j) p)) as (a & p' & Ha).
    + unfold check_size in *. unfold failed. unfold error in E. destruct H as [Hs' Hw' Ho].
      unfold buf_size in *. rewrite Hs' in *. by case_Z; [|lia].
    + by exists a, p'.
  - destruct (parse_int_take j p s H C) as (p' & -> & Hp').
    apply (Hk _ p' _ Hp'). unfold size in *. rewrite length_drop. lia.
Qed.

(** [NetUnparser] and [NetParser] are inverse.  An unsigned integer of
    [n] bytes written in network byte order and followed by anything is read
    back, the parser is left at what follows, and nothing throws. *)
Theorem unparse_parse_int n v rest p :
  0 <= v < 256 ^ Z.of_nat n -> holds p (unparse_int n v [] ++ rest) ->
  exists p', parse_int n p = Ok (v, p') /\ holds p' rest.
Proof.
  intros Hv H. rewrite unparse_int_be, app_nil_l in H. by apply (runs_int n v rest).
Qed.

Lemma unparse_parse_int_witness :
  exists p', p_u32 (construct (of_string [Byte.x01; Byte.x02; Byte.x03; Byte.x04; Byte.xff]))
             = Ok (16909060, p') /\ holds p' [Byte.xff].
Proof.
  apply (unparse_parse_int 4 16909060 [Byte.xff]).
  - split; [lia|reflexivity].
  - apply construct_holds. reflexivity.
Defined.

(** ** Errors *)

(** A parser never throws: reading an integer either succeeds, or sets
    [PacketTooShort] and yields 0 without consuming anything, or, once an error
    is set, yields 0; in the last two cases an error stays set. *)
Theorem parse_int_total n p :
  buf_wf (buffer p) ->
  exists v p', parse_int n p = Ok (v, p') /\ buf_wf (buffer p') /\
    0 <= v < 256 ^ Z.of_nat n /\
    (error p = false -> Z.of_nat n <= buf_size (buffer p) ->
       error p' = false /\ str (buffer p') = drop n (str (buffer p))) /\
    (error p = true \/ buf_size (buffer p) < Z.of_nat n ->
       error p' = true /\ v = 0 /\ buffer p' = buffer p).
Proof.
  intros Hw. assert (Hpow : 0 < 256 ^ Z.of_nat n) by (apply Z.pow_pos_nonneg; lia).
  destruct (error p) eqn:He; [|destruct (Z.lt_ge_cases (buf_size (buffer p)) (Z.of_nat n)) as [C|C]].
  - exists 0, (check_size (Z.of_nat n) p). unfold parse_int.
    assert (error (check_size (Z.of_nat n) p) = true /\
            buffer (check_size (Z.of_nat n) p) = buffer p) as [H1 H2].
    { unfold check_size. by case_Z. }
    rewrite H1, H2. split_and!; try done; lia.
  - exists 0, (set_error PacketTooShort p). unfold parse_int, check_size.
    replace (buf_size (buffer p) <? Z.of_nat n) with true by (symmetry; by apply Z.ltb_lt).
    split_and!; try done; lia.
  - assert (H : holds p (str (buffer p))).
    { constructor; try done. unfold error in He. by apply bool_decide_eq_false, dec_stable in He. }
    destruct (parse_int_take n p _ H C) as (p' & Hp & [Hs' Hw' Ho']).
    do 2 eexists. split; [exact Hp|]. split; [done|]. split.
    { pose proof (be_value_range 0 (take n (str (buffer p))) ltac:(lia)) as Hr.
      assert (size (take n (str (buffer p))) = Z.of_nat n) as Ht.
      { unfold size, buf_size in *. rewrite length_take. unfold size in C. lia. }
      rewrite Ht in Hr. lia. }
    split; [|intros [?|?]; [done|lia]]. intros _ _. unfold error. rewrite Ho'. done.
Qed.

Lemma parse_int_total_witness :
  exists v p', parse_int 2 (construct (of_string [Byte.x01])) = Ok (v, p') /\
    v = 0 /\ error p' = true.
Proof.
  destruct (parse_int_total 2 (construct (of_string [Byte.x01])))
    as (v & p' & H1 & _ & _ & _ & H2).
  - apply of_string_wf. reflexivity.
  - destruct H2 as (H3 & H4 & _); [right; vm_compute; reflexivity|].
    exists v, p'. split; [exact H1|]. split; [exact H4|exact H3].
Defined.

(** [as_string] indexes its table of six names with seven enumerators:
    [Unsupported] reads past the end of the array, every other result has a
    name, and no two results share one. *)
Theorem as_string_unsupported_out_of_bounds r :
  (as_string r = Throw undefined_behaviour <-> r = Unsupported) /\
  (forall r' s, as_string r = Ok s -> as_string r' = Ok s -> r = r').
Proof.
  split.
  - destruct r; split; intros H; done.
  - intros r' s. destruct r, r'; cbn; congruence.
Qed.

(** ** Ranges

    [yields m Q]: whatever the input, a value that [m] returns satisfies [Q]. *)
Definition yields {A} (m : P A) (Q : A -> Prop) : Prop :=
  forall p a p', m p = Ok (a, p') -> Q a.

Lemma yields_ret {A} (a : A) (Q : A -> Prop) : Q a -> yields (mret a) Q.
Proof. intros HQ p a' p' [= <- <-]. done. Qed.

Lemma yields_bind {A B} (m : P A) (k : A -> P B) (Q : A -> Prop) (R : B -> Prop) :
  yields m Q -> (forall a, Q a -> yields (k a) R) -> yields (m ≫= k) R.
Proof.
  intros Hm Hk p b p'. unfold mbind, P_bind. destruct (m p) as [[a p1]|e] eqn:E; [|done].
  intros Hb. by eapply Hk; [eapply Hm|].
Qed.

Lemma yields_any {A} (m : P A) : yields m (fun _ => True).
Proof. done. Qed.

Lemma parse_loop_range w idx b : forall acc v,
  0 < w -> 0 <= acc < w -> parse_loop w idx b acc = Ok v -> 0 <= v < w.
Proof.
  induction idx as [|i idx IH]; cbn; intros acc v Hw Ha E; [by injection E as <-|].
  apply result_bind_Ok in E as (x & _ & E). eapply IH; [done| |done]. by apply Z.mod_pos_bound.
Qed.

(** An integer of [n] bytes is within its width. *)
Lemma yields_int n : yields (parse_int n) (fun v => 0 <= v < 256 ^ Z.of_nat n).
Proof.
  intros p v p'. unfold parse_int. assert (0 < 256 ^ Z.of_nat n) by (apply Z.pow_pos_nonneg; lia).
  destruct (error _); [intros [= <- <-]; lia|]. intros E. inv_ok.
  eapply parse_loop_range; [done| |]; [|naive_solver]. lia.
Qed.
