(* ===== verification/Checksum.v ===== *)
(** The Internet checksum: [class InternetChecksum] of [libsponge/util/util.hh]
    and [util.cc]. *)
From S2P Require Import Prelude.
From S2P Require Parser.

Record InternetChecksum := mkChecksum {
  sum : Z;               (* _sum, a uint32_t *)
  parity : bool          (* _parity *)
}.

Definition construct (initial_sum : Z) : InternetChecksum := mkChecksum initial_sum false.

(** The body of the loop of [add], for one byte. *)
Definition add_byte (c : InternetChecksum) (x : byte) : InternetChecksum :=
  let val := byte.unsigned x in
  let val := if parity c then val else u16 (val * 256) in
  mkChecksum (u32 (sum c + val)) (negb (parity c)).

Definition add (data : bytes) (c : InternetChecksum) : InternetChecksum :=
  fold_left add_byte data c.

(** The loop of [value]; [fuel] bounds the iterations, see [fold_carry_done]. *)
Fixpoint fold_carry (fuel : nat) (ret : Z) : Z :=
  match fuel with
  | O => ret
  | S fuel' =>
      if 65535 <? ret
      then fold_carry fuel' (u32 (Z.shiftr ret 16 + Z.land ret 65535))
      else ret
  end.

Definition value (c : InternetChecksum) : Z := u16 (Z.lnot (fold_carry 3 (sum c))).

(** ** The one's-complement sum *)

(** The contribution of [data] when its first byte has parity [p]. *)
Fixpoint wsum (p : bool) (data : bytes) : Z :=
  match data with
  | [] => 0
  | x :: t => (if p then byte.unsigned x else byte.unsigned x * 256) + wsum (negb p) t
  end.

Fixpoint flips (p : bool) (data : bytes) : bool :=
  match data with [] => p | _ :: t => flips (negb p) t end.

Lemma wsum_bound p data : 0 <= wsum p data <= 65280 * size data.
Proof.
  revert p. induction data as [|x t IH]; intros p; cbn; [size_simpl; lia|].
  rewrite size_cons. specialize (IH (negb p)). pose proof (byte.unsigned_range x).
  destruct p; lia.
Qed.

Lemma wsum_app p s t : wsum p (s ++ t) = wsum p s + wsum (flips p s) t.
Proof. revert p. induction s; intros p; cbn; [lia|]. rewrite IHs. lia. Qed.

Lemma flips_even p s : Nat.Even (length s) -> flips p s = p.
Proof.
  intros [k Hk]. revert p s Hk.
  induction k as [|k IH]; intros p s Hk; [by destruct s|].
  destruct s as [|x [|y s]]; cbn in *; try lia.
  rewrite negb_involutive. apply IH. lia.
Qed.

Lemma add_spec data : forall c,
  0 <= sum c -> sum c + wsum (parity c) data < M32 ->
  add data c = mkChecksum (sum c + wsum (parity c) data) (flips (parity c) data).
Proof.
  unfold add. induction data as [|x t IH]; intros c Hc Hb; cbn in *.
  - rewrite Z.add_0_r. by destruct c.
  - pose proof (byte.unsigned_range x). pose proof (wsum_bound (negb (parity c)) t).
    assert (E : add_byte c x = mkChecksum (sum c + (if parity c then byte.unsigned x
      else byte.unsigned x * 256)) (negb (parity c))).
    { unfold add_byte. f_equal. destruct (parity c); unwrap_ints; done. }
    rewrite E, IH; cbn; [f_equal; lia|destruct (parity c); lia|lia].
Qed.

Lemma add_app s t c : add (s ++ t) c = add t (add s c).
Proof. apply fold_left_app. Qed.

Lemma carry_step x :
  0 <= x < M32 ->
  let y := u32 (Z.shiftr x 16 + Z.land x 65535) in
  0 <= y <= 131070 /\ (x <= 131070 -> y <= 65535) /\ (0 < x -> 0 < y) /\
  y mod 65535 = x mod 65535.
Proof.
  intros Hx. cbv zeta.
  pose proof (Z.div_mod x 65536 ltac:(lia)) as E.
  pose proof (Z.mod_pos_bound x 65536 ltac:(lia)).
  assert (0 <= x / 65536 < 65536).
  { split; [apply Z.div_pos; lia|apply Z.div_lt_upper_bound; lia]. }
  assert (u32 (Z.shiftr x 16 + Z.land x 65535) = x / 65536 + x mod 65536) as ->.
  { rewrite Z.shiftr_div_pow2 by lia. change 65535 with (Z.ones 16).
    rewrite Z.land_ones by lia. change (2 ^ 16) with 65536. apply u32_id. lia. }
  split; [lia|]. split; [lia|]. split; [lia|].
  rewrite E at 3. replace (65536 * (x / 65536) + x mod 65536)
    with (x / 65536 + x mod 65536 + x / 65536 * 65535) by lia.
  by rewrite Z_mod_plus_full.
Qed.

(** Three iterations are enough for a 32-bit sum, and they compute the residue
    modulo 65535 in the range the one's complement uses. *)
Lemma fold_carry_done x :
  0 <= x < M32 ->
  let f := fold_carry 3 x in
  0 <= f <= 65535 /\ f mod 65535 = x mod 65535 /\ (0 < x -> 0 < f) /\
  (forall n, fold_carry (3 + n) x = f).
Proof.
  intros Hx. cbv zeta. cbn [fold_carry Nat.add].
  destruct (carry_step x Hx) as (A1 & A2 & A3 & A4).
  set (y := Prelude.u32 _) in *.
  destruct (carry_step y ltac:(lia)) as (B1 & B2 & B3 & B4).
  set (z := Prelude.u32 (Z.shiftr y 16 + _)) in *.
  specialize (B2 ltac:(lia)).
  case_Z; [|split_and!; lia || done]. case_Z; [|split_and!; lia || done].
  case_Z; [lia|]. split_and!; try lia; try congruence.
Qed.

Lemma value_fold c :
  0 <= sum c < M32 -> value c = 65535 - fold_carry 3 (sum c).
Proof.
  intros Hc. destruct (fold_carry_done _ Hc) as (H & _). unfold value.
  set (f := fold_carry 3 (sum c)) in *. unfold u16. unfold Z.lnot.
  rewrite <- (Z_mod_plus_full _ 1), Z.mod_small; lia.
Qed.

(** [value()] is zero exactly on the non-zero multiples of 65535. *)
Lemma value_zero c :
  0 <= sum c < M32 -> (value c = 0 <-> 0 < sum c /\ sum c mod 65535 = 0).
Proof.
  intros Hc. rewrite value_fold by done.
  destruct (fold_carry_done _ Hc) as (H1 & H2 & H3 & _).
  set (f := fold_carry 3 (sum c)) in *. split.
  - intros E. assert (f = 65535) as Ef by lia. rewrite Ef in H2. split; [|by rewrite <- H2].
    destruct (Z.eq_dec (sum c) 0) as [E0|]; [|lia].
    subst f. rewrite E0 in Ef. vm_compute in Ef. lia.
  - intros [Hp Hm]. specialize (H3 Hp). rewrite Hm in H2.
    assert (f = 65535); [|lia]. apply Z.mod_divide in H2 as [k Hk]; lia.
Qed.

Lemma value_range c : 0 <= sum c < M32 -> 0 <= value c <= 65535.
Proof. intros Hc. rewrite value_fold by done. destruct (fold_carry_done _ Hc). lia. Qed.

(** ** Computing and verifying *)

Lemma wsum_be2 v : 0 <= v <= 65535 -> wsum false (Parser.be_bytes 2 v) = v.
Proof.
  intros Hv. cbn. rewrite !byte.unsigned_of_Z. unfold byte.wrap.
  change (256 ^ 1) with 256. change (256 ^ 0) with 1. change (2 ^ 8) with 256.
  rewrite Z.div_1_r. pose proof (Z.div_mod v 256 ltac:(lia)).
  rewrite (Z.mod_small (v / 256)); [lia|].
  split; [apply Z.div_pos; lia|apply Z.div_lt_upper_bound; lia].
Qed.

(** A message with a two-byte field at an even offset. *)
Lemma sum_with_field init pre v post :
  Nat.Even (length pre) -> 0 <= v <= 65535 -> 0 <= init ->
  init + 65280 * (size pre + 2 + size post) < M32 ->
  sum (add (pre ++ Parser.be_bytes 2 v ++ post) (construct init)) =
  init + wsum false pre + v + wsum false post.
Proof.
  intros He Hv Hi Hb.
  pose proof (wsum_bound false (pre ++ Parser.be_bytes 2 v ++ post)) as Hw.
  rewrite !size_app, Parser.be_bytes_size in Hw.
  rewrite add_spec by (cbn [sum parity construct]; lia). cbn [sum parity construct].
  rewrite !wsum_app, (flips_even _ _ He), (flips_even _ (Parser.be_bytes 2 v)).
  - rewrite wsum_be2 by done. lia.
  - rewrite Parser.be_bytes_length. by exists 1%nat.
Qed.

Lemma complete_field init pre post :
  Nat.Even (length pre) -> 0 <= init ->
  init + 65280 * (size pre + 2 + size post) < M32 ->
  let c := value (add (pre ++ Parser.be_bytes 2 0 ++ post) (construct init)) in
  0 <= c <= 65535 /\
  value (add (pre ++ Parser.be_bytes 2 c ++ post) (construct init)) = 0.
Proof.
  intros He Hi Hb. cbv zeta.
  pose proof (wsum_bound false pre). pose proof (wsum_bound false post).
  pose proof (sum_with_field init pre 0 post He ltac:(lia) Hi Hb) as HZ.
  set (c0 := add _ _) in HZ |- *.
  assert (Hs : 0 <= sum c0 < M32) by (rewrite HZ; lia).
  pose proof (value_range _ Hs) as Hc. split; [done|].
  pose proof (sum_with_field init pre (value c0) post He Hc Hi Hb) as H1.
  apply value_zero; rewrite H1; [lia|].
  pose proof (value_fold _ Hs) as Hv. destruct (fold_carry_done _ Hs) as (F1 & F2 & F3 & _).
  set (f := fold_carry 3 (sum c0)) in *. split.
  - destruct (Z.eq_dec (sum c0) 0) as [E|E]; [|lia].
    assert (f = 0); [|lia]. subst f. by rewrite E.
  - replace (init + wsum false pre + value c0 + wsum false post)
      with (65535 + (sum c0 - f)) by lia.
    rewrite <- (Z.mul_1_l 65535) at 1. rewrite Z.add_comm, Z_mod_plus_full.
    rewrite Zminus_mod, F2, Z.sub_diag. done.
Qed.

(** The checksum verifies.  Compute [value()] over a message whose 16-bit
    checksum field, at an even offset, is zero, and store the result in that
    field: [value()] over the message so completed is zero.  This holds for any
    initial sum (a pseudo-header) and any length below the overflow of the
    32-bit accumulator. *)
Theorem checksum_verifies init pre post :
  Nat.Even (length pre) -> 0 <= init ->
  init + 65280 * (size pre + 2 + size post) < M32 ->
  let c := value (add (pre ++ Parser.be_bytes 2 0 ++ post) (construct init)) in
  0 <= c <= 65535 /\
  value (add (pre ++ Parser.be_bytes 2 c ++ post) (construct init)) = 0.
Proof. apply complete_field. Qed.

Lemma checksum_verifies_witness :
  let pre := [Byte.x45; Byte.x00] in let post := [Byte.xff; Byte.xfe; Byte.x01] in
  let c := value (add (pre ++ Parser.be_bytes 2 0 ++ post) (construct 70000)) in
  0 <= c <= 65535 /\ value (add (pre ++ Parser.be_bytes 2 c ++ post) (construct 70000)) = 0.
Proof.
  apply (checksum_verifies 70000 [Byte.x45; Byte.x00] [Byte.xff; Byte.xfe; Byte.x01]).
  - by exists 1%nat.
  - lia.
  - vm_compute. reflexivity.
Defined.

(** C32: the checksum detects any corruption of a single byte: of two messages
    that differ in exactly one byte, at most one verifies. *)
Theorem checksum_detects_byte_error init pre x y post :
  0 <= init -> init + 65280 * (size pre + 1 + size post) < M32 -> x <> y ->
  value (add (pre ++ x :: post) (construct init)) = 0 ->
  value (add (pre ++ y :: post) (construct init)) <> 0.
Proof.
  intros Hi Hb Hxy Hx Hy.
  assert (Hsum : forall z, 0 <= sum (add (pre ++ z :: post) (construct init)) < M32 /\
    sum (add (pre ++ z :: post) (construct init)) =
    init + wsum false pre + (if flips false pre then byte.unsigned z
      else byte.unsigned z * 256) + wsum (negb (flips false pre)) post).
  { intros z. pose proof (wsum_bound false (pre ++ z :: post)) as Hw.
    rewrite size_app, size_cons in Hw.
    rewrite add_spec by (cbn [sum parity construct]; lia). cbn [sum parity construct]. rewrite wsum_app in *.
    cbn in *. lia. }
  destruct (Hsum x) as [Rx Sx], (Hsum y) as [Ry Sy].
  apply value_zero in Hx as [_ Hx]; [|done]. apply value_zero in Hy as [_ Hy]; [|done].
  apply Hxy, byte.unsigned_inj. rewrite Sx in Hx. rewrite Sy in Hy.
  pose proof (byte.unsigned_range x). pose proof (byte.unsigned_range y).
  apply Z.mod_divide in Hx as [k Hk]; [|lia]. apply Z.mod_divide in Hy as [m Hm]; [|lia].
  destruct (flips false pre); lia.
Qed.

Lemma checksum_detects_byte_error_witness :
  value (add ([] ++ Byte.xff :: [Byte.xff]) (construct 0)) = 0 /\
  value (add ([] ++ Byte.xfe :: [Byte.xff]) (construct 0)) <> 0.
Proof.
  split; [vm_compute; reflexivity|].
  apply (checksum_detects_byte_error 0 [] Byte.xff Byte.xfe [Byte.xff]).
  - lia.
  - vm_compute. reflexivity.
  - discriminate.
  - vm_compute. reflexivity.
Defined.
