(* ===== verification/TCPHeader.v ===== *)
(** The TCP header: [libsponge/tcp_helpers/tcp_header.hh] and [tcp_header.cc].
    [parse] and [serialize] are inverse on the headers that have a wire form. *)
From S2P Require Import Prelude Buffer Parser WrappingIntegers.

Definition LENGTH : Z := 20.

(** [struct TCPHeader] *)
Record TCPHeader := mkTCPHeader {
  sport : Z;
  dport : Z;
  seqno : WrappingInt32;
  ackno : WrappingInt32;
  doff : Z;
  urg : bool;
  ack : bool;
  psh : bool;
  rst : bool;
  syn : bool;
  fin : bool;
  win : Z;
  cksum : Z;
  uptr : Z
}.

(** The default member initialisers. *)
Definition default : TCPHeader :=
  mkTCPHeader 0 0 (mkWrappingInt32 0) (mkWrappingInt32 0) (LENGTH / 4)
    false false false false false false 0 0 0.

(** [static_cast<bool>(fl_b & mask)] *)
Definition flag (fl_b mask : Z) : bool := negb (Z.land fl_b mask =? 0).

(** The end of [parse]: the offset is checked and the options are skipped. *)
Definition skip_options (h : TCPHeader) : P (ParseResult * TCPHeader) :=
  if doff h <? 5 then mret (HeaderTooShort, h)
  else
    _ ← p_remove_prefix (u64 (doff h * 4 - LENGTH));
    p ← get;
    if error p then mret (get_error p, h) else mret (NoError, h).

(** [parse] assigns every field, so the previous header plays no part. *)
Definition parse : P (ParseResult * TCPHeader) :=
  sport ← p_u16;
  dport ← p_u16;
  seqno ← p_u32;
  ackno ← p_u32;
  b ← p_u8;
  let doff := Z.shiftr b 4 in
  fl_b ← p_u8;
  let urg := flag fl_b 32 in
  let ack := flag fl_b 16 in
  let psh := flag fl_b 8 in
  let rst := flag fl_b 4 in
  let syn := flag fl_b 2 in
  let fin := flag fl_b 1 in
  win ← p_u16;
  cksum ← p_u16;
  uptr ← p_u16;
  let h := mkTCPHeader sport dport (mkWrappingInt32 seqno) (mkWrappingInt32 ackno) doff
             urg ack psh rst syn fin win cksum uptr in
  skip_options h.

(** [string::resize]: truncates, or pads with zero bytes. *)
Definition resize (s : bytes) (n : Z) : bytes :=
  take (Z.to_nat n) s ++ replicate (Z.to_nat n - length s) Byte.x00.

Definition flags_byte (h : TCPHeader) : Z :=
  Z.lor (Z.lor (Z.lor (Z.lor (Z.lor
    (if urg h then 32 else 0) (if ack h then 16 else 0)) (if psh h then 8 else 0))
    (if rst h then 4 else 0)) (if syn h then 2 else 0)) (if fin h then 1 else 0).

Definition serialize (h : TCPHeader) : result bytes :=
  if doff h <? 5 then Throw runtime_error
  else
    let ret := [] in
    let ret := un_u16 (sport h) ret in
    let ret := un_u16 (dport h) ret in
    let ret := un_u32 (raw_value (seqno h)) ret in
    let ret := un_u32 (raw_value (ackno h)) ret in
    let ret := un_u8 (u8 (Z.shiftl (doff h) 4)) ret in
    let ret := un_u8 (u8 (flags_byte h)) ret in
    let ret := un_u16 (win h) ret in
    let ret := un_u16 (cksum h) ret in
    let ret := un_u16 (uptr h) ret in
    Ok (resize ret (4 * doff h)).

(** [operator==] compares neither the checksum nor the ports. *)
Definition eqb (h other : TCPHeader) : bool :=
  wi_eqb (seqno h) (seqno other) && wi_eqb (ackno h) (ackno other) &&
  (doff h =? doff other) && Bool.eqb (urg h) (urg other) && Bool.eqb (ack h) (ack other) &&
  Bool.eqb (psh h) (psh other) && Bool.eqb (rst h) (rst other) && Bool.eqb (syn h) (syn other) &&
  Bool.eqb (fin h) (fin other) && (win h =? win other) && (uptr h =? uptr other).

(** Field assignments. *)
Definition set_seqno (n : WrappingInt32) (h : TCPHeader) : TCPHeader :=
  mkTCPHeader (sport h) (dport h) n (ackno h) (doff h) (urg h) (ack h)
    (psh h) (rst h) (syn h) (fin h) (win h) (cksum h) (uptr h).
Definition set_ackno (n : WrappingInt32) (h : TCPHeader) : TCPHeader :=
  mkTCPHeader (sport h) (dport h) (seqno h) n (doff h) (urg h) (ack h)
    (psh h) (rst h) (syn h) (fin h) (win h) (cksum h) (uptr h).
Definition set_ack (b : bool) (h : TCPHeader) : TCPHeader :=
  mkTCPHeader (sport h) (dport h) (seqno h) (ackno h) (doff h) (urg h) b
    (psh h) (rst h) (syn h) (fin h) (win h) (cksum h) (uptr h).
Definition set_rst (b : bool) (h : TCPHeader) : TCPHeader :=
  mkTCPHeader (sport h) (dport h) (seqno h) (ackno h) (doff h) (urg h) (ack h)
    (psh h) b (syn h) (fin h) (win h) (cksum h) (uptr h).
Definition set_syn (b : bool) (h : TCPHeader) : TCPHeader :=
  mkTCPHeader (sport h) (dport h) (seqno h) (ackno h) (doff h) (urg h) (ack h)
    (psh h) (rst h) b (fin h) (win h) (cksum h) (uptr h).
Definition set_fin (b : bool) (h : TCPHeader) : TCPHeader :=
  mkTCPHeader (sport h) (dport h) (seqno h) (ackno h) (doff h) (urg h) (ack h)
    (psh h) (rst h) (syn h) b (win h) (cksum h) (uptr h).
Definition set_win (w : Z) (h : TCPHeader) : TCPHeader :=
  mkTCPHeader (sport h) (dport h) (seqno h) (ackno h) (doff h) (urg h) (ack h)
    (psh h) (rst h) (syn h) (fin h) w (cksum h) (uptr h).
Definition set_cksum (c : Z) (h : TCPHeader) : TCPHeader :=
  mkTCPHeader (sport h) (dport h) (seqno h) (ackno h) (doff h) (urg h) (ack h)
    (psh h) (rst h) (syn h) (fin h) (win h) c (uptr h).
Definition set_ports (s d : Z) (h : TCPHeader) : TCPHeader :=
  mkTCPHeader s d (seqno h) (ackno h) (doff h) (urg h) (ack h)
    (psh h) (rst h) (syn h) (fin h) (win h) (cksum h) (uptr h).

(** ** The wire format *)

(** Every field fits its width and the data offset its four bits. *)
Record wf (h : TCPHeader) : Prop := {
  wf_sport : 0 <= sport h < 65536;
  wf_dport : 0 <= dport h < 65536;
  wf_seqno : wi_wf (seqno h);
  wf_ackno : wi_wf (ackno h);
  wf_doff : 5 <= doff h < 16;
  wf_win : 0 <= win h < 65536;
  wf_cksum : 0 <= cksum h < 65536;
  wf_uptr : 0 <= uptr h < 65536
}.

(** The bytes before and after the checksum field. *)
Definition wire_pre (h : TCPHeader) : bytes :=
  be_bytes 2 (sport h) ++ be_bytes 2 (dport h) ++ be_bytes 4 (raw_value (seqno h)) ++
  be_bytes 4 (raw_value (ackno h)) ++ be_bytes 1 (u8 (Z.shiftl (doff h) 4)) ++
  be_bytes 1 (u8 (flags_byte h)) ++ be_bytes 2 (win h).
Definition padding (h : TCPHeader) : bytes :=
  replicate (Z.to_nat (4 * doff h) - 20) Byte.x00.
Definition wire_post (h : TCPHeader) : bytes := be_bytes 2 (uptr h) ++ padding h.
Definition wire (h : TCPHeader) : bytes :=
  wire_pre h ++ be_bytes 2 (cksum h) ++ wire_post h.

Lemma wire_pre_length h : length (wire_pre h) = 16%nat.
Proof. unfold wire_pre. by rewrite !length_app, !be_bytes_length. Qed.

Lemma serialize_wire h : 5 <= doff h -> serialize h = Ok (wire h).
Proof.
  intros Hd. unfold serialize. case_Z; [lia|]. f_equal.
  unfold un_u8, un_u16, un_u32. rewrite !unparse_int_be. unfold resize, wire, wire_post.
  rewrite take_ge.
  - rewrite !length_app, !be_bytes_length. unfold wire_pre, padding.
    rewrite app_nil_l, <- !(assoc_L (++)). done.
  - rewrite !length_app, !be_bytes_length. cbn. lia.
Qed.

Lemma padding_size h : wf h -> size (padding h) = 4 * doff h - 20.
Proof. intros []. unfold padding, size. rewrite length_replicate. lia. Qed.

Lemma wire_size h : wf h -> size (wire h) = 4 * doff h.
Proof.
  intros H. unfold wire, wire_post. rewrite !size_app, (padding_size h H), !be_bytes_size.
  unfold size. rewrite wire_pre_length. destruct H. lia.
Qed.

Lemma flags_byte_range h : 0 <= flags_byte h < 64.
Proof. unfold flags_byte. by repeat case_match. Qed.

Lemma shift_nibble d : 0 <= d < 16 ->
  u8 (Z.shiftl d 4) = 16 * d /\ Z.shiftr (16 * d) 4 = d.
Proof.
  intros Hd. rewrite Z.shiftl_mul_pow2, Z.shiftr_div_pow2 by lia.
  change (2 ^ 4) with 16. rewrite u8_id by lia. split; [lia|].
  rewrite Z.mul_comm. apply Z.div_mul. lia.
Qed.

Lemma parse_wire h rest : wf h -> runs parse (wire h ++ rest) (NoError, h) rest.
Proof.
  intros H. pose proof (padding_size h H) as Hpad. pose proof (flags_byte_range h).
  destruct H. unfold wi_wf in *.
  destruct (shift_nibble (doff h) ltac:(lia)) as [E1 E2].
  unfold wire, wire_pre, wire_post. rewrite E1, (u8_id (flags_byte h)) by lia.
  rewrite <- !(assoc_L (++)). unfold parse, p_u8, p_u16, p_u32.
  do 9 parse_step. cbv zeta. rewrite E2. unfold skip_options. cbn [doff]. case_Z; [lia|].
  eapply runs_bind.
  { apply runs_skip. rewrite Hpad, u64_id; unfold LENGTH; lia. }
  apply runs_get. intros p [_ _ Hok]. unfold error. rewrite Hok. cbn.
  replace (mkTCPHeader _ _ _ _ _ _ _ _ _ _ _ _ _ _) with h; [apply runs_ret|].
  destruct h as [? ? [] [] ? urg ack psh rst syn fin]. cbn.
  by destruct urg, ack, psh, rst, syn, fin.
Qed.

(** ** Arbitrary input *)

Lemma parse_sane : keeps sane parse.
Proof. unfold parse, skip_options. solve_keeps. apply u64_range. Qed.

Lemma parse_failed : keeps failed parse.
Proof. unfold parse, skip_options. solve_keeps. Qed.

Lemma parse_needs_20 : needs parse 20.
Proof.
  unfold parse, p_u8, p_u16, p_u32.
  do 9 (apply needs_int; [intros; unfold skip_options; solve_keeps|intros]). apply needs_0. lia.
Qed.

(** The data offset of a serialized header, and where its payload starts as
    [parse] leaves the parser: after the options, or after the fixed part when
    the offset is too small. *)
Definition data_offset (s : bytes) : Z := Z.shiftr (be_value 0 (take 1 (drop 12 s))) 4.
Definition header_end (s : bytes) : Z := Z.max 20 (4 * data_offset s).

Lemma data_offset_range s : 0 <= data_offset s < 16.
Proof.
  unfold data_offset.
  assert (0 <= be_value 0 (take 1 (drop 12 s)) < 256).
  { destruct (drop 12 s) as [|b t]; [done|]. apply (byte.unsigned_range b). }
  rewrite Z.shiftr_div_pow2 by lia. change (2 ^ 4) with 16.
  split; [apply Z.div_pos; lia|apply Z.div_lt_upper_bound; lia].
Qed.

Lemma parse_fixed s p :
  holds p s -> (20 <= length s)%nat ->
  exists h p', parse p = skip_options h p' /\ holds p' (drop 20 s) /\ doff h = data_offset s.
Proof.
  intros Hp Hs. unfold parse, p_u8, p_u16, p_u32.
  do 9 (unfold mbind at 1, P_bind at 1;
    match type of Hp with holds ?q ?t =>
      match goal with |- context [parse_int ?n q] =>
        let E := fresh "E" in let p' := fresh "p'" in
        destruct (runs_take n t ltac:(rewrite ?length_drop; lia) q Hp) as (p' & E & Hp');
        rewrite E; clear E Hp; rename Hp' into Hp; rewrite ?drop_drop in Hp
      end end).
  eexists _, _. split; [|split; [exact Hp|]].
  - reflexivity.
  - cbn [doff]. unfold data_offset. by rewrite ?drop_drop.
Qed.

Lemma skip_options_spec h s p :
  holds p s -> 0 <= doff h < 16 ->
  exists r p', skip_options h p = Ok ((r, h), p') /\
    if doff h <? 5 then holds p' s
    else if size s <? 4 * doff h - 20 then failed p'
    else holds p' (drop (Z.to_nat (4 * doff h - 20)) s).
Proof.
  intros Hp Hd. unfold skip_options. case_Z; [by do 2 eexists|].
  rewrite u64_id by (unfold LENGTH; lia). replace (doff h * 4 - LENGTH) with (4 * doff h - 20)
    by (unfold LENGTH; lia). unfold mbind at 1, P_bind at 1. case_Z.
  - assert (error (check_size (4 * doff h - 20) p) = true) as E.
    { apply check_size_failed. right. unfold buf_size. by rewrite (holds_str _ _ Hp). }
    unfold p_remove_prefix. rewrite E. unfold mbind, P_bind, get. rewrite E.
    do 2 eexists. split; [reflexivity|]. destruct Hp as [Hs Hw Ho].
    unfold failed, check_size, buf_size in *. rewrite Hs in *. case_Z; [done|lia].
  - rewrite <- (take_drop (Z.to_nat (4 * doff h - 20)) s) in Hp.
    eapply runs_skip in Hp as (p' & -> & Hp'); [|rewrite size_take; lia]. unfold mbind, P_bind, get, error.
    rewrite (holds_ok _ _ Hp'). by do 2 eexists.
Qed.

(** What [parse] does to any input: too short for the fixed part or for the
    options it announces, the parser ends in [PacketTooShort]; otherwise it ends
    at [header_end] without an error. *)
Lemma parse_outcome s p :
  holds p s ->
  exists r h p', parse p = Ok ((r, h), p') /\
    (size s < header_end s -> failed p') /\
    (header_end s <= size s ->
       holds p' (drop (Z.to_nat (header_end s)) s) /\ doff h = data_offset s).
Proof.
  intros Hp. pose proof (data_offset_range s) as Hd. unfold header_end.
  destruct (Z.lt_ge_cases (size s) 20) as [C|C].
  { destruct (parse_needs_20 p s Hp C) as ([r h] & p' & E & F).
    exists r, h, p'. split; [done|]. split; [done|lia]. }
  destruct (parse_fixed s p Hp) as (h & p1 & -> & H1 & Hh); [unfold size in C; lia|].
  rewrite <- Hh in Hd. destruct (skip_options_spec h _ p1 H1 Hd) as (r & p2 & -> & H2).
  exists r, h, p2. split; [done|]. rewrite <- Hh.
  assert (size (drop 20 s) = size s - 20) as E.
  { unfold size in *. rewrite length_drop. lia. }
  rewrite E in H2. revert H2. case_Z; [|case_Z]; intros H2; split; try done; try lia; intros Hx.
  - rewrite Z.max_l by lia. done.
  - rewrite drop_drop in H2. split; [|done].
    replace (Z.to_nat _) with (20 + Z.to_nat (4 * doff h - 20))%nat by lia. done.
Qed.

(** ** Ranges of the fields *)
Record in_range (h : TCPHeader) : Prop := {
  range_sport : 0 <= sport h < 65536;
  range_dport : 0 <= dport h < 65536;
  range_seqno : 0 <= raw_value (seqno h) < M32;
  range_ackno : 0 <= raw_value (ackno h) < M32;
  range_doff : 0 <= doff h < 16;
  range_win : 0 <= win h < 65536;
  range_cksum : 0 <= cksum h < 65536;
  range_uptr : 0 <= uptr h < 65536
}.

Lemma skip_options_same h : yields (skip_options h) (fun '(_, h') => h' = h).
Proof.
  unfold skip_options. destruct (_ <? _); [by apply yields_ret|].
  eapply yields_bind; [apply yields_any|]. intros _ _.
  eapply yields_bind; [apply yields_any|]. intros p _.
  destruct (error p); by apply yields_ret.
Qed.

(** Parsing is type-correct on every input: whatever bytes arrive, even when
    they are too few, each field of the header that [TCPHeader::parse] leaves behind
    is a value of its width, and the data offset fits in its four bits. *)
Theorem parse_in_range : yields parse (fun '(_, h) => in_range h).
Proof.
  unfold parse.
  eapply yields_bind; [apply yields_int|]. intros sp Hsp.
  eapply yields_bind; [apply yields_int|]. intros dp Hdp.
  eapply yields_bind; [apply yields_int|]. intros sq Hsq.
  eapply yields_bind; [apply yields_int|]. intros ak Hak.
  eapply yields_bind; [apply yields_int|]. intros b Hb.
  eapply yields_bind; [apply yields_int|]. intros fl Hfl.
  eapply yields_bind; [apply yields_int|]. intros w Hw.
  eapply yields_bind; [apply yields_int|]. intros ck Hck.
  eapply yields_bind; [apply yields_int|]. intros up Hup.
  set (h := mkTCPHeader _ _ _ _ _ _ _ _ _ _ _ _ _ _).
  assert (Hh : in_range h).
  { constructor; cbn; try done. rewrite Z.shiftr_div_pow2 by lia. cbn in Hb.
    change (2 ^ 4) with 16. Z.div_mod_to_equations. lia. }
  intros p [r h'] p' E. apply skip_options_same in E. by subst.
Qed.
