(* ===== verification/TCPSegment.v ===== *)
(** TCP segments: [libsponge/tcp_helpers/tcp_segment.hh] and [tcp_segment.cc]. *)
From S2P Require Import Prelude Buffer Parser.
From S2P Require Checksum TCPHeader.
Export TCPHeader(TCPHeader).

(** [class TCPSegment] *)
Record TCPSegment := mkTCPSegment {
  header : TCPHeader;
  payload : Buffer
}.

Definition default : TCPSegment := mkTCPSegment TCPHeader.default empty_buffer.

(** [parse] keeps the previous contents of the segment when the checksum is bad,
    and ignores what [TCPHeader::parse] returns. *)
Definition parse (old : TCPSegment) (buffer : Buffer) (datagram_layer_checksum : Z)
    : result (ParseResult * TCPSegment) :=
  let check := Checksum.construct datagram_layer_checksum in
  let check := Checksum.add (str buffer) check in
  if negb (Checksum.value check =? 0) then Ok (BadChecksum, old)
  else
    let p := construct buffer in
    '((_, h), p) ← TCPHeader.parse p;
    Ok (get_error p, mkTCPSegment h (Parser.buffer p)).

Definition length_in_sequence_space (seg : TCPSegment) : Z :=
  u64 (size (str (payload seg)) + (if TCPHeader.syn (header seg) then 1 else 0)
       + (if TCPHeader.fin (header seg) then 1 else 0)).

Definition serialize (seg : TCPSegment) (datagram_layer_checksum : Z) : result BufferList :=
  let header_out := TCPHeader.set_cksum 0 (header seg) in
  let check := Checksum.construct datagram_layer_checksum in
  s ← TCPHeader.serialize header_out;
  let check := Checksum.add s check in
  let check := Checksum.add (str (payload seg)) check in
  let header_out := TCPHeader.set_cksum (Checksum.value check) header_out in
  s ← TCPHeader.serialize header_out;
  let ret := append [] (bl_of_string s) in
  Ok (append ret (bl_of_buffer (payload seg))).

(** ** Wire format *)

(** A segment that can be sent: its header and buffer are well formed and the
    32-bit checksum accumulator cannot overflow. *)
Record wf (ck : Z) (seg : TCPSegment) : Prop := {
  wf_header : TCPHeader.wf (header seg);
  wf_payload : buf_wf (payload seg);
  wf_ck : 0 <= ck;
  wf_size : ck + 65280 * (4 * TCPHeader.doff (header seg) + size (str (payload seg))) < M32
}.

Lemma set_cksum_wf c h : 0 <= c < 65536 -> TCPHeader.wf h -> TCPHeader.wf (TCPHeader.set_cksum c h).
Proof. intros Hc []. by constructor. Qed.

Lemma wire_even h : Nat.Even (length (TCPHeader.wire_pre h)).
Proof. rewrite TCPHeader.wire_pre_length. by exists 8%nat. Qed.

(** The bytes of a segment around the checksum, and the checksum [serialize]
    computes over them. *)
Definition after_cksum (seg : TCPSegment) : bytes :=
  TCPHeader.wire_post (header seg) ++ str (payload seg).
Definition computed (ck : Z) (seg : TCPSegment) : Z :=
  Checksum.value (Checksum.add
    (TCPHeader.wire_pre (header seg) ++ be_bytes 2 0 ++ after_cksum seg)
    (Checksum.construct ck)).

Lemma wf_bound ck seg :
  wf ck seg ->
  ck + 65280 * (size (TCPHeader.wire_pre (header seg)) + 2 + size (after_cksum seg)) < M32.
Proof.
  intros [Hh _ _ Hb]. pose proof (TCPHeader.wire_size _ Hh) as Hs.
  unfold TCPHeader.wire, after_cksum in *. rewrite !size_app, be_bytes_size in *. lia.
Qed.

Lemma serialize_wf ck seg :
  wf ck seg ->
  exists l, serialize seg ck = Ok l /\ bl_wf l /\
    concatenate l = TCPHeader.wire (TCPHeader.set_cksum (computed ck seg) (header seg))
                    ++ str (payload seg) /\
    size (concatenate l) = 4 * TCPHeader.doff (header seg) + size (str (payload seg)).
Proof.
  intros H. pose proof (wf_header _ _ H) as Hh. unfold serialize.
  assert (5 <= TCPHeader.doff (header seg)) by (destruct Hh; lia).
  rewrite !TCPHeader.serialize_wire by done. cbn [mbind result_bind].
  rewrite !TCPHeader.serialize_wire by done. cbn [mbind result_bind].
  rewrite <- Checksum.add_app. eexists. split; [reflexivity|].
  assert (Hlen : size (TCPHeader.wire (TCPHeader.set_cksum (computed ck seg) (header seg)))
                 = 4 * TCPHeader.doff (header seg)).
  { rewrite TCPHeader.wire_size; [done|]. apply set_cksum_wf; [|done].
    destruct (Checksum.complete_field ck _ (after_cksum seg) (wire_even (header seg))
      (wf_ck _ _ H) (wf_bound _ _ H)) as [Hc _]. unfold computed. lia. }
  cbn [append bl_of_string bl_of_buffer app concatenate]. rewrite app_nil_r.
  assert (E : forall h s, TCPHeader.wire (TCPHeader.set_cksum 0 h) ++ s =
    TCPHeader.wire_pre h ++ be_bytes 2 0 ++ TCPHeader.wire_post h ++ s).
  { intros. unfold TCPHeader.wire. rewrite <- !(assoc_L (++)). done. }
  rewrite E. change (Checksum.value _) with (computed ck seg).
  assert (size (str (payload seg)) < M64).
  { destruct H. pose proof (size_nonneg (str (payload seg))). lia. }
  change (TCPHeader.set_cksum _ (TCPHeader.set_cksum 0 (header seg)))
    with (TCPHeader.set_cksum (computed ck seg) (header seg)).
  rewrite str_of_string by (rewrite Hlen; destruct Hh; lia).
  split.
  { apply Forall_cons; split; [apply of_string_wf; rewrite Hlen; destruct Hh; lia|].
    apply Forall_singleton, H. }
  split; [done|]. rewrite size_app, Hlen. done.
Qed.

Lemma checksum_of_wire c ck seg :
  Checksum.add (TCPHeader.wire (TCPHeader.set_cksum c (header seg)) ++ str (payload seg))
    (Checksum.construct ck)
  = Checksum.add (TCPHeader.wire_pre (header seg) ++ be_bytes 2 c ++ after_cksum seg)
    (Checksum.construct ck).
Proof. reflexivity. Qed.

(** What a segment becomes on the wire, and back. *)
Lemma serialize_parse ck seg :
  wf ck seg ->
  exists l, serialize seg ck = Ok l /\ bl_wf l /\
    size (concatenate l) = 4 * TCPHeader.doff (header seg) + size (str (payload seg)) /\
    forall old b, buf_wf b -> str b = concatenate l ->
      exists seg', parse old b ck = Ok (NoError, seg') /\
        header seg' = TCPHeader.set_cksum (TCPHeader.cksum (header seg')) (header seg) /\
        str (payload seg') = str (payload seg).
Proof.
  intros H. destruct (serialize_wf ck seg H) as (l & Hl & Hw & Hc & Hsz).
  pose proof (wf_header _ _ H) as Hh. exists l. split; [done|]. split; [done|]. split; [done|].
  destruct (Checksum.complete_field ck _ (after_cksum seg) (wire_even (header seg))
      (wf_ck _ _ H) (wf_bound _ _ H)) as [Hr Hv].
  fold (computed ck seg) in Hr, Hv. intros old b Hb Hs.
  unfold parse. rewrite Hs, Hc, checksum_of_wire, Hv. cbn [Z.eqb negb].
  destruct (TCPHeader.parse_wire (TCPHeader.set_cksum (computed ck seg) (header seg))
    (str (payload seg)) ltac:(apply set_cksum_wf; [lia|done])
    (construct b)) as (p' & Hp & Hp').
  { rewrite <- Hc, <- Hs. by constructor. }
  rewrite Hp. cbn [mbind result_bind]. unfold get_error.
  rewrite (holds_ok _ _ Hp'). eexists. split; [reflexivity|]. split; [done|]. apply Hp'.
Qed.

Lemma segment_parse_serialize ck seg old :
  wf ck seg ->
  exists l seg', serialize seg ck = Ok l /\
    parse old (of_string (concatenate l)) ck = Ok (NoError, seg') /\
    header seg' = TCPHeader.set_cksum (TCPHeader.cksum (header seg')) (header seg) /\
    str (payload seg') = str (payload seg).
Proof.
  intros H. destruct (serialize_parse ck seg H) as (l & Hl & _ & Hsz & Hp).
  assert (size (concatenate l) < M64) by (rewrite Hsz; destruct H as [[] _ Hck Hb]; size_lia).
  destruct (Hp old (of_string (concatenate l))) as (seg' & E); [by apply of_string_wf|by apply str_of_string|].
  by exists l, seg'.
Qed.

(** C30: serializing a segment and parsing the result gives the segment back: no
    error, the header with only its checksum changed, and the same payload.  The
    checksum that [serialize] computes is accepted whatever the pseudo-header
    sum [ck] of the layer below, as long as both sides use the same. *)
Theorem segment_roundtrip ck seg old :
  wf ck seg ->
  exists l seg', serialize seg ck = Ok l /\
    parse old (of_string (concatenate l)) ck = Ok (NoError, seg') /\
    header seg' = TCPHeader.set_cksum (TCPHeader.cksum (header seg')) (header seg) /\
    str (payload seg') = str (payload seg).
Proof. apply segment_parse_serialize. Qed.

(** [parse] never throws, and this is when it accepts: the checksum over the
    whole buffer is zero, the buffer holds the fixed header, and it holds the
    options the header announces, if the announced length is legal.  A data
    offset below five is not an error: [TCPHeader::parse] reports it and the
    caller drops the report, so such a segment is accepted with its payload
    taken from byte 20, and serializing it again throws. *)
Theorem segment_parse_outcome b ck old :
  buf_wf b ->
  let s := str b in
  let bad := Checksum.value (Checksum.add s (Checksum.construct ck)) in
  exists r seg, parse old b ck = Ok (r, seg) /\
    (bad <> 0 -> r = BadChecksum /\ seg = old) /\
    (bad = 0 -> size s < TCPHeader.header_end s -> r = PacketTooShort) /\
    (bad = 0 -> TCPHeader.header_end s <= size s ->
       r = NoError /\ str (payload seg) = drop (Z.to_nat (TCPHeader.header_end s)) s /\
       (TCPHeader.data_offset s < 5 -> forall ck', serialize seg ck' = Throw runtime_error)).
Proof.
  intros Hw. cbv zeta. unfold parse.
  destruct (Z.eqb_spec (Checksum.value (Checksum.add (str b) (Checksum.construct ck))) 0)
    as [Hz|Hz]; cbn [negb].
  2:{ exists BadChecksum, old. split_and!; done. }
  assert (Hp : holds (construct b) (str b)) by (by constructor).
  destruct (TCPHeader.parse_outcome (str b) (construct b) Hp)
    as (r & h & p' & -> & Hshort & Hlong).
  cbn [mbind result_bind]. do 2 eexists. split; [reflexivity|].
  split; [done|]. split.
  - intros _ Hs. apply (Hshort Hs).
  - intros _ Hs. destruct (Hlong Hs) as [Hp' Hd]. split; [apply Hp'|]. split; [apply Hp'|].
    intros Hlt ck'. unfold serialize, TCPHeader.serialize. cbn. rewrite Hd. by case_Z; [|lia].
Qed.

(** A SYN-ACK carrying three bytes, with eight bytes of options. *)
Definition sample : TCPSegment :=
  mkTCPSegment
    (TCPHeader.mkTCPHeader 80 1234 (WrappingIntegers.mkWrappingInt32 4294967290)
       (WrappingIntegers.mkWrappingInt32 17) 7 false true false false true false 65535 0 0)
    (of_string [Byte.x61; Byte.x62; Byte.x63]).

Lemma sample_wf : wf 70000 sample.
Proof.
  constructor; [|by vm_compute|lia|by vm_compute].
  constructor; unfold WrappingIntegers.wi_wf; cbn; lia.
Qed.

Lemma segment_roundtrip_witness :
  exists l seg', serialize sample 70000 = Ok l /\
    parse default (of_string (concatenate l)) 70000 = Ok (NoError, seg') /\
    header seg' = TCPHeader.set_cksum (TCPHeader.cksum (header seg')) (header sample) /\
    str (payload seg') = [Byte.x61; Byte.x62; Byte.x63].
Proof. apply (segment_roundtrip 70000 sample default sample_wf). Defined.

(** Twenty bytes with data offset 4 and a correct checksum. *)
Definition short_doff : bytes :=
  replicate 12 Byte.x00 ++ [Byte.x40; Byte.x10] ++ replicate 2 Byte.x00 ++ [Byte.xbf; Byte.xef]
  ++ replicate 2 Byte.x00.

Lemma segment_parse_outcome_witness :
  buf_wf (of_string short_doff) /\
  exists r seg, parse default (of_string short_doff) 0 = Ok (r, seg) /\ r = NoError /\
    forall ck', serialize seg ck' = Throw runtime_error.
Proof.
  split; [by vm_compute|].
  destruct (segment_parse_outcome (of_string short_doff) 0 default)
    as (r & seg & H1 & _ & _ & H2); [by vm_compute|].
  destruct H2 as (H2 & _ & H3); [by vm_compute|by vm_compute|].
  exists r, seg. split; [exact H1|]. split; [exact H2|]. apply H3. by vm_compute.
Defined.

(** A segment that was parsed has a header whose fields are within their widths. *)
Lemma parse_range old b ck r seg :
  TCPHeader.in_range (header old) -> parse old b ck = Ok (r, seg) ->
  TCPHeader.in_range (header seg).
Proof.
  intros Ho. unfold parse. destruct (negb _); [by intros [= <- <-]|]. intros E.
  apply result_bind_Ok in E as ([[r' h] p] & E & [= _ <-]).
  by apply TCPHeader.parse_in_range in E.
Qed.

Lemma default_range : TCPHeader.in_range (header default).
Proof. by constructor. Qed.
