(* ===== verification/IPv4Header.v ===== *)
(** The IPv4 header: [libsponge/tcp_helpers/ipv4_header.hh] and [ipv4_header.cc]. *)
From S2P Require Import Prelude Buffer Parser.
From S2P Require Checksum TCPHeader.

Definition LENGTH : Z := 20.
Definition DEFAULT_TTL : Z := 128.
Definition PROTO_TCP : Z := 6.

(** [struct IPv4Header] *)
Record IPv4Header := mkIPv4Header {
  ver : Z;
  hlen : Z;
  tos : Z;
  len : Z;
  id : Z;
  df : bool;
  mf : bool;
  offset : Z;
  ttl : Z;
  proto : Z;
  cksum : Z;
  src : Z;
  dst : Z
}.

Definition default : IPv4Header :=
  mkIPv4Header 4 (LENGTH / 4) 0 0 0 true false 0 DEFAULT_TTL PROTO_TCP 0 0 0.

(** The checks of [parse] once the fixed part [h] has been read from a packet of
    [data_size] bytes, [original] being all of it. *)
Definition parse_checks (original : bytes) (data_size : Z) (h : IPv4Header)
    : P (ParseResult * IPv4Header) :=
  if data_size <? 4 * hlen h then mret (PacketTooShort, h)
  else if negb (ver h =? 4) then mret (WrongIPVersion, h)
  else if hlen h <? 5 then mret (HeaderTooShort, h)
  else if negb (data_size =? len h) then mret (TruncatedPacket, h)
  else
    _ ← p_remove_prefix (u64 (hlen h * 4 - LENGTH));
    p ← get;
    if error p then mret (get_error p, h)
    else
      let check := Checksum.add (substr0 original (4 * hlen h)) (Checksum.construct 0) in
      if negb (Checksum.value check =? 0) then mret (BadChecksum, h)
      else mret (NoError, h).

Definition parse (old : IPv4Header) : P (ParseResult * IPv4Header) :=
  p ← get;
  let original_serialized_version := Parser.buffer p in
  let data_size := buf_size (Parser.buffer p) in
  if data_size <? LENGTH then mret (PacketTooShort, old)
  else
    first_byte ← p_u8;
    let ver := Z.shiftr first_byte 4 in
    let hlen := Z.land first_byte 15 in
    tos ← p_u8;
    len ← p_u16;
    id ← p_u16;
    fo_val ← p_u16;
    let df := TCPHeader.flag fo_val 16384 in
    let mf := TCPHeader.flag fo_val 8192 in
    let offset := Z.land fo_val 8191 in
    ttl ← p_u8;
    proto ← p_u8;
    cksum ← p_u16;
    src ← p_u32;
    dst ← p_u32;
    parse_checks (str original_serialized_version) data_size
      (mkIPv4Header ver hlen tos len id df mf offset ttl proto cksum src dst).

Definition first_byte (h : IPv4Header) : Z :=
  u8 (Z.lor (Z.shiftl (ver h) 4) (Z.land (hlen h) 15)).
Definition fo_val (h : IPv4Header) : Z :=
  u16 (Z.lor (Z.lor (if df h then 16384 else 0) (if mf h then 8192 else 0))
             (Z.land (offset h) 8191)).

Definition serialize (h : IPv4Header) : result bytes :=
  if negb (ver h =? 4) then Throw runtime_error
  else if 4 * hlen h <? LENGTH then Throw runtime_error
  else
    let ret := [] in
    let ret := un_u8 (first_byte h) ret in
    let ret := un_u8 (tos h) ret in
    let ret := un_u16 (len h) ret in
    let ret := un_u16 (id h) ret in
    let ret := un_u16 (fo_val h) ret in
    let ret := un_u8 (ttl h) ret in
    let ret := un_u8 (proto h) ret in
    let ret := un_u16 (cksum h) ret in
    let ret := un_u32 (src h) ret in
    let ret := un_u32 (dst h) ret in
    Ok (TCPHeader.resize ret (4 * hlen h)).

Definition payload_length (h : IPv4Header) : Z := u16 (len h - 4 * hlen h).

Definition pseudo_cksum (h : IPv4Header) : Z :=
  let pcksum := u32 (Z.shiftr (src h) 16 + Z.land (src h) 65535) in
  let pcksum := u32 (pcksum + u32 (Z.shiftr (dst h) 16 + Z.land (dst h) 65535)) in
  let pcksum := u32 (pcksum + proto h) in
  let pcksum := u32 (pcksum + payload_length h) in
  pcksum.

(** Field assignments. *)
Definition set_cksum (c : Z) (h : IPv4Header) : IPv4Header :=
  mkIPv4Header (ver h) (hlen h) (tos h) (len h) (id h) (df h) (mf h) (offset h) (ttl h)
    (proto h) c (src h) (dst h).
Definition set_len (l : Z) (h : IPv4Header) : IPv4Header :=
  mkIPv4Header (ver h) (hlen h) (tos h) l (id h) (df h) (mf h) (offset h) (ttl h)
    (proto h) (cksum h) (src h) (dst h).
Definition set_addresses (s d : Z) (h : IPv4Header) : IPv4Header :=
  mkIPv4Header (ver h) (hlen h) (tos h) (len h) (id h) (df h) (mf h) (offset h) (ttl h)
    (proto h) (cksum h) s d.

(** ** The wire format *)

(** Every field fits its width on the wire. *)
Record fits (h : IPv4Header) : Prop := {
  fits_ver : 0 <= ver h < 16;
  fits_hlen : 5 <= hlen h < 16;
  fits_tos : 0 <= tos h < 256;
  fits_len : 0 <= len h < 65536;
  fits_id : 0 <= id h < 65536;
  fits_offset : 0 <= offset h < 8192;
  fits_ttl : 0 <= ttl h < 256;
  fits_proto : 0 <= proto h < 256;
  fits_cksum : 0 <= cksum h < 65536;
  fits_src : 0 <= src h < M32;
  fits_dst : 0 <= dst h < M32
}.

Definition wire_pre (h : IPv4Header) : bytes :=
  be_bytes 1 (first_byte h) ++ be_bytes 1 (tos h) ++ be_bytes 2 (len h) ++
  be_bytes 2 (id h) ++ be_bytes 2 (fo_val h) ++ be_bytes 1 (ttl h) ++ be_bytes 1 (proto h).
Definition padding (h : IPv4Header) : bytes :=
  replicate (Z.to_nat (4 * hlen h) - 20) Byte.x00.
Definition wire_post (h : IPv4Header) : bytes :=
  be_bytes 4 (src h) ++ be_bytes 4 (dst h) ++ padding h.
Definition wire (h : IPv4Header) : bytes :=
  wire_pre h ++ be_bytes 2 (cksum h) ++ wire_post h.

Lemma ip_wire_pre_length h : length (wire_pre h) = 10%nat.
Proof. unfold wire_pre. by rewrite !length_app, !be_bytes_length. Qed.

Lemma ip_serialize_wire h : ver h = 4 -> 5 <= hlen h -> serialize h = Ok (wire h).
Proof.
  intros Hv Hd. unfold serialize. rewrite Hv. cbn [Z.eqb Pos.eqb negb].
  case_Z; [unfold LENGTH in *; lia|]. f_equal.
  unfold un_u8, un_u16, un_u32. rewrite !unparse_int_be. unfold TCPHeader.resize, wire, wire_post.
  rewrite take_ge.
  - rewrite !length_app, !be_bytes_length. unfold wire_pre, padding.
    rewrite app_nil_l, <- !(assoc_L (++)). done.
  - rewrite !length_app, !be_bytes_length. cbn. lia.
Qed.

Lemma ip_padding_size h : fits h -> size (padding h) = 4 * hlen h - 20.
Proof. intros []. unfold padding, size. rewrite length_replicate. lia. Qed.

Lemma ip_wire_size h : fits h -> size (wire h) = 4 * hlen h.
Proof.
  intros H. unfold wire, wire_post. rewrite !size_app, (ip_padding_size h H), !be_bytes_size.
  unfold size. rewrite ip_wire_pre_length. destruct H. lia.
Qed.

Lemma first_byte_fields h :
  fits h -> 0 <= first_byte h < 256 /\
    Z.shiftr (first_byte h) 4 = ver h /\ Z.land (first_byte h) 15 = hlen h.
Proof.
  intros []. assert (E : first_byte h = ver h * 2 ^ 4 + hlen h).
  { unfold first_byte. change 15 with (Z.ones 4).
    rewrite Z.land_ones, (Z.mod_small (hlen h)), Z.shiftl_mul_pow2, lor_fields by (cbn; lia).
    rewrite u8_id; [done|]. cbn. lia. }
  rewrite E. split; [cbn; lia|]. split.
  - apply shiftr_fields; cbn; lia.
  - change 15 with (Z.ones 4). apply land_fields; cbn; lia.
Qed.

Lemma fo_val_fields h :
  fits h -> 0 <= fo_val h < 65536 /\ TCPHeader.flag (fo_val h) 16384 = df h /\
    TCPHeader.flag (fo_val h) 8192 = mf h /\ Z.land (fo_val h) 8191 = offset h.
Proof.
  intros []. pose (k := (if df h then 2 else 0) + (if mf h then 1 else 0)).
  assert (Hk : 0 <= k < 4) by (subst k; by destruct (df h), (mf h)).
  assert (Ek : Z.lor (if df h then 16384 else 0) (if mf h then 8192 else 0) = k * 2 ^ 13)
    by (subst k; by destruct (df h), (mf h)).
  assert (E : fo_val h = k * 2 ^ 13 + offset h).
  { unfold fo_val. rewrite Ek. change 8191 with (Z.ones 13).
    rewrite Z.land_ones, (Z.mod_small (offset h)), lor_fields by (change (2 ^ 13) with 8192; lia).
    rewrite u16_id; [done|]. change (2 ^ 13) with 8192. lia. }
  assert (Hm : forall b, 0 <= b -> Z.land (fo_val h) (b * 2 ^ 13) = Z.land k b * 2 ^ 13).
  { intros b Hb. rewrite <- !Z.shiftl_mul_pow2 by lia. apply Z.bits_inj'. intros n Hn.
    rewrite Z.land_spec, !Z.shiftl_spec by done. destruct (Z.lt_ge_cases n 13).
    - rewrite !(Z.testbit_neg_r _ (n - 13)) by lia. apply andb_false_r.
    - rewrite Z.land_spec. f_equal. rewrite <- (shiftr_fields k (offset h) 13), <- E
        by (change (2 ^ 13) with 8192; lia).
      rewrite Z.shiftr_spec by lia. f_equal. lia. }
  split; [rewrite E; change (2 ^ 13) with 8192; lia|]. unfold TCPHeader.flag.
  change 16384 with (2 * 2 ^ 13). change 8192 with (1 * 2 ^ 13).
  rewrite !Hm by lia. split; [subst k; by destruct (df h), (mf h)|].
  split; [subst k; by destruct (df h), (mf h)|].
  rewrite E. change 8191 with (Z.ones 13). apply land_fields; cbn; lia.
Qed.

(** [parse] reads the fixed part of any header that fits and then checks it. *)
Lemma ip_parse_fixed h old rest p :
  fits h -> holds p (wire h ++ rest) ->
  exists p', parse old p = parse_checks (wire h ++ rest) (4 * hlen h + size rest) h p' /\
    holds p' (padding h ++ rest).
Proof.
  intros H Hp. pose proof (ip_wire_size h H) as Hw. destruct (first_byte_fields h H) as (F0 & F1 & F2).
  destruct (fo_val_fields h H) as (G0 & G1 & G2 & G3). destruct H.
  unfold parse. unfold mbind at 1, P_bind at 1, get. unfold buf_size.
  rewrite (holds_str _ _ Hp), size_app, Hw. case_Z; [unfold LENGTH in *; size_lia|].
  set (k := parse_checks _ _). revert Hp. unfold wire, wire_pre, wire_post.
  rewrite <- !(assoc_L (++)). unfold p_u8, p_u16, p_u32. intros Hp.
  do 10 (unfold mbind at 1, P_bind at 1;
    eapply runs_int in Hp as (p' & E & Hp'); [rewrite E; clear E p; rename p' into p, Hp' into Hp|
      cbn; lia]).
  exists p. split; [|done]. cbv zeta. rewrite F1, F2, G1, G2, G3. by destruct h.
Qed.

Lemma set_cksum_fits c h : 0 <= c < 65536 -> fits h -> fits (set_cksum c h).
Proof. intros Hc []. by constructor. Qed.

Lemma ip_parse_failed old : keeps failed (parse old).
Proof. unfold parse, parse_checks. solve_keeps. Qed.

Lemma ip_parse_sane old : keeps sane (parse old).
Proof. unfold parse, parse_checks. solve_keeps. apply u64_range. Qed.

(** What the header checks report about a packet of the announced length. *)
Definition verdict (h : IPv4Header) : ParseResult :=
  if negb (ver h =? 4) then WrongIPVersion
  else if negb (Checksum.value (Checksum.add (wire h) (Checksum.construct 0)) =? 0)
  then BadChecksum else NoError.

Lemma ip_parse_wire h old rest p :
  fits h -> len h = 4 * hlen h + size rest -> holds p (wire h ++ rest) ->
  exists p', parse old p = Ok ((verdict h, h), p') /\
    holds p' (if ver h =? 4 then rest else padding h ++ rest).
Proof.
  intros H Hlen Hp. destruct (ip_parse_fixed h old rest p H Hp) as (p' & -> & Hp').
  unfold parse_checks, verdict. destruct (Z.eqb_spec (ver h) 4) as [Hv|Hv]; cbn [negb].
  2:{ case_Z; [size_lia|]. by exists p'. }
  rewrite Hlen, Z.eqb_refl. cbn [negb]. pose proof (fits_hlen h H).
  do 2 (case_Z; [size_lia|]).
  unfold LENGTH. rewrite u64_id by lia.
  eapply (runs_skip (hlen h * 4 - 20)) in Hp' as (p2 & E & Hp2);
    [|rewrite (ip_padding_size h H); lia].
  unfold mbind, P_bind, get. rewrite E. unfold error. rewrite (holds_ok _ _ Hp2). cbn [negb].
  assert (substr0 (wire h ++ rest) (4 * hlen h) = wire h) as ->.
  { unfold substr0. rewrite size_app, (ip_wire_size h H), Z.min_l by size_lia.
    rewrite <- (ip_wire_size h H). unfold size. by rewrite Nat2Z.id, take_app_length. }
  exists p2. split; [|done]. by destruct (Checksum.value _ =? 0).
Qed.
