(* ===== verification/IPv4Datagram.v ===== *)
(** IPv4 datagrams: [libsponge/tcp_helpers/ipv4_datagram.hh] and
    [ipv4_datagram.cc]. *)
From S2P Require Import Prelude Buffer Parser.
From S2P Require Checksum IPv4Header.
Export IPv4Header(IPv4Header).

(** [class IPv4Datagram]; the payload is a [BufferList]. *)
Record IPv4Datagram := mkIPv4Datagram {
  header : IPv4Header;
  payload : BufferList
}.

Definition default : IPv4Datagram := mkIPv4Datagram IPv4Header.default [].

(** What [IPv4Header::parse] returns is not used. *)
Definition parse (old : IPv4Datagram) (buffer : Buffer) : result (ParseResult * IPv4Datagram) :=
  let p := construct buffer in
  '((_, h), p) ← IPv4Header.parse (header old) p;
  let dgram := mkIPv4Datagram h (bl_of_buffer (Parser.buffer p)) in
  if negb (bl_size (payload dgram) =? IPv4Header.payload_length h) then Ok (PacketTooShort, dgram)
  else Ok (get_error p, dgram).

Definition serialize (dgram : IPv4Datagram) : result BufferList :=
  if negb (bl_size (payload dgram) =? IPv4Header.payload_length (header dgram))
  then Throw runtime_error
  else
    let header_out := IPv4Header.set_cksum 0 (header dgram) in
    header_zero_checksum ← IPv4Header.serialize header_out;
    let check := Checksum.add header_zero_checksum (Checksum.construct 0) in
    let header_out := IPv4Header.set_cksum (Checksum.value check) header_out in
    s ← IPv4Header.serialize header_out;
    let ret := append [] (bl_of_string s) in
    Ok (append ret (payload dgram)).

(** ** Wire format *)

(** A datagram as [serialize] wants it: the length field is right. *)
Record wf (dgram : IPv4Datagram) : Prop := {
  wf_fits : IPv4Header.fits (header dgram);
  wf_ver : IPv4Header.ver (header dgram) = 4;
  wf_payload : bl_wf (payload dgram);
  wf_len : IPv4Header.len (header dgram)
           = 4 * IPv4Header.hlen (header dgram) + size (concatenate (payload dgram))
}.

Lemma payload_length_eq h n :
  IPv4Header.fits h -> IPv4Header.len h = 4 * IPv4Header.hlen h + n -> 0 <= n ->
  IPv4Header.payload_length h = n.
Proof.
  intros [] E Hn. unfold IPv4Header.payload_length. rewrite u16_id; lia.
Qed.

(** The checksum [serialize] computes, and that it verifies. *)
Definition computed (h : IPv4Header) : Z :=
  Checksum.value (Checksum.add (IPv4Header.wire (IPv4Header.set_cksum 0 h)) (Checksum.construct 0)).

Lemma computed_verifies h :
  IPv4Header.fits h -> IPv4Header.ver h = 4 ->
  0 <= computed h < 65536 /\
  IPv4Header.verdict (IPv4Header.set_cksum (computed h) h) = NoError.
Proof.
  intros H Hv. pose proof (IPv4Header.ip_wire_size h H) as Hs.
  destruct (Checksum.complete_field 0 (IPv4Header.wire_pre h) (IPv4Header.wire_post h))
    as [H1 H2].
  - rewrite IPv4Header.ip_wire_pre_length. by exists 5%nat.
  - lia.
  - unfold IPv4Header.wire in Hs. rewrite !size_app, be_bytes_size in Hs. destruct H. lia.
  - change (Checksum.value (Checksum.add (_ ++ be_bytes 2 0 ++ _) _)) with (computed h) in H1, H2.
    split; [lia|].
    unfold IPv4Header.verdict. cbn [IPv4Header.ver IPv4Header.set_cksum]. rewrite Hv.
    cbn [Z.eqb Pos.eqb negb]. change (IPv4Header.wire (IPv4Header.set_cksum (computed h) h))
      with (IPv4Header.wire_pre h ++ be_bytes 2 (computed h) ++ IPv4Header.wire_post h).
    by rewrite H2.
Qed.

Lemma datagram_parse_wire h old s b :
  IPv4Header.fits h -> IPv4Header.len h = 4 * IPv4Header.hlen h + size s ->
  IPv4Header.ver h = 4 \/ IPv4Header.hlen h = 5 ->
  buf_wf b -> str b = IPv4Header.wire h ++ s ->
  exists b', parse old b = Ok (NoError, mkIPv4Datagram h [b']) /\ str b' = s /\ buf_wf b'.
Proof.
  intros H Hlen Hor Hbw Hb. pose proof (IPv4Header.fits_len h H) as Hl.
  pose proof (IPv4Header.ip_wire_size h H) as Hw. pose proof (IPv4Header.fits_hlen h H).
  destruct (IPv4Header.ip_parse_wire h (header old) s (construct b) H Hlen) as (p' & E & Hp').
  { by constructor. }
  assert (Hp2 : holds p' s).
  { destruct (Z.eqb_spec (IPv4Header.ver h) 4); [done|].
    destruct Hor as [|Hor]; [done|]. unfold IPv4Header.padding in Hp'. by rewrite Hor in Hp'. }
  unfold parse. rewrite E. cbn [mbind result_bind payload bl_of_buffer bl_size]. unfold buf_size.
  rewrite (holds_str _ _ Hp2), (payload_length_eq h (size s) H Hlen) by size_lia.
  rewrite Z.add_0_r, u64_id, Z.eqb_refl by size_lia. cbn [negb].
  exists (Parser.buffer p'). unfold get_error. rewrite (holds_ok _ _ Hp2).
  split; [done|]. split; apply Hp2.
Qed.

(** What a datagram becomes on the wire, and back. *)
Lemma datagram_parse_serialize dgram :
  wf dgram ->
  exists l h', serialize dgram = Ok l /\
    h' = IPv4Header.set_cksum (IPv4Header.cksum h') (header dgram) /\
    IPv4Header.verdict h' = NoError /\ size (concatenate l) = IPv4Header.len (header dgram) /\
    forall old b, buf_wf b -> str b = concatenate l ->
      exists b', parse old b = Ok (NoError, mkIPv4Datagram h' [b']) /\
        str b' = concatenate (payload dgram) /\ buf_wf b'.
Proof.
  intros [Hf Hv Hp Hl]. destruct (computed_verifies _ Hf Hv) as [Hc Hok].
  pose proof (IPv4Header.fits_hlen _ Hf). pose proof (IPv4Header.fits_len _ Hf).
  set (h' := IPv4Header.set_cksum (computed (header dgram)) (header dgram)) in *.
  assert (Hf' : IPv4Header.fits h') by (by apply IPv4Header.set_cksum_fits).
  pose proof (IPv4Header.ip_wire_size _ Hf') as Hw.
  change (IPv4Header.hlen h') with (IPv4Header.hlen (header dgram)) in Hw.
  exists (of_string (IPv4Header.wire h') :: payload dgram), h'. split.
  { unfold serialize. rewrite bl_size_concatenate by (done || size_lia).
    rewrite (payload_length_eq _ _ Hf Hl), Z.eqb_refl by size_lia. cbn [negb].
    rewrite !IPv4Header.ip_serialize_wire by (done || (cbn; lia)). cbn [mbind result_bind].
    by rewrite !IPv4Header.ip_serialize_wire by (done || (cbn; lia)). }
  split; [done|]. split; [done|]. cbn [concatenate]. rewrite str_of_string by lia.
  split; [rewrite size_app; lia|]. intros old b Hbw Hb.
  by apply (datagram_parse_wire h' old _ b Hf' Hl (or_introl Hv)).
Qed.

(** C31: serializing a datagram and parsing the result gives it back: no error,
    the header with only its checksum changed, the payload contiguous but
    otherwise the same; and the header's own checks, the checksum among them,
    find nothing wrong with what [serialize] produced. *)
Theorem datagram_roundtrip dgram old :
  wf dgram ->
  exists l dgram', serialize dgram = Ok l /\
    parse old (of_string (concatenate l)) = Ok (NoError, dgram') /\
    header dgram' = IPv4Header.set_cksum (IPv4Header.cksum (header dgram')) (header dgram) /\
    concatenate (payload dgram') = concatenate (payload dgram) /\
    IPv4Header.verdict (header dgram') = NoError.
Proof.
  intros H. destruct (datagram_parse_serialize dgram H) as (l & h' & Hs & Hh & Hok & Hsz & Hp).
  pose proof (IPv4Header.fits_len _ (wf_fits _ H)).
  destruct (Hp old (of_string (concatenate l))) as (b' & E & Hb & _).
  - apply of_string_wf. lia.
  - apply str_of_string. lia.
  - exists l, (mkIPv4Datagram h' [b']). split; [done|]. split; [done|]. split; [done|].
    split; [|done]. cbn. by rewrite Hb, app_nil_r.
Qed.

(** [parse] does not check what the header's own checks report.  A packet of
    the length it announces is accepted with [NoError] whatever its checksum,
    and also with any IP version when it has no options, although
    [IPv4Header::parse] returns [BadChecksum] or [WrongIPVersion] for it. *)
Theorem datagram_errors_ignored h s old :
  IPv4Header.fits h -> IPv4Header.len h = 4 * IPv4Header.hlen h + size s ->
  IPv4Header.ver h = 4 \/ IPv4Header.hlen h = 5 ->
  (exists b, parse old (of_string (IPv4Header.wire h ++ s)) =
     Ok (NoError, mkIPv4Datagram h [b]) /\ str b = s) /\
  (exists p', IPv4Header.parse (header old) (construct (of_string (IPv4Header.wire h ++ s))) =
     Ok ((IPv4Header.verdict h, h), p')).
Proof.
  intros H Hl Hor. split.
  - pose proof (IPv4Header.ip_wire_size h H). pose proof (IPv4Header.fits_len h H).
    destruct (datagram_parse_wire h old s (of_string (IPv4Header.wire h ++ s)) H Hl Hor)
      as (b & Hb & Hs & _); [..|by exists b].
    + apply of_string_wf. rewrite size_app. lia.
    + apply str_of_string. rewrite size_app. lia.
  - destruct (IPv4Header.ip_parse_wire h (header old) s
      (construct (of_string (IPv4Header.wire h ++ s))) H Hl) as (p' & E & _); [|by exists p'].
    apply construct_holds. rewrite size_app, (IPv4Header.ip_wire_size h H). destruct H. lia.
Qed.

(** A 23-byte datagram in two buffers. *)
Definition sample : IPv4Datagram :=
  mkIPv4Datagram
    (IPv4Header.mkIPv4Header 4 5 0 23 7 true false 0 128 6 0 3232235777 2130706433)
    [of_string [Byte.x61]; of_string [Byte.x62; Byte.x63]].

Lemma datagram_roundtrip_witness :
  wf sample /\
  exists l dgram', serialize sample = Ok l /\
    parse default (of_string (concatenate l)) = Ok (NoError, dgram') /\
    concatenate (payload dgram') = [Byte.x61; Byte.x62; Byte.x63].
Proof.
  assert (H : wf sample).
  { constructor; [|done| |by vm_compute].
    - constructor; cbn; lia.
    - repeat (apply Forall_cons; split; [by vm_compute|]). apply Forall_nil. done. }
  split; [exact H|].
  destruct (datagram_roundtrip sample default H) as (l & d & H1 & H2 & _ & H3 & _).
  exists l, d. split; [exact H1|]. split; [exact H2|]. rewrite H3. vm_compute. reflexivity.
Defined.

(** Version 6 and a wrong checksum, accepted. *)
Lemma datagram_errors_ignored_witness :
  let h := IPv4Header.mkIPv4Header 6 5 0 21 7 true false 0 128 6 99 3232235777 2130706433 in
  IPv4Header.verdict h = WrongIPVersion /\
  (exists b, parse default (of_string (IPv4Header.wire h ++ [Byte.x61])) =
     Ok (NoError, mkIPv4Datagram h [b]) /\ str b = [Byte.x61]).
Proof.
  split; [vm_compute; reflexivity|].
  apply (datagram_errors_ignored
    (IPv4Header.mkIPv4Header 6 5 0 21 7 true false 0 128 6 99 3232235777 2130706433)
    [Byte.x61] default).
  - constructor; cbn; lia.
  - vm_compute. reflexivity.
  - right. reflexivity.
Defined.
