(* ===== verification/Ethernet.v ===== *)
(** Ethernet frames: [libsponge/tcp_helpers/ethernet_header.hh],
    [ethernet_header.cc], [ethernet_frame.hh] and [ethernet_frame.cc]. *)
From S2P Require Import Prelude Buffer Parser.

(** [std::array<uint8_t, 6>]; [addr_wf] is its length. *)
Definition EthernetAddress : Type := bytes.
Definition addr_wf (a : EthernetAddress) : Prop := length a = 6%nat.
#[export] Instance EthernetAddress_eq_dec : EqDecision EthernetAddress := _.

Definition ETHERNET_BROADCAST : EthernetAddress :=
  [Byte.xff; Byte.xff; Byte.xff; Byte.xff; Byte.xff; Byte.xff].

Definition LENGTH : Z := 14.
Definition TYPE_IPv4 : Z := 2048.
Definition TYPE_ARP : Z := 2054.

(** [struct EthernetHeader] *)
Record EthernetHeader := mkEthernetHeader {
  dst : EthernetAddress;
  src : EthernetAddress;
  type : Z
}.

Definition header_parse (old : EthernetHeader) : P (ParseResult * EthernetHeader) :=
  p ← get;
  if buf_size (Parser.buffer p) <? LENGTH then mret (PacketTooShort, old)
  else
    dst ← p_u8s 6;
    src ← p_u8s 6;
    type ← p_u16;
    p ← get;
    mret (get_error p, mkEthernetHeader dst src type).

(** [NetUnparser::u8] of every byte of an address. *)
Definition un_u8s (a : bytes) (ret : bytes) : bytes :=
  fold_left (fun ret x => un_u8 (byte.unsigned x) ret) a ret.

Definition header_serialize (h : EthernetHeader) : bytes :=
  let ret := [] in
  let ret := un_u8s (dst h) ret in
  let ret := un_u8s (src h) ret in
  let ret := un_u16 (type h) ret in
  ret.

(** [class EthernetFrame] *)
Record EthernetFrame := mkEthernetFrame {
  header : EthernetHeader;
  payload : BufferList
}.

(** A fresh frame: its header is value-initialised. *)
Definition default : EthernetFrame :=
  mkEthernetFrame (mkEthernetHeader (replicate 6 Byte.x00) (replicate 6 Byte.x00) 0) [].

Definition parse (old : EthernetFrame) (buffer : Buffer) : result (ParseResult * EthernetFrame) :=
  let p := construct buffer in
  '((_, h), p) ← header_parse (header old) p;
  Ok (get_error p, mkEthernetFrame h (bl_of_buffer (Parser.buffer p))).

Definition serialize (frame : EthernetFrame) : BufferList :=
  let ret := append [] (bl_of_string (header_serialize (header frame))) in
  append ret (payload frame).

(** ** Wire format *)

Record header_wf (h : EthernetHeader) : Prop := {
  wf_dst : addr_wf (dst h);
  wf_src : addr_wf (src h);
  wf_type : 0 <= type h < 65536
}.

Lemma un_u8s_app a ret : un_u8s a ret = ret ++ a.
Proof.
  unfold un_u8s. revert ret. induction a as [|x a IH]; intros ret; cbn [fold_left].
  - by rewrite app_nil_r.
  - rewrite IH. unfold un_u8. rewrite unparse_int_be, be_bytes_1, <- (assoc_L (++)). done.
Qed.

Lemma header_serialize_wire h :
  header_serialize h = dst h ++ src h ++ be_bytes 2 (type h).
Proof.
  unfold header_serialize, un_u16. rewrite unparse_int_be, !un_u8s_app, app_nil_l.
  by rewrite <- (assoc_L (++)).
Qed.

Lemma header_serialize_size h : header_wf h -> size (header_serialize h) = 14.
Proof.
  intros [Hd Hs _]. rewrite header_serialize_wire. unfold addr_wf, size in *.
  rewrite !length_app, be_bytes_length. lia.
Qed.

Lemma header_parse_wire h old rest :
  header_wf h ->
  runs (header_parse old) (header_serialize h ++ rest) (NoError, h) rest.
Proof.
  intros H. pose proof (header_serialize_size h H) as Hsz. destruct H as [Hd Hs Ht].
  unfold header_parse. apply runs_get. intros p Hp.
  unfold buf_size. rewrite (holds_str _ _ Hp), size_app, Hsz.
  unfold LENGTH. case_Z; [size_lia|]. rewrite header_serialize_wire, <- !(assoc_L (++)).
  unfold p_u16. do 3 parse_step. apply runs_get. intros q Hq.
  unfold get_error. rewrite (holds_ok _ _ Hq). destruct h. apply runs_ret.
Qed.

Lemma frame_parse_serialize frame old :
  header_wf (header frame) -> 14 + size (concatenate (payload frame)) < M64 ->
  exists b, parse old (of_string (concatenate (serialize frame))) =
      Ok (NoError, mkEthernetFrame (header frame) [b]) /\
    str b = concatenate (payload frame) /\ buf_wf b.
Proof.
  intros H Hb. pose proof (header_serialize_size _ H) as Hsz.
  assert (E : concatenate (serialize frame)
              = header_serialize (header frame) ++ concatenate (payload frame)).
  { unfold serialize. cbn [append bl_of_string app concatenate].
    rewrite str_of_string by lia. done. }
  destruct (header_parse_wire (header frame) (header old) (concatenate (payload frame)) H
    (construct (of_string (concatenate (serialize frame))))) as (p' & Hp & Hp').
  { rewrite <- E. apply construct_holds. rewrite E, size_app. lia. }
  unfold parse. rewrite Hp. cbn [mbind result_bind]. eexists.
  unfold get_error. rewrite (holds_ok _ _ Hp'). split; [reflexivity|]. split; apply Hp'.
Qed.

(** An Ethernet frame serialized and parsed again is the same frame, its
    payload joined into one buffer. *)
Theorem frame_roundtrip frame old :
  header_wf (header frame) -> 14 + size (concatenate (payload frame)) < M64 ->
  exists frame', parse old (of_string (concatenate (serialize frame))) = Ok (NoError, frame') /\
    header frame' = header frame /\
    concatenate (payload frame') = concatenate (payload frame).
Proof.
  intros H Hb. destruct (frame_parse_serialize frame old H Hb) as (b & E & Hs & _).
  eexists. split; [exact E|]. split; [done|]. cbn. by rewrite Hs, app_nil_r.
Qed.

Lemma frame_roundtrip_witness :
  let f := mkEthernetFrame (mkEthernetHeader ETHERNET_BROADCAST
             [Byte.x02; Byte.x00; Byte.x00; Byte.x00; Byte.x00; Byte.x01] TYPE_ARP)
             [of_string [Byte.x61]; of_string [Byte.x62]] in
  exists f', parse f (of_string (concatenate (serialize f))) = Ok (NoError, f') /\
    header f' = header f /\ concatenate (payload f') = concatenate (payload f).
Proof.
  apply (frame_roundtrip (mkEthernetFrame (mkEthernetHeader ETHERNET_BROADCAST
             [Byte.x02; Byte.x00; Byte.x00; Byte.x00; Byte.x00; Byte.x01] TYPE_ARP)
             [of_string [Byte.x61]; of_string [Byte.x62]])).
  - constructor; vm_compute; done.
  - vm_compute. done.
Defined.

(** A buffer too short to hold an Ethernet header is accepted: [parse]
    returns [NoError], leaves the header as it was and takes the whole buffer as
    the payload.  On any longer buffer it succeeds and the payload is what
    follows the first fourteen bytes, so it never reports an error. *)
Theorem frame_parse_accepts_everything b old :
  buf_wf b ->
  exists frame, parse old b = Ok (NoError, frame) /\
    (buf_size b < 14 -> header frame = header old /\ payload frame = [b]) /\
    (14 <= buf_size b -> concatenate (payload frame) = drop 14 (str b)).
Proof.
  intros Hw. unfold parse. destruct (Z.lt_ge_cases (buf_size b) 14) as [C|C].
  - unfold header_parse, mbind at 2, P_bind, get. cbn [construct Parser.buffer].
    unfold LENGTH. case_Z; [|lia]. cbn [mbind result_bind mret P_ret].
    eexists. split; [reflexivity|]. split; [done|lia].
  - set (s := str b). assert (Hs : (14 <= length s)%nat) by (unfold buf_size, size in C; fold s in C; lia).
    pose (h := mkEthernetHeader (take 6 s) (take 6 (drop 6 s)) (be_value 0 (take 2 (drop 12 s)))).
    assert (R : runs (header_parse (header old)) s (NoError, h) (drop 14 s)).
    { unfold header_parse. apply runs_get. intros p Hp. unfold buf_size.
      rewrite (holds_str _ _ Hp). unfold LENGTH, size. case_Z; [lia|].
      eapply runs_bind.
      { rewrite <- (take_drop 6 s) at 1. apply runs_u8s. rewrite length_take. lia. }
      eapply runs_bind.
      { rewrite <- (take_drop 6 (drop 6 s)) at 1. apply runs_u8s.
        rewrite length_take, length_drop. lia. }
      rewrite drop_drop. eapply runs_bind; [apply runs_take; rewrite length_drop; lia|].
      rewrite drop_drop. apply runs_get. intros q Hq. unfold get_error.
      rewrite (holds_ok _ _ Hq). apply runs_ret. }
    destruct (R (construct b)) as (p' & -> & Hp'); [by constructor|].
    cbn [mbind result_bind]. unfold get_error. rewrite (holds_ok _ _ Hp').
    eexists. split; [reflexivity|]. split; [lia|]. intros _. cbn.
    by rewrite (holds_str _ _ Hp'), app_nil_r.
Qed.

Lemma frame_parse_accepts_everything_witness :
  let old := mkEthernetFrame (mkEthernetHeader ETHERNET_BROADCAST ETHERNET_BROADCAST 7) [] in
  exists frame, parse old (of_string [Byte.x61]) = Ok (NoError, frame) /\
    header frame = header old.
Proof.
  destruct (frame_parse_accepts_everything (of_string [Byte.x61])
    (mkEthernetFrame (mkEthernetHeader ETHERNET_BROADCAST ETHERNET_BROADCAST 7) []))
    as (f & H1 & H2 & _); [vm_compute; done|].
  exists f. split; [exact H1|]. apply H2. vm_compute. reflexivity.
Defined.
