(* ===== verification/ARPMessage.v ===== *)
(** ARP messages: [libsponge/tcp_helpers/arp_message.hh] and [arp_message.cc]. *)
From S2P Require Import Prelude Buffer Parser Ethernet.

Definition LENGTH : Z := 28.
Definition TYPE_ETHERNET : Z := 1.
Definition OPCODE_REQUEST : Z := 1.
Definition OPCODE_REPLY : Z := 2.

(** [struct ARPMessage] *)
Record ARPMessage := mkARPMessage {
  hardware_type : Z;
  protocol_type : Z;
  hardware_address_size : Z;
  protocol_address_size : Z;
  opcode : Z;
  sender_ethernet_address : EthernetAddress;
  sender_ip_address : Z;
  target_ethernet_address : EthernetAddress;
  target_ip_address : Z
}.

Definition zero_address : EthernetAddress := replicate 6 Byte.x00.

Definition default : ARPMessage :=
  mkARPMessage TYPE_ETHERNET TYPE_IPv4 6 4 0 zero_address 0 zero_address 0.

Definition supported (m : ARPMessage) : bool :=
  (hardware_type m =? TYPE_ETHERNET) && (protocol_type m =? TYPE_IPv4) &&
  (hardware_address_size m =? 6) && (protocol_address_size m =? 4) &&
  ((opcode m =? OPCODE_REQUEST) || (opcode m =? OPCODE_REPLY)).

(** The body of [parse] on its parser; [m] is the message as it was before. *)
Definition parse_fields (m : ARPMessage) : P (ParseResult * ARPMessage) :=
  p ← get;
  if buf_size (Parser.buffer p) <? LENGTH then mret (PacketTooShort, m)
  else
    hardware_type ← p_u16;
    protocol_type ← p_u16;
    hardware_address_size ← p_u8;
    protocol_address_size ← p_u8;
    opcode ← p_u16;
    let m := mkARPMessage hardware_type protocol_type hardware_address_size
               protocol_address_size opcode (sender_ethernet_address m) (sender_ip_address m)
               (target_ethernet_address m) (target_ip_address m) in
    if negb (supported m) then mret (Unsupported, m)
    else
      sender_ethernet_address ← p_u8s 6;
      sender_ip_address ← p_u32;
      target_ethernet_address ← p_u8s 6;
      target_ip_address ← p_u32;
      p ← get;
      mret (get_error p, mkARPMessage hardware_type protocol_type hardware_address_size
              protocol_address_size opcode sender_ethernet_address sender_ip_address
              target_ethernet_address target_ip_address).

Definition parse (old : ARPMessage) (buffer : Buffer) : result (ParseResult * ARPMessage) :=
  let p := construct buffer in
  '(r, _) ← parse_fields old p;
  Ok r.

Definition serialize (m : ARPMessage) : result bytes :=
  if negb (supported m) then Throw runtime_error
  else
    let ret := [] in
    let ret := un_u16 (hardware_type m) ret in
    let ret := un_u16 (protocol_type m) ret in
    let ret := un_u8 (hardware_address_size m) ret in
    let ret := un_u8 (protocol_address_size m) ret in
    let ret := un_u16 (opcode m) ret in
    let ret := un_u8s (sender_ethernet_address m) ret in
    let ret := un_u32 (sender_ip_address m) ret in
    let ret := un_u8s (target_ethernet_address m) ret in
    let ret := un_u32 (target_ip_address m) ret in
    Ok ret.

(** ** Wire format *)

Record wf (m : ARPMessage) : Prop := {
  wf_supported : supported m = true;
  wf_sender : addr_wf (sender_ethernet_address m);
  wf_target : addr_wf (target_ethernet_address m);
  wf_sender_ip : 0 <= sender_ip_address m < M32;
  wf_target_ip : 0 <= target_ip_address m < M32
}.

Definition wire (m : ARPMessage) : bytes :=
  be_bytes 2 (hardware_type m) ++ be_bytes 2 (protocol_type m) ++
  be_bytes 1 (hardware_address_size m) ++ be_bytes 1 (protocol_address_size m) ++
  be_bytes 2 (opcode m) ++ sender_ethernet_address m ++ be_bytes 4 (sender_ip_address m) ++
  target_ethernet_address m ++ be_bytes 4 (target_ip_address m).

Lemma arp_serialize_wire m : supported m = true -> serialize m = Ok (wire m).
Proof.
  intros H. unfold serialize. rewrite H. cbn [negb]. f_equal.
  unfold un_u8, un_u16, un_u32. rewrite !unparse_int_be, !un_u8s_app.
  rewrite app_nil_l. unfold wire. by rewrite <- !(assoc_L (++)).
Qed.

Lemma supported_values m :
  supported m = true ->
  hardware_type m = 1 /\ protocol_type m = 2048 /\ hardware_address_size m = 6 /\
  protocol_address_size m = 4 /\ (opcode m = 1 \/ opcode m = 2).
Proof.
  unfold supported, TYPE_ETHERNET, TYPE_IPv4, OPCODE_REQUEST, OPCODE_REPLY.
  rewrite !andb_true_iff, orb_true_iff, !Z.eqb_eq. tauto.
Qed.

Lemma arp_wire_size m : wf m -> size (wire m) = 28.
Proof.
  intros [_ Hs Ht _ _]. unfold wire, size, addr_wf in *.
  rewrite !length_app, !be_bytes_length. lia.
Qed.

Lemma arp_parse_wire m old rest b :
  wf m -> Buffer.buf_wf b -> Buffer.str b = wire m ++ rest -> parse old b = Ok (NoError, m).
Proof.
  intros H Hw Hb. pose proof (arp_wire_size m H) as Hsz. destruct H as [Hs H1 H2 H3 H4].
  destruct (supported_values m Hs) as (E1 & E2 & E3 & E4 & E5).
  assert (R : runs (parse_fields old) (wire m ++ rest) (NoError, m) rest).
  { unfold parse_fields. apply runs_get. intros p Hp.
    unfold buf_size. rewrite (holds_str _ _ Hp), size_app, Hsz. unfold LENGTH.
    case_Z; [size_lia|]. unfold wire. rewrite <- !(assoc_L (++)). unfold p_u8, p_u16, p_u32.
    do 5 parse_step. cbv zeta. replace (supported _) with true. cbn [negb].
    do 4 parse_step. apply runs_get. intros q Hq. unfold get_error. rewrite (holds_ok _ _ Hq).
    destruct m. apply runs_ret. }
  destruct (R (construct b)) as (p' & E & _); [by constructor|].
  unfold parse. by rewrite E.
Qed.

(** A supported message is read back from its serialization, also from a
    frame whose payload is longer; an unsupported one is refused by [serialize]. *)
Theorem arp_roundtrip m old rest :
  wf m -> size rest < M64 - 28 ->
  exists s, serialize m = Ok s /\ size s = 28 /\
    parse old (of_string (s ++ rest)) = Ok (NoError, m).
Proof.
  intros H Hr. exists (wire m). split; [apply arp_serialize_wire, H|].
  split; [by apply arp_wire_size|]. pose proof (arp_wire_size m H).
  apply (arp_parse_wire m old rest); [done|..].
  - apply of_string_wf. rewrite size_app. lia.
  - apply str_of_string. rewrite size_app. lia.
Qed.

Lemma arp_roundtrip_witness :
  let m := mkARPMessage 1 2048 6 4 2 (replicate 6 Byte.x02) 167772161 (replicate 6 Byte.x03) 5 in
  exists s, serialize m = Ok s /\ size s = 28 /\
    parse default (of_string (s ++ [Byte.xff])) = Ok (NoError, m).
Proof.
  apply (arp_roundtrip
    (mkARPMessage 1 2048 6 4 2 (replicate 6 Byte.x02) 167772161 (replicate 6 Byte.x03) 5)
    default [Byte.xff]).
  - constructor; vm_compute; done.
  - vm_compute. done.
Defined.

(** [parse] never throws; it succeeds only on supported messages. *)
Lemma parse_supported old b :
  buf_wf b ->
  exists r m, parse old b = Ok (r, m) /\ (r = NoError -> supported m = true /\ 28 <= buf_size b).
Proof.
  intros Hw.
  assert (K : forall p, sane p -> exists r m p', parse_fields old p = Ok ((r, m), p') /\
    (r = NoError -> supported m = true /\ 28 <= buf_size (Parser.buffer p))).
  { intros p Hp. unfold parse_fields, mbind at 1, P_bind at 1, get. unfold LENGTH.
    case_Z; [by do 3 eexists|]. unfold p_u8, p_u16, p_u32.
    do 5 (unfold mbind at 1, P_bind at 1; match goal with |- context [parse_int ?n ?q] =>
      destruct (int_sane n q ltac:(assumption)) as (? & ? & -> & ?) end).
    cbv zeta. match goal with |- context [negb (supported ?m)] => destruct (supported m) eqn:Hsup end;
      cbn [negb]; [|by do 3 eexists].
    unfold mbind at 1, P_bind at 1. destruct (u8s_keeps sane 6 (int_sane 1) x8) as (? & ? & -> & ?);
      [done|].
    unfold mbind at 1, P_bind at 1. destruct (int_sane 4 x10) as (? & ? & -> & ?); [done|].
    unfold mbind at 1, P_bind at 1. destruct (u8s_keeps sane 6 (int_sane 1) x12) as (? & ? & -> & ?);
      [done|].
    unfold mbind at 1, P_bind at 1. destruct (int_sane 4 x14) as (? & ? & -> & ?); [done|].
    do 3 eexists. split; [reflexivity|]. intros _. split; [done|lia]. }
  destruct (K (construct b) Hw) as (r & m & p' & E & Hr). exists r, m. unfold parse.
  by rewrite E.
Qed.
