(* ===== verification/TCPReceiver.v ===== *)
(** The receiving half of a connection: [libsponge/tcp_receiver.hh] and
    [tcp_receiver.cc].  Sequence numbers are turned into stream indices, the
    payload goes to the reassembler, and the acknowledgement number and window
    are computed from it. *)
From S2P Require Import Prelude WrappingIntegers.
From S2P Require Buffer ByteStream StreamReassembler TCPSegment TCPHeader.
Import TCPSegment(TCPSegment).
Import StreamReassembler(StreamReassembler).

(** [class TCPReceiver] *)
Record TCPReceiver := mkReceiver {
  reassembler : StreamReassembler;
  capacity : Z;
  isn : WrappingInt32;
  isnset : bool;
  finset : bool
}.

Definition construct (capacity : Z) : TCPReceiver :=
  mkReceiver (StreamReassembler.construct capacity) capacity (mkWrappingInt32 0) false false.

Definition stream_out (r : TCPReceiver) : ByteStream.ByteStream :=
  StreamReassembler.stream_out (reassembler r).

(** Write access through [stream_out()]. *)
Definition set_stream_out (o : ByteStream.ByteStream) (r : TCPReceiver) : TCPReceiver :=
  mkReceiver (StreamReassembler.set_output o (reassembler r)) (capacity r) (isn r)
    (isnset r) (finset r).

Definition unassembled_bytes (r : TCPReceiver) : Z :=
  StreamReassembler.unassembled_bytes (reassembler r).

Definition ackno (r : TCPReceiver) : option WrappingInt32 :=
  if isnset r then
    let isend := finset r && (StreamReassembler.unassembled_bytes (reassembler r) =? 0) in
    let ab_seqno := u64 (1 + ByteStream.bytes_written (stream_out r) + (if isend then 1 else 0)) in
    Some (wrap ab_seqno (isn r))
  else None.

Definition window_size (r : TCPReceiver) : Z := ByteStream.remaining_capacity (stream_out r).

(** [optional::value()] *)
Definition value {A} (o : option A) : result A :=
  match o with Some a => Ok a | None => Throw bad_optional_access end.

Definition segment_received (seg : TCPSegment) (r : TCPReceiver) : result (bool * TCPReceiver) :=
  let header := TCPSegment.header seg in
  let payload := Buffer.copy (TCPSegment.payload seg) in
  if negb (isnset r) then
    if TCPHeader.syn header then
      ra ← StreamReassembler.push_substring payload 0 (TCPHeader.fin header) (reassembler r);
      Ok (true, mkReceiver ra (capacity r) (TCPHeader.seqno header) true (TCPHeader.fin header))
    else if TCPHeader.fin header then Ok (true, r)
    else Ok (false, r)
  else
    let checkpoint := ByteStream.bytes_written (stream_out r) in
    let abs_n := unwrap (TCPHeader.seqno header) (isn r) checkpoint in
    let abs_n := if negb (TCPHeader.syn header) then u64 (abs_n - 1) else abs_n in
    let win_size := if window_size r =? 0 then 1 else window_size r in
    let length := if Buffer.buf_size (TCPSegment.payload seg) =? 0 then 1
                  else Buffer.buf_size (TCPSegment.payload seg) in
    a ← value (ackno r);
    let win_begin := unwrap a (isn r) checkpoint in
    let wid_end := u64 (win_begin + win_size) in
    let left := unwrap (TCPHeader.seqno header) (isn r) checkpoint in
    let right := u64 (left + length) in
    let inside := (win_begin <? right) && (left <? wid_end) in
    ra ← StreamReassembler.push_substring payload abs_n (TCPHeader.fin header) (reassembler r);
    let finset := if TCPHeader.fin header && negb (finset r) then true else finset r in
    Ok (inside, mkReceiver ra (capacity r) (isn r) (isnset r) finset).

(** ** Runs

    The peer's stream is the first [L] bytes of [S]; its initial sequence number
    is [n0].  The absolute sequence number [a] of a segment is 0 for the SYN and
    one more than the index of its first byte otherwise. *)

Module SR := StreamReassembler.

Lemma total_zero l : SR.total l = 0 -> Forall (fun e => size (SR.data e) = 0) l.
Proof.
  induction l as [|e l IH]; cbn; intros H; [done|].
  pose proof (SR.total_nonneg l). pose proof (size_nonneg (SR.data e)).
  constructor; [lia|apply IH; lia].
Qed.

Lemma total_zero_inv l : Forall (fun e => size (SR.data e) = 0) l -> SR.total l = 0.
Proof. induction 1; cbn; lia. Qed.

Section Run.
Context (S : Z -> byte) (L : Z) (HL0 : 0 <= L) (HL63 : L < 4611686018427387904).
Context (n0 : WrappingInt32) (Hn0 : wi_wf n0).

(** Once the end has been seen, nothing unassembled means all is assembled. *)
Lemma complete_iff r ra :
  SR.run_inv S L r ra -> SR.checkeof ra = true ->
  (SR.unassembled_bytes ra = 0 <-> SR.firstindex ra = L).
Proof using HL0 HL63.
  intros Hinv Hc. pose proof (SR.inv_first_le S L HL0 _ _ Hinv) as HF.
  destruct Hinv as [Hwf _ _ Hk He _]. unfold SR.unassembled_bytes.
  rewrite (SR.wf_count _ _ Hwf). split.
  - intros Ht%total_zero. destruct (Z.eq_dec L 0) as [|HL].
    + pose proof (SR.wf_first_nonneg _ _ Hwf). lia.
    + destruct (He Hc ltac:(lia)) as [?|(e & Hel & Hr)]; [lia|].
      rewrite Forall_forall in Ht. specialize (Ht _ Hel). unfold SR.stop in Hr. lia.
  - intros HFL. apply total_zero_inv, Forall_forall. intros e Hel.
    pose proof (SR.chain_lower _ _ _ (SR.wf_chain _ _ Hwf)) as Hlo.
    rewrite Forall_forall in Hlo. specialize (Hlo _ Hel). cbn in Hlo.
    destruct (Z.eq_dec (size (SR.data e)) 0) as [|Hne]; [done|].
    assert (SR.first e < L); [|lia]. apply Hk. right. exists e. split; [done|].
    unfold SR.stop. size_lia.
Qed.

(** A segment of the peer with absolute sequence number [a], for a receiver
    that is near enough to identify it. *)
Definition peer_segment (a : Z) (seg : TCPSegment) (r : TCPReceiver) : Prop :=
  0 <= a /\
  TCPHeader.seqno (TCPSegment.header seg) = wrap a n0 /\
  TCPHeader.syn (TCPSegment.header seg) = (a =? 0) /\
  SR.arrival S L (reassembler r) (Buffer.str (TCPSegment.payload seg)) (index_of a)
    (TCPHeader.fin (TCPSegment.header seg)) /\
  Z.abs (a - SR.firstindex (reassembler r)) < 2147483648.

Inductive step : bytes * TCPReceiver -> bytes * TCPReceiver -> Prop :=
| step_ignored s r seg :
    isnset r = false -> TCPHeader.syn (TCPSegment.header seg) = false ->
    step (s, r) (s, r)
| step_segment s r seg a b r' :
    (isnset r = false -> a = 0) -> peer_segment a seg r ->
    segment_received seg r = Ok (b, r') ->
    step (s, r) (s, r')
| step_read s r len t o :
    0 <= len -> ByteStream.read len (stream_out r) = (t, o) ->
    step (s, r) (s ++ t, set_stream_out o r).

Record inv (s : bytes) (r : TCPReceiver) : Prop := {
  inv_run : SR.run_inv S L s (reassembler r);
  inv_cap : SR.capacity (reassembler r) = capacity r;
  inv_fin : finset r = SR.checkeof (reassembler r);
  inv_isn : isnset r = true -> isn r = n0;
  inv_fresh : isnset r = false -> finset r = false
}.

Lemma inv_written s r :
  inv s r -> ByteStream.bytes_written (stream_out r) = SR.firstindex (reassembler r).
Proof using.
  intros H. apply (SR.wf_written S), (SR.inv_wf _ _ _ _ (inv_run _ _ H)).
Qed.

(** The absolute acknowledgement number: past the SYN, the assembled bytes and,
    once everything is there, the FIN. *)
Definition abs_ack (r : TCPReceiver) : Z :=
  1 + SR.firstindex (reassembler r)
  + (if finset r && (SR.firstindex (reassembler r) =? L) then 1 else 0).

Lemma ackno_abs s r : inv s r -> isnset r = true -> ackno r = Some (wrap (abs_ack r) n0).
Proof using HL0 HL63.
  intros H Hset. pose proof (SR.inv_first_le S L HL0 _ _ (inv_run _ _ H)) as HF.
  pose proof (SR.wf_first_nonneg _ _ (SR.inv_wf _ _ _ _ (inv_run _ _ H))) as H0.
  unfold ackno. rewrite Hset, (inv_written _ _ H), (inv_isn _ _ H Hset). do 2 f_equal.
  unfold abs_ack. assert (E : finset r && (SR.unassembled_bytes (reassembler r) =? 0) =
    finset r && (SR.firstindex (reassembler r) =? L)).
  { destruct (finset r) eqn:Hf; [|done]. rewrite (inv_fin _ _ H) in Hf.
    destruct (complete_iff _ _ (inv_run _ _ H) Hf) as [H1 H2].
    apply eq_true_iff_eq. cbn. rewrite !Z.eqb_eq. tauto. }
  rewrite E. rewrite u64_id; [done|]. destruct (finset r && (SR.firstindex (reassembler r) =? L)); lia.
Qed.

(** What [segment_received] does with a segment of the peer: the reassembler
    gets the excerpt at its index, and the result tells whether the segment
    touches the window. *)
Lemma received_spec s r seg a :
  inv s r -> (isnset r = false -> a = 0) -> peer_segment a seg r ->
  exists ra,
    SR.push_substring (Buffer.str (TCPSegment.payload seg)) (index_of a)
      (TCPHeader.fin (TCPSegment.header seg)) (reassembler r) = Ok ra /\
    SR.step S L (s, reassembler r) (s, ra) /\
    segment_received seg r =
      Ok (negb (isnset r) ||
          ((abs_ack r <? a + Z.max 1 (size (Buffer.str (TCPSegment.payload seg)))) &&
           (a <? abs_ack r + Z.max 1 (window_size r))),
          mkReceiver ra (capacity r) n0 true
            (TCPHeader.fin (TCPSegment.header seg) || finset r)).
Proof using HL0 HL63 Hn0.
  intros H Hfirst (Ha & Hseq & Hsyn & Harr & Hnear).
  destruct (SR.arrival_ok S L HL0 ltac:(lia) _ _ _ _ _ (inv_run _ _ H) Harr) as (ra & Hp & Hst).
  pose proof (SR.inv_first_le S L HL0 _ _ (inv_run _ _ H)) as HF.
  pose proof (SR.inv_wf _ _ _ _ (inv_run _ _ H)) as Hwf.
  pose proof (SR.wf_first_nonneg _ _ Hwf) as H0.
  assert (HaL : a <= L + 1).
  { destruct Harr as (_ & _ & HL & _). unfold index_of in HL.
    destruct (Z.eqb_spec a 0); size_lia. }
  exists ra. split; [done|]. split; [done|]. unfold segment_received, Buffer.copy. cbv zeta.
  destruct (isnset r) eqn:Hset; cbn [negb orb].
  - rewrite (inv_written _ _ H), (inv_isn _ _ H Hset), Hseq, Hsyn.
    rewrite unwrap_wrap_near by lia.
    assert (Hidx : (if negb (a =? 0) then u64 (a - 1) else a) = index_of a).
    { unfold index_of. destruct (Z.eqb_spec a 0); cbn; [done|]. rewrite u64_id; lia. }
    rewrite Hidx, (ackno_abs _ _ H Hset). cbn [value mbind result_bind].
    assert (Hack : abs_ack r - 1 <= SR.firstindex (reassembler r) + 1 /\
                   SR.firstindex (reassembler r) < abs_ack r).
    { unfold abs_ack. destruct (_ && _); lia. }
    rewrite (unwrap_wrap_near (abs_ack r)), Hp by lia. cbn [mbind result_bind].
    unfold Buffer.buf_size. destruct Harr as (_ & _ & HL & Hcap & _).
    pose proof (SR.wf_remaining _ _ Hwf) as Hrem. unfold window_size, stream_out in *.
    unfold SR.stream_out in *. rewrite Hrem.
    pose proof (ByteStream.wf_capacity _ (SR.wf_out _ _ Hwf)) as Hco.
    rewrite (SR.wf_max _ _ Hwf) in Hco. unfold index_of in HL.
    set (len := size (Buffer.str _)) in *. assert (0 <= len) by apply size_nonneg.
    set (w := SR.capacity (reassembler r) - _) in *.
    assert (Hl' : (if len =? 0 then 1 else len) = Z.max 1 len) by (case_Z; lia).
    assert (Hw' : (if w =? 0 then 1 else w) = Z.max 1 w) by (case_Z; lia).
    rewrite Hl', Hw', !u64_id by (destruct (a =? 0); lia).
    repeat f_equal. by destruct (TCPHeader.fin _), (finset r).
  - specialize (Hfirst eq_refl). subst a. rewrite Hsyn, Hseq, wrap_0 by done.
    cbn [Z.eqb]. change (index_of 0) with 0 in Hp. rewrite Hp. cbn [mbind result_bind].
    by rewrite (inv_fresh _ _ H), orb_false_r.
Qed.

Lemma receiver_step_inv s r s' r' : inv s r -> step (s, r) (s', r') -> inv s' r'.
Proof using HL0 HL63 Hn0.
  intros H Hst. inversion Hst; subst; [done| |].
  - edestruct received_spec as (ra & Hp & Hs & E); try done.
    match goal with Hr : segment_received _ _ = _ |- _ => rewrite E in Hr; injection Hr as _ <- end.
    destruct (SR.push_frame _ _ _ _ _ Hp) as (F1 & F2 & F3).
    constructor; cbn; try done.
    + apply (SR.reassembler_step_inv S L HL0 ltac:(lia) _ _ _ _ (inv_run _ _ H) Hs).
    + rewrite F2. apply (inv_cap _ _ H).
    + rewrite F1. cbn. by rewrite (inv_fin _ _ H).
  - destruct H. constructor; cbn; try done.
    eapply (SR.reassembler_step_inv S L HL0 ltac:(lia)); [done|]. by econstructor.
Qed.

Lemma construct_inv c : 0 < c < M64 -> inv [] (construct c).
Proof using HL0 HL63.
  intros Hc. constructor; cbn; try done. apply (SR.reassembler_run_reaches S L HL0 ltac:(lia) c _ _ Hc).
  apply rtc_refl.
Qed.

Lemma reaches_inv c s r : 0 < c < M64 -> rtc step ([], construct c) (s, r) -> inv s r.
Proof using HL0 HL63 Hn0.
  intros Hc Hrun. change (inv (s, r).1 (s, r).2). revert Hrun. generalize (s, r).
  apply rtc_ind_r; [by apply construct_inv|].
  intros [s1 r1] [s2 r2] _ Hs Hinv. by eapply receiver_step_inv.
Qed.
(** C14: in every state that the receiver reaches by reads and by segments that it can place,
    in any order and with any overlap and repetition that [peer_segment] allows: the bytes read and
    the bytes that can be read are the first [F] bytes of the peer's stream;
    the acknowledgement number is absent before the SYN and afterwards covers
    the SYN, these [F] bytes and, exactly when the FIN has been seen and all
    [L] bytes are assembled, the FIN; the window is the free space of the
    output; and the input is ended only when all [L] bytes are there.  A segment can be placed
    when its sequence number is within 2^31 of the first missing byte and its data starts
    in the window or right behind it, when its FIN, if it has one, comes with data that the window
    does not cut, or without data and after every byte is assembled, and when it is not an
    empty one at the first missing byte after the FIN.  A FIN that overtakes the data cannot be
    placed: [early_fin_acknowledged] shows that the acknowledgement number is then wrong. *)
Theorem receiver_correct c s r :
  0 < c < M64 -> rtc step ([], construct c) (s, r) ->
  let F := SR.firstindex (reassembler r) in
  s ++ ByteStream.content (stream_out r) = slice S 0 (Z.to_nat F) /\ F <= L /\
  ackno r = (if isnset r
             then Some (wrap (1 + F + (if finset r && (F =? L) then 1 else 0)) n0)
             else None) /\
  window_size r = capacity r - size (ByteStream.content (stream_out r)) /\
  (ByteStream.input_ended (stream_out r) = true -> F = L).
Proof using HL0 HL63 Hn0.
  intros Hc Hrun. cbv zeta. pose proof (reaches_inv c s r Hc Hrun) as H.
  pose proof (inv_run _ _ H) as Hr. split; [by apply (SR.run_content S L)|].
  split; [by apply (SR.inv_first_le S L HL0 _ _ Hr)|]. split.
  { destruct (isnset r) eqn:Hset; [by apply (ackno_abs s)|]. unfold ackno. by rewrite Hset. }
  split; [|apply Hr]. rewrite <- (inv_cap _ _ H).
  apply (SR.wf_remaining S), Hr.
Qed.

(** In every reachable state, a segment of the peer with absolute sequence
    number [a] does not throw, and [segment_received] returns true exactly when
    the sequence numbers it occupies (at least one) meet the window that starts
    at the acknowledgement number (at least one wide); the SYN that opens the
    connection is always accepted. *)
Theorem segment_received_window c s r seg a :
  0 < c < M64 -> rtc step ([], construct c) (s, r) ->
  (isnset r = false -> a = 0) -> peer_segment a seg r ->
  exists r', segment_received seg r =
    Ok (negb (isnset r) ||
        ((abs_ack r <? a + Z.max 1 (size (Buffer.str (TCPSegment.payload seg)))) &&
         (a <? abs_ack r + Z.max 1 (window_size r))), r') /\
    step (s, r) (s, r').
Proof using HL0 HL63 Hn0.
  intros Hc Hrun Hf Hp. pose proof (reaches_inv c s r Hc Hrun) as H.
  destruct (received_spec s r seg a H Hf Hp) as (ra & _ & _ & E).
  eexists. split; [exact E|]. by econstructor.
Qed.
End Run.

(** A segment with the given fields and default values elsewhere. *)
Definition segment (seqno : WrappingInt32) (syn fin : bool) (payload : bytes) : TCPSegment :=
  TCPSegment.mkTCPSegment
    (TCPHeader.mkTCPHeader 0 0 seqno (mkWrappingInt32 0) 5 false false false false syn fin 0 0 0)
    (Buffer.of_string payload).

(** A connection whose sequence numbers wrap around: the SYN, then the two bytes
    of the stream in the wrong order. *)
Definition sample_stream (i : Z) : byte := if i =? 0 then Byte.x61 else Byte.x62.
Definition sample_isn : WrappingInt32 := mkWrappingInt32 4294967295.
Definition sample_receiver : TCPReceiver :=
  mkReceiver (SR.mkReassembler 0 true [] 2
    (ByteStream.mkByteStream false true [Byte.x61; Byte.x62] 0 2 8) 8) 8 sample_isn true true.
Definition sample_before : TCPReceiver :=
  mkReceiver (SR.mkReassembler 1 true [SR.mkInfor 1 1 [Byte.x62]] 0
    (ByteStream.construct 8) 8) 8 sample_isn true true.

Ltac sample_peer :=
  unfold peer_segment, SR.arrival; cbn; split_and!; try done; vm_compute; intuition congruence.

Lemma sample_run_before :
  rtc (step sample_stream 2 sample_isn) ([], construct 8) ([], sample_before).
Proof.
  eapply rtc_l.
  { eapply step_segment with (seg := segment sample_isn true false []) (a := 0);
      [done|sample_peer|vm_compute; reflexivity]. }
  apply rtc_once.
  eapply step_segment with (seg := segment (mkWrappingInt32 1) false true [Byte.x62]) (a := 2);
    [done|sample_peer|vm_compute; reflexivity].
Qed.

Lemma receiver_sample_run : rtc (step sample_stream 2 sample_isn) ([], construct 8) ([], sample_receiver).
Proof.
  eapply rtc_r; [apply sample_run_before|].
  eapply step_segment with (seg := segment (mkWrappingInt32 0) false false [Byte.x61]) (a := 1);
    [done|sample_peer|vm_compute; reflexivity].
Qed.

Lemma receiver_correct_witness :
  rtc (step sample_stream 2 sample_isn) ([], construct 8) ([], sample_receiver) /\
  ackno sample_receiver = Some (wrap 4 sample_isn) /\
  ByteStream.content (stream_out sample_receiver) = slice sample_stream 0 2.
Proof.
  split; [exact receiver_sample_run|].
  destruct (receiver_correct sample_stream 2 ltac:(lia) ltac:(lia) sample_isn
    ltac:(vm_compute; intuition congruence) 8 [] sample_receiver ltac:(lia) receiver_sample_run)
    as (H1 & _ & H2 & _).
  split; [exact H2|exact H1].
Defined.

Lemma segment_received_window_witness :
  exists r', segment_received (segment (mkWrappingInt32 0) false false [Byte.x61]) sample_before
    = Ok (true, r').
Proof.
  destruct (segment_received_window sample_stream 2 ltac:(lia) ltac:(lia) sample_isn
    ltac:(vm_compute; intuition congruence) 8 [] sample_before
    (segment (mkWrappingInt32 0) false false [Byte.x61]) 1 ltac:(lia) sample_run_before)
    as (r' & H & _).
  - intros H. discriminate H.
  - sample_peer.
  - exists r'. exact H.
Defined.

(** ** The end of the stream *)

Lemma syn_only c n0 :
  segment_received (segment n0 true false []) (construct c) =
  Ok (true, mkReceiver (SR.construct c) c n0 true false).
Proof. reflexivity. Qed.

(** Runs [segment_received] up to its arithmetic on a concrete segment. *)
Ltac open_segment :=
  unfold segment_received;
  cbn [isnset negb segment TCPSegment.header TCPSegment.payload TCPHeader.syn TCPHeader.fin
       TCPHeader.seqno reassembler capacity isn finset ackno value mbind result_bind andb];
  unfold Buffer.copy.

(** A FIN without payload that overtakes the data is acknowledged at once.
    After the SYN, a bare FIN for a stream of [n] bytes of which none has
    arrived makes the acknowledgement number 2: it claims that the first byte,
    or the FIN itself, has been received, and the receiver stores nothing. *)
Theorem early_fin_acknowledged c n n0 :
  0 < c < M64 -> 0 < n < 2147483647 -> wi_wf n0 ->
  exists r1 r2 b, segment_received (segment n0 true false []) (construct c) = Ok (true, r1) /\
    segment_received (segment (wrap (n + 1) n0) false true []) r1 = Ok (b, r2) /\
    ackno r2 = Some (wrap 2 n0) /\ ByteStream.bytes_written (stream_out r2) = 0 /\
    unassembled_bytes r2 = 0.
Proof.
  intros Hc Hn Hw.
  assert (E2 : exists b, segment_received (segment (wrap (n + 1) n0) false true [])
    (mkReceiver (SR.construct c) c n0 true false)
    = Ok (b, mkReceiver (SR.set_checkeof true (SR.construct c)) c n0 true true)).
  { open_segment. rewrite Buffer.str_of_string by done.
    change (ByteStream.bytes_written _) with 0. rewrite (unwrap_wrap_near (n + 1)) by lia.
    rewrite SR.push_empty. cbv zeta. cbn [mbind result_bind]. rewrite (u64_id (n + 1 - 1)) by lia.
    cbn [SR.checkeof SR.set_checkeof SR.firstindex orb andb SR.construct].
    assert ((0 =? n + 1 - 1) = false) as -> by (apply Z.eqb_neq; lia). by eexists. }
  destruct E2 as [b E2]. do 3 eexists. split; [apply syn_only|]. by split; [exact E2|].
Qed.

Lemma early_fin_acknowledged_witness :
  exists r1 r2 b, segment_received (segment sample_isn true false []) (construct 8) = Ok (true, r1) /\
    segment_received (segment (wrap 4 sample_isn) false true []) r1 = Ok (b, r2) /\
    ackno r2 = Some (wrap 2 sample_isn) /\ ByteStream.bytes_written (stream_out r2) = 0 /\
    unassembled_bytes r2 = 0.
Proof.
  apply (early_fin_acknowledged 8 3 sample_isn); [lia|lia|]. vm_compute. intuition congruence.
Defined.

(** A FIN on a segment that only repeats assembled bytes is acknowledged but
    never ends the input.  All the bytes [d] of a stream arrive without the FIN;
    the last byte is then sent again with the FIN.  The acknowledgement number
    covers the FIN, so the peer will not repeat it, and the reader never sees
    the end of the stream. *)
Theorem repeated_data_fin_lost c d n0 x :
  0 < c < 1073741824 -> 0 < size d <= c -> wi_wf n0 ->
  exists r1 r2 r3 b1 b2,
    segment_received (segment n0 true false []) (construct c) = Ok (true, r1) /\
    segment_received (segment (wrap 1 n0) false false d) r1 = Ok (b1, r2) /\
    segment_received (segment (wrap (size d) n0) false true [x]) r2 = Ok (b2, r3) /\
    ackno r3 = Some (wrap (size d + 2) n0) /\
    ByteStream.content (stream_out r3) = d /\
    ByteStream.input_ended (stream_out r3) = false.
Proof.
  intros Hc Hd Hw.
  set (o := snd (ByteStream.write d (ByteStream.construct c))).
  assert (Ho : o = ByteStream.mkByteStream false false d 0 (size d) c).
  { subst o. cbn. unfold ByteStream.remaining_capacity. cbn. size_simpl.
    rewrite (u64_id (c - 0)) by lia. case_Z; [|lia]. rewrite substr0_all, u64_id by lia. done. }
  set (ra := SR.mkReassembler 0 false [] (size d) o c).
  assert (E1 : segment_received (segment n0 true false []) (construct c)
    = Ok (true, mkReceiver (SR.construct c) c n0 true false)) by apply syn_only.
  assert (E2 : exists b1, segment_received (segment (wrap 1 n0) false false d)
    (mkReceiver (SR.construct c) c n0 true false) = Ok (b1, mkReceiver ra c n0 true false)).
  { open_segment. rewrite Buffer.str_of_string by lia.
    change (ByteStream.bytes_written _) with 0. rewrite !(unwrap_wrap_near 1 n0 0) by lia.
    change (u64 (1 - 1)) with 0. unfold SR.construct. rewrite SR.push_alone by (cbn; lia || done).
    cbn [mbind result_bind]. eexists. do 3 f_equal. unfold ra. cbn [orb].
    rewrite Z.min_r, substr0_all by lia. done. }
  destruct E2 as [b1 E2].
  assert (E3 : exists b2, segment_received (segment (wrap (size d) n0) false true [x])
    (mkReceiver ra c n0 true false)
    = Ok (b2, mkReceiver (SR.set_checkeof true ra) c n0 true true)).
  { open_segment. rewrite Buffer.str_of_string by done.
    assert (ByteStream.bytes_written (stream_out (mkReceiver ra c n0 true false)) = size d) as ->
      by (transitivity (ByteStream.alwritten o); [done|by rewrite Ho]).
    rewrite (unwrap_wrap_near (size d)) by lia. rewrite (u64_id (size d - 1)) by lia.
    rewrite SR.push_stale.
    - cbn [mbind result_bind]. by eexists.
    - lia.
    - change (size [x]) with 1. lia.
    - done.
    - change (size [x]) with 1. cbn. lia. }
  destruct E3 as [b2 E3].
  do 5 eexists. split_and!; [exact E1|exact E2|exact E3|..].
  - assert (Hb : ByteStream.alwritten o = size d) by by rewrite Ho.
    unfold ackno, stream_out, SR.stream_out, ByteStream.bytes_written. cbn [isnset finset
      reassembler SR.set_checkeof SR.output SR.unassembled_bytes SR.private_unassembled_bytes
      isn andb ra]. rewrite Hb. cbn [Z.eqb]. rewrite u64_id by lia. do 2 f_equal. lia.
  - transitivity (ByteStream.content o); [done|by rewrite Ho].
  - transitivity (ByteStream.bs_end o); [done|by rewrite Ho].
Qed.

Lemma repeated_data_fin_lost_witness :
  exists r1 r2 r3 b1 b2,
    segment_received (segment sample_isn true false []) (construct 8) = Ok (true, r1) /\
    segment_received (segment (wrap 1 sample_isn) false false [Byte.x61; Byte.x62]) r1
      = Ok (b1, r2) /\
    segment_received (segment (wrap 2 sample_isn) false true [Byte.x62]) r2 = Ok (b2, r3) /\
    ackno r3 = Some (wrap 4 sample_isn) /\
    ByteStream.content (stream_out r3) = [Byte.x61; Byte.x62] /\
    ByteStream.input_ended (stream_out r3) = false.
Proof.
  apply (repeated_data_fin_lost 8 [Byte.x61; Byte.x62] sample_isn Byte.x62); [lia| |];
    vm_compute; intuition congruence.
Defined.
