(* ===== verification/TCPSender.v ===== *)
(** The sending half of a connection: [libsponge/tcp_sender.hh],
    [tcp_sender.cc] and the constants of [tcp_helpers/tcp_config.hh].  The
    outgoing stream is cut into segments that fit the peer's window; segments
    are kept until acknowledged and the oldest is sent again when the
    retransmission timer runs out. *)
From S2P Require Import Prelude WrappingIntegers.
From S2P Require Buffer ByteStream TCPSegment TCPHeader.
Import TCPSegment(TCPSegment).

(** ** Configuration and timer *)

Definition DEFAULT_CAPACITY : Z := 64000.
Definition MAX_PAYLOAD_SIZE : Z := 1000.
Definition TIMEOUT_DFLT : Z := 1000.
Definition MAX_RETX_ATTEMPTS : Z := 8.

(** [class TCPConfig] *)
Record TCPConfig := mkTCPConfig {
  rt_timeout : Z;
  recv_capacity : Z;
  send_capacity : Z;
  fixed_isn : option WrappingInt32
}.

Definition default_config : TCPConfig :=
  mkTCPConfig TIMEOUT_DFLT DEFAULT_CAPACITY DEFAULT_CAPACITY None.

(** [class Timer] *)
Record Timer := mkTimer {
  active : bool;
  start_time : Z;
  current_time : Z;
  rto : Z
}.

Definition timer_construct (rto : Z) : Timer := mkTimer false 0 0 rto.
Definition update_time (timestamp : Z) (t : Timer) : Timer :=
  mkTimer (active t) (start_time t) timestamp (rto t).
Definition timeout (t : Timer) : bool :=
  active t && (rto t <=? u64 (current_time t - start_time t)).
Definition rto_double (t : Timer) : Timer :=
  mkTimer (active t) (start_time t) (current_time t) (u64 (rto t * 2)).
Definition start (timestamp : Z) (t : Timer) : Timer :=
  mkTimer true timestamp timestamp (rto t).
Definition rto_reset (r : Z) (t : Timer) : Timer :=
  mkTimer false (start_time t) (current_time t) r.

(** ** The sender *)

(** [class TCPSender] *)
Record TCPSender := mkSender {
  isn : WrappingInt32;
  segments_out : list TCPSegment;
  initial_retransmission_timeout : Z;
  stream : ByteStream.ByteStream;
  consecutive_retrans_v : Z;
  unacked : list TCPSegment;
  sendtimer : Timer;
  time : Z;
  window_size : Z;
  byte_sent : Z;
  byte_received : Z;
  eof : bool
}.

(** [random] is what [random_device] returns. *)
Definition construct (capacity retx_timeout : Z) (fixed_isn : option WrappingInt32) (random : Z)
    : TCPSender :=
  mkSender (default (mkWrappingInt32 random) fixed_isn) [] retx_timeout
    (ByteStream.construct capacity) 0 [] (timer_construct retx_timeout) 0 1 0 0 false.

Definition bytes_in_flight (s : TCPSender) : Z := u64 (byte_sent s - byte_received s).
Definition next_seqno_absolute (s : TCPSender) : Z := byte_sent s.
Definition next_seqno (s : TCPSender) : WrappingInt32 := wrap (byte_sent s) (isn s).
Definition consecutive_retransmissions (s : TCPSender) : Z := consecutive_retrans_v s.
Definition fin_sent (s : TCPSender) : bool := eof s.
Definition fin_acked (s : TCPSender) : bool := (size (unacked s) =? 0) && fin_sent s.
Definition stream_in (s : TCPSender) : ByteStream.ByteStream := stream s.

(** Assignments to single members, also through [stream_in()] and
    [segments_out()]. *)
Definition set_stream (b : ByteStream.ByteStream) (s : TCPSender) : TCPSender :=
  mkSender (isn s) (segments_out s) (initial_retransmission_timeout s) b
    (consecutive_retrans_v s) (unacked s) (sendtimer s) (time s) (window_size s)
    (byte_sent s) (byte_received s) (eof s).
Definition set_segments_out (q : list TCPSegment) (s : TCPSender) : TCPSender :=
  mkSender (isn s) q (initial_retransmission_timeout s) (stream s)
    (consecutive_retrans_v s) (unacked s) (sendtimer s) (time s) (window_size s)
    (byte_sent s) (byte_received s) (eof s).
Definition set_timer (t : Timer) (s : TCPSender) : TCPSender :=
  mkSender (isn s) (segments_out s) (initial_retransmission_timeout s) (stream s)
    (consecutive_retrans_v s) (unacked s) t (time s) (window_size s)
    (byte_sent s) (byte_received s) (eof s).
Definition set_window_size (w : Z) (s : TCPSender) : TCPSender :=
  mkSender (isn s) (segments_out s) (initial_retransmission_timeout s) (stream s)
    (consecutive_retrans_v s) (unacked s) (sendtimer s) (time s) w
    (byte_sent s) (byte_received s) (eof s).
Definition set_time (t : Z) (s : TCPSender) : TCPSender :=
  mkSender (isn s) (segments_out s) (initial_retransmission_timeout s) (stream s)
    (consecutive_retrans_v s) (unacked s) (sendtimer s) t (window_size s)
    (byte_sent s) (byte_received s) (eof s).
Definition set_retrans (k : Z) (s : TCPSender) : TCPSender :=
  mkSender (isn s) (segments_out s) (initial_retransmission_timeout s) (stream s)
    k (unacked s) (sendtimer s) (time s) (window_size s)
    (byte_sent s) (byte_received s) (eof s).
Definition set_acked (received : Z) (q : list TCPSegment) (s : TCPSender) : TCPSender :=
  mkSender (isn s) (segments_out s) (initial_retransmission_timeout s) (stream s)
    (consecutive_retrans_v s) q (sendtimer s) (time s) (window_size s)
    (byte_sent s) received (eof s).

(** The end of the body of [fill_window]: [seg] is queued and accounted for, the
    stream is [b] and the FIN flag [e], and the timer runs. *)
Definition enqueue (seg : TCPSegment) (b : ByteStream.ByteStream) (e : bool) (s : TCPSender)
    : TCPSender :=
  let s := mkSender (isn s) (segments_out s ++ [seg]) (initial_retransmission_timeout s) b
    (consecutive_retrans_v s) (unacked s ++ [seg]) (sendtimer s) (time s) (window_size s)
    (u64 (byte_sent s + TCPSegment.length_in_sequence_space seg)) (byte_received s) e in
  if negb (active (sendtimer s))
  then set_timer (start (time s)
         (rto_reset (initial_retransmission_timeout s) (sendtimer s))) s
  else s.

(** The body of [fill_window] up to the recursive call, and whether it is made. *)
Definition fill_body (s : TCPSender) : TCPSender * bool :=
  let seg := TCPSegment.default in
  if eof s then (s, false)
  else
    let header := TCPSegment.header seg in
    let header := if byte_sent s =? 0 then TCPHeader.set_syn true header else header in
    let seg := TCPSegment.mkTCPSegment header (TCPSegment.payload seg) in
    let sequence_size := TCPSegment.length_in_sequence_space seg in
    let win := if 0 <? window_size s then window_size s else 1 in
    if (win <? u64 (bytes_in_flight s + sequence_size)) || (win <=? bytes_in_flight s)
    then (s, false)
    else
      let payload := u64 (u64 (win - bytes_in_flight s) - sequence_size) in
      let payload := if ByteStream.buffer_size (stream s) <? payload
                     then ByteStream.buffer_size (stream s) else payload in
      let payload := if MAX_PAYLOAD_SIZE <? payload then MAX_PAYLOAD_SIZE else payload in
      if negb (ByteStream.eof (stream s)) && (u64 (sequence_size + payload) =? 0)
      then (s, false)
      else
        let header := TCPHeader.set_seqno (next_seqno s) header in
        let '(data, b) := ByteStream.read payload (stream s) in
        let seg := TCPSegment.mkTCPSegment header (Buffer.of_string data) in
        if u64 (bytes_in_flight s + TCPSegment.length_in_sequence_space seg) <? win
        then (enqueue (TCPSegment.mkTCPSegment (TCPHeader.set_fin (ByteStream.eof b) header)
                         (Buffer.of_string data)) b (ByteStream.eof b) s, true)
        else (enqueue seg b (eof s) s, true).

(** [fill_window] calls itself until its body returns early.  Every call but the
    last sends at least one sequence number, so the window bounds the depth; see
    [fill_loop_spec]. *)
Fixpoint fill_loop (fuel : nat) (s : TCPSender) : TCPSender :=
  match fuel with
  | O => s
  | S fuel' => let '(s', again) := fill_body s in if again then fill_loop fuel' s' else s'
  end.

Definition fill_fuel (s : TCPSender) : nat := Z.to_nat (2 + window_size s).
Definition fill_window (s : TCPSender) : TCPSender := fill_loop (fill_fuel s) s.
#[global] Arguments fill_window _ : simpl never.

(** The loop of [ack_received]: drops the segments that are fully acknowledged. *)
Fixpoint pop_acked (isn : WrappingInt32) (abs_ack_no : Z) (q : list TCPSegment) : list TCPSegment :=
  match q with
  | [] => []
  | seg :: q' =>
      let abs_seq_no := unwrap (TCPHeader.seqno (TCPSegment.header seg)) isn abs_ack_no in
      if u64 (abs_seq_no + TCPSegment.length_in_sequence_space seg) <=? abs_ack_no
      then pop_acked isn abs_ack_no q' else q
  end.

(** An acknowledgement of new data, before the final [fill_window]. *)
Definition accept_ack (abs_ack_no : Z) (s : TCPSender) : TCPSender :=
  let s := set_timer (rto_reset (initial_retransmission_timeout s) (sendtimer s)) s in
  let s := set_retrans 0 s in
  let s := set_acked abs_ack_no (pop_acked (isn s) abs_ack_no (unacked s)) s in
  if negb (size (unacked s) =? 0) then set_timer (start (time s) (sendtimer s)) s else s.

Definition ack_received (ackno : WrappingInt32) (win : Z) (s : TCPSender) : bool * TCPSender :=
  let abs_ack_no := unwrap ackno (isn s) (byte_received s) in
  let s := set_window_size win s in
  if byte_sent s <? abs_ack_no then (false, s)
  else if abs_ack_no <? byte_received s then (true, s)
  else if abs_ack_no =? byte_received s then (true, fill_window s)
  else (true, fill_window (accept_ack abs_ack_no s)).

Definition tick (ms_since_last_tick : Z) (s : TCPSender) : result TCPSender :=
  let s := set_time (u64 (time s + ms_since_last_tick)) s in
  if active (sendtimer s) then
    let s := set_timer (update_time (time s) (sendtimer s)) s in
    if timeout (sendtimer s) then
      match unacked s with
      | [] => Throw undefined_behaviour
      | seg :: _ =>
          let s := set_segments_out (segments_out s ++ [seg]) s in
          let s := set_retrans (u32 (consecutive_retrans_v s + 1)) s in
          let s := set_timer (rto_double (sendtimer s)) s in
          Ok (set_timer (start (time s) (sendtimer s)) s)
      end
    else Ok s
  else Ok s.

Definition send_empty_segment (s : TCPSender) : TCPSender :=
  let seg := TCPSegment.mkTCPSegment
    (TCPHeader.set_seqno (next_seqno s) TCPHeader.default) Buffer.empty_buffer in
  set_segments_out (segments_out s ++ [seg]) s.

(** ** What a segment carries

    [W] is everything written to the outgoing stream so far.  A segment at
    absolute sequence number [a] carries the bytes of [W] at its index, the SYN
    exactly at number 0, and the FIN only after the last byte of [W]. *)

Abbreviation len := TCPSegment.length_in_sequence_space.
Definition b2z (b : bool) : Z := if b then 1 else 0.

Record carries (W : bytes) (n0 : WrappingInt32) (a : Z) (seg : TCPSegment) : Prop := {
  c_pos : 0 <= a;
  c_seqno : TCPHeader.seqno (TCPSegment.header seg) = wrap a n0;
  c_syn : TCPHeader.syn (TCPSegment.header seg) = (a =? 0);
  c_data : Buffer.str (TCPSegment.payload seg) =
    take (length (Buffer.str (TCPSegment.payload seg))) (drop (Z.to_nat (index_of a)) W);
  c_max : size (Buffer.str (TCPSegment.payload seg)) <= MAX_PAYLOAD_SIZE;
  c_bound : index_of a + size (Buffer.str (TCPSegment.payload seg)) <= size W;
  c_fin : TCPHeader.fin (TCPSegment.header seg) = true ->
    index_of a + size (Buffer.str (TCPSegment.payload seg)) = size W;
  c_nonempty : 0 < len seg
}.

Lemma len_eq seg :
  size (Buffer.str (TCPSegment.payload seg)) <= MAX_PAYLOAD_SIZE ->
  len seg = size (Buffer.str (TCPSegment.payload seg))
            + b2z (TCPHeader.syn (TCPSegment.header seg))
            + b2z (TCPHeader.fin (TCPSegment.header seg)).
Proof.
  unfold MAX_PAYLOAD_SIZE. intros. unfold len, b2z. rewrite u64_id; [done|].
  repeat case_match; size_lia.
Qed.

(** The sequence number after a segment. *)
Lemma carries_end W n0 a seg :
  carries W n0 a seg ->
  a + len seg = 1 + index_of a + size (Buffer.str (TCPSegment.payload seg))
                + b2z (TCPHeader.fin (TCPSegment.header seg)).
Proof.
  intros H. rewrite len_eq by apply H. rewrite (c_syn _ _ _ _ H). unfold index_of, b2z.
  destruct (Z.eqb_spec a 0); lia.
Qed.

Lemma carries_len W n0 a seg : carries W n0 a seg -> 1 <= len seg <= 1002.
Proof.
  intros H. pose proof (c_nonempty _ _ _ _ H). pose proof (c_max _ _ _ _ H).
  rewrite len_eq in * by apply H. unfold MAX_PAYLOAD_SIZE, b2z in *.
  repeat case_match; lia.
Qed.

Lemma carries_grow W t n0 a seg :
  carries W n0 a seg -> (TCPHeader.fin (TCPSegment.header seg) = true -> t = []) ->
  carries (W ++ t) n0 a seg.
Proof.
  intros [H0 H1 H2 H3 H4 H5 H6 H7] Ht. constructor; try done.
  - rewrite H3 at 1. rewrite drop_app_le; [|unfold size, index_of in *; case_Z; lia].
    rewrite take_app_le; [done|]. rewrite length_drop. unfold size, index_of in *.
    revert H5. case_Z; lia.
  - rewrite size_app. size_lia.
  - intros Hf. rewrite (Ht Hf), app_nil_r. by apply H6.
Qed.

(** Consecutive segments from [a] up to [b]. *)
Fixpoint tiles (W : bytes) (n0 : WrappingInt32) (a : Z) (q : list TCPSegment) (b : Z) : Prop :=
  match q with
  | [] => a = b
  | seg :: q' => carries W n0 a seg /\ tiles W n0 (a + len seg) q' b
  end.

Lemma tiles_snoc W n0 a q b seg :
  tiles W n0 a q b -> carries W n0 b seg -> tiles W n0 a (q ++ [seg]) (b + len seg).
Proof.
  revert a. induction q as [|g q IH]; intros a; cbn.
  - intros -> H. done.
  - intros [H1 H2] H. split; [done|by apply IH].
Qed.

Lemma tiles_le W n0 a q b : tiles W n0 a q b -> a <= b.
Proof.
  revert a. induction q as [|g q IH]; intros a; cbn; [lia|].
  intros [H1 H2]. pose proof (carries_len _ _ _ _ H1). specialize (IH _ H2). lia.
Qed.

Lemma tiles_grow W t n0 a q b :
  tiles W n0 a q b ->
  Forall (fun g => TCPHeader.fin (TCPSegment.header g) = true -> t = []) q ->
  tiles (W ++ t) n0 a q b.
Proof.
  revert a. induction q as [|g q IH]; intros a; cbn; [done|].
  intros [H1 H2] [Hf Hq]%Forall_cons. split; [by apply carries_grow|by apply IH].
Qed.

(** [pop_acked] drops exactly the segments that end at or before the
    acknowledgement, when these are near enough to be told apart. *)
Lemma pop_acked_spec W n0 q : forall u k b,
  tiles W n0 u q b -> 0 <= u <= k -> k <= b -> b < 9223372036854775808 ->
  b - u < 2147483648 ->
  exists p u', q = p ++ pop_acked n0 k q /\ u <= u' <= k /\ tiles W n0 u p u' /\
    tiles W n0 u' (pop_acked n0 k q) b /\
    match pop_acked n0 k q with [] => True | seg :: _ => k < u' + len seg end.
Proof.
  induction q as [|g q IH]; intros u k b Ht Hu Hk Hb Hn; cbn in Ht |- *.
  - exists [], u. split_and!; done || lia.
  - destruct Ht as [H1 H2]. pose proof (carries_len _ _ _ _ H1) as Hl.
    rewrite (c_seqno _ _ _ _ H1), unwrap_wrap_near, u64_id by lia. case_Z.
    + destruct (IH (u + len g) k b) as (p & u' & E & Hu' & Hp & Hq & Hm); try done; try lia.
      exists (g :: p), u'. split; [cbn; by rewrite <- E|]. split; [lia|]. by split.
    + exists [], u. split_and!; try done; lia.
Qed.

(** ** The invariant *)

(** A segment in [segments_out]: one that carries part of the stream sent so far,
    or an empty one that only carries an acknowledgement. *)
Definition sent_ok (W : bytes) (s : TCPSender) (seg : TCPSegment) : Prop :=
  (exists a, carries W (isn s) a seg /\ a + len seg <= byte_sent s) \/
  (len seg = 0 /\ exists a, 0 <= a <= byte_sent s /\
     TCPHeader.seqno (TCPSegment.header seg) = wrap a (isn s)).

Record wf (W : bytes) (s : TCPSender) : Prop := {
  wf_stream : ByteStream.wf (stream s);
  wf_size : size W < 4611686018427387904;
  wf_read : ByteStream.alread (stream s) <= size W;
  wf_content : ByteStream.content (stream s) = drop (Z.to_nat (ByteStream.alread (stream s))) W;
  wf_sent0 : byte_sent s = 0 -> ByteStream.alread (stream s) = 0 /\ eof s = false;
  wf_sent : byte_sent s <> 0 -> byte_sent s = 1 + ByteStream.alread (stream s) + b2z (eof s);
  wf_eof : eof s = true -> ByteStream.eof (stream s) = true;
  wf_received : 0 <= byte_received s <= byte_sent s;
  wf_flight : byte_sent s - byte_received s <= 65535;
  wf_window : 0 <= window_size s < 65536;
  wf_unacked : exists u, 0 <= u <= byte_received s /\ tiles W (isn s) u (unacked s) (byte_sent s) /\
    match unacked s with [] => True | seg :: _ => byte_received s < u + len seg end;
  wf_out : Forall (sent_ok W s) (segments_out s);
  wf_timer : active (sendtimer s) = true <-> unacked s <> [];
  wf_idle : unacked s = [] -> consecutive_retrans_v s = 0;
  wf_retrans : 0 <= consecutive_retrans_v s < M32;
  wf_initial : 0 <= initial_retransmission_timeout s < 65536;
  wf_rto : rto (sendtimer s) = u64 (initial_retransmission_timeout s * 2 ^ consecutive_retrans_v s)
}.

Lemma sender_construct_wf c t i random :
  0 <= c < M64 -> 0 <= t < 65536 -> wf [] (construct c t i random).
Proof.
  intros Hc Ht. constructor; cbn; try done; try lia.
  - by apply ByteStream.construct_wf.
  - exists 0. done.
  - rewrite u64_id; lia.
Qed.

Lemma wf_sent_bound W s : wf W s -> 0 <= byte_sent s <= size W + 2.
Proof.
  intros H. destruct (Z.eq_dec (byte_sent s) 0); [size_lia|].
  rewrite (wf_sent _ _ H) by done. pose proof (wf_read _ _ H).
  pose proof (ByteStream.wf_read _ (wf_stream _ _ H)). unfold b2z.
  destruct (eof s); lia.
Qed.

Lemma flight_eq W s : wf W s -> bytes_in_flight s = byte_sent s - byte_received s.
Proof.
  intros H. pose proof (wf_sent_bound W s H). destruct H. unfold bytes_in_flight.
  rewrite u64_id; [done|]. size_lia.
Qed.

(** The next byte to send is the next byte of the stream. *)
Lemma wf_index W s :
  wf W s -> eof s = false -> index_of (byte_sent s) = ByteStream.alread (stream s).
Proof.
  intros H He. unfold index_of. destruct (Z.eqb_spec (byte_sent s) 0) as [E|E].
  - by destruct (wf_sent0 _ _ H E) as [-> _].
  - rewrite (wf_sent _ _ H E), He. cbn. lia.
Qed.

(** The window [fill_window] uses: a closed window counts as one. *)
Definition win (s : TCPSender) : Z := Z.max 1 (window_size s).

(** Why the body of [fill_window] returns early. *)
Definition full (s : TCPSender) : Prop :=
  eof s = true \/ win s <= byte_sent s - byte_received s \/
  (0 < byte_sent s /\ ByteStream.buffer_empty (stream s) = true /\
   ByteStream.eof (stream s) = false).

(** How many bytes the body reads for its segment. *)
Definition payload_size (s : TCPSender) : Z :=
  Z.min MAX_PAYLOAD_SIZE (Z.min (ByteStream.buffer_size (stream s))
    (win s - (byte_sent s - byte_received s) - b2z (byte_sent s =? 0))).

(** The segment it builds, with [fin]. *)
Definition built (s : TCPSender) (data : bytes) (fin : bool) : TCPSegment :=
  TCPSegment.mkTCPSegment
    (TCPHeader.mkTCPHeader 0 0 (next_seqno s) (mkWrappingInt32 0) 5 false false false false
       (byte_sent s =? 0) fin 0 0 0) (Buffer.of_string data).

Lemma built_len s data fin :
  size data <= MAX_PAYLOAD_SIZE ->
  len (built s data fin) = size data + b2z (byte_sent s =? 0) + b2z fin.
Proof.
  intros Hd. unfold MAX_PAYLOAD_SIZE in Hd. rewrite len_eq; cbn;
    rewrite Buffer.str_of_string by lia; done.
Qed.

(** The body, with its arithmetic resolved. *)
Lemma fill_body_eq W s :
  wf W s ->
  fill_body s =
  if eof s || (win s <=? byte_sent s - byte_received s) then (s, false)
  else if negb (ByteStream.eof (stream s)) && (b2z (byte_sent s =? 0) + payload_size s =? 0)
  then (s, false)
  else
    let '(data, b) := ByteStream.read (payload_size s) (stream s) in
    let fin := (byte_sent s - byte_received s + size data + b2z (byte_sent s =? 0) <? win s)
               && ByteStream.eof b in
    (enqueue (built s data fin) b fin s, true).
Proof.
  intros H. pose proof (flight_eq W s H) as Hf. pose proof (wf_sent_bound W s H).
  pose proof (wf_size _ _ H).
  pose proof (wf_received _ _ H). pose proof (wf_flight _ _ H). pose proof (wf_window _ _ H).
  pose proof (wf_stream _ _ H) as Hs. pose proof (ByteStream.wf_capacity _ Hs).
  unfold fill_body. destruct (eof s) eqn:He; cbn [orb]; [done|].
  rewrite Hf. assert (Hw : (if 0 <? window_size s then window_size s else 1) = win s).
  { unfold win. case_Z; lia. }
  rewrite Hw. assert (1 <= win s <= 65535) by (unfold win; lia).
  set (seg0 := TCPSegment.mkTCPSegment _ _).
  assert (Hseq : len seg0 = b2z (byte_sent s =? 0)).
  { subst seg0. by destruct (byte_sent s =? 0). }
  fold (len seg0). rewrite Hseq. set (q := b2z (byte_sent s =? 0)) in *.
  assert (Hq : 0 <= q <= 1 /\ (q = 1 -> byte_sent s = 0)).
  { subst q. unfold b2z. destruct (Z.eqb_spec (byte_sent s) 0); lia. }
  set (fl := byte_sent s - byte_received s) in *.
  rewrite (u64_id (fl + q)) by lia.
  destruct (Z.leb_spec (win s) fl) as [C|C]; [by rewrite orb_true_r|].
  destruct (Z.ltb_spec (win s) (fl + q)) as [D|D]; [lia|]. cbn [orb].
  rewrite (u64_id (win s - fl)), (u64_id (win s - fl - q)) by lia.
  set (pl := if MAX_PAYLOAD_SIZE <? _ then _ else _).
  assert (Hp : pl = payload_size s).
  { subst pl. unfold payload_size. fold fl q. unfold MAX_PAYLOAD_SIZE.
    repeat case_Z; lia. }
  rewrite Hp. clearbody pl. subst pl.
  assert (Hp : 0 <= payload_size s <= MAX_PAYLOAD_SIZE /\
               payload_size s <= ByteStream.buffer_size (stream s)).
  { unfold payload_size, MAX_PAYLOAD_SIZE, ByteStream.buffer_size in *. fold fl q. size_lia. }
  unfold MAX_PAYLOAD_SIZE in Hp. rewrite (u64_id (q + payload_size s)) by lia.
  destruct (negb _ && _); [done|].
  destruct (ByteStream.read_exact (payload_size s) (stream s) Hs) as (b & -> & _); [lia|].
  set (data := take _ _).
  assert (Hd : size data <= MAX_PAYLOAD_SIZE).
  { subst data. unfold ByteStream.buffer_size in *. rewrite size_take; unfold MAX_PAYLOAD_SIZE; lia. }
  match goal with |- context [TCPHeader.set_seqno ?n ?h] =>
    replace (TCPHeader.set_seqno n h) with (TCPSegment.header (built s data false))
      by (unfold built, TCPHeader.set_seqno; by destruct (byte_sent s =? 0)) end.
  change (TCPSegment.mkTCPSegment (TCPSegment.header (built s data false)) (Buffer.of_string data))
    with (built s data false).
  fold (len (built s data false)). rewrite built_len by done. fold q. cbn [b2z].
  rewrite u64_id by (unfold MAX_PAYLOAD_SIZE in Hd; size_lia). rewrite Z.add_0_r, Z.add_assoc.
  by case_Z.
Qed.

(** ** The body of [fill_window] *)

Lemma sent_ok_grow W s s' seg :
  sent_ok W s seg -> isn s' = isn s -> byte_sent s <= byte_sent s' -> sent_ok W s' seg.
Proof.
  intros [(a & H & Hl)|(H0 & a & Ha & H)] Hi Hb; unfold sent_ok; rewrite Hi.
  - left. exists a. split; [done|lia].
  - right. split; [done|]. exists a. split; [lia|done].
Qed.

(** What one productive run of the body does. *)
Record sends (W : bytes) (s : TCPSender) (seg : TCPSegment) (s' : TCPSender) : Prop := {
  sends_carries : carries W (isn s) (byte_sent s) seg;
  sends_isn : isn s' = isn s;
  sends_unacked : unacked s' = unacked s ++ [seg];
  sends_out : segments_out s' = segments_out s ++ [seg];
  sends_sent : byte_sent s' = byte_sent s + len seg;
  sends_received : byte_received s' = byte_received s;
  sends_window : window_size s' = window_size s;
  sends_fits : byte_sent s' - byte_received s' <= win s
}.

Lemma enqueue_fields seg b e s :
  let s' := enqueue seg b e s in
  isn s' = isn s /\ segments_out s' = segments_out s ++ [seg] /\
  initial_retransmission_timeout s' = initial_retransmission_timeout s /\
  stream s' = b /\ consecutive_retrans_v s' = consecutive_retrans_v s /\
  unacked s' = unacked s ++ [seg] /\ window_size s' = window_size s /\
  byte_sent s' = u64 (byte_sent s + len seg) /\ byte_received s' = byte_received s /\
  eof s' = e /\ active (sendtimer s') = true /\
  rto (sendtimer s') = (if active (sendtimer s) then rto (sendtimer s)
                        else initial_retransmission_timeout s).
Proof.
  unfold enqueue. cbn. destruct (active (sendtimer s)) eqn:E; cbn; split_and!; done.
Qed.

Section Body.
Context (W : bytes) (s : TCPSender) (H : wf W s).
Context (Heof : eof s = false) (Hroom : byte_sent s - byte_received s < win s).

Let pl := payload_size s.
Let q := b2z (byte_sent s =? 0).
Let fl := byte_sent s - byte_received s.

Lemma payload_bounds :
  0 <= pl <= MAX_PAYLOAD_SIZE /\ pl <= ByteStream.buffer_size (stream s) /\
  fl + q + pl <= win s /\ 0 <= q <= 1 /\ fl < win s <= 65535 /\ 0 <= fl /\
  (q = 1 <-> byte_sent s = 0).
Proof using All.
  pose proof (wf_received _ _ H). pose proof (wf_window _ _ H).
  pose proof (ByteStream.wf_capacity _ (wf_stream _ _ H)).
  subst pl q fl. unfold payload_size, win, MAX_PAYLOAD_SIZE, ByteStream.buffer_size, b2z in *.
  destruct (Z.eqb_spec (byte_sent s) 0); split_and!; try lia.
Qed.

Context (Hgo : ByteStream.eof (stream s) = true \/ q + pl <> 0).

(** The segment is a correct excerpt and it is not empty. *)
Lemma body_carries b :
  let data := take (Z.to_nat pl) (ByteStream.content (stream s)) in
  ByteStream.content b = drop (Z.to_nat pl) (ByteStream.content (stream s)) ->
  ByteStream.bs_end b = ByteStream.bs_end (stream s) ->
  let fin := (fl + size data + q <? win s) && ByteStream.eof b in
  size data = pl /\
  carries W (isn s) (byte_sent s) (built s data fin) /\
  fl + len (built s data fin) <= win s /\
  (fin = true -> ByteStream.eof b = true) .
Proof using All.
  intros data Hc Hend fin. destruct payload_bounds as (Hp & Hb & Hfit & Hq & Hw & Hfl & Hq1).
  assert (Hd : size data = pl).
  { subst data. unfold ByteStream.buffer_size in Hb. apply size_take. lia. }
  split; [done|]. rewrite built_len by lia. fold q.
  assert (Hfin : fin = true -> fl + size data + q < win s /\ ByteStream.eof b = true).
  { subst fin. rewrite andb_true_iff, Z.ltb_lt. done. }
  pose proof (wf_content _ _ H) as Hcon. pose proof (wf_read _ _ H) as Hrd.
  pose proof (ByteStream.wf_read _ (wf_stream _ _ H)) as Hr0.
  assert (Hsz : size (ByteStream.content (stream s)) = size W - ByteStream.alread (stream s)).
  { rewrite Hcon. apply size_drop. lia. }
  split; [|split; [destruct fin; cbn [b2z]; [destruct (Hfin eq_refl)|]; lia|by intros [_ ?]%Hfin]].
  pose proof (wf_sent_bound _ _ H). unfold ByteStream.buffer_size in Hb.
  pose proof (wf_size _ _ H). unfold MAX_PAYLOAD_SIZE in Hp.
  constructor; cbn [built TCPSegment.header TCPSegment.payload TCPHeader.seqno TCPHeader.syn
    TCPHeader.fin]; rewrite ?Buffer.str_of_string by lia; try done; try lia.
  - rewrite (wf_index _ _ H Heof), <- Hcon. subst data.
    rewrite length_take. f_equal. unfold size in Hb. lia.
  - unfold MAX_PAYLOAD_SIZE. lia.
  - rewrite (wf_index _ _ H Heof). lia.
  - intros [_ He]%Hfin. rewrite (wf_index _ _ H Heof).
    unfold ByteStream.eof, ByteStream.buffer_empty in He.
    apply andb_true_iff in He as [_ He%Z.eqb_eq].
    rewrite Hc, size_drop in He by lia. lia.
  - rewrite built_len by (unfold MAX_PAYLOAD_SIZE; lia). fold q.
    destruct Hgo as [He|Hne]; [|destruct fin; cbn; lia].
    unfold ByteStream.eof, ByteStream.buffer_empty in He.
    apply andb_true_iff in He as [He1 He2%Z.eqb_eq].
    assert (pl = 0) by lia. destruct (Z.eq_dec q 0); [|destruct fin; cbn; lia].
    assert (fin = true) as ->; [|cbn; lia]. subst fin. apply andb_true_iff.
    split; [apply Z.ltb_lt; lia|]. unfold ByteStream.eof, ByteStream.buffer_empty.
    rewrite Hend, He1, Hc. cbn. apply Z.eqb_eq. rewrite size_drop; lia.
Qed.
End Body.

Lemma sends_wf W s data b fin :
  wf W s -> eof s = false ->
  let seg := built s data fin in
  let s' := enqueue seg b fin s in
  carries W (isn s) (byte_sent s) seg ->
  byte_sent s - byte_received s + len seg <= win s ->
  ByteStream.wf b -> ByteStream.alread b = ByteStream.alread (stream s) + size data ->
  ByteStream.content b = drop (Z.to_nat (size data)) (ByteStream.content (stream s)) ->
  (fin = true -> ByteStream.eof b = true) ->
  sends W s seg s' /\ wf W s'.
Proof.
  intros H He seg s' Hc Hfit Hb Har Hcon Hfin.
  pose proof (carries_len _ _ _ _ Hc) as Hl. pose proof (carries_end _ _ _ _ Hc) as Hend.
  pose proof (c_bound _ _ _ _ Hc) as Hbd. pose proof (wf_sent_bound _ _ H) as Hsb.
  pose proof (wf_index _ _ H He) as Hidx. pose proof (wf_received _ _ H) as Hrec.
  pose proof (wf_size _ _ H) as HW. pose proof (wf_window _ _ H) as Hwin.
  pose proof (ByteStream.wf_read _ (wf_stream _ _ H)) as Hr0.
  pose proof (enqueue_fields seg b fin s) as HE. cbv zeta in HE. fold s' in HE.
  destruct HE as (E1 & E2 & E3 & E4 & E5 & E6 & E7 & E8 & E9 & E10 & E11 & E12).
  rewrite u64_id in E8 by (unfold win in *; lia).
  assert (Hdata : Buffer.str (TCPSegment.payload seg) = data).
  { subst seg. cbn. apply Buffer.str_of_string.
    pose proof (c_max _ _ _ _ Hc) as Hm. cbn in Hm. unfold MAX_PAYLOAD_SIZE in Hm.
    pose proof (ByteStream.wf_read _ Hb). size_lia. }
  rewrite Hdata, Hidx in *. split; [by constructor; try done; lia|].
  destruct H as [? ? ? Hcs ? ? ? ? ? ? (u & Hu & Ht & Hm) Hout Htim Hidle Hret Hini Hrto].
  constructor; rewrite ?E1, ?E2, ?E3, ?E4, ?E5, ?E6, ?E7, ?E8, ?E9, ?E10, ?E11, ?E12; try done.
  - lia.
  - rewrite Hcon, Hcs, drop_drop. f_equal. size_lia.
  - lia.
  - intros _. change (TCPHeader.fin (TCPSegment.header seg)) with fin in Hend. lia.
  - lia.
  - unfold win in *. lia.
  - exists u. split; [done|]. split; [by apply tiles_snoc|].
    destruct (unacked s); cbn; [|done]. cbn in Ht. lia.
  - apply Forall_app. split.
    + eapply Forall_impl; [exact Hout|]. intros g Hg. eapply sent_ok_grow; [done|done|lia].
    + apply Forall_singleton. left. exists (byte_sent s). rewrite E1, E8. split; [done|lia].
  - split; [|done]. intros _. by destruct (unacked s).
  - by destruct (unacked s).
  - destruct (active (sendtimer s)) eqn:Ea; [done|].
    assert (unacked s = []) as Hnil.
    { destruct (unacked s); [done|]. destruct Htim as [_ Hx]. by specialize (Hx ltac:(done)). }
    rewrite (Hidle Hnil). cbn. rewrite u64_id; lia.
Qed.

Lemma fill_body_spec W s :
  wf W s ->
  (fill_body s = (s, false) /\ full s) \/
  (exists seg s', fill_body s = (s', true) /\ sends W s seg s' /\ wf W s').
Proof.
  intros H. rewrite (fill_body_eq W s H). unfold full.
  destruct (eof s) eqn:He; [left; by split; [|left]|]. cbn [orb].
  case_Z; [left; split; [done|right; left; lia]|].
  destruct (payload_bounds W s H He ltac:(lia)) as (Hp & Hb & Hfit & Hq & Hw & Hfl & Hq1).
  destruct (negb (ByteStream.eof (stream s)) && _) eqn:Hgo.
  - left. split; [done|]. right. right. apply andb_true_iff in Hgo as [Hne Hz%Z.eqb_eq].
    apply negb_true_iff in Hne. pose proof (wf_received _ _ H). split; [lia|]. split; [|done].
    unfold ByteStream.buffer_empty. apply Z.eqb_eq.
    assert (payload_size s = 0) as Hz' by lia. revert Hz'. unfold payload_size.
    unfold ByteStream.buffer_size, MAX_PAYLOAD_SIZE. size_lia.
  - right. assert (Hgo' : ByteStream.eof (stream s) = true \/
      b2z (byte_sent s =? 0) + payload_size s <> 0).
    { apply andb_false_iff in Hgo as [?%negb_false_iff|?%Z.eqb_neq]; tauto. }
    pose proof (wf_stream _ _ H) as Hws.
    destruct (ByteStream.read_exact (payload_size s) (stream s) Hws) as
      (b & -> & Hb' & Hcon & Har & Hend & _); [lia|].
    destruct (body_carries W s H He ltac:(lia) Hgo' b Hcon Hend) as (Hd & Hc & Hf & Hfin).
    set (data := take _ _) in *.
    set (fin := (byte_sent s - byte_received s + size data + b2z (byte_sent s =? 0) <? win s)
                && ByteStream.eof b) in *.
    exists (built s data fin), (enqueue (built s data fin) b fin s). split; [done|].
    pose proof (wf_read _ _ H). pose proof (wf_size _ _ H).
    pose proof (ByteStream.wf_read _ Hws). unfold MAX_PAYLOAD_SIZE in Hp.
    apply sends_wf; try done.
    + rewrite Har, Hd. apply u64_id. lia.
    + by rewrite Hd.
Qed.

(** ** Termination and effect of [fill_window] *)

Lemma fill_loop_spec W fuel : forall s,
  wf W s -> win s - (byte_sent s - byte_received s) < Z.of_nat fuel ->
  let s' := fill_loop fuel s in
  wf W s' /\ full s' /\ fill_body s' = (s', false) /\
  isn s' = isn s /\ window_size s' = window_size s /\ byte_received s' = byte_received s /\
  (exists new, unacked s' = unacked s ++ new /\ segments_out s' = segments_out s ++ new /\
     tiles W (isn s) (byte_sent s) new (byte_sent s') /\
     (new <> [] -> byte_sent s' - byte_received s' <= win s)).
Proof.
  induction fuel as [|fuel IH]; intros s H Hf s'; subst s'.
  { destruct (fill_body_spec W s H) as [[E F]|(seg & s1 & E & S1 & _)].
    - cbn. split_and!; try done. exists []. rewrite !app_nil_r. by split_and!.
    - exfalso. pose proof (carries_len _ _ _ _ (sends_carries _ _ _ _ S1)).
      destruct S1. lia. }
  cbn [fill_loop]. destruct (fill_body_spec W s H) as [[E F]|(seg & s1 & E & S1 & H1)]; rewrite E.
  - split_and!; try done. exists []. rewrite !app_nil_r. by split_and!.
  - pose proof (carries_len _ _ _ _ (sends_carries _ _ _ _ S1)) as Hl.
    destruct S1 as [Hc Ei Eu Eo Es Er Ew Efit].
    destruct (IH s1 H1) as (A1 & A2 & A3 & A4 & A5 & A6 & new & B1 & B2 & B3 & B4).
    { unfold win in *. rewrite Ew. lia. }
    split_and!; try done; try congruence.
    exists (seg :: new). rewrite B1, B2, Eu, Eo, <- !(assoc_L (++)). split; [done|].
    split; [done|]. rewrite Ei, Es in B3. split; [done|]. intros _.
    assert (win s1 = win s) as Hwin by (unfold win; by rewrite Ew).
    destruct new as [|g new]; [|rewrite <- Hwin; by apply B4].
    cbn in B3. unfold win in *. lia.
Qed.

(** Once the body returns early, more fuel changes nothing. *)
Lemma fill_loop_fix n s : fill_body s = (s, false) -> fill_loop n s = s.
Proof. intros E. destruct n; cbn; [done|]. by rewrite E. Qed.

Lemma fill_loop_more n fuel s :
  fill_body (fill_loop n s) = (fill_loop n s, false) -> fill_loop (n + fuel) s = fill_loop n s.
Proof.
  revert s. induction n as [|n IH]; intros s E; cbn [fill_loop Nat.add] in *.
  - by apply fill_loop_fix.
  - destruct (fill_body s) as [s1 []]; [by apply IH|done].
Qed.

Lemma fill_window_spec W s :
  wf W s ->
  let s' := fill_window s in
  wf W s' /\ full s' /\ fill_body s' = (s', false) /\
  isn s' = isn s /\ window_size s' = window_size s /\ byte_received s' = byte_received s /\
  (exists new, unacked s' = unacked s ++ new /\ segments_out s' = segments_out s ++ new /\
     tiles W (isn s) (byte_sent s) new (byte_sent s') /\
     (new <> [] -> byte_sent s' - byte_received s' <= win s)).
Proof.
  intros H. unfold fill_window. apply fill_loop_spec; [done|].
  pose proof (wf_received _ _ H). pose proof (wf_window _ _ H).
  unfold win, fill_fuel. rewrite Z2Nat.id; lia.
Qed.

(** ** The other operations keep the invariant *)

Lemma set_window_wf W s w : wf W s -> 0 <= w < 65536 -> wf W (set_window_size w s).
Proof. intros [] Hw. by constructor. Qed.

(** A segment with the FIN has been sent only when the stream was over. *)
Lemma carries_fin_eof W s a seg :
  wf W s -> carries W (isn s) a seg -> a + len seg <= byte_sent s ->
  TCPHeader.fin (TCPSegment.header seg) = true -> eof s = true.
Proof.
  intros H Hc Hl Hf. rewrite (carries_end _ _ _ _ Hc), Hf in Hl.
  pose proof (c_fin _ _ _ _ Hc Hf). cbn [b2z] in Hl. pose proof (wf_read _ _ H).
  destruct (eof s) eqn:He; [done|]. pose proof (size_nonneg W).
  rewrite (wf_sent _ _ H), He in Hl by lia. cbn in Hl. lia.
Qed.

Lemma tiles_fin W s u q b :
  wf W s -> tiles W (isn s) u q b -> b <= byte_sent s ->
  Forall (fun g => TCPHeader.fin (TCPSegment.header g) = true -> eof s = true) q.
Proof.
  intros H. revert u. induction q as [|g q IH]; intros u; [done|]. cbn. intros [H1 H2] Hb.
  pose proof (tiles_le _ _ _ _ _ H2). constructor; [|by eapply IH].
  eapply carries_fin_eof; try done. lia.
Qed.

(** The stream cannot grow once the FIN is out. *)
Lemma open_not_eof W s : wf W s -> ByteStream.bs_end (stream s) = false -> eof s = false.
Proof.
  intros H Hend. destruct (eof s) eqn:He; [|done]. apply (wf_eof _ _ H) in He.
  unfold ByteStream.eof in He. by rewrite Hend in He.
Qed.

(** Writing to the stream, which has not been ended. *)
Lemma sent_ok_write W s t b seg :
  wf W s -> ByteStream.bs_end (stream s) = false ->
  sent_ok W s seg -> sent_ok (W ++ t) (set_stream b s) seg.
Proof.
  intros H Hend [(a & Hc & Hl)|Hs]; [left|by right]. exists a. split; [|done].
  apply carries_grow; [done|]. intros Hf.
  pose proof (carries_fin_eof _ _ _ _ H Hc Hl Hf) as He. by rewrite (open_not_eof W s H Hend) in He.
Qed.

Lemma sender_write_wf W s data :
  wf W s -> ByteStream.bs_end (stream s) = false ->
  size W + size data < 4611686018427387904 ->
  let n := fst (ByteStream.write data (stream s)) in
  let b := snd (ByteStream.write data (stream s)) in
  wf (W ++ substr0 data n) (set_stream b s).
Proof.
  intros H Hend Hb n b. pose proof (open_not_eof W s H Hend) as He.
  pose proof (ByteStream.write_wf data _ (wf_stream _ _ H)) as Hwf.
  pose proof (ByteStream.write_accepts data _ (wf_stream _ _ H)) as Hn. fold n in Hn. fold b in Hwf.
  pose proof (ByteStream.write_content data _ (wf_stream _ _ H)) as Hc. fold n b in Hc.
  pose proof (ByteStream.wf_capacity _ (wf_stream _ _ H)) as Hcap.
  pose proof (ByteStream.wf_read _ (wf_stream _ _ H)) as Hr0.
  assert (Hs : size (substr0 data n) <= size data).
  { rewrite substr0_size by size_lia. lia. }
  pose proof H as [_ HW Hrd Hcon Hs0 Hs1 _ Hrec Hfl Hwin (u & Hu & Ht & Hm) Hout Htim Hid Hrt Hin Hrto].
  constructor; cbn [stream set_stream]; try done.
  - rewrite size_app. lia.
  - rewrite size_app. change (ByteStream.alread b) with (ByteStream.alread (stream s)). size_lia.
  - rewrite Hc, Hcon. change (ByteStream.alread b) with (ByteStream.alread (stream s)).
    rewrite drop_app_le; [done|]. unfold size in *. lia.
  - cbn. by rewrite He.
  - exists u. split; [done|]. split; [|done]. apply tiles_grow; [done|].
    eapply Forall_impl; [eapply (tiles_fin W s); done || lia|]. cbn. intros g Hg Hf.
    specialize (Hg Hf). congruence.
  - eapply Forall_impl; [exact Hout|]. intros g Hg. by apply sent_ok_write.
Qed.

Lemma sender_end_input_wf W s : wf W s -> wf W (set_stream (ByteStream.end_input (stream s)) s).
Proof.
  intros []. constructor; cbn; try done; [by destruct wf_stream0|].
  intros He. specialize (wf_eof0 He). unfold ByteStream.eof in *.
  by apply andb_true_iff in wf_eof0 as [_ ?].
Qed.

Lemma set_error_wf W s : wf W s -> wf W (set_stream (ByteStream.set_error (stream s)) s).
Proof. intros []. constructor; cbn; try done; by destruct wf_stream0. Qed.

Lemma drain_wf W s p q : wf W s -> segments_out s = p ++ q -> wf W (set_segments_out q s).
Proof.
  intros [] E. constructor; cbn; try done. rewrite E in wf_out0. by apply Forall_app in wf_out0 as [_ ?].
Qed.

Lemma send_empty_wf W s : wf W s -> wf W (send_empty_segment s).
Proof.
  intros H. pose proof (wf_received _ _ H). destruct H. constructor; cbn; try done.
  apply Forall_app. split; [done|]. apply Forall_singleton. right. split; [done|].
  exists (byte_sent s). cbn. split; [lia|done].
Qed.

(** ** Acknowledgements *)

Lemma accept_ack_wf W s k :
  wf W s -> byte_received s < k <= byte_sent s ->
  wf W (accept_ack k s) /\ byte_received (accept_ack k s) = k /\
  byte_sent (accept_ack k s) = byte_sent s /\ isn (accept_ack k s) = isn s /\
  window_size (accept_ack k s) = window_size s /\
  segments_out (accept_ack k s) = segments_out s /\
  exists p u u', unacked s = p ++ unacked (accept_ack k s) /\ 0 <= u <= u' /\ u' <= k /\
    tiles W (isn s) u p u' /\
    tiles W (isn s) u' (unacked (accept_ack k s)) (byte_sent s) /\
    match unacked (accept_ack k s) with [] => True | seg :: _ => k < u' + len seg end.
Proof.
  intros H Hk. pose proof (wf_sent_bound _ _ H). pose proof (wf_size _ _ H).
  destruct (wf_unacked _ _ H) as (u & Hu & Ht & Hm). pose proof (wf_flight _ _ H).
  assert (Hnear : byte_sent s - u < 2147483648).
  { destruct (unacked s) as [|g q]; cbn in Ht; [lia|].
    pose proof (carries_len _ _ _ _ (proj1 Ht)). lia. }
  destruct (pop_acked_spec W (isn s) (unacked s) u k (byte_sent s))
    as (p & u' & E & Hu' & Hp & Hq & Hm'); try done; try lia.
  set (q := pop_acked (isn s) k (unacked s)) in *.
  assert (Ea : accept_ack k s = set_timer
    (if decide (q = []) then rto_reset (initial_retransmission_timeout s) (sendtimer s)
     else start (time s) (rto_reset (initial_retransmission_timeout s) (sendtimer s)))
    (set_acked k q (set_retrans 0 s))).
  { unfold accept_ack. cbn. fold q. destruct q; by cbn. }
  rewrite Ea. cbn. split_and!; try done; [|by exists p, u, u'; split_and!; try done; lia].
  destruct H. constructor; cbn; try done; try lia.
  - exists u'. split; [lia|]. done.
  - case_decide; split; try done.
  - case_decide; cbn; rewrite u64_id; lia.
Qed.

(** The four outcomes of [ack_received]. *)
Lemma ack_received_spec W s ackno w :
  wf W s -> 0 <= w < 65536 ->
  let k := unwrap ackno (isn s) (byte_received s) in
  let s1 := set_window_size w s in
  ack_received ackno w s =
    (if byte_sent s <? k then (false, s1)
     else if k <? byte_received s then (true, s1)
     else (true, fill_window (if k =? byte_received s then s1 else accept_ack k s1))) /\
  wf W (snd (ack_received ackno w s)).
Proof.
  intros H Hw k s1. assert (H1 : wf W s1) by (by apply set_window_wf).
  assert (E : ack_received ackno w s =
    (if byte_sent s <? k then (false, s1)
     else if k <? byte_received s then (true, s1)
     else (true, fill_window (if k =? byte_received s then s1 else accept_ack k s1)))).
  { unfold ack_received. cbn [byte_sent byte_received set_window_size]. fold k s1.
    by destruct (k =? byte_received s). }
  split; [done|]. rewrite E. case_Z; [done|]. case_Z; [done|]. cbn [snd].
  apply fill_window_spec. case_Z; [done|]. apply accept_ack_wf; [done|]. cbn. lia.
Qed.

(** ** Time *)

Lemma tick_spec W s ms :
  wf W s -> consecutive_retrans_v s < 4294967295 ->
  let now := u64 (time s + ms) in
  let due := active (sendtimer s) && (rto (sendtimer s) <=? u64 (now - start_time (sendtimer s))) in
  exists s', tick ms s = Ok s' /\ wf W s' /\ time s' = now /\
    unacked s' = unacked s /\ byte_sent s' = byte_sent s /\ byte_received s' = byte_received s /\
    isn s' = isn s /\
    segments_out s' = segments_out s ++ (if due then take 1 (unacked s) else []) /\
    consecutive_retrans_v s' = consecutive_retrans_v s + b2z due /\
    (due = true -> start_time (sendtimer s') = now).
Proof.
  intros H Hc now due. unfold tick, timeout. cbv zeta.
  cbn [sendtimer set_time time set_timer update_time active rto current_time start_time].
  fold now. subst due.
  destruct (active (sendtimer s)) eqn:Ha; cbn [andb].
  2:{ eexists. split; [reflexivity|]. cbn. rewrite app_nil_r, Z.add_0_r.
      split_and!; try done. destruct H. constructor; cbn; try done. }
  case_Z; cycle 1.
  { eexists. split; [reflexivity|]. cbn. rewrite app_nil_r, Z.add_0_r.
    split_and!; try done. destruct H. constructor; cbn; try done. }
  pose proof (proj1 (wf_timer _ _ H) Ha) as Hne. cbn [unacked set_time set_timer].
  destruct (unacked s) as [|g q] eqn:Eq; [done|].
  pose proof (wf_retrans _ _ H) as Hr. eexists. split; [reflexivity|].
  cbn [set_segments_out set_retrans set_timer set_time segments_out consecutive_retrans_v time
    unacked byte_sent byte_received isn sendtimer start rto_double start_time].
  rewrite u32_id by lia. split_and!; try done.
  pose proof H as [? ? ? ? ? ? ? ? ? ? (u & Hu & Ht & Hm) Hout Htim Hid ? ? Hrto].
  constructor; cbn [set_segments_out set_retrans set_timer set_time segments_out
    consecutive_retrans_v time unacked byte_sent byte_received isn sendtimer start rto_double
    start_time stream eof window_size initial_retransmission_timeout active rto update_time];
    try done.
  - rewrite Eq. exists u. rewrite Eq in Ht, Hm. done.
  - apply Forall_app. split; [done|]. apply Forall_singleton. left. exists u.
    rewrite Eq in Ht. cbn in Ht. destruct Ht as [Hcg Ht]. split; [done|].
    cbn. by apply tiles_le in Ht.
  - split; [|done]. intros _. by rewrite Eq.
  - intros Hx. by rewrite Eq in Hx.
  - lia.
  - rewrite Hrto. rewrite Z.pow_add_r by lia. unfold u64.
    rewrite Zmult_mod_idemp_l. f_equal. change (2 ^ 1) with 2. ring.
Qed.

(** What a tick leaves alone: all but the clock, the timer, the count and the queue; and the
    timer too when it is not due. *)
Lemma tick_leaves s s' ms :
  tick ms s = Ok s' ->
  byte_received s' = byte_received s /\ stream s' = stream s /\ eof s' = eof s /\
  window_size s' = window_size s /\ isn s' = isn s /\
  initial_retransmission_timeout s' = initial_retransmission_timeout s /\
  active (sendtimer s') = active (sendtimer s) /\
  (active (sendtimer s) &&
     (rto (sendtimer s) <=? u64 (u64 (time s + ms) - start_time (sendtimer s))) = false ->
   start_time (sendtimer s') = start_time (sendtimer s) /\ rto (sendtimer s') = rto (sendtimer s)).
Proof.
  unfold tick, timeout. cbv zeta.
  cbn [sendtimer set_time time set_timer update_time active rto current_time start_time].
  destruct (active (sendtimer s)) eqn:Ha; cbn [andb]; [|by intros [= <-]].
  destruct (_ <=? _); [|by intros [= <-]]. cbn [unacked set_time set_timer].
  destruct (unacked s); [done|]. by intros [= <-].
Qed.

(** ** Runs of a sender

    The state of a run: what the application has written, the segments handed to
    the network, and the sender. *)

Inductive step : bytes * list TCPSegment * TCPSender -> bytes * list TCPSegment * TCPSender -> Prop :=
| step_write W log s data n b :
    ByteStream.bs_end (stream s) = false -> size W + size data < 4611686018427387904 ->
    ByteStream.write data (stream s) = (n, b) ->
    step (W, log, s) (W ++ substr0 data n, log, set_stream b s)
| step_end W log s :
    step (W, log, s) (W, log, set_stream (ByteStream.end_input (stream s)) s)
| step_error W log s :
    step (W, log, s) (W, log, set_stream (ByteStream.set_error (stream s)) s)
| step_fill W log s :
    step (W, log, s) (W, log, fill_window s)
| step_ack W log s ackno w r s' :
    0 <= w < 65536 -> ack_received ackno w s = (r, s') ->
    step (W, log, s) (W, log, s')
| step_tick W log s ms s' :
    consecutive_retrans_v s < 4294967295 -> tick ms s = Ok s' ->
    step (W, log, s) (W, log, s')
| step_empty W log s :
    step (W, log, s) (W, log, send_empty_segment s)
| step_transmit W log s p q :
    segments_out s = p ++ q ->
    step (W, log, s) (W, log ++ p, set_segments_out q s).

Definition run_ok (st : bytes * list TCPSegment * TCPSender) : Prop :=
  let '(W, log, s) := st in wf W s /\ Forall (sent_ok W s) log.

Lemma step_ok st st' : run_ok st -> step st st' -> run_ok st'.
Proof.
  intros Hok Hs. destruct Hs as [W log s data n b He Hb Ew|W log s|W log s|W log s
    |W log s ackno w r s' Hw Ea|W log s ms s' Hc Et|W log s|W log s p q E]; destruct Hok as [H Hl].
  - pose proof (sender_write_wf W s data H He Hb) as Hwf. rewrite Ew in Hwf. split; [done|].
    eapply Forall_impl; [done|]. intros g Hg. by apply sent_ok_write.
  - split; [by apply sender_end_input_wf|done].
  - split; [by apply set_error_wf|done].
  - destruct (fill_window_spec W s H) as (Hwf & _ & _ & Ei & _ & _ & new & _ & _ & Ht & _).
    split; [done|]. eapply Forall_impl; [done|]. intros g Hg.
    eapply sent_ok_grow; [done|done|]. by apply tiles_le in Ht.
  - pose proof (ack_received_spec W s ackno w H Hw) as [E Hwf]. rewrite Ea in Hwf. split; [done|].
    eapply Forall_impl; [done|]. intros g Hg. rewrite Ea in E.
    assert (isn s' = isn s /\ byte_sent s <= byte_sent s') as [Ei Eb];
      [|eapply sent_ok_grow; done].
    revert E. case_Z; [intros [= -> ->]; done|]. case_Z; [intros [= -> ->]; done|].
    intros [= -> ->]. assert (Hs1 : wf W (set_window_size w s)) by (by apply set_window_wf).
    case_Z.
    + destruct (fill_window_spec W _ Hs1) as (_ & _ & _ & Ei & _ & _ & new & _ & _ & Ht & _).
      split; [done|]. by apply tiles_le in Ht.
    + destruct (accept_ack_wf W _ (unwrap ackno (isn s) (byte_received s)) Hs1)
        as (Hs2 & _ & Eb & Ei & _); [cbn; lia|].
      destruct (fill_window_spec W _ Hs2) as (_ & _ & _ & Ei' & _ & _ & new & _ & _ & Ht & _).
      split; [by rewrite Ei', Ei|]. apply tiles_le in Ht. rewrite Eb in Ht. exact Ht.
  - destruct (tick_spec W s ms H Hc) as (s1 & E & Hwf & _ & _ & Eb & _ & Ei & _).
    rewrite Et in E. injection E as ->. split; [done|].
    eapply Forall_impl; [done|]. intros g Hg. eapply sent_ok_grow; [done|done|lia].
  - split; [by apply send_empty_wf|]. done.
  - split; [by eapply drain_wf|]. apply Forall_app. split; [done|].
    pose proof (wf_out _ _ H) as Ho. rewrite E in Ho. by apply Forall_app in Ho as [Ho _].
Qed.

Lemma sender_run_reaches c t i random W log s :
  0 <= c < M64 -> 0 <= t < 65536 ->
  rtc step ([], [], construct c t i random) (W, log, s) -> run_ok (W, log, s).
Proof.
  intros Hc Ht. generalize (W, log, s). apply rtc_ind_r.
  - split; [by apply sender_construct_wf|done].
  - intros st st' _ Hs Hok. by eapply step_ok.
Qed.

Section Claims.
(** A reachable state of a sender with capacity [c] and timeout [t]. *)
Context (c t : Z) (i : option WrappingInt32) (random : Z).
Context (Hc : 0 <= c < M64) (Ht : 0 <= t < 65536).
Context (W : bytes) (log : list TCPSegment) (s : TCPSender).
Context (Hrun : rtc step ([], [], construct c t i random) (W, log, s)).

(** C15: every segment handed to the network, first transmission or
    retransmission, is either an empty one or a correct excerpt of what the
    application wrote: it has the sequence number of its first byte, the bytes
    of the stream at that position (at most [MAX_PAYLOAD_SIZE]), the SYN flag
    exactly at the start, and the FIN flag only after the last byte written. *)
Theorem sent_segments_carry_stream :
  Forall (fun seg => len seg = 0 \/
    exists a, carries W (isn s) a seg /\ a + len seg <= byte_sent s) log.
Proof using All.
  destruct (sender_run_reaches c t i random W log s Hc Ht Hrun) as [_ Hl].
  eapply Forall_impl; [exact Hl|]. intros seg [H|[H _]]; [by right|by left].
Qed.

(** C16: the bookkeeping of outstanding data.  The acknowledged numbers are at
    most the sent ones, at most 65535 numbers are in flight, the queue of
    unacknowledged segments covers the numbers in flight without gap or
    overlap, its first segment holding the first unacknowledged number; the
    timer runs exactly while something is outstanding, its timeout is the
    initial one doubled once per consecutive retransmission, and so [tick]
    never takes the front of an empty queue. *)
Theorem outstanding_consistent :
  0 <= byte_received s <= byte_sent s /\
  bytes_in_flight s = byte_sent s - byte_received s /\ bytes_in_flight s <= 65535 /\
  (exists u, u <= byte_received s /\ tiles W (isn s) u (unacked s) (byte_sent s) /\
     match unacked s with
     | [] => byte_received s = byte_sent s
     | seg :: _ => byte_received s < u + len seg
     end) /\
  (active (sendtimer s) = true <-> bytes_in_flight s <> 0) /\
  rto (sendtimer s) = u64 (initial_retransmission_timeout s * 2 ^ consecutive_retrans_v s) /\
  (forall ms e, tick ms s = Throw e -> consecutive_retrans_v s = 4294967295).
Proof using All.
  destruct (sender_run_reaches c t i random W log s Hc Ht Hrun) as [H _].
  pose proof (wf_received _ _ H). pose proof (wf_flight _ _ H). pose proof (flight_eq _ _ H) as Hf.
  destruct (wf_unacked _ _ H) as (u & Hu & Htl & Hm).
  split; [done|]. split; [done|]. split; [lia|]. split.
  { exists u. split; [lia|]. split; [done|]. destruct (unacked s); [cbn in Htl; lia|done]. }
  split; [|split; [apply H|]].
  - rewrite (wf_timer _ _ H), Hf. destruct (unacked s) as [|g q]; cbn in Htl.
    + split; [done|lia].
    + destruct Htl as [_ Hle%tiles_le]. split; [lia|done].
  - intros ms e Et. pose proof (wf_retrans _ _ H).
    destruct (Z.eq_dec (consecutive_retrans_v s) 4294967295); [done|].
    destruct (tick_spec W s ms H) as (s' & E & _); [lia|]. congruence.
Qed.

(** C17: [fill_window] terminates and does all it can.  However deep the
    recursion is allowed to go beyond the bound, the result is the same, and
    calling it again changes nothing.  The segments it adds start where the
    previous ones ended, never exceed the window (a closed window counts as
    one), and it stops only because the FIN is out, the window is full, or the
    stream has nothing to send. *)
Theorem fill_window_fills :
  let s' := fill_window s in
  (forall fuel, fill_loop (fill_fuel s + fuel) s = s') /\ fill_window s' = s' /\
  (exists new, unacked s' = unacked s ++ new /\ segments_out s' = segments_out s ++ new /\
     tiles W (isn s) (byte_sent s) new (byte_sent s') /\
     (new <> [] -> byte_sent s' - byte_received s' <= Z.max 1 (window_size s))) /\
  (fin_sent s' = true \/ Z.max 1 (window_size s) <= byte_sent s' - byte_received s' \/
   (ByteStream.buffer_empty (stream s') = true /\ ByteStream.eof (stream s') = false)).
Proof using All.
  destruct (sender_run_reaches c t i random W log s Hc Ht Hrun) as [H _].
  destruct (fill_window_spec W s H) as (_ & Hfull & Hfix & _ & Ew & Er & Hnew).
  cbv zeta. split; [|split; [|split; [exact Hnew|]]].
  - intros fuel. exact (fill_loop_more _ fuel s Hfix).
  - exact (fill_loop_fix _ (fill_window s) Hfix).
  - unfold full, win, fin_sent in *. rewrite Ew, Er in Hfull. rewrite Er.
    destruct Hfull as [?|[?|[_ ?]]]; tauto.
Qed.

(** C18: acknowledgements.  A number beyond what was sent is refused; one
    below what is already acknowledged is accepted and ignored; the same number
    again only refills the window; and a new number is recorded, drops exactly
    the segments that end at or before it, resets the timeout and the count of
    retransmissions, starts the timer at the current time if something is left and stops it
    otherwise, and then fills the window.  In all four
    cases the advertised window is adopted, even from a refused one. *)
Theorem ack_received_correct ackno w :
  0 <= w < 65536 ->
  let k := unwrap ackno (isn s) (byte_received s) in
  let s1 := set_window_size w s in
  let '(ok, s') := ack_received ackno w s in
  window_size s' = w /\
  (byte_sent s < k -> ok = false /\ s' = s1) /\
  (k < byte_received s -> ok = true /\ s' = s1) /\
  (k = byte_received s -> ok = true /\ s' = fill_window s1) /\
  (byte_received s < k <= byte_sent s ->
     ok = true /\ byte_received s' = k /\
     exists s2 p u, s' = fill_window s2 /\ unacked s = p ++ unacked s2 /\ u <= k /\
       tiles W (isn s) u (unacked s2) (byte_sent s) /\
       match unacked s2 with [] => u = k | seg :: _ => k < u + len seg end /\
       rto (sendtimer s2) = initial_retransmission_timeout s /\
       consecutive_retrans_v s2 = 0 /\
       active (sendtimer s2) = negb (size (unacked s2) =? 0) /\
       (unacked s2 <> [] ->
          start_time (sendtimer s2) = time s /\ current_time (sendtimer s2) = time s) /\
       time s2 = time s /\ stream s2 = stream s /\ eof s2 = eof s /\
       segments_out s2 = segments_out s /\ byte_sent s2 = byte_sent s /\
       byte_received s2 = k /\ window_size s2 = w).
Proof using All.
  intros Hw. cbv zeta. destruct (sender_run_reaches c t i random W log s Hc Ht Hrun) as [H _].
  destruct (ack_received_spec W s ackno w H Hw) as [E _]. cbv zeta in E. rewrite E.
  set (k := unwrap _ _ _) in *. set (s1 := set_window_size w s) in *.
  assert (Hs1 : wf W s1) by (by apply set_window_wf). pose proof (wf_received _ _ H).
  case_Z; [split; [done|]; split_and!; intros; done || lia|].
  case_Z; [split; [done|]; split_and!; intros; done || lia|].
  case_Z.
  { destruct (fill_window_spec W s1 Hs1) as (_ & _ & _ & _ & Ew & _).
    split; [by rewrite Ew|]. split_and!; intros; done || lia. }
  destruct (accept_ack_wf W s1 k Hs1) as (Hs2 & Er & Es & Ei & Ew & _ & p & u & u' & Ep & Hu & Hu' & Hp & Hq & Hm);
    [cbn; lia|].
  destruct (fill_window_spec W _ Hs2) as (_ & _ & _ & _ & Ew' & Er' & _).
  split; [by rewrite Ew', Ew|]. do 3 (split; [lia|]). intros _.
  split; [done|]. split; [by rewrite Er'|].
  exists (accept_ack k s1), p, u'. split; [done|]. split; [done|]. split; [lia|].
  split; [done|]. split.
  { destruct (unacked (accept_ack k s1)) as [|g q]; [|done]. cbn in Hq. lia. }
  unfold accept_ack. cbn. by destruct (pop_acked _ _ _).
Qed.

(** C19: time.  [tick] always advances the clock; when the timer runs and at least
    the timeout has passed since it was started, exactly the oldest outstanding
    segment is sent again, unchanged, the timeout doubles, to the initial one times two to
    the number of retransmissions, and the timer
    restarts at the new time; otherwise nothing is sent and the timer goes on as it was.  Nothing
    else changes. *)
Theorem tick_retransmits_oldest ms :
  consecutive_retrans_v s < 4294967295 ->
  let now := u64 (time s + ms) in
  let elapsed := u64 (now - start_time (sendtimer s)) in
  exists s', tick ms s = Ok s' /\ unacked s' = unacked s /\ byte_sent s' = byte_sent s /\
    time s' = now /\ byte_received s' = byte_received s /\ stream s' = stream s /\
    eof s' = eof s /\ window_size s' = window_size s /\ isn s' = isn s /\
    initial_retransmission_timeout s' = initial_retransmission_timeout s /\
    active (sendtimer s') = active (sendtimer s) /\
    (active (sendtimer s) = true -> rto (sendtimer s) <= elapsed ->
       exists seg q, unacked s = seg :: q /\ segments_out s' = segments_out s ++ [seg] /\
         consecutive_retrans_v s' = consecutive_retrans_v s + 1 /\
         rto (sendtimer s') = u64 (initial_retransmission_timeout s' *
                                   2 ^ (consecutive_retrans_v s + 1)) /\
         start_time (sendtimer s') = now) /\
    (active (sendtimer s) = false \/ elapsed < rto (sendtimer s) ->
       segments_out s' = segments_out s /\
       consecutive_retrans_v s' = consecutive_retrans_v s /\
       start_time (sendtimer s') = start_time (sendtimer s) /\
       rto (sendtimer s') = rto (sendtimer s)).
Proof using All.
  intros Hk. cbv zeta. destruct (sender_run_reaches c t i random W log s Hc Ht Hrun) as [H _].
  destruct (tick_spec W s ms H Hk) as (s' & E & H' & En & Eu & Eb & _ & _ & Eo & Ek & Est).
  destruct (tick_leaves s s' ms E) as (F1 & F2 & F3 & F4 & F5 & F6 & F7 & Fi).
  exists s'. do 11 (split; [done|]). split.
  - intros Ha Hle. rewrite Ha in Eo, Ek, Est. cbn [andb] in *.
    apply Z.leb_le in Hle. rewrite Hle in Eo, Ek, Est. cbn [b2z] in Ek.
    pose proof (proj1 (wf_timer _ _ H) Ha) as Hne.
    destruct (unacked s) as [|seg q]; [done|]. exists seg, q. split_and!; try done.
    + rewrite (wf_rto _ _ H'), Ek. done.
    + by apply Est.
  - intros Hno.
    assert (active (sendtimer s) && (rto (sendtimer s) <=? u64 (u64 (time s + ms)
      - start_time (sendtimer s))) = false) as Hd.
    { destruct Hno as [->|Hlt]; [done|]. apply andb_false_iff. right. by apply Z.leb_gt. }
    rewrite Hd in Eo, Ek. cbn [b2z] in Ek. rewrite Eo, Ek, app_nil_r, Z.add_0_r.
    do 2 (split; [done|]). by apply Fi.
Qed.
End Claims.

(** ** A run: the SYN is sent and acknowledged near the wrap-around of the
    sequence numbers, two bytes are written and sent. *)

Definition sample_isn : WrappingInt32 := mkWrappingInt32 4294967295.
Definition sample_start : TCPSender := construct 100 1000 (Some sample_isn) 0.
Definition sample_syn : TCPSender := fill_window sample_start.
Definition sample_sent : TCPSender := set_segments_out [] sample_syn.
Definition sample_open : TCPSender := snd (ack_received (mkWrappingInt32 0) 10 sample_sent).
Definition sample_data : bytes := [Byte.x61; Byte.x62].
Definition sample_written : TCPSender :=
  set_stream (snd (ByteStream.write sample_data (stream sample_open))) sample_open.
Definition sample_full : TCPSender := fill_window sample_written.

Lemma sender_sample_run :
  rtc step ([], [], sample_start) ([], segments_out sample_syn, sample_open).
Proof.
  eapply rtc_l; [apply step_fill|].
  eapply rtc_l; [by apply (step_transmit [] [] sample_syn (segments_out sample_syn) []); rewrite app_nil_r|].
  apply rtc_once. eapply (step_ack [] _ sample_sent (mkWrappingInt32 0) 10 true); [lia|].
  vm_compute. reflexivity.
Qed.

Lemma sample_run_full :
  rtc step ([], [], sample_start) (sample_data, segments_out sample_syn, sample_full).
Proof.
  eapply rtc_r; [|apply step_fill]. eapply rtc_r; [apply sender_sample_run|].
  eapply (step_write [] _ sample_open sample_data 2); vm_compute; reflexivity.
Qed.

Lemma sent_segments_carry_stream_witness :
  exists seg, segments_out sample_syn = [seg] /\
  exists a, carries sample_data (isn sample_full) a seg.
Proof.
  destruct (segments_out sample_syn) as [|seg [|]] eqn:E; try (vm_compute in E; congruence).
  exists seg. split; [reflexivity|].
  pose proof (sent_segments_carry_stream 100 1000 (Some sample_isn) 0 ltac:(lia) ltac:(lia)
    sample_data (segments_out sample_syn) sample_full sample_run_full) as H.
  rewrite E in H. apply Forall_cons in H as [[H|(a & H & _)] _].
  - vm_compute in E. injection E as <-. vm_compute in H. discriminate H.
  - exists a. exact H.
Defined.

Lemma outstanding_consistent_witness :
  bytes_in_flight sample_full = 2 /\ active (sendtimer sample_full) = true.
Proof.
  split; [vm_compute; reflexivity|].
  destruct (outstanding_consistent 100 1000 (Some sample_isn) 0 ltac:(lia) ltac:(lia)
    sample_data (segments_out sample_syn) sample_full sample_run_full) as (_ & _ & _ & _ & H & _).
  apply H. vm_compute. congruence.
Defined.

Lemma fill_window_fills_witness :
  fill_window (fill_window sample_open) = fill_window sample_open.
Proof.
  destruct (fill_window_fills 100 1000 (Some sample_isn) 0 ltac:(lia) ltac:(lia)
    [] (segments_out sample_syn) sample_open sender_sample_run) as (_ & H & _).
  exact H.
Defined.

Lemma ack_received_correct_witness :
  let '(ok, s') := ack_received (mkWrappingInt32 2) 5 sample_full in
  window_size s' = 5 /\ ok = true /\ byte_received s' = 3.
Proof.
  pose proof (ack_received_correct 100 1000 (Some sample_isn) 0 ltac:(lia) ltac:(lia)
    sample_data (segments_out sample_syn) sample_full sample_run_full (mkWrappingInt32 2) 5
    ltac:(lia)) as H. cbv zeta in H.
  destruct (ack_received (mkWrappingInt32 2) 5 sample_full) as [ok s'].
  destruct H as (H1 & _ & _ & _ & H2). split; [exact H1|].
  destruct H2 as (H2 & H3 & _); [vm_compute; intuition congruence|].
  split; [exact H2|]. rewrite H3. vm_compute. reflexivity.
Defined.

Lemma tick_retransmits_oldest_witness :
  exists s' seg q, tick 1000 sample_full = Ok s' /\ unacked sample_full = seg :: q /\
    segments_out s' = segments_out sample_full ++ [seg].
Proof.
  destruct (tick_retransmits_oldest 100 1000 (Some sample_isn) 0 ltac:(lia) ltac:(lia)
    sample_data (segments_out sample_syn) sample_full sample_run_full 1000)
    as (s' & H1 & _ & _ & _ & _ & _ & _ & _ & _ & _ & _ & H2 & _); [vm_compute; reflexivity|].
  destruct H2 as (seg & q & H2 & H3 & _); [vm_compute; reflexivity|vm_compute; congruence|].
  exists s', seg, q. split; [exact H1|]. split; [exact H2|exact H3].
Defined.
