(* ===== verification/TCPState.v ===== *)
(** Summaries of a connection's state: [libsponge/tcp_helpers/tcp_state.hh] and
    [tcp_state.cc].  The official state names of the specification are
    described by what they say of the sender and of the receiver. *)
From S2P Require Import Prelude.
From S2P Require ByteStream TCPReceiver TCPSender.

(** [namespace TCPReceiverStateSummary] *)
Definition R_ERROR : string := "error (connection was reset)".
Definition R_LISTEN : string := "waiting for SYN: ackno is empty".
Definition R_SYN_RECV : string :=
  "SYN received (ackno exists), and input to stream hasn't ended".
Definition R_FIN_RECV : string := "input to stream has ended".

(** [namespace TCPSenderStateSummary] *)
Definition S_ERROR : string := "error (connection was reset)".
Definition S_CLOSED : string := "waiting for stream to begin (no SYN sent)".
Definition S_SYN_SENT : string := "stream started but nothing acknowledged".
Definition S_SYN_ACKED : string := "stream ongoing".
Definition S_FIN_SENT : string := "stream finished (FIN sent) but not fully acknowledged".
Definition S_FIN_ACKED : string := "stream finished and fully acknowledged".

(** [class TCPState] *)
Record TCPState := mkTCPState {
  sender : string;
  receiver : string;
  active : bool;
  linger_after_streams_finish : bool
}.

(** [operator==] *)
Definition eqb (a b : TCPState) : bool :=
  Bool.eqb (active a) (active b) &&
  Bool.eqb (linger_after_streams_finish a) (linger_after_streams_finish b) &&
  String.eqb (sender a) (sender b) && String.eqb (receiver a) (receiver b).

(** [enum class State] *)
Inductive State :=
  | LISTEN | SYN_RCVD | SYN_SENT | ESTABLISHED | CLOSE_WAIT | LAST_ACK
  | FIN_WAIT_1 | FIN_WAIT_2 | CLOSING | TIME_WAIT | CLOSED | RESET.

(** The constructor from an official state. *)
Definition of_state (state : State) : TCPState :=
  match state with
  | LISTEN => mkTCPState S_CLOSED R_LISTEN true true
  | SYN_RCVD => mkTCPState S_SYN_SENT R_SYN_RECV true true
  | SYN_SENT => mkTCPState S_SYN_SENT R_LISTEN true true
  | ESTABLISHED => mkTCPState S_SYN_ACKED R_SYN_RECV true true
  | CLOSE_WAIT => mkTCPState S_SYN_ACKED R_FIN_RECV true false
  | LAST_ACK => mkTCPState S_FIN_SENT R_FIN_RECV true false
  | CLOSING => mkTCPState S_FIN_SENT R_FIN_RECV true true
  | FIN_WAIT_1 => mkTCPState S_FIN_SENT R_SYN_RECV true true
  | FIN_WAIT_2 => mkTCPState S_FIN_ACKED R_SYN_RECV true true
  | TIME_WAIT => mkTCPState S_FIN_ACKED R_FIN_RECV true true
  | RESET => mkTCPState S_ERROR R_ERROR false false
  | CLOSED => mkTCPState S_FIN_ACKED R_FIN_RECV false false
  end.

(** [std::to_string(bool)], through the promotion to [int]. *)
Definition show_bool (b : bool) : string := if b then "1" else "0".

Definition name (s : TCPState) : string :=
  ("sender=`" +:+ sender s +:+ "`, receiver=`" +:+ receiver s +:+ "`, active=" +:+
   show_bool (active s) +:+ ", linger_after_streams_finish=" +:+
   show_bool (linger_after_streams_finish s))%string.

(** [state_summary(const TCPReceiver &)] *)
Definition receiver_summary (r : TCPReceiver.TCPReceiver) : string :=
  if ByteStream.error (TCPReceiver.stream_out r) then R_ERROR
  else if negb (bool_decide (is_Some (TCPReceiver.ackno r))) then R_LISTEN
  else if ByteStream.input_ended (TCPReceiver.stream_out r) then R_FIN_RECV
  else R_SYN_RECV.

(** [state_summary(const TCPSender &)] *)
Definition sender_summary (s : TCPSender.TCPSender) : string :=
  if ByteStream.error (TCPSender.stream_in s) then S_ERROR
  else if TCPSender.next_seqno_absolute s =? 0 then S_CLOSED
  else if TCPSender.next_seqno_absolute s =? TCPSender.bytes_in_flight s then S_SYN_SENT
  else if negb (ByteStream.eof (TCPSender.stream_in s)) then S_SYN_ACKED
  else if TCPSender.next_seqno_absolute s <?
          u64 (ByteStream.bytes_written (TCPSender.stream_in s) + 2) then S_SYN_ACKED
  else if negb (TCPSender.bytes_in_flight s =? 0) then S_FIN_SENT
  else S_FIN_ACKED.

(** The constructor from a sender, a receiver and the connection's two flags. *)
Definition summarize (s : TCPSender.TCPSender) (r : TCPReceiver.TCPReceiver)
    (is_active linger : bool) : TCPState :=
  mkTCPState (sender_summary s) (receiver_summary r) is_active
    (if is_active then linger else false).

Lemma eqb_eq a b : eqb a b = true <-> a = b.
Proof.
  destruct a, b. unfold eqb. cbn. rewrite !andb_true_iff, !Bool.eqb_true_iff, !String.eqb_eq.
  split; [by intros (((-> & ->) & ->) & ->)|by intros [= -> -> -> ->]].
Qed.

(** The summary a test compares against tells the official states apart:
    two of them have equal descriptions only when they are the same state. *)
Theorem official_states_distinct a b : eqb (of_state a) (of_state b) = true <-> a = b.
Proof. destruct a, b; vm_compute; split; congruence. Qed.

(** The sender's summary, read on the invariant of the sender: it names the
    phase of the outgoing stream. *)
Definition phase (W : bytes) (s : TCPSender.TCPSender) : string :=
  if ByteStream.error (TCPSender.stream s) then S_ERROR
  else if TCPSender.byte_sent s =? 0 then S_CLOSED
  else if TCPSender.byte_received s =? 0 then S_SYN_SENT
  else if negb (TCPSender.eof s) then S_SYN_ACKED
  else if TCPSender.byte_received s <? size W + 2 then S_FIN_SENT
  else S_FIN_ACKED.

(** In every reachable state of a sender, the summary of [state_summary] is
    the phase of the connection as the protocol sees it: nothing sent, SYN not
    yet acknowledged, data phase until the FIN is sent, FIN sent until all of
    the stream and the FIN are acknowledged, and everything acknowledged. *)
Theorem sender_summary_phase c t i random W log s :
  0 <= c < M64 -> 0 <= t < 65536 ->
  rtc TCPSender.step ([], [], TCPSender.construct c t i random) (W, log, s) ->
  sender_summary s = phase W s.
Proof.
  intros Hc Ht Hrun. destruct (TCPSender.sender_run_reaches c t i random W log s Hc Ht Hrun) as [H _].
  pose proof (TCPSender.flight_eq _ _ H) as Hf. pose proof (TCPSender.wf_received _ _ H) as Hr.
  pose proof (TCPSender.wf_sent_bound _ _ H) as Hb. pose proof (TCPSender.wf_size _ _ H).
  pose proof (ByteStream.wf_account _ (TCPSender.wf_stream _ _ H)) as Ha.
  pose proof (ByteStream.wf_read _ (TCPSender.wf_stream _ _ H)) as Hr0.
  pose proof (TCPSender.wf_read _ _ H) as Hrd.
  assert (Hw : ByteStream.alwritten (TCPSender.stream s) = size W).
  { rewrite Ha, (TCPSender.wf_content _ _ H), size_drop by lia. rewrite u64_id; lia. }
  unfold sender_summary, phase, TCPSender.stream_in, TCPSender.next_seqno_absolute.
  unfold ByteStream.bytes_written. rewrite Hf, Hw, u64_id by size_lia.
  destruct (ByteStream.error _); [done|].
  destruct (Z.eqb_spec (TCPSender.byte_sent s) 0) as [|Hne]; [done|].
  pose proof (TCPSender.wf_sent _ _ H Hne) as Hs.
  destruct (Z.eqb_spec (TCPSender.byte_sent s) (TCPSender.byte_sent s - TCPSender.byte_received s))
    as [E|E]; destruct (Z.eqb_spec (TCPSender.byte_received s) 0) as [E'|E']; try lia; [done|].
  destruct (TCPSender.eof s) eqn:He.
  - rewrite (TCPSender.wf_eof _ _ H He). cbn [negb TCPSender.b2z] in *.
    pose proof (TCPSender.wf_eof _ _ H He) as Heof. unfold ByteStream.eof, ByteStream.buffer_empty in Heof.
    apply andb_true_iff in Heof as [_ Hz%Z.eqb_eq].
    rewrite (TCPSender.wf_content _ _ H), size_drop in Hz by lia.
    destruct (Z.ltb_spec (TCPSender.byte_sent s) (size W + 2)); [lia|].
    destruct (Z.eqb_spec (TCPSender.byte_sent s - TCPSender.byte_received s) 0);
      destruct (Z.ltb_spec (TCPSender.byte_received s) (size W + 2)); cbn; done || lia.
  - cbn [TCPSender.b2z negb] in *. destruct (negb _); [done|].
    by destruct (Z.ltb_spec (TCPSender.byte_sent s) (size W + 2)); [|lia].
Qed.

Lemma sender_summary_phase_witness :
  sender_summary TCPSender.sample_full = phase TCPSender.sample_data TCPSender.sample_full.
Proof.
  apply (sender_summary_phase 100 1000 (Some TCPSender.sample_isn) 0 TCPSender.sample_data
    (TCPSender.segments_out TCPSender.sample_syn) TCPSender.sample_full); [lia|lia|].
  exact TCPSender.sample_run_full.
Defined.
