(* ===== verification/TCPConnection.v ===== *)
(** An endpoint of a connection: [libsponge/tcp_connection.hh] and
    [tcp_connection.cc], which join a sender and a receiver. *)
From S2P Require Import Prelude WrappingIntegers.
From S2P Require Buffer ByteStream StreamReassembler TCPSegment TCPHeader TCPReceiver TCPSender TCPState.
Import TCPSegment(TCPSegment).

(** [class TCPConnection], without the member [_active], which nothing uses. *)
Record TCPConnection := mkConnection {
  cfg : TCPSender.TCPConfig;
  receiver : TCPReceiver.TCPReceiver;
  sender : TCPSender.TCPSender;
  segments_out : list TCPSegment;
  linger_after_streams_finish : bool;
  rst : bool;
  time : Z;
  last_segment_time : Z
}.

Definition construct (cfg : TCPSender.TCPConfig) (random : Z) : TCPConnection :=
  mkConnection cfg
    (TCPReceiver.construct (TCPSender.recv_capacity cfg))
    (TCPSender.construct (TCPSender.send_capacity cfg) (TCPSender.rt_timeout cfg)
       (TCPSender.fixed_isn cfg) random)
    [] true false 0 0.

(** Assignments to single members. *)
Definition set_receiver (r : TCPReceiver.TCPReceiver) (c : TCPConnection) : TCPConnection :=
  mkConnection (cfg c) r (sender c) (segments_out c) (linger_after_streams_finish c) (rst c)
    (time c) (last_segment_time c).
Definition set_sender (s : TCPSender.TCPSender) (c : TCPConnection) : TCPConnection :=
  mkConnection (cfg c) (receiver c) s (segments_out c) (linger_after_streams_finish c) (rst c)
    (time c) (last_segment_time c).
Definition set_segments_out (q : list TCPSegment) (c : TCPConnection) : TCPConnection :=
  mkConnection (cfg c) (receiver c) (sender c) q (linger_after_streams_finish c) (rst c)
    (time c) (last_segment_time c).
Definition set_linger (b : bool) (c : TCPConnection) : TCPConnection :=
  mkConnection (cfg c) (receiver c) (sender c) (segments_out c) b (rst c)
    (time c) (last_segment_time c).
Definition set_rst (b : bool) (c : TCPConnection) : TCPConnection :=
  mkConnection (cfg c) (receiver c) (sender c) (segments_out c) (linger_after_streams_finish c) b
    (time c) (last_segment_time c).
Definition set_times (t l : Z) (c : TCPConnection) : TCPConnection :=
  mkConnection (cfg c) (receiver c) (sender c) (segments_out c) (linger_after_streams_finish c)
    (rst c) t l.

Definition remaining_outbound_capacity (c : TCPConnection) : Z :=
  ByteStream.remaining_capacity (TCPSender.stream_in (sender c)).
Definition bytes_in_flight (c : TCPConnection) : Z := TCPSender.bytes_in_flight (sender c).
Definition unassembled_bytes (c : TCPConnection) : Z :=
  TCPReceiver.unassembled_bytes (receiver c).
Definition time_since_last_segment_received (c : TCPConnection) : Z :=
  u64 (time c - last_segment_time c).
Definition inbound_stream (c : TCPConnection) : ByteStream.ByteStream :=
  TCPReceiver.stream_out (receiver c).

(** [has_value()] of the acknowledgement number. *)
Definition has_ackno (c : TCPConnection) : bool :=
  match TCPReceiver.ackno (receiver c) with Some _ => true | None => false end.

Definition receiver_info (r : TCPReceiver.TCPReceiver) (seg : TCPSegment) : TCPSegment :=
  match TCPReceiver.ackno r with
  | Some a =>
      TCPSegment.mkTCPSegment
        (TCPHeader.set_win (u16 (TCPReceiver.window_size r))
          (TCPHeader.set_ackno a (TCPHeader.set_ack true (TCPSegment.header seg))))
        (TCPSegment.payload seg)
  | None => seg
  end.

(** [_segment_out]: the loop empties the sender's queue. *)
Definition segment_out (c : TCPConnection) : TCPConnection :=
  let moved := receiver_info (receiver c) <$> TCPSender.segments_out (sender c) in
  set_sender (TCPSender.set_segments_out [] (sender c))
    (set_segments_out (segments_out c ++ moved) c).

(** [_rst_segment] *)
Definition rst_segment (c : TCPConnection) : result TCPConnection :=
  let s := if size (TCPSender.segments_out (sender c)) =? 0
           then TCPSender.send_empty_segment (sender c) else sender c in
  match TCPSender.segments_out s with
  | [] => Throw undefined_behaviour
  | seg :: q =>
      let seg := receiver_info (receiver c) seg in
      let seg := TCPSegment.mkTCPSegment (TCPHeader.set_rst true (TCPSegment.header seg))
                   (TCPSegment.payload seg) in
      Ok (set_sender (TCPSender.set_segments_out q s)
            (set_segments_out (segments_out c ++ [seg]) c))
  end.

(** Both streams in error and the connection dead: [segment_received] on a RST,
    and [tick] on too many retransmissions. *)
Definition kill (c : TCPConnection) : TCPConnection :=
  let c := set_rst true c in
  let r := receiver c in
  let c := set_receiver (TCPReceiver.set_stream_out
             (ByteStream.set_error (TCPReceiver.stream_out r)) r) c in
  set_sender (TCPSender.set_stream (ByteStream.set_error (TCPSender.stream_in (sender c)))
    (sender c)) c.

Definition segment_received (seg : TCPSegment) (c : TCPConnection) : result TCPConnection :=
  let c := set_times (time c) (time c) c in
  let header := TCPSegment.header seg in
  if TCPHeader.rst header then Ok (kill c)
  else if negb (has_ackno c) && (TCPSegment.length_in_sequence_space seg =? 0) then Ok c
  else
    let c := if ByteStream.input_ended (TCPReceiver.stream_out (receiver c)) &&
                negb (TCPSender.fin_sent (sender c))
             then set_linger false c else c in
    let '(ack_no_check, s) :=
      if TCPHeader.ack header
      then TCPSender.ack_received (TCPHeader.ackno header) (TCPHeader.win header) (sender c)
      else (true, TCPSender.fill_window (sender c)) in
    let c := set_sender s c in
    '(payload_check, r) ← TCPReceiver.segment_received seg (receiver c);
    let c := set_receiver r c in
    if (TCPSegment.length_in_sequence_space seg =? 0) && payload_check && ack_no_check
    then Ok c
    else
      let c := if (size (TCPSender.segments_out (sender c)) =? 0) && has_ackno c
               then set_sender (TCPSender.send_empty_segment (sender c)) c else c in
      Ok (segment_out c).

Definition active (c : TCPConnection) : bool :=
  if rst c then false
  else if negb (TCPSender.fin_sent (sender c)) || negb (TCPSender.fin_acked (sender c)) ||
          negb (ByteStream.input_ended (TCPReceiver.stream_out (receiver c)))
  then true
  else if linger_after_streams_finish c then
    if 10 * TCPSender.rt_timeout (cfg c) <=? time_since_last_segment_received c
    then false else true
  else false.

Definition write (data : bytes) (c : TCPConnection) : Z * TCPConnection :=
  let '(n, b) := ByteStream.write data (TCPSender.stream_in (sender c)) in
  let s := TCPSender.fill_window (TCPSender.set_stream b (sender c)) in
  (n, segment_out (set_sender s c)).

Definition tick (ms_since_last_tick : Z) (c : TCPConnection) : result TCPConnection :=
  s ← TCPSender.tick ms_since_last_tick (sender c);
  let c := set_sender s c in
  let c := set_times (u64 (time c + ms_since_last_tick)) (last_segment_time c) c in
  c ← (if TCPSender.MAX_RETX_ATTEMPTS <? TCPSender.consecutive_retransmissions (sender c)
       then rst_segment (kill c) else Ok c);
  Ok (segment_out c).

Definition end_input_stream (c : TCPConnection) : TCPConnection :=
  let b := ByteStream.end_input (TCPSender.stream_in (sender c)) in
  segment_out (set_sender (TCPSender.fill_window (TCPSender.set_stream b (sender c))) c).

Definition connect (c : TCPConnection) : TCPConnection :=
  segment_out (set_sender (TCPSender.fill_window (sender c)) c).

(** What the destructor leaves in the queues, which are destroyed after it. *)
Definition destruct_ (c : TCPConnection) : result TCPConnection :=
  if active c then rst_segment c else Ok c.

Definition state (c : TCPConnection) : TCPState.TCPState :=
  TCPState.summarize (sender c) (receiver c) (active c) (linger_after_streams_finish c).

(** Read access through [inbound_stream()]. *)
Definition read (len : Z) (c : TCPConnection) : bytes * TCPConnection :=
  let '(s, o) := ByteStream.read len (inbound_stream c) in
  (s, set_receiver (TCPReceiver.set_stream_out o (receiver c)) c).

(** ** Operations and runs *)

Inductive op :=
  | Connect
  | Write (data : bytes)
  | EndInput
  | Segment (seg : TCPSegment)
  | Tick (ms : Z)
  | Read (len : Z)
  | Take.              (* the owner takes what is in [segments_out] *)

Definition apply_op (o : op) (c : TCPConnection) : result TCPConnection :=
  match o with
  | Connect => Ok (connect c)
  | Write data => Ok (snd (write data c))
  | EndInput => Ok (end_input_stream c)
  | Segment seg => segment_received seg c
  | Tick ms => tick ms c
  | Read len => Ok (snd (read len c))
  | Take => Ok (set_segments_out [] c)
  end.

(** What the application has written after an operation. *)
Definition written (o : op) (W : bytes) (c : TCPConnection) : bytes :=
  match o with
  | Write data => W ++ substr0 data (fst (write data c))
  | _ => W
  end.

(** The conditions the owner keeps: no write after the end of the input, sizes
    that fit the header fields, and fewer than 2^32 - 1 retransmissions. *)
Definition op_ok (o : op) (W : bytes) (c : TCPConnection) : Prop :=
  match o with
  | Write data => ByteStream.bs_end (TCPSender.stream (sender c)) = false /\
                  size W + size data < 4611686018427387904
  | Segment seg => 0 <= TCPHeader.win (TCPSegment.header seg) < 65536
  | Tick ms => TCPSender.consecutive_retrans_v (sender c) < 4294967295
  | _ => True
  end.

Inductive step : bytes * TCPConnection -> bytes * TCPConnection -> Prop :=
| step_op W c o c' :
    op_ok o W c -> apply_op o c = Ok c' -> step (W, c) (written o W c, c').

(** ** The connection is a client of its sender *)

(** Two segments that mean the same to the peer's receiver. *)
Definition same_content (g h : TCPSegment) : Prop :=
  TCPHeader.seqno (TCPSegment.header g) = TCPHeader.seqno (TCPSegment.header h) /\
  TCPHeader.syn (TCPSegment.header g) = TCPHeader.syn (TCPSegment.header h) /\
  TCPHeader.fin (TCPSegment.header g) = TCPHeader.fin (TCPSegment.header h) /\
  Buffer.str (TCPSegment.payload g) = Buffer.str (TCPSegment.payload h).

Lemma same_content_info r g : same_content g (receiver_info r g).
Proof. unfold receiver_info. by destruct (TCPReceiver.ackno r). Qed.

Lemma same_content_carries W n0 a g h :
  same_content g h -> TCPSender.carries W n0 a g -> TCPSender.carries W n0 a h.
Proof.
  intros (E1 & E2 & E3 & E4) []. constructor; rewrite <- ?E1, <- ?E2, <- ?E3, <- ?E4; try done.
  unfold TCPSegment.length_in_sequence_space in *. by rewrite <- E2, <- E3, <- E4.
Qed.

Lemma same_content_len g h :
  same_content g h ->
  TCPSegment.length_in_sequence_space g = TCPSegment.length_in_sequence_space h.
Proof.
  intros (E1 & E2 & E3 & E4). unfold TCPSegment.length_in_sequence_space. by rewrite E2, E3, E4.
Qed.

(** [mirrors W log out c]: some run of the sender alone leads to the sender of
    [c], and every segment the connection has queued has the content of one the
    sender has transmitted. *)
Definition sender_start (k : TCPSender.TCPConfig) (random : Z) : TCPSender.TCPSender :=
  TCPSender.construct (TCPSender.send_capacity k) (TCPSender.rt_timeout k)
    (TCPSender.fixed_isn k) random.

Section Mirror.
Context (k : TCPSender.TCPConfig) (random : Z).

Definition mirrors (W : bytes) (c : TCPConnection) : Prop :=
  exists log, rtc TCPSender.step ([], [], sender_start k random) (W, log, sender c) /\
    Forall (fun g => exists g0, g0 ∈ log /\ same_content g0 g) (segments_out c).

Lemma mirrors_step W W' s' c c' log' :
  (forall log, rtc TCPSender.step (W, log, sender c) (W', log ++ log', s')) ->
  sender c' = s' ->
  (exists new, segments_out c' = segments_out c ++ new /\
     Forall (fun g => exists g0, g0 ∈ log' /\ same_content g0 g) new) ->
  mirrors W c -> mirrors W' c'.
Proof using.
  intros Hs <- (new & En & Hn) (log & Hr & Hq). exists (log ++ log').
  split; [by etrans; [exact Hr|apply Hs]|]. rewrite En. apply Forall_app. split.
  - eapply Forall_impl; [exact Hq|]. intros g (g0 & Hg & Hc). exists g0.
    split; [|done]. apply elem_of_app. by left.
  - eapply Forall_impl; [exact Hn|]. intros g (g0 & Hg & Hc). exists g0.
    split; [|done]. apply elem_of_app. by right.
Qed.

(** A change that leaves the queues alone. *)
Lemma mirrors_frame W c c' :
  sender c' = sender c -> segments_out c' = segments_out c -> mirrors W c -> mirrors W c'.
Proof using. intros E1 E2 (log & H1 & H2). exists log. by rewrite E1, E2. Qed.

Lemma mirrors_sender W W' s' c :
  (forall log, rtc TCPSender.step (W, log, sender c) (W', log, s')) ->
  mirrors W c -> mirrors W' (set_sender s' c).
Proof using.
  intros Hs. apply (mirrors_step W W' s' c _ []); [|done|].
  - intros log. by rewrite app_nil_r.
  - exists []. by rewrite app_nil_r.
Qed.

Lemma mirrors_out W c : mirrors W c -> mirrors W (segment_out c).
Proof using.
  apply (mirrors_step W W (TCPSender.set_segments_out [] (sender c)) c _
    (TCPSender.segments_out (sender c))); [|done|].
  - intros log. apply rtc_once. apply (TCPSender.step_transmit W log (sender c) _ []).
    by rewrite app_nil_r.
  - eexists. split; [reflexivity|]. apply Forall_fmap, Forall_forall. intros g Hg. cbn.
    exists g. split; [done|]. apply same_content_info.
Qed.

Lemma mirrors_kill W c : mirrors W c -> mirrors W (kill c).
Proof using.
  intros H. unfold kill. apply (mirrors_sender W W).
  - intros log. apply rtc_once. apply TCPSender.step_error.
  - by eapply mirrors_frame; [..|exact H].
Qed.

Lemma rst_segment_ok c : exists c', rst_segment c = Ok c' /\
  receiver c' = receiver c /\ rst c' = rst c.
Proof using.
  unfold rst_segment. case_Z.
  - destruct (TCPSender.segments_out (TCPSender.send_empty_segment (sender c))) as [|g q] eqn:E;
      [|by eexists]. cbn in E. by apply app_eq_nil in E as [_ ?].
  - destruct (TCPSender.segments_out (sender c)); [done|]. by eexists.
Qed.

Lemma mirrors_rst W c c' : rst_segment c = Ok c' -> mirrors W c -> mirrors W c'.
Proof using.
  unfold rst_segment. intros E Hm.
  set (s := if size (TCPSender.segments_out (sender c)) =? 0
            then TCPSender.send_empty_segment (sender c) else sender c) in E.
  assert (Hs : forall log, rtc TCPSender.step (W, log, sender c) (W, log, s)).
  { intros log. subst s. case_Z; [apply rtc_once, TCPSender.step_empty|apply rtc_refl]. }
  destruct (TCPSender.segments_out s) as [|g q] eqn:Eq; [done|]. injection E as <-.
  revert Hm. apply (mirrors_step W W (TCPSender.set_segments_out q s) c _ [g]); [|done|].
  - intros log. eapply rtc_r; [apply Hs|]. by apply TCPSender.step_transmit.
  - eexists. split; [reflexivity|]. apply Forall_singleton. exists g.
    split; [apply list_elem_of_here|]. unfold receiver_info.
    by destruct (TCPReceiver.ackno (receiver c)).
Qed.

Lemma mirrors_segment W seg c c' :
  0 <= TCPHeader.win (TCPSegment.header seg) < 65536 ->
  segment_received seg c = Ok c' -> mirrors W c -> mirrors W c'.
Proof using.
  intros Hw E Hm. unfold segment_received in E.
  assert (Hm1 : mirrors W (set_times (time c) (time c) c)) by (by eapply mirrors_frame).
  revert E Hm1. generalize (set_times (time c) (time c) c). clear Hm. intros c1 E Hm.
  destruct (TCPHeader.rst _); [injection E as <-; by apply mirrors_kill|].
  destruct (negb _ && _); [by injection E as <-|].
  set (c2 := if _ && _ then set_linger false c1 else c1) in E.
  assert (Hm2 : mirrors W c2) by (subst c2; destruct (_ && _); [by eapply mirrors_frame|done]).
  clearbody c2. clear Hm c1. rename c2 into c1, Hm2 into Hm.
  assert (Hs : exists ok s, (if TCPHeader.ack (TCPSegment.header seg)
    then TCPSender.ack_received (TCPHeader.ackno (TCPSegment.header seg))
           (TCPHeader.win (TCPSegment.header seg)) (sender c1)
    else (true, TCPSender.fill_window (sender c1))) = (ok, s) /\ mirrors W (set_sender s c1)).
  { destruct (TCPHeader.ack _).
    - destruct (TCPSender.ack_received _ _ _) as [ok s] eqn:Ea. exists ok, s. split; [done|].
      eapply mirrors_sender; [|done]. intros log. apply rtc_once. by eapply TCPSender.step_ack.
    - do 2 eexists. split; [reflexivity|]. eapply mirrors_sender; [|done].
      intros log. apply rtc_once. apply TCPSender.step_fill. }
  destruct Hs as (ok & s & Es & Hm1). rewrite Es in E. clear Hm Es.
  apply result_bind_Ok in E as ([pc r] & _ & E).
  assert (Hm2 : mirrors W (set_receiver r (set_sender s c1))) by (by eapply mirrors_frame).
  destruct (_ && _ && ok); [by injection E as <-|]. injection E as <-.
  apply mirrors_out. destruct (_ && has_ackno _); [|done].
  eapply mirrors_sender; [|exact Hm2]. intros log. apply rtc_once, TCPSender.step_empty.
Qed.

Lemma mirrors_tick W ms c c' :
  TCPSender.consecutive_retrans_v (sender c) < 4294967295 ->
  tick ms c = Ok c' -> mirrors W c -> mirrors W c'.
Proof using.
  intros Hk E Hm. unfold tick in E. apply result_bind_Ok in E as (s & Es & E).
  cbv zeta in E. apply result_bind_Ok in E as (c2 & E2 & E). injection E as <-.
  apply mirrors_out. set (c1 := set_times _ _ _) in E2.
  assert (Hm1 : mirrors W c1).
  { apply (mirrors_frame W (set_sender s c)); [done|done|]. eapply mirrors_sender; [|done].
    intros log. apply rtc_once. by eapply TCPSender.step_tick. }
  revert E2. case_Z; intros E2.
  - eapply mirrors_rst; [exact E2|]. by apply mirrors_kill.
  - by injection E2 as <-.
Qed.

Lemma mirrors_op W o c c' :
  op_ok o W c -> apply_op o c = Ok c' -> mirrors W c -> mirrors (written o W c) c'.
Proof using.
  destruct o; cbn [op_ok apply_op written]; intros Hok E Hm.
  - injection E as <-. apply mirrors_out. eapply mirrors_sender; [|done].
    intros log. apply rtc_once, TCPSender.step_fill.
  - unfold write in *. destruct (ByteStream.write data _) as [n b] eqn:Ew.
    injection E as <-. apply mirrors_out. eapply mirrors_sender; [|done].
    intros log. destruct Hok. eapply rtc_r; [|apply TCPSender.step_fill].
    apply rtc_once. by eapply TCPSender.step_write.
  - injection E as <-. apply mirrors_out. eapply mirrors_sender; [|done].
    intros log. eapply rtc_r; [|apply TCPSender.step_fill]. apply rtc_once, TCPSender.step_end.
  - by eapply mirrors_segment.
  - by eapply mirrors_tick.
  - injection E as <-. unfold read. destruct (ByteStream.read len (inbound_stream c)). by eapply mirrors_frame.
  - injection E as <-. destruct Hm as (log & Hr & _). exists log. by split; [|apply Forall_nil].
Qed.

Lemma reaches_mirrors W c :
  rtc step ([], construct k random) (W, c) -> mirrors W c.
Proof using.
  intros Hrun. change (mirrors (W, c).1 (W, c).2). revert Hrun. generalize (W, c).
  apply rtc_ind_r.
  - exists []. split; [apply rtc_refl|done].
  - intros y z _ Hs. inversion Hs; subst. cbn. by apply mirrors_op.
Qed.

Context (Hcap : 0 <= TCPSender.send_capacity k < M64) (Hrt : 0 <= TCPSender.rt_timeout k < 65536).

Lemma reaches_sender W c :
  rtc step ([], construct k random) (W, c) ->
  exists log, TCPSender.run_ok (W, log, sender c) /\
    Forall (fun g => exists g0, g0 ∈ log /\ same_content g0 g) (segments_out c).
Proof using Hcap Hrt.
  intros Hrun%reaches_mirrors. destruct Hrun as (log & Hr & Hq). exists log. split; [|done].
  by apply (TCPSender.sender_run_reaches _ _ _ _ _ _ _ Hcap Hrt Hr).
Qed.

(** C20: in every reachable state of a connection, whatever segments it was fed,
    each segment queued for the network is empty or a correct excerpt of what
    the application wrote: right sequence number, right bytes, SYN at the start
    only, FIN after the last byte only.  Stamping it with the receiver's
    acknowledgement, or with RST, does not change that. *)
Theorem connection_sends_stream W c :
  rtc step ([], construct k random) (W, c) ->
  Forall (fun g => TCPSegment.length_in_sequence_space g = 0 \/
    exists a, TCPSender.carries W (TCPSender.isn (sender c)) a g /\
      a + TCPSegment.length_in_sequence_space g <= TCPSender.byte_sent (sender c))
    (segments_out c).
Proof using Hcap Hrt.
  intros Hrun. destruct (reaches_sender W c Hrun) as (log & [_ Hl] & Hq).
  eapply Forall_impl; [exact Hq|]. intros g (g0 & Hg & Hc). rewrite Forall_forall in Hl.
  rewrite <- (same_content_len g0 g Hc). destruct (Hl _ Hg) as [(a & Ha & Hle)|[Hz _]]; [right|by left].
  exists a. split; [|done]. by eapply same_content_carries.
Qed.

(** In every reachable state, [tick] returns: neither the retransmission
    nor the reset segment takes the front of an empty queue, and the sender's
    own queue is empty afterwards. *)
Theorem connection_tick_safe W c ms :
  rtc step ([], construct k random) (W, c) ->
  TCPSender.consecutive_retrans_v (sender c) < 4294967295 ->
  exists c', tick ms c = Ok c' /\ TCPSender.segments_out (sender c') = [].
Proof using Hcap Hrt.
  intros Hrun Hk. destruct (reaches_sender W c Hrun) as (log & [H _] & _).
  destruct (TCPSender.tick_spec W (sender c) ms H Hk) as (s & Es & _).
  unfold tick. rewrite Es. cbn [mbind result_bind]. cbv zeta. case_Z.
  - set (c1 := kill _). destruct (rst_segment_ok c1) as (c2 & E2 & _). rewrite E2.
    cbn [mbind result_bind]. by eexists.
  - cbn [mbind result_bind]. by eexists.
Qed.
End Mirror.

(** ** What the queued segments say *)

(** The acknowledgement fields of [g] are those of the receiver [r]. *)
Definition stamped (r : TCPReceiver.TCPReceiver) (g : TCPSegment) : Prop :=
  match TCPReceiver.ackno r with
  | Some a => TCPHeader.ack (TCPSegment.header g) = true /\
              TCPHeader.ackno (TCPSegment.header g) = a /\
              TCPHeader.win (TCPSegment.header g) = u16 (TCPReceiver.window_size r)
  | None => True
  end.

Lemma receiver_info_stamped r g : stamped r (receiver_info r g).
Proof. unfold stamped, receiver_info. by destruct (TCPReceiver.ackno r). Qed.

(** [adds c c']: the operation only added stamped segments to the queue. *)
Definition adds (c c' : TCPConnection) : Prop :=
  exists new, segments_out c' = segments_out c ++ new /\ Forall (stamped (receiver c')) new.

Lemma adds_none c c' : segments_out c' = segments_out c -> adds c c'.
Proof. intros E. exists []. by rewrite app_nil_r. Qed.

Lemma adds_out c c1 : segments_out c1 = segments_out c -> adds c (segment_out c1).
Proof.
  intros E. eexists. cbn. rewrite E. split; [reflexivity|].
  apply Forall_fmap, Forall_forall. intros g _. apply receiver_info_stamped.
Qed.

Lemma rst_segment_adds c c' :
  rst_segment c = Ok c' -> adds c c' /\ receiver c' = receiver c /\ rst c' = rst c.
Proof.
  unfold rst_segment. case_match; [done|]. intros [= <-]. split; [|done].
  eexists. split; [reflexivity|]. apply Forall_singleton. cbn.
  unfold stamped, receiver_info. by destruct (TCPReceiver.ackno (receiver c)).
Qed.

Lemma adds_then_out c c1 : adds c c1 -> adds c (segment_out c1).
Proof.
  intros (new & E & Hn). eexists. cbn. rewrite E, <- (assoc_L (++)). split; [reflexivity|].
  apply Forall_app. split; [done|]. apply Forall_fmap, Forall_forall.
  intros g _. apply receiver_info_stamped.
Qed.

(** Every segment an operation queues carries the acknowledgement number and
    the window of the receiver as the operation leaves it, as soon as the peer's
    SYN has been seen; the 16-bit window field holds the window modulo 2^16. *)
Theorem queued_segments_acknowledge o c c' :
  o <> Take -> apply_op o c = Ok c' ->
  exists new, segments_out c' = segments_out c ++ new /\ Forall (stamped (receiver c')) new.
Proof.
  change (o <> Take -> apply_op o c = Ok c' -> adds c c').
  destruct o; cbn [apply_op]; intros Ho E; try done; try (injection E as <-).
  - by apply adds_out.
  - unfold write. destruct (ByteStream.write data (TCPSender.stream_in (sender c))).
    by apply adds_out.
  - by apply adds_out.
  - unfold segment_received in E. destruct (TCPHeader.rst _).
    { injection E as <-. by apply adds_none. }
    destruct (negb _ && _); [injection E as <-; by apply adds_none|].
    match type of E with context [if TCPHeader.ack ?h then ?a else ?b] =>
      destruct (if TCPHeader.ack h then a else b) as [ok s] end.
    apply result_bind_Ok in E as ([pc r] & _ & E).
    destruct (_ && _ && ok); injection E as <-; [apply adds_none|apply adds_out];
      repeat destruct (_ && _); done.
  - unfold tick in E. apply result_bind_Ok in E as (s & Es & E). cbv zeta in E.
    apply result_bind_Ok in E as (c2 & E2 & E). injection E as <-. revert E2. case_Z.
    + intros E2. destruct (rst_segment_adds _ _ E2) as (Ha & _ & _). by apply adds_then_out.
    + intros [= <-]. by apply adds_out.
  - unfold read. destruct (ByteStream.read len (inbound_stream c)). by apply adds_none.
Qed.

(** ** Resets *)

Lemma rst_kept o c c' : apply_op o c = Ok c' -> rst c = true -> rst c' = true.
Proof.
  destruct o; cbn [apply_op]; intros E Hr; try (injection E as <-); try done.
  - unfold segment_received in E. destruct (TCPHeader.rst _); [by injection E as <-|].
    destruct (negb _ && _); [by injection E as <-|].
    match type of E with context [if TCPHeader.ack ?h then ?a else ?b] =>
      destruct (if TCPHeader.ack h then a else b) as [ok s] end.
    apply result_bind_Ok in E as ([pc r] & _ & E).
    destruct (_ && _ && ok); injection E as <-; repeat destruct (_ && _); done.
  - unfold tick in E. apply result_bind_Ok in E as (s & Es & E). cbv zeta in E.
    apply result_bind_Ok in E as (c2 & E2 & E). injection E as <-. revert E2. case_Z.
    + intros E2. destruct (rst_segment_adds _ _ E2) as (_ & _ & Hx). by cbn; rewrite Hx.
    + by intros [= <-].
Qed.

(** C34: every segment with RST, in every state and whatever its sequence and acknowledgement
    numbers, puts both streams in the error state, is answered by
    nothing, and ends the connection for good: whatever operations follow, the
    connection stays inactive.  This is what the comment in [segment_received] says; TCP wants a RST ignored that is
    outside the window, and tests/fsm_ack_rst.cc one that comes while listening, or after the
    SYN without acknowledging it: see [any_reset_kills]. *)
Theorem reset_is_final seg c :
  TCPHeader.rst (TCPSegment.header seg) = true ->
  exists c1, segment_received seg c = Ok c1 /\ segments_out c1 = segments_out c /\
    ByteStream.error (inbound_stream c1) = true /\
    ByteStream.error (TCPSender.stream_in (sender c1)) = true /\
    forall ops c2, foldl (fun r o => x ← r; apply_op o x) (Ok c1) ops = Ok c2 ->
      active c2 = false.
Proof.
  intros Hr. unfold segment_received. rewrite Hr. eexists. split; [reflexivity|].
  do 3 (split; [done|]). assert (Hd : rst (kill (set_times (time c) (time c) c)) = true) by done.
  revert Hd. generalize (kill (set_times (time c) (time c) c)). intros c1 Hd ops. revert c1 Hd.
  induction ops as [|o ops IH]; intros c1 Hd c2; cbn [foldl].
  - intros [= <-]. unfold active. by rewrite Hd.
  - cbn [mbind result_bind]. destruct (apply_op o c1) as [c3|e] eqn:E.
    + apply IH. by eapply rst_kept.
    + clear. intros H. exfalso. induction ops as [|o' ops IH]; [done|]. by apply IH.
Qed.

(** C35: the retransmission limit.  When the timer of a reachable connection runs
    out for the ninth consecutive time, [tick] aborts it: both streams are in the
    error state, the connection is inactive, and what goes out are the segments that were
    waiting in the sender's queue and, behind them, the oldest outstanding one, the first of
    all these with RST set.  So when none was waiting, exactly the oldest segment goes
    out, with RST.  Some can be waiting, as [opened_window_not_used] shows; then it is the
    first of them that carries the RST and the retransmission follows it. *)
Theorem ninth_retransmission_aborts k random W c ms :
  0 <= TCPSender.send_capacity k < M64 -> 0 <= TCPSender.rt_timeout k < 65536 ->
  rtc step ([], construct k random) (W, c) ->
  TCPSender.consecutive_retrans_v (sender c) = 8 ->
  TCPSender.active (TCPSender.sendtimer (sender c)) = true ->
  TCPSender.rto (TCPSender.sendtimer (sender c)) <=
    u64 (u64 (TCPSender.time (sender c) + ms)
         - TCPSender.start_time (TCPSender.sendtimer (sender c))) ->
  exists c' seg q g rest, tick ms c = Ok c' /\ active c' = false /\
    ByteStream.error (inbound_stream c') = true /\
    ByteStream.error (TCPSender.stream_in (sender c')) = true /\
    TCPSender.unacked (sender c) = seg :: q /\ segments_out c' = segments_out c ++ g :: rest /\
    Forall2 same_content (TCPSender.segments_out (sender c) ++ [seg]) (g :: rest) /\
    TCPHeader.rst (TCPSegment.header g) = true /\ TCPSender.segments_out (sender c') = [].
Proof.
  intros Hcap Hrt Hrun Hk Ha Hdue.
  destruct (reaches_sender k random Hcap Hrt W c Hrun) as (log & [H _] & _).
  destruct (TCPSender.tick_spec W (sender c) ms H) as (s & Es & _ & _ & Eu & _ & _ & _ & Eo & Ek & _);
    [lia|].
  apply Z.leb_le in Hdue. cbv zeta in Eo, Ek. rewrite Ha, Hdue in Eo, Ek. cbn [andb] in Eo, Ek.
  pose proof (proj1 (TCPSender.wf_timer _ _ H) Ha) as Hne.
  destruct (TCPSender.unacked (sender c)) as [|seg q] eqn:Equ; [done|].
  change (take 1 (seg :: q)) with [seg] in Eo.
  destruct (TCPSender.segments_out (sender c) ++ [seg]) as [|h l] eqn:El; [by destruct (TCPSender.segments_out (sender c))|].
  unfold tick. rewrite Es. cbn [mbind result_bind].
  cbv zeta. unfold TCPSender.consecutive_retransmissions. cbn [sender set_sender set_times].
  rewrite Ek, Hk. cbn [TCPSender.b2z]. change (TCPSender.MAX_RETX_ATTEMPTS <? 8 + 1) with true.
  unfold rst_segment. cbn [sender kill set_rst set_receiver set_sender set_times receiver
    TCPSender.set_stream TCPSender.segments_out]. rewrite Eo.
  replace (size (h :: l) =? 0) with false by (symmetry; apply Z.eqb_neq; by intros ?%size_0_nil).
  cbn [TCPSender.segments_out TCPSender.set_stream]. rewrite ?Eo. cbn [mbind result_bind].
  do 5 eexists. split; [reflexivity|]. split; [done|]. split; [done|]. split; [done|].
  split; [reflexivity|]. split; [cbn; by rewrite <- app_assoc|]. split; [|done].
  rewrite El. constructor; [unfold receiver_info; by destruct (TCPReceiver.ackno _)|].
  apply Forall2_fmap_r, Forall_Forall2_diag, Forall_true. intros x. apply same_content_info.
Qed.

(** After both streams have ended, a connection that must linger stays
    active, and silent while its sender's queue is empty, until exactly ten
    initial timeouts have passed since the last segment it received. *)
Theorem linger_expires k random W c ms :
  0 <= TCPSender.send_capacity k < M64 -> 0 <= TCPSender.rt_timeout k < 65536 ->
  rtc step ([], construct k random) (W, c) ->
  rst c = false -> TCPSender.fin_acked (sender c) = true ->
  ByteStream.input_ended (inbound_stream c) = true -> linger_after_streams_finish c = true ->
  TCPSender.segments_out (sender c) = [] ->
  0 <= last_segment_time c <= time c -> 0 <= ms -> time c + ms < M64 ->
  exists c', tick ms c = Ok c' /\ segments_out c' = segments_out c /\
    active c' = (time c + ms - last_segment_time c <? 10 * TCPSender.rt_timeout (cfg c)).
Proof.
  intros Hcap Hrt Hrun Hr Hf Hi Hl Hq Hlast Hms H64.
  destruct (reaches_sender k random Hcap Hrt W c Hrun) as (log & [H _] & _).
  unfold TCPSender.fin_acked in Hf. apply andb_true_iff in Hf as [Hu Hf].
  assert (Hnil : TCPSender.unacked (sender c) = []).
  { apply Z.eqb_eq in Hu. by apply size_0_nil. }
  assert (Ha : TCPSender.active (TCPSender.sendtimer (sender c)) = false).
  { destruct (TCPSender.active _) eqn:E; [|done]. by apply (TCPSender.wf_timer _ _ H) in E. }
  pose proof (TCPSender.wf_idle _ _ H Hnil) as Hk.
  unfold tick, TCPSender.tick. cbn [TCPSender.sendtimer TCPSender.set_time]. rewrite Ha.
  cbn [mbind result_bind]. cbv zeta. unfold TCPSender.consecutive_retransmissions.
  cbn [sender set_sender set_times TCPSender.set_time TCPSender.consecutive_retrans_v]. rewrite Hk.
  change (TCPSender.MAX_RETX_ATTEMPTS <? 0) with false. cbn [mbind result_bind].
  eexists. split; [reflexivity|]. cbn. rewrite Hq, app_nil_r. split; [done|].
  unfold active, TCPSender.fin_acked, TCPSender.fin_sent, time_since_last_segment_received in *.
  cbn. unfold inbound_stream in Hi. rewrite Hr, Hf, Hnil, Hi, Hl. cbn.
  rewrite (u64_id (time c + ms)), u64_id by lia. repeat case_Z; done || lia.
Qed.

(** ** A run: the handshake of two endpoints *)

Definition sample_config (n : Z) : TCPSender.TCPConfig :=
  TCPSender.mkTCPConfig 1000 64000 64000 (Some (mkWrappingInt32 n)).

(** A segment from a peer whose stream starts at 4294967295. *)
Definition from_peer (seqno ackno : Z) (syn ack rst fin : bool) (data : bytes) : TCPSegment :=
  TCPSegment.mkTCPSegment
    (TCPHeader.mkTCPHeader 0 0 (mkWrappingInt32 seqno) (mkWrappingInt32 ackno) 5 false ack false
       rst syn fin 1000 0 0) (Buffer.of_string data).

(** The conditions of [op_ok], decided. *)
#[export] Instance op_ok_dec o W c : Decision (op_ok o W c).
Proof. destruct o; cbn; apply _. Defined.

(** Runs operations one after the other, checking the owner's conditions. *)
Fixpoint run (ops : list op) (W : bytes) (c : TCPConnection) : option (bytes * TCPConnection) :=
  match ops with
  | [] => Some (W, c)
  | o :: ops' =>
      if decide (op_ok o W c) then
        match apply_op o c with
        | Ok c' => run ops' (written o W c) c'
        | Throw _ => None
        end
      else None
  end.

Lemma run_steps ops : forall W c st, run ops W c = Some st -> rtc step (W, c) st.
Proof.
  induction ops as [|o ops IH]; intros W c st E; cbn in E.
  - injection E as <-. apply rtc_refl.
  - case_decide; [|done]. destruct (apply_op o c) as [c1|e] eqn:E1; [|done].
    eapply rtc_l; [by apply step_op|by apply IH].
Qed.

Definition sample_fresh : TCPConnection := construct (sample_config 100) 0.
Definition reached (ops : list op) : TCPConnection :=
  match run ops [] sample_fresh with Some (_, c) => c | None => sample_fresh end.

(** The handshake, as the side that connects sees it. *)
Definition handshake : list op :=
  [Connect; Segment (from_peer 4294967295 101 true true false false []); Take].
(** Nine timeouts without an answer, the last one still to come. *)
Definition unanswered : list op :=
  [Connect; Tick 1000; Tick 2000; Tick 4000; Tick 8000; Tick 16000; Tick 32000; Tick 64000;
   Tick 128000].
(** Both streams ended, this side first. *)
Definition closed_first : list op :=
  handshake ++ [EndInput; Segment (from_peer 0 102 false true false false []);
                Segment (from_peer 0 102 false true false true []); Take].

Lemma reached_steps ops st :
  run ops [] sample_fresh = Some st -> rtc step ([], sample_fresh) st /\ reached ops = st.2.
Proof.
  intros E. split; [by apply (run_steps ops)|]. unfold reached. rewrite E. by destruct st.
Qed.

Lemma take_steps st W c : rtc step st (W, c) -> rtc step st (W, set_segments_out [] c).
Proof.
  intros H. eapply rtc_r; [exact H|]. by apply (step_op W c Take (set_segments_out [] c)).
Qed.

Lemma handshake_steps : rtc step ([], sample_fresh) ([], reached handshake).
Proof. apply (run_steps handshake). vm_compute. reflexivity. Qed.
Lemma unanswered_steps : rtc step ([], sample_fresh) ([], reached unanswered).
Proof. apply (run_steps unanswered). vm_compute. reflexivity. Qed.
Lemma closed_first_steps : rtc step ([], sample_fresh) ([], reached closed_first).
Proof. apply (run_steps closed_first). vm_compute. reflexivity. Qed.

Lemma connection_sends_stream_witness :
  exists seg rest, segments_out (reached unanswered) = seg :: rest /\
    exists a, TCPSender.carries [] (TCPSender.isn (sender (reached unanswered))) a seg.
Proof.
  pose proof (connection_sends_stream (sample_config 100) 0 ltac:(vm_compute; intuition congruence)
    ltac:(vm_compute; intuition congruence) [] (reached unanswered) unanswered_steps) as H.
  destruct (segments_out (reached unanswered)) as [|seg rest] eqn:E; [vm_compute in E; discriminate E|].
  exists seg, rest. split; [reflexivity|]. apply Forall_cons in H as [[H|(a & H & _)] _].
  - vm_compute in E. injection E as E1 E2. rewrite <- E1 in H. vm_compute in H. discriminate H.
  - exists a. exact H.
Defined.

Lemma connection_tick_safe_witness :
  exists c', tick 10 (reached handshake) = Ok c' /\ TCPSender.segments_out (sender c') = [].
Proof.
  apply (connection_tick_safe (sample_config 100) 0 ltac:(vm_compute; intuition congruence)
    ltac:(vm_compute; intuition congruence) [] (reached handshake) 10 handshake_steps).
  vm_compute. reflexivity.
Defined.

Lemma queued_segments_acknowledge_witness :
  exists c' new, segment_received (from_peer 0 101 false true false false [Byte.x61])
      (reached handshake) = Ok c' /\
    segments_out c' = segments_out (reached handshake) ++ new /\ Forall (stamped (receiver c')) new.
Proof.
  destruct (segment_received (from_peer 0 101 false true false false [Byte.x61]) (reached handshake))
    as [c'|e] eqn:E; [|vm_compute in E; discriminate E].
  destruct (queued_segments_acknowledge (Segment (from_peer 0 101 false true false false [Byte.x61]))
    (reached handshake) c') as (new & H1 & H2); [discriminate|exact E|].
  exists c', new. split; [reflexivity|]. split; [exact H1|exact H2].
Defined.

Lemma reset_is_final_witness :
  exists c1, segment_received (from_peer 0 101 false true true false []) (reached handshake) = Ok c1 /\
    ByteStream.error (inbound_stream c1) = true.
Proof.
  destruct (reset_is_final (from_peer 0 101 false true true false []) (reached handshake) eq_refl)
    as (c1 & H1 & _ & H2 & _).
  exists c1. split; [exact H1|exact H2].
Defined.

Lemma ninth_retransmission_aborts_witness :
  exists c', tick 256000 (set_segments_out [] (reached unanswered)) = Ok c' /\ active c' = false.
Proof.
  destruct (ninth_retransmission_aborts (sample_config 100) 0 []
    (set_segments_out [] (reached unanswered)) 256000) as (c' & _ & _ & _ & _ & H1 & H2 & _).
  - vm_compute. intuition congruence.
  - vm_compute. intuition congruence.
  - apply take_steps. exact unanswered_steps.
  - vm_compute. reflexivity.
  - vm_compute. reflexivity.
  - vm_compute. congruence.
  - exists c'. split; [exact H1|exact H2].
Defined.

Lemma linger_expires_witness :
  exists c', tick 10000 (reached closed_first) = Ok c' /\ active c' = false /\
    active (reached closed_first) = true.
Proof.
  destruct (linger_expires (sample_config 100) 0 [] (reached closed_first) 10000)
    as (c' & H1 & _ & H2).
  - vm_compute. intuition congruence.
  - vm_compute. intuition congruence.
  - exact closed_first_steps.
  - vm_compute. reflexivity.
  - vm_compute. reflexivity.
  - vm_compute. reflexivity.
  - vm_compute. reflexivity.
  - vm_compute. reflexivity.
  - vm_compute. intuition congruence.
  - lia.
  - vm_compute. reflexivity.
  - exists c'. split; [exact H1|]. split; [rewrite H2; vm_compute; reflexivity|].
    vm_compute. reflexivity.
Defined.

(** ** Where the connection departs from the protocol *)

(** The decision not to linger is taken before the receiver sees the
    segment.  The segment whose FIN ends the inbound stream therefore never
    clears the flag, although the peer closed first. *)
Theorem linger_decided_one_segment_late seg c c' :
  segment_received seg c = Ok c' -> ByteStream.input_ended (inbound_stream c) = false ->
  linger_after_streams_finish c' = linger_after_streams_finish c.
Proof.
  unfold segment_received, inbound_stream. cbv zeta. cbn [receiver set_times]. intros E Hi.
  rewrite Hi in E. cbn [andb] in E. destruct (TCPHeader.rst _); [by injection E as <-|].
  destruct (negb _ && _); [by injection E as <-|].
  match type of E with context [if TCPHeader.ack ?h then ?a else ?b] =>
    destruct (if TCPHeader.ack h then a else b) as [ok s] end.
  apply result_bind_Ok in E as ([pc r] & _ & E).
  destruct (_ && _ && ok); injection E as <-; [done|]. by destruct (_ && has_ackno _).
Qed.

(** The peer closes first: after its FIN the connection is not in CLOSE_WAIT,
    and after the whole exchange it lingers instead of being closed. *)
Definition peer_fin : TCPSegment := from_peer 0 101 false true false true [].
Definition closed_second : list op :=
  handshake ++ [Segment peer_fin; EndInput; Segment (from_peer 1 102 false true false false [])].

Lemma linger_decided_one_segment_late_witness :
  exists c', segment_received peer_fin (reached handshake) = Ok c' /\
    ByteStream.input_ended (inbound_stream c') = true /\
    linger_after_streams_finish c' = true /\
    TCPState.eqb (state c') (TCPState.of_state TCPState.CLOSE_WAIT) = false.
Proof.
  destruct (segment_received peer_fin (reached handshake)) as [c'|e] eqn:E;
    [|vm_compute in E; discriminate E].
  exists c'. split; [reflexivity|].
  pose proof (linger_decided_one_segment_late peer_fin (reached handshake) c' E) as H.
  split; [vm_compute in E; injection E as <-; reflexivity|].
  split; [rewrite H; vm_compute; reflexivity|].
  vm_compute in E. injection E as <-. reflexivity.
Defined.

Theorem passive_close_still_active :
  TCPSender.fin_acked (sender (reached closed_second)) = true /\
  ByteStream.input_ended (inbound_stream (reached closed_second)) = true /\
  active (reached closed_second) = true /\
  TCPState.eqb (state (reached closed_second)) (TCPState.of_state TCPState.CLOSED) = false.
Proof. vm_compute. done. Qed.

(** An acknowledgement without payload that opens the window makes the sender
    produce the next segment, but [segment_received] returns before moving it to
    the connection's queue: nothing is sent until some later call. *)
Definition window_opened : list op :=
  handshake ++ [Write (replicate 3000 Byte.x61); Take;
                Segment (from_peer 0 1101 false true false false [])].

Theorem opened_window_not_used :
  segments_out (reached window_opened) = [] /\
  size (TCPSender.segments_out (sender (reached window_opened))) = 1 /\
  TCPSender.byte_sent (sender (reached window_opened)) = 2001.
Proof. vm_compute. done. Qed.

(** A connection killed by a RST goes on retransmitting. *)
Definition reset_by_peer : list op :=
  [Connect; Take; Segment (from_peer 4294967295 101 false true true false []); Tick 1000].

Theorem reset_connection_retransmits :
  active (reached reset_by_peer) = false /\ size (segments_out (reached reset_by_peer)) = 1.
Proof. vm_compute. done. Qed.

(** A RST is not checked: one that comes while listening, one after the SYN that does not
    acknowledge it, and one outside the window of an open connection each kill the connection.  An
    acknowledgement that comes while listening is ignored, and one that does not
    acknowledge the SYN is too; neither is answered with a RST. *)
Definition bad_reset : TCPSegment := from_peer 5 77 false true true false [].
Definition bad_ack : TCPSegment := from_peer 5 77 false true false false [].

Theorem any_reset_kills :
  active (reached []) = true /\ active (reached [Segment bad_reset]) = false /\
  active (reached [Connect; Take]) = true /\ active (reached [Connect; Take; Segment bad_reset]) = false /\
  active (reached handshake) = true /\
  active (reached (handshake ++ [Segment (from_peer 1000000 101 false true true false [])])) = false /\
  run [Segment bad_ack] [] sample_fresh = Some ([], sample_fresh) /\
  reached [Connect; Take; Segment bad_ack] = reached [Connect; Take].
Proof. vm_compute. done. Qed.

(** A receive capacity of 65536 is advertised as a window of 0. *)
Definition wide : result TCPConnection :=
  segment_received (from_peer 4294967295 0 true false false false [])
    (construct (TCPSender.mkTCPConfig 1000 65536 64000 (Some (mkWrappingInt32 100))) 0).

Theorem wide_window_advertised_as_zero :
  match wide with
  | Ok c => TCPReceiver.window_size (receiver c) = 65536 /\
            (fun g => TCPHeader.win (TCPSegment.header g)) <$> segments_out c = [0]
  | Throw _ => False
  end.
Proof. vm_compute. done. Qed.
