(* ===== verification/EndToEnd.v ===== *)
(** A sender and a receiver joined by a network that loses, duplicates, reorders
    and delays segments.  The segments are stamped by the connection, serialized,
    and parsed at the other end. *)
From S2P Require Import Prelude WrappingIntegers.
From S2P Require Buffer Parser ByteStream StreamReassembler TCPSegment TCPHeader TCPReceiver TCPSender.
From S2P Require TCPConnection.
Import TCPSegment(TCPSegment).
Import TCPReceiver(TCPReceiver).
Module SR := StreamReassembler.

(** [g] is serialized over some pseudo-header sum, and [seg] is parsed from it. *)
Definition crosses (g seg : TCPSegment) : Prop :=
  exists ck old l, TCPSegment.wf ck g /\ TCPSegment.serialize g ck = Ok l /\
    TCPSegment.parse old (Buffer.of_string (Buffer.concatenate l)) ck = Ok (Parser.NoError, seg).

Lemma crosses_same g seg : crosses g seg -> TCPConnection.same_content g seg.
Proof.
  intros (ck & old & l & Hwf & Hs & Hp).
  destruct (TCPSegment.segment_parse_serialize ck g old Hwf) as (l' & seg' & Hs' & Hp' & Hh & Hd).
  rewrite Hs in Hs'. injection Hs' as <-. rewrite Hp in Hp'. injection Hp' as <-.
  unfold TCPConnection.same_content. rewrite Hh, Hd. done.
Qed.

Lemma same_content_trans g h i :
  TCPConnection.same_content g h -> TCPConnection.same_content h i ->
  TCPConnection.same_content g i.
Proof. unfold TCPConnection.same_content. intuition congruence. Qed.

(** The stream of the receiver's theorems: what the application wrote. *)
Definition stream_of (W : bytes) (i : Z) : byte := default Byte.x00 (W !! Z.to_nat i).

Lemma slice_stream_of W a n :
  0 <= a -> a + Z.of_nat n <= size W ->
  slice (stream_of W) a n = take n (drop (Z.to_nat a) W).
Proof.
  intros Ha Hn. apply list_eq. intros i. destruct (decide (i < n)%nat) as [Hi|Hi].
  - rewrite slice_lookup, lookup_take_lt, lookup_drop by done. unfold stream_of.
    replace (Z.to_nat (a + Z.of_nat i)) with (Z.to_nat a + i)%nat by lia.
    destruct (lookup_lt_is_Some_2 W (Z.to_nat a + i)) as [x Hx]; [unfold size in Hn; lia|].
    by rewrite Hx.
  - rewrite !lookup_ge_None_2; [done| |].
    + rewrite length_take. lia.
    + rewrite slice_length. lia.
Qed.

(** A segment at number [a] that the receiver can place: it starts in the window
    and near enough to be identified; the FIN lies in the window; and a segment
    without payload comes after the data it follows, if it ends the stream, or
    does not sit where an end already announced is still missing data. *)
Definition placeable (W : bytes) (r : TCPReceiver) (a : Z) (seg : TCPSegment) : Prop :=
  let ra := TCPReceiver.reassembler r in
  let F := SR.firstindex ra in
  let fin := TCPHeader.fin (TCPSegment.header seg) in
  index_of a <= F + SR.capacity ra < 9223372036854775808 /\ Z.abs (a - F) < 2147483648 /\
  (fin = true -> size W <= F + SR.capacity ra) /\
  (Buffer.str (TCPSegment.payload seg) = [] ->
     (fin = true /\ F = size W) \/
     (fin = false /\ (SR.checkeof ra = true -> F = index_of a -> F = size W))).

Section Transfer.
(** What the application wrote, the segments the sender transmitted, and the
    sender's initial sequence number. *)
Context (W : bytes) (log : list TCPSegment) (n0 : WrappingInt32).

(** Bytes read by the receiving application so far, and the receiver. *)
Inductive deliver : bytes * TCPReceiver -> bytes * TCPReceiver -> Prop :=
| deliver_segment t r seg0 g seg a b r' :
    seg0 ∈ log -> TCPConnection.same_content seg0 g -> crosses g seg ->
    TCPSender.carries W n0 a seg0 -> (TCPReceiver.isnset r = false -> a = 0) ->
    placeable W r a seg -> TCPReceiver.segment_received seg r = Ok (b, r') ->
    deliver (t, r) (t, r')
| deliver_read t r len u o :
    0 <= len -> ByteStream.read len (TCPReceiver.stream_out r) = (u, o) ->
    deliver (t, r) (t ++ u, TCPReceiver.set_stream_out o r).

Lemma deliver_step st st' :
  deliver st st' -> TCPReceiver.step (stream_of W) (size W) n0 st st'.
Proof using.
  intros Hd. destruct Hd as [t r seg0 g seg a b r' _ Hsame Hcross Hc Hfirst Hpl Hr|];
    [|by econstructor].
  apply (TCPReceiver.step_segment _ _ _ t r seg a b r' Hfirst); [|exact Hr].
  pose proof (crosses_same g seg Hcross) as Hs2.
  pose proof (TCPConnection.same_content_carries W n0 a seg0 seg
    (same_content_trans _ _ _ Hsame Hs2) Hc) as Hcs.
  destruct Hpl as ([Hi Hcap] & Hnear & Hfin & Hemp). destruct Hcs as [H0 H1 H2 H3 _ H5 H6 _].
  assert (0 <= index_of a) by (unfold index_of; case_Z; lia).
  split; [done|]. split; [done|]. split; [done|]. split; [|done].
  split; [rewrite slice_stream_of by (unfold size in *; lia); exact H3|].
  split; [done|]. split; [lia|]. split; [done|]. split; [|done].
  intros Hf. split; [by apply H6|by apply Hfin].
Qed.
End Transfer.

(** C1: reliable transfer.  Take any run of a sender: its application writes
    [W] in pieces, acknowledgements, timeouts and retransmissions happen in any
    order.  Let its segments be stamped, serialized and carried by a network that
    drops, repeats and reorders them, and let a fresh receiver parse the ones it
    can place, interleaved with reads.  Then what the receiving application has
    read, with what it can read next, is exactly a prefix of [W]; and if it is
    told that the stream has ended, it has all of [W]. *)
Theorem reliable_transfer c t i random W log s rc u r :
  0 <= c < M64 -> 0 <= t < 65536 -> 0 < rc < M64 -> wi_wf (TCPSender.isn s) ->
  rtc TCPSender.step ([], [], TCPSender.construct c t i random) (W, log, s) ->
  rtc (deliver W log (TCPSender.isn s)) ([], TCPReceiver.construct rc) (u, r) ->
  let got := u ++ ByteStream.content (TCPReceiver.stream_out r) in
  got = take (length got) W /\
  (ByteStream.input_ended (TCPReceiver.stream_out r) = true -> got = W).
Proof.
  intros Hc Ht Hrc Hn Hrun Hdel. cbv zeta.
  destruct (TCPSender.sender_run_reaches c t i random W log s Hc Ht Hrun) as [H _].
  pose proof (TCPSender.wf_size _ _ H) as HW. pose proof (size_nonneg W) as HW0.
  assert (Hinv : TCPReceiver.inv (stream_of W) (size W) (TCPSender.isn s) u r).
  { apply (TCPReceiver.reaches_inv (stream_of W) (size W) HW0 HW (TCPSender.isn s) Hn rc u r Hrc).
    eapply rtc_subrel; [|exact Hdel]. apply deliver_step. }
  pose proof (TCPReceiver.inv_run _ _ _ _ _ Hinv) as Hr.
  pose proof (SR.run_content _ _ _ _ Hr) as Hcont.
  pose proof (SR.inv_first_le _ _ HW0 _ _ Hr) as HF.
  pose proof (SR.wf_first_nonneg _ _ (SR.inv_wf _ _ _ _ Hr)) as HF0.
  rewrite slice_stream_of in Hcont by lia. rewrite drop_0 in Hcont.
  unfold TCPReceiver.stream_out, SR.stream_out. rewrite Hcont. split.
  - rewrite length_take. f_equal. unfold size in HF. lia.
  - intros He. apply (SR.inv_end _ _ _ _ Hr) in He. rewrite He.
    apply take_ge. unfold size. lia.
Qed.

(** ** The sender's sample run, delivered *)

Definition over_wire (g : TCPSegment) : TCPSegment :=
  match TCPSegment.serialize g 0 with
  | Ok l =>
      match TCPSegment.parse TCPSegment.default (Buffer.of_string (Buffer.concatenate l)) 0 with
      | Ok (_, seg) => seg
      | Throw _ => TCPSegment.default
      end
  | Throw _ => TCPSegment.default
  end.

Lemma crosses_over_wire g : TCPSegment.wf 0 g -> crosses g (over_wire g).
Proof.
  intros H. destruct (TCPSegment.segment_parse_serialize 0 g TCPSegment.default H) as (l & seg & E1 & E2 & _).
  exists 0, TCPSegment.default, l. unfold over_wire. by rewrite E1, E2.
Qed.

Definition sample_log : list TCPSegment :=
  TCPSender.segments_out TCPSender.sample_syn ++ TCPSender.segments_out TCPSender.sample_full.
Definition sample_sender : TCPSender.TCPSender :=
  TCPSender.set_segments_out [] TCPSender.sample_full.
Definition sample_syn_seg : TCPSegment :=
  TCPSender.built TCPSender.sample_start [] false.
Definition sample_data_seg : TCPSegment :=
  TCPSender.built TCPSender.sample_open TCPSender.sample_data false.

Lemma sample_log_eq : sample_log = [sample_syn_seg; sample_data_seg].
Proof. vm_compute. reflexivity. Qed.

Lemma sample_sender_run :
  rtc TCPSender.step ([], [], TCPSender.sample_start)
    (TCPSender.sample_data, sample_log, sample_sender).
Proof.
  eapply rtc_r; [exact TCPSender.sample_run_full|]. apply TCPSender.step_transmit.
  by rewrite app_nil_r.
Qed.

Definition receive (g : TCPSegment) (r : TCPReceiver) : TCPReceiver :=
  match TCPReceiver.segment_received (over_wire g) r with Ok (_, r') => r' | Throw _ => r end.
Definition sample_synced : TCPReceiver := receive sample_syn_seg (TCPReceiver.construct 8).
Definition sample_received : TCPReceiver := receive sample_data_seg sample_synced.

(** The sample segments have a wire form. *)
Lemma built_wf s data fin :
  0 <= size data < 1000 -> TCPSegment.wf 0 (TCPSender.built s data fin).
Proof.
  intros Hd. constructor; cbn.
  - constructor; cbn; try lia; [apply wrap_wf|]. unfold wi_wf. cbn. lia.
  - lia.
  - lia.
  - rewrite Buffer.str_of_string by lia. lia.
Qed.

Lemma same_content_refl g : TCPConnection.same_content g g.
Proof. done. Qed.

Lemma sample_delivery :
  rtc (deliver TCPSender.sample_data sample_log (TCPSender.isn sample_sender))
    ([], TCPReceiver.construct 8) ([], sample_received).
Proof.
  eapply rtc_l; [|apply rtc_once].
  - eapply (deliver_segment _ _ _ [] (TCPReceiver.construct 8) sample_syn_seg sample_syn_seg
      (over_wire sample_syn_seg) 0 true sample_synced).
    + rewrite sample_log_eq. apply list_elem_of_here.
    + apply same_content_refl.
    + apply crosses_over_wire, built_wf. vm_compute. intuition congruence.
    + constructor; vm_compute; intuition congruence.
    + done.
    + vm_compute. intuition congruence.
    + vm_compute. reflexivity.
  - eapply (deliver_segment _ _ _ [] sample_synced sample_data_seg sample_data_seg
      (over_wire sample_data_seg) 1 true sample_received).
    + rewrite sample_log_eq. apply list_elem_of_further, list_elem_of_here.
    + apply same_content_refl.
    + apply crosses_over_wire, built_wf. vm_compute. intuition congruence.
    + constructor; vm_compute; intuition congruence.
    + intros H. vm_compute in H. discriminate H.
    + vm_compute. intuition congruence.
    + vm_compute. reflexivity.
Qed.

Lemma reliable_transfer_witness :
  ByteStream.content (TCPReceiver.stream_out sample_received) = TCPSender.sample_data /\
  [] ++ ByteStream.content (TCPReceiver.stream_out sample_received) =
  take (length ([] ++ ByteStream.content (TCPReceiver.stream_out sample_received)))
    TCPSender.sample_data.
Proof.
  split; [vm_compute; reflexivity|].
  assert (Hn : wi_wf (TCPSender.isn sample_sender)) by (vm_compute; intuition congruence).
  destruct (reliable_transfer 100 1000 (Some TCPSender.sample_isn) 0 TCPSender.sample_data
    sample_log sample_sender 8 [] sample_received ltac:(lia) ltac:(lia) ltac:(lia) Hn
    sample_sender_run sample_delivery) as [H _].
  exact H.
Defined.
