(* ===== verification/Progress.v ===== *)
(** Liveness of a transfer: a sender whose application has written everything and closed
    the stream, and a receiver whose application reads what arrives, finish within a
    bounded number of round trips, with a network that delivers, and also with one
    that loses every first transmission. *)
From S2P Require Import Prelude WrappingIntegers.
From S2P Require Buffer ByteStream StreamReassembler TCPSegment TCPHeader TCPReceiver TCPSender.
From S2P Require TCPConnection.
Import TCPSegment(TCPSegment).
Import TCPReceiver(TCPReceiver).
Import TCPSender(TCPSender).
Import TCPConnection(same_content).
Module SR := StreamReassembler.

(** ** A round trip *)

Section Round.
(** What the network makes of a segment. *)
Context (wire : TCPSegment -> TCPSegment).

(** The receiver gets a segment, and its application reads all there is. *)
Definition receive (g : TCPSegment) (st : bytes * TCPReceiver) : result (bytes * TCPReceiver) :=
  let '(u, r) := st in
  '(_, r) ← TCPReceiver.segment_received (wire g) r;
  let o := TCPReceiver.stream_out r in
  let '(t, o) := ByteStream.read (ByteStream.buffer_size o) o in
  Ok (u ++ t, TCPReceiver.set_stream_out o r).

Fixpoint receive_all (q : list TCPSegment) (st : bytes * TCPReceiver) : result (bytes * TCPReceiver) :=
  match q with
  | [] => Ok st
  | g :: q => st ← receive g st; receive_all q st
  end.

(** The time that is left until the retransmission timer runs out. *)
Definition time_left (s : TCPSender) : Z :=
  let t := TCPSender.sendtimer s in
  u64 (TCPSender.start_time t + TCPSender.rto t - TCPSender.time s).

(** One round: the sender's queue is delivered, or, when it is [lost], the time-out
    is awaited and what is then sent is delivered; the receiver's acknowledgement
    goes back. *)
Definition round (lost : bool) (st : bytes * TCPSender * TCPReceiver)
    : result (bytes * TCPSender * TCPReceiver) :=
  let '(u, s, r) := st in
  s ← (if lost then TCPSender.tick (time_left s) (TCPSender.set_segments_out [] s) else Ok s);
  '(u, r) ← receive_all (TCPSender.segments_out s) (u, r);
  let s := TCPSender.set_segments_out [] s in
  Ok (match TCPReceiver.ackno r with
      | Some a => (u, snd (TCPSender.ack_received a (TCPReceiver.window_size r) s), r)
      | None => (u, s, r)
      end).

(** Rounds, until the sender knows that everything has arrived. *)
Fixpoint transfer (losses : list bool) (st : bytes * TCPSender * TCPReceiver)
    : result (bytes * TCPSender * TCPReceiver) :=
  match losses with
  | [] => Ok st
  | lost :: losses =>
      if TCPSender.fin_acked st.1.2 then Ok st else st ← round lost st; transfer losses st
  end.

End Round.

(** A sender to whose stream [W] was written and that was then closed. *)
Definition loaded (c t : Z) (i : option WrappingInt32) (random : Z) (W : bytes) : TCPSender :=
  let s := TCPSender.construct c t i random in
  let s := TCPSender.set_stream (snd (ByteStream.write W (TCPSender.stream s))) s in
  TCPSender.set_stream (ByteStream.end_input (TCPSender.stream s)) s.
Definition ready (c t : Z) (i : option WrappingInt32) (random : Z) (W : bytes) : TCPSender :=
  TCPSender.fill_window (loaded c t i random W).

(** ** What the sender's operations leave alone *)

Lemma fill_body_frame s :
  TCPSender.consecutive_retrans_v (TCPSender.fill_body s).1 = TCPSender.consecutive_retrans_v s /\
  ByteStream.bs_end (TCPSender.stream (TCPSender.fill_body s).1) = ByteStream.bs_end (TCPSender.stream s).
Proof.
  unfold TCPSender.fill_body. destruct (TCPSender.eof s); [done|].
  destruct (_ || _); [done|]. destruct (_ && _); [done|]. cbn [ByteStream.read fst snd].
  destruct (_ <? _);
    match goal with |- context [TCPSender.enqueue ?g ?b ?e s] =>
      destruct (TCPSender.enqueue_fields g b e s) as (_ & _ & _ & E & F & _) end;
    cbn [fst]; rewrite E, F; done.
Qed.

Lemma fill_window_frame s :
  TCPSender.consecutive_retrans_v (TCPSender.fill_window s) = TCPSender.consecutive_retrans_v s /\
  ByteStream.bs_end (TCPSender.stream (TCPSender.fill_window s)) = ByteStream.bs_end (TCPSender.stream s).
Proof.
  unfold TCPSender.fill_window. generalize (TCPSender.fill_fuel s). intros n. revert s.
  induction n as [|n IH]; intros s; [done|]. cbn [TCPSender.fill_loop].
  pose proof (fill_body_frame s) as [E F]. destruct (TCPSender.fill_body s) as [s' []]; cbn in E, F.
  - destruct (IH s') as [-> ->]. done.
  - done.
Qed.

Lemma tick_frame ms s s' :
  TCPSender.tick ms s = Ok s' ->
  TCPSender.window_size s' = TCPSender.window_size s /\ TCPSender.stream s' = TCPSender.stream s /\
  TCPSender.eof s' = TCPSender.eof s.
Proof.
  unfold TCPSender.tick. cbn. destruct (TCPSender.active _); [|by intros [= <-]].
  destruct (TCPSender.timeout _); [|by intros [= <-]].
  destruct (TCPSender.unacked s); [done|]. by intros [= <-].
Qed.

(** An acknowledgement at the border of two segments removes exactly the first ones. *)
Lemma pop_acked_border W n0 p q : forall a k b,
  TCPSender.tiles W n0 a p k -> TCPSender.tiles W n0 k q b -> 0 <= a ->
  b < 9223372036854775808 -> b - a < 2147483648 ->
  TCPSender.pop_acked n0 k (p ++ q) = q.
Proof.
  induction p as [|g p IH]; intros a k b Hp Hq Ha Hb Hn; cbn [app].
  - cbn in Hp. subst a. destruct q as [|g q]; [done|]. cbn in Hq. destruct Hq as [Hg Hq].
    pose proof (TCPSender.tiles_le _ _ _ _ _ Hq). pose proof (TCPSender.carries_len _ _ _ _ Hg).
    cbn [TCPSender.pop_acked]. rewrite (TCPSender.c_seqno _ _ _ _ Hg), unwrap_wrap_near, u64_id by lia.
    case_Z; [lia|done].
  - cbn in Hp. destruct Hp as [Hg Hp]. pose proof (TCPSender.tiles_le _ _ _ _ _ Hp).
    pose proof (TCPSender.tiles_le _ _ _ _ _ Hq). pose proof (TCPSender.carries_len _ _ _ _ Hg).
    cbn [TCPSender.pop_acked]. rewrite (TCPSender.c_seqno _ _ _ _ Hg), unwrap_wrap_near, u64_id by lia.
    case_Z; [|lia]. apply (IH _ _ _ Hp Hq); lia.
Qed.

Lemma accept_ack_unacked k s :
  TCPSender.unacked (TCPSender.accept_ack k s) =
  TCPSender.pop_acked (TCPSender.isn s) k (TCPSender.unacked s) /\
  TCPSender.consecutive_retrans_v (TCPSender.accept_ack k s) = 0 /\
  TCPSender.stream (TCPSender.accept_ack k s) = TCPSender.stream s /\
  TCPSender.eof (TCPSender.accept_ack k s) = TCPSender.eof s.
Proof. unfold TCPSender.accept_ack. cbn. by destruct (negb _). Qed.

(** ** The receiver, when segments come in order *)

Section Transfer.
Context (wire : TCPSegment -> TCPSegment) (W : bytes) (n0 : WrappingInt32) (c : Z).
Hypothesis Hwire : forall a g, TCPSender.carries W n0 a g -> same_content g (wire g).
Hypothesis Hn0 : wi_wf n0.
Hypothesis Hc : 0 < c < 65536.
Hypothesis HW : size W < 4611686018427300000.

(** The first [F] bytes have arrived and been read, and the end has or has not. *)
Definition idle (F : Z) (fin : bool) : TCPReceiver :=
  TCPReceiver.mkReceiver
    (SR.mkReassembler 0 fin [] F (ByteStream.mkByteStream false fin [] F F c) c) c n0 true fin.

(** The state after everything before sequence number [k]. *)
Definition received (k : Z) : bytes * TCPReceiver :=
  (take (Z.to_nat (k - 1)) W,
   if k =? 0 then TCPReceiver.construct c else idle (Z.min (k - 1) (size W)) (k =? size W + 2)).

Lemma idle_ackno F fin :
  0 <= F <= size W ->
  TCPReceiver.ackno (idle F fin) = Some (wrap (1 + F + TCPSender.b2z fin) n0) /\
  TCPReceiver.window_size (idle F fin) = c.
Proof using Hc HW.
  intros HF. unfold TCPReceiver.ackno, TCPReceiver.window_size, ByteStream.remaining_capacity. cbn.
  rewrite !u64_id; [|size_simpl; lia|destruct fin; cbn; lia]. split; [|size_simpl; lia].
  by destruct fin.
Qed.

(** The reassembler gets the next bytes, or the end alone. *)
Lemma push_idle F d fin :
  0 <= F -> F + size d <= size W -> size d <= c -> 0 < size d \/ fin = true ->
  SR.push_substring d F fin (TCPReceiver.reassembler (idle F false)) =
  Ok (SR.mkReassembler 0 fin [] (F + size d)
        (ByteStream.mkByteStream false fin d F (F + size d) c) c).
Proof using Hc HW.
  intros HF Hd Hdc He. destruct (Z.eq_dec (size d) 0) as [E|E].
  - apply size_0_nil in E as ->. destruct He as [He| ->]; [discriminate He|].
    rewrite SR.push_empty. cbn. rewrite Z.eqb_refl. size_simpl. by rewrite Z.add_0_r.
  - pose proof (size_nonneg d). cbn [TCPReceiver.reassembler idle].
    rewrite SR.push_alone by (done || lia). rewrite substr0_all by lia. cbv zeta.
    unfold ByteStream.write, ByteStream.remaining_capacity. cbn. size_simpl.
    rewrite (u64_id (c - 0)) by lia. case_Z; [|lia]. rewrite substr0_all, u64_id by lia.
    rewrite Z.min_r, orb_false_r by lia. by destruct fin.
Qed.

Lemma receive_next g F u :
  TCPSender.carries W n0 (1 + F) g -> 0 <= F ->
  let d := Buffer.str (TCPSegment.payload g) in
  let fin := TCPHeader.fin (TCPSegment.header g) in
  size d <= c -> receive wire g (u, idle F false) = Ok (u ++ d, idle (F + size d) fin).
Proof using All.
  intros Hg HF d fin Hd. destruct (Hwire _ _ Hg) as (Eseq & Esyn & Efin & Edata).
  pose proof (TCPSender.c_bound _ _ _ _ Hg) as Hb. pose proof (TCPSender.c_nonempty _ _ _ _ Hg) as Hn.
  pose proof (TCPSender.c_max _ _ _ _ Hg) as Hm. rewrite TCPSender.len_eq in Hn by done.
  rewrite (TCPSender.c_syn _ _ _ _ Hg) in Hn, Esyn. rewrite (TCPSender.c_seqno _ _ _ _ Hg) in Eseq.
  fold d in Hb, Hn, Hm, Edata. fold fin in Hn, Efin.
  assert (Ei : index_of (1 + F) = F) by (unfold index_of; case_Z; lia). rewrite Ei in Hb.
  replace (1 + F =? 0) with false in * by lia. cbn [TCPSender.b2z] in Hn.
  unfold receive, TCPReceiver.segment_received. cbv zeta.
  cbn [TCPReceiver.isnset idle negb]. rewrite <- Eseq, <- Esyn, <- Efin. cbn [negb].
  change (ByteStream.bytes_written _) with F. unfold Buffer.copy. rewrite <- Edata.
  cbn [TCPReceiver.isn]. pose proof (size_nonneg d).
  rewrite unwrap_wrap_near, (u64_id (1 + F - 1)) by lia. replace (1 + F - 1) with F by lia.
  fold (idle F false). destruct (idle_ackno F false) as [-> _]; [lia|].
  cbn [TCPReceiver.value mbind result_bind TCPReceiver.reassembler TCPReceiver.finset].
  change (SR.mkReassembler 0 false [] F (ByteStream.mkByteStream false false [] F F c) c)
    with (TCPReceiver.reassembler (idle F false)).
  rewrite push_idle; [|lia..|destruct fin; cbn in Hn; [by right|left; lia]].
  cbn [mbind result_bind ByteStream.read TCPReceiver.stream_out SR.stream_out TCPReceiver.reassembler
       SR.output idle].
  unfold ByteStream.peek_output, ByteStream.pop_output, ByteStream.buffer_size. cbn.
  rewrite !Z.leb_refl. rewrite substr0_all by lia. unfold idle, TCPReceiver.set_stream_out, SR.set_output.
  cbn. rewrite u64_id by lia.
  assert (substr0_rest d (size d) = []) as ->.
  { apply size_0_nil. rewrite substr0_rest_size by lia. lia. }
  by destruct fin.
Qed.

Lemma receive_syn g :
  TCPSender.carries W n0 0 g -> TCPSender.len g = 1 ->
  receive wire g ([], TCPReceiver.construct c) = Ok ([], idle 0 false).
Proof using Hwire Hn0.
  intros Hg Hl. destruct (Hwire _ _ Hg) as (Eseq & Esyn & Efin & Edata).
  rewrite (TCPSender.c_syn _ _ _ _ Hg) in Esyn. rewrite (TCPSender.c_seqno _ _ _ _ Hg) in Eseq.
  rewrite TCPSender.len_eq, (TCPSender.c_syn _ _ _ _ Hg) in Hl by apply Hg.
  pose proof (size_nonneg (Buffer.str (TCPSegment.payload g))).
  assert (Hfin : TCPHeader.fin (TCPSegment.header g) = false).
  { destruct (TCPHeader.fin _); [cbn in Hl; lia|done]. }
  assert (Hd : Buffer.str (TCPSegment.payload g) = []).
  { apply size_0_nil. rewrite Hfin in Hl. cbn in Hl. lia. }
  unfold receive, TCPReceiver.segment_received. cbv zeta. cbn [TCPReceiver.construct TCPReceiver.isnset negb].
  rewrite <- Eseq, <- Esyn, <- Efin, Hfin. unfold Buffer.copy. rewrite <- Edata, Hd, wrap_0 by done. done.
Qed.

(** A segment at the number that is expected next is received completely. *)
Lemma receive_expected k g :
  TCPSender.carries W n0 k g -> (k = 0 -> TCPSender.len g = 1) -> TCPSender.len g <= c ->
  receive wire g (received k) = Ok (received (k + TCPSender.len g)).
Proof using All.
  intros Hg Hsyn Hl. pose proof (TCPSender.c_pos _ _ _ _ Hg).
  pose proof (size_nonneg W). unfold received at 1. case_Z.
  - subst k. rewrite Hsyn by done. change (take (Z.to_nat (0 - 1)) W) with (@nil byte).
    rewrite receive_syn by auto. unfold received. change (0 + 1 =? 0) with false. change (0 + 1 - 1) with 0.
    replace (0 + 1 =? size W + 2) with false by lia. by rewrite Z.min_l by lia.
  - pose proof (TCPSender.c_bound _ _ _ _ Hg) as Hb. pose proof (TCPSender.c_fin _ _ _ _ Hg) as Hf.
    pose proof (TCPSender.c_data _ _ _ _ Hg) as Hd.
    rewrite TCPSender.len_eq, (TCPSender.c_syn _ _ _ _ Hg) in * by apply Hg.
    assert (Ei : index_of k = k - 1) by (unfold index_of; case_Z; lia). rewrite Ei in *.
    replace (k =? 0) with false in * by lia. cbn [TCPSender.b2z] in *. rewrite Z.add_0_r in *.
    pose proof (size_nonneg (Buffer.str (TCPSegment.payload g))).
    replace (k =? size W + 2) with false by lia. rewrite Z.min_l by lia.
    assert (Hg' : TCPSender.carries W n0 (1 + (k - 1)) g) by (by replace (1 + (k - 1)) with k by lia).
    rewrite (receive_next g (k - 1)); [|done|lia|].
    2: { destruct (TCPHeader.fin _); cbn in Hl; lia. }
    rewrite Hd at 1. rewrite take_take_drop. unfold received.
    destruct (TCPHeader.fin _); cbn [TCPSender.b2z].
    + specialize (Hf eq_refl). do 2 f_equal.
      * rewrite !take_ge; [done|unfold size in *; lia..].
      * replace (_ =? 0) with false by lia. f_equal; lia.
    + rewrite Z.add_0_r. do 2 f_equal.
      * f_equal. unfold size. lia.
      * replace (_ =? 0) with false by lia. f_equal; lia.
Qed.

Lemma receive_tiles q : forall k b,
  TCPSender.tiles W n0 k q b -> 0 <= k -> (k = 0 -> b <= 1) -> b - k <= c ->
  receive_all wire q (received k) = Ok (received b).
Proof using All.
  induction q as [|g q IH]; intros k b; cbn [TCPSender.tiles receive_all].
  - by intros ->.
  - intros [Hg Hq] Hk H0 Hb. pose proof (TCPSender.carries_len _ _ _ _ Hg).
    pose proof (TCPSender.tiles_le _ _ _ _ _ Hq).
    rewrite receive_expected; [|done|lia..]. cbn [mbind result_bind]. apply IH; [done|lia..].
Qed.

(** ** The sender between two rounds *)

(** Everything before [k] is acknowledged, the window is full or everything has been
    sent, and nothing else will be written. *)
Record sending (k : Z) (s : TCPSender) : Prop := {
  g_wf : TCPSender.wf W s;
  g_isn : TCPSender.isn s = n0;
  g_acked : TCPSender.byte_received s = k;
  g_unacked : TCPSender.tiles W n0 k (TCPSender.unacked s) (TCPSender.byte_sent s);
  g_full : TCPSender.full s;
  g_window : TCPSender.window_size s = if k =? 0 then 1 else c;
  g_fits : TCPSender.byte_sent s - k <= TCPSender.win s;
  g_closed : ByteStream.bs_end (TCPSender.stream s) = true;
  g_retrans : TCPSender.consecutive_retrans_v s = 0
}.

Lemma sending_range k s : sending k s -> 0 <= k <= TCPSender.byte_sent s /\ TCPSender.byte_sent s <= size W + 2.
Proof using.
  intros G. pose proof (TCPSender.wf_sent_bound _ _ (g_wf _ _ G)).
  pose proof (TCPSender.wf_received _ _ (g_wf _ _ G)). rewrite (g_acked _ _ G) in *. lia.
Qed.

Lemma sending_win k s : sending k s -> TCPSender.win s = if k =? 0 then 1 else c.
Proof using Hc. intros G. unfold TCPSender.win. rewrite (g_window _ _ G). destruct (k =? 0); lia. Qed.

(** As long as something is missing, something is in flight. *)
Lemma sending_busy k s : sending k s -> k < size W + 2 -> TCPSender.unacked s <> [].
Proof using Hc.
  intros G Hk E. pose proof (g_unacked _ _ G) as Ht. rewrite E in Ht. cbn in Ht.
  pose proof (g_wf _ _ G) as H. destruct (g_full _ _ G) as [He|[Hw|(_ & Hb & Hn)]].
  - pose proof (TCPSender.wf_eof _ _ H He) as Heof. unfold ByteStream.eof in Heof.
    apply andb_true_iff in Heof as [_ Hempty]. unfold ByteStream.buffer_empty in Hempty.
    apply Z.eqb_eq, size_0_nil in Hempty. rewrite (TCPSender.wf_content _ _ H) in Hempty.
    assert (size W <= ByteStream.alread (TCPSender.stream s)).
    { apply (f_equal (@Datatypes.length byte)) in Hempty. rewrite length_drop in Hempty.
      pose proof (ByteStream.wf_read _ (TCPSender.wf_stream _ _ H)). cbn in Hempty.
      unfold size. lia. }
    destruct (Z.eq_dec (TCPSender.byte_sent s) 0) as [E0|E0].
    + destruct (TCPSender.wf_sent0 _ _ H E0) as [_ ?]. congruence.
    + pose proof (TCPSender.wf_sent _ _ H E0) as Hs. rewrite He in Hs. cbn in Hs. lia.
  - rewrite (sending_win k s G), (g_acked _ _ G) in Hw. destruct (k =? 0); lia.
  - unfold ByteStream.eof in Hn. by rewrite (g_closed _ _ G), Hb in Hn.
Qed.

(** ** A round makes progress *)

(** The acknowledgement of the first segments in flight. *)
Lemma ack_progress k k' s p q :
  TCPSender.wf W s -> TCPSender.isn s = n0 -> TCPSender.byte_received s = k ->
  TCPSender.unacked s = p ++ q -> TCPSender.tiles W n0 k p k' ->
  TCPSender.tiles W n0 k' q (TCPSender.byte_sent s) -> k < k' ->
  TCPSender.byte_sent s - k' <= c -> ByteStream.bs_end (TCPSender.stream s) = true ->
  TCPSender.segments_out s = [] ->
  let s' := snd (TCPSender.ack_received (wrap k' n0) c s) in
  sending k' s' /\ exists new, TCPSender.unacked s' = q ++ new /\ TCPSender.segments_out s' = new.
Proof using Hc HW.
  intros H Hi Hk Hu Hp Hq Hlt Hfit Hend Hout s'.
  pose proof (TCPSender.tiles_le _ _ _ _ _ Hq) as Hle.
  pose proof (TCPSender.wf_sent_bound _ _ H). pose proof (TCPSender.wf_received _ _ H).
  pose proof (TCPSender.wf_flight _ _ H).
  assert (Hs1 : TCPSender.wf W (TCPSender.set_window_size c s)) by (apply TCPSender.set_window_wf; [done|lia]).
  set (s1 := TCPSender.set_window_size c s) in *. set (s2 := TCPSender.accept_ack k' s1).
  assert (E : s' = TCPSender.fill_window s2).
  { subst s'. destruct (TCPSender.ack_received_spec W s (wrap k' n0) c H) as [-> _]; [lia|].
    rewrite Hi, Hk, unwrap_wrap_near by lia.
    replace (_ <? _) with false by lia. replace (k' <? k) with false by lia.
    by replace (k' =? k) with false by lia. }
  destruct (TCPSender.accept_ack_wf W s1 k' Hs1) as (Hs2' & Hr2 & Hs2 & Hi2 & Hw2 & Ho2 & _).
  { change (TCPSender.byte_received s1) with (TCPSender.byte_received s).
    change (TCPSender.byte_sent s1) with (TCPSender.byte_sent s). lia. }
  fold s2 in Hs2', Hr2, Hs2, Hi2, Hw2, Ho2.
  destruct (accept_ack_unacked k' s1) as (Hu2 & Hc2 & Hst2 & He2). fold s2 in Hu2, Hc2, Hst2, He2.
  change (TCPSender.byte_sent s1) with (TCPSender.byte_sent s) in *.
  change (TCPSender.isn s1) with (TCPSender.isn s) in *.
  change (TCPSender.unacked s1) with (TCPSender.unacked s) in Hu2.
  change (TCPSender.segments_out s1) with (TCPSender.segments_out s) in Ho2.
  change (TCPSender.window_size s1) with c in Hw2.
  change (TCPSender.stream s1) with (TCPSender.stream s) in Hst2.
  rewrite Hi, Hu, (pop_acked_border W n0 p q k k' (TCPSender.byte_sent s)) in Hu2 by (done || lia).
  destruct (TCPSender.fill_window_spec W s2 Hs2')
    as (Hs3 & Hf3 & _ & Hi3 & Hw3 & Hr3 & new & Hu3 & Ho3 & Ht3 & Hn3).
  destruct (fill_window_frame s2) as [Hc3 Hb3]. rewrite <- E in *.
  rewrite Ho2, Hout in Ho3. rewrite Hu2 in Hu3. rewrite Hi2, Hi, Hs2 in Ht3.
  split; [|by exists new].
  assert (Hwin : TCPSender.win s2 = c) by (unfold TCPSender.win; rewrite Hw2; lia).
  constructor; try congruence; try done.
  - rewrite Hu3. clear -Hq Ht3. revert Hq. generalize k'. induction q as [|g q IH]; intros a; cbn.
    + by intros ->.
    + intros [Hg Hq]. split; [done|by apply IH].
  - rewrite Hw3, Hw2. by replace (k' =? 0) with false by lia.
  - replace (TCPSender.win s') with c by (unfold TCPSender.win; rewrite Hw3, Hw2; lia).
    destruct new as [|g new].
    + cbn in Ht3. lia.
    + rewrite Hwin, Hr3, Hr2 in Hn3. by apply Hn3.
Qed.

(** The states between rounds: the queue holds what is in flight, unless segments
    have been lost before. *)
Definition between (k : Z) (lossless : bool) (st : bytes * TCPSender * TCPReceiver) : Prop :=
  exists s, st = ((received k).1, s, (received k).2) /\ sending k s /\
    (lossless = true -> TCPSender.segments_out s = TCPSender.unacked s).

Lemma received_ackno k :
  0 < k <= size W + 2 ->
  TCPReceiver.ackno (received k).2 = Some (wrap k n0) /\ TCPReceiver.window_size (received k).2 = c.
Proof using Hc HW.
  intros Hk. pose proof (size_nonneg W). unfold received. cbn [snd]. replace (k =? 0) with false by lia.
  destruct (idle_ackno (Z.min (k - 1) (size W)) (k =? size W + 2)) as [-> ->]; [lia|].
  split; [|done]. do 2 f_equal. case_Z; cbn; lia.
Qed.

Lemma set_out_wf q s : TCPSender.wf W s -> q = [] -> TCPSender.wf W (TCPSender.set_segments_out q s).
Proof using. intros H ->. apply (TCPSender.drain_wf W s (TCPSender.segments_out s)); [done|]. by rewrite app_nil_r. Qed.

(** What the acknowledgement at the end of a round leads to. *)
Lemma round_ends k k' s p q lossless :
  TCPSender.wf W s -> TCPSender.isn s = n0 -> TCPSender.byte_received s = k ->
  TCPSender.unacked s = p ++ q -> TCPSender.tiles W n0 k p k' ->
  TCPSender.tiles W n0 k' q (TCPSender.byte_sent s) -> k < k' ->
  TCPSender.byte_sent s - k' <= c -> ByteStream.bs_end (TCPSender.stream s) = true ->
  (lossless = true -> q = []) ->
  between k' lossless
    (match TCPReceiver.ackno (received k').2 with
     | Some a => ((received k').1,
         snd (TCPSender.ack_received a (TCPReceiver.window_size (received k').2)
                (TCPSender.set_segments_out [] s)), (received k').2)
     | None => ((received k').1, TCPSender.set_segments_out [] s, (received k').2)
     end).
Proof using Hc HW.
  intros H Hi Hk Hu Hp Hq Hlt Hfit Hend Hl.
  pose proof (TCPSender.tiles_le _ _ _ _ _ Hq). pose proof (TCPSender.wf_sent_bound _ _ H).
  pose proof (TCPSender.wf_received _ _ H).
  destruct (received_ackno k') as [-> ->]; [lia|].
  destruct (ack_progress k k' (TCPSender.set_segments_out [] s) p q) as [G (new & Eu & Eo)];
    [by apply set_out_wf|done..|].
  eexists. split; [done|]. split; [exact G|]. intros E. by rewrite Eo, Eu, (Hl E).
Qed.

Lemma round_delivered k st :
  between k true st -> k < size W + 2 ->
  exists k' st', round wire false st = Ok st' /\ k < k' /\ between k' true st'.
Proof using All.
  intros (s & -> & G & Hq) Hk. specialize (Hq eq_refl).
  pose proof (sending_range k s G) as [Hr Hs]. pose proof (sending_busy k s G Hk) as Hb.
  pose proof (g_unacked _ _ G) as Ht. pose proof (g_fits _ _ G) as Hf. rewrite (sending_win k s G) in Hf.
  assert (Hlt : k < TCPSender.byte_sent s).
  { destruct (TCPSender.unacked s) as [|g q]; [done|]. destruct Ht as [Hg Ht].
    pose proof (TCPSender.tiles_le _ _ _ _ _ Ht). pose proof (TCPSender.carries_len _ _ _ _ Hg). lia. }
  exists (TCPSender.byte_sent s). eexists. split; [|split; [done|]].
  - cbn [round mbind result_bind]. rewrite Hq.
    rewrite <- surjective_pairing, (receive_tiles _ k (TCPSender.byte_sent s)); [|done|lia|..].
    + reflexivity.
    + intros ->. cbn in Hf. lia.
    + destruct (k =? 0); lia.
  - apply (round_ends k _ s (TCPSender.unacked s) []); try done; try apply G.
    + by rewrite app_nil_r.
    + lia.
Qed.

Lemma time_left_due s :
  0 <= TCPSender.rto (TCPSender.sendtimer s) < M64 ->
  u64 (u64 (TCPSender.time s + time_left s) - TCPSender.start_time (TCPSender.sendtimer s)) =
  TCPSender.rto (TCPSender.sendtimer s).
Proof using.
  intros Hr. unfold time_left, u64. set (m := 2 ^ 64).
  rewrite Zplus_mod_idemp_r, Zminus_mod_idemp_l.
  replace (_ - _) with (TCPSender.rto (TCPSender.sendtimer s)) by lia.
  by apply Z.mod_small.
Qed.

Lemma round_lost k lossless st :
  between k lossless st -> k < size W + 2 ->
  exists k' st', round wire true st = Ok st' /\ k < k' /\ between k' false st'.
Proof using All.
  intros (s & -> & G & _) Hk. pose proof (sending_range k s G) as [Hr Hs].
  pose proof (sending_busy k s G Hk) as Hb. pose proof (g_unacked _ _ G) as Ht.
  pose proof (g_fits _ _ G) as Hf. rewrite (sending_win k s G) in Hf.
  set (s1 := TCPSender.set_segments_out [] s).
  assert (Hw1 : TCPSender.wf W s1) by (apply set_out_wf; [apply G|done]).
  destruct (TCPSender.tick_spec W s1 (time_left s) Hw1) as
    (s2 & Et & Hw2 & _ & Hu2 & Hs2 & Hr2 & Hi2 & Ho2 & _); [cbn; rewrite (g_retrans _ _ G); lia|].
  destruct (tick_frame _ _ _ Et) as (Hwin2 & Hst2 & He2).
  change (TCPSender.time s1) with (TCPSender.time s) in Ho2.
  change (TCPSender.sendtimer s1) with (TCPSender.sendtimer s) in Ho2.
  rewrite time_left_due, Z.leb_refl in Ho2
    by (rewrite (TCPSender.wf_rto _ _ (g_wf _ _ G)); apply u64_range).
  rewrite (proj2 (TCPSender.wf_timer _ _ (g_wf _ _ G)) Hb) in Ho2. cbn [andb] in Ho2.
  change (TCPSender.unacked s1) with (TCPSender.unacked s) in *.
  destruct (TCPSender.unacked s) as [|g q] eqn:Eu; [done|]. destruct Ht as [Hg Ht].
  pose proof (TCPSender.tiles_le _ _ _ _ _ Ht). pose proof (TCPSender.carries_len _ _ _ _ Hg).
  exists (k + TCPSender.len g). eexists. split; [|split; [lia|]].
  - cbn [round]. fold s1. rewrite Et. cbn [mbind result_bind]. rewrite Ho2.
    change (TCPSender.segments_out s1 ++ take 1 (g :: q)) with [g].
    rewrite <- surjective_pairing, (receive_tiles [g] k (k + TCPSender.len g)); [|done|lia|..].
    + reflexivity.
    + intros ->. cbn in Hf. lia.
    + destruct (k =? 0); lia.
  - apply (round_ends k _ s2 [g] q); try done.
    + rewrite Hi2. apply G.
    + rewrite Hr2. apply G.
    + rewrite Hs2. done.
    + lia.
    + rewrite Hs2. change (TCPSender.byte_sent s1) with (TCPSender.byte_sent s).
      destruct (k =? 0); lia.
    + rewrite Hst2. apply G.
Qed.

(** The end: everything is acknowledged. *)
Lemma between_done k lossless st :
  between k lossless st -> TCPSender.fin_acked st.1.2 = bool_decide (size W + 2 <= k).
Proof using Hc.
  intros (s & -> & G & _). cbn [fst snd]. unfold TCPSender.fin_acked, TCPSender.fin_sent.
  pose proof (sending_range k s G) as [Hr Hs]. case_bool_decide.
  - pose proof (g_unacked _ _ G) as Ht. destruct (TCPSender.unacked s) as [|g q].
    + cbn. cbn in Ht. pose proof (g_wf _ _ G) as H'. pose proof (TCPSender.wf_read _ _ H').
      pose proof (size_nonneg W).
      pose proof (TCPSender.wf_sent _ _ H' ltac:(lia)) as E. destruct (TCPSender.eof s); [done|].
      cbn in E. lia.
    + destruct Ht as [Hg Ht]. pose proof (TCPSender.tiles_le _ _ _ _ _ Ht).
      pose proof (TCPSender.carries_len _ _ _ _ Hg). lia.
  - pose proof (sending_busy k s G ltac:(lia)) as Hb. destruct (TCPSender.unacked s); [done|].
    rewrite size_cons. pose proof (size_nonneg l). by replace (_ =? 0) with false by lia.
Qed.

(** Rounds of either kind, the lossless ones first, lead to the end. *)
Lemma transfer_reaches_end a b : forall k st,
  between k (bool_decide (0 < a)%nat) st -> size W + 2 - k <= Z.of_nat (a + b) ->
  exists k' st' lossless, transfer wire (replicate a false ++ replicate b true) st = Ok st' /\
    between k' lossless st' /\ size W + 2 <= k'.
Proof using All.
  induction a as [|a IH]; cbn [replicate app].
  - induction b as [|b IHb]; intros k st Hst Hm; cbn [replicate transfer].
    + exists k, st, false. split_and!; [done|done|lia].
    + rewrite (between_done _ _ _ Hst). destruct (decide (size W + 2 <= k)) as [Hd|Hd].
      { rewrite bool_decide_true by done. by exists k, st, false. }
      rewrite bool_decide_false by done.
      destruct (round_lost k _ st Hst) as (k' & st' & -> & Hlt & Hst'); [lia|].
      cbn [mbind result_bind]. apply (IHb k'); [done|lia].
  - intros k st Hst Hm. cbn [transfer]. rewrite (between_done _ _ _ Hst).
    destruct (decide (size W + 2 <= k)) as [Hd|Hd].
    { rewrite bool_decide_true by done. by exists k, st, true. }
    rewrite bool_decide_false by done.
    destruct (round_delivered k st Hst) as (k' & st' & -> & Hlt & (s & -> & G & Hq)); [lia|].
    cbn [mbind result_bind]. apply (IH k'); [|lia]. exists s. split; [done|]. split; [done|auto].
Qed.

End Transfer.

(** ** The whole transfer *)

Lemma loaded_wf c0 t i random W :
  size W <= c0 < M64 -> 0 <= t < 65536 -> size W < 4611686018427300000 ->
  TCPSender.wf W (loaded c0 t i random W).
Proof.
  intros Hc0 Ht HW. pose proof (size_nonneg W).
  pose proof (TCPSender.sender_construct_wf c0 t i random ltac:(lia) Ht) as H0.
  unfold loaded. cbv zeta. set (s0 := TCPSender.construct c0 t i random) in *.
  apply TCPSender.sender_end_input_wf.
  pose proof (TCPSender.sender_write_wf [] s0 W H0 eq_refl ltac:(size_simpl; lia)) as H1.
  pose proof (ByteStream.write_accepts W _ (TCPSender.wf_stream _ _ H0)) as Hn. cbv zeta in H1.
  rewrite Hn, substr0_all in H1 by (cbn; size_simpl; lia). exact H1.
Qed.

Lemma ready_sending c0 t i random W c :
  size W <= c0 < M64 -> 0 <= t < 65536 -> 0 < c < 65536 -> size W < 4611686018427300000 ->
  let s0 := ready c0 t i random W in
  sending W (TCPSender.isn s0) c 0 s0 /\ TCPSender.segments_out s0 = TCPSender.unacked s0.
Proof.
  intros Hc0 Ht Hc HW s0. pose proof (loaded_wf c0 t i random W Hc0 Ht HW) as H1.
  subst s0. unfold ready. set (s1 := loaded c0 t i random W) in *.
  assert (Hs1 : TCPSender.unacked s1 = [] /\ TCPSender.segments_out s1 = [] /\
    TCPSender.byte_sent s1 = 0 /\ TCPSender.byte_received s1 = 0 /\ TCPSender.window_size s1 = 1 /\
    TCPSender.consecutive_retrans_v s1 = 0 /\ ByteStream.bs_end (TCPSender.stream s1) = true)
    by (split_and!; reflexivity).
  destruct Hs1 as (Eu & Eo & Es & Er & Ew & Ec & Ee). clearbody s1.
  destruct (TCPSender.fill_window_spec W s1 H1)
    as (H3 & Hf3 & _ & Hi3 & Hw3 & Hr3 & new & Hu3 & Ho3 & Ht3 & Hn3).
  destruct (fill_window_frame s1) as [Hc3 Hb3]. unfold TCPSender.win in Hn3.
  rewrite Eu in Hu3. rewrite Eo in Ho3. rewrite Es in Ht3. rewrite Er in Hr3. rewrite Ew in Hw3, Hn3.
  rewrite Ec in Hc3. rewrite Ee in Hb3. rewrite <- Hi3 in Ht3. cbn [app] in Hu3, Ho3.
  revert H3 Hf3 Hw3 Hr3 Hu3 Ho3 Ht3 Hn3 Hc3 Hb3. generalize (TCPSender.fill_window s1). intros s2.
  intros. split; [|congruence]. constructor; try done.
  - by rewrite Hu3.
  - replace (TCPSender.win s2) with 1 by (unfold TCPSender.win; by rewrite Hw3).
    destruct new as [|g new].
    + cbn in Ht3. lia.
    + rewrite Hr3 in Hn3. by apply Hn3.
Qed.

(** C3: a transfer ends.  [W] has been written to the sender's stream and the stream
    closed; the receiver's window is [c] bytes and its application reads what arrives.
    After any number of round trips in which the network delivers, followed by any
    number in which it loses every segment that is not a retransmission, and at the
    latest after [size W + 2] of them, the application has read all of [W] and the end
    of the stream, and the sender knows it: its FIN is acknowledged and nothing is in
    flight. *)
Theorem transfer_completes wire c0 t i random W c a b :
  size W <= c0 < M64 -> 0 <= t < 65536 -> 0 < c < 65536 -> size W < 4611686018427300000 ->
  let s0 := ready c0 t i random W in
  wi_wf (TCPSender.isn s0) ->
  (forall k g, TCPSender.carries W (TCPSender.isn s0) k g -> same_content g (wire g)) ->
  size W + 2 <= Z.of_nat (a + b) ->
  exists s r, transfer wire (replicate a false ++ replicate b true)
                ([], s0, TCPReceiver.construct c) = Ok (W, s, r) /\
    ByteStream.input_ended (TCPReceiver.stream_out r) = true /\
    TCPSender.fin_acked s = true /\ TCPSender.bytes_in_flight s = 0.
Proof.
  intros Hc0 Ht Hc HW s0 Hn Hwire Hm. pose proof (size_nonneg W).
  destruct (ready_sending c0 t i random W c Hc0 Ht Hc HW) as [G Hq]. fold s0 in G, Hq. clearbody s0.
  destruct (transfer_reaches_end wire W (TCPSender.isn s0) c Hwire Hn Hc HW a b 0
    ([], s0, TCPReceiver.construct c)) as (k & st & l & -> & Hb & Hk); [|lia|].
  { exists s0. split; [reflexivity|]. split; [exact G|]. intros _. exact Hq. }
  pose proof (between_done W _ c Hc k l st Hb) as Hd. rewrite bool_decide_true in Hd by done.
  destruct Hb as (s & -> & Gs & _). cbn [fst snd] in *.
  pose proof (sending_range _ _ _ _ _ Gs) as [Hr Hs]. assert (k = size W + 2) as -> by lia.
  exists s, (received W (TCPSender.isn s0) c (size W + 2)).2. split_and!; [|..|done|].
  - unfold received. cbn [fst snd]. by rewrite (take_ge W) by (unfold size; lia).
  - unfold received. cbn [snd]. replace (_ =? 0) with false by lia. by rewrite Z.eqb_refl.
  - rewrite (TCPSender.flight_eq W s (g_wf _ _ _ _ _ Gs)), (g_acked _ _ _ _ _ Gs). lia.
Qed.

(** Three bytes through a window of two, with a loss of everything at the end. *)
Lemma transfer_completes_witness :
  let W := [Byte.x61; Byte.x62; Byte.x63] in
  exists s r, transfer (fun g => g) (replicate 2 false ++ replicate 3 true)
      ([], ready 10 1000 (Some (mkWrappingInt32 7)) 0 W, TCPReceiver.construct 2) = Ok (W, s, r) /\
    TCPSender.fin_acked s = true.
Proof.
  intros W. destruct (transfer_completes (fun g => g) 10 1000 (Some (mkWrappingInt32 7)) 0 W 2 2 3)
    as (s & r & E & _ & F & _).
  - vm_compute. intuition congruence.
  - lia.
  - lia.
  - vm_compute. reflexivity.
  - vm_compute. intuition congruence.
  - done.
  - vm_compute. discriminate.
  - exists s, r. split; [exact E|exact F].
Defined.
