(* ===== verification/Duplex.v ===== *)
(** Two endpoints of one connection, [libsponge/tcp_connection.cc], joined by a
    network that loses, repeats, reorders and delays segments in both directions.
    The bounds that the receiver's theorems ask of its input (the segment starts
    in the window, the FIN fits, the acknowledgement is genuine) are proved here
    of what the other endpoint sends. *)
From S2P Require Import Prelude WrappingIntegers.
From S2P Require Buffer ByteStream StreamReassembler TCPSegment TCPHeader TCPReceiver TCPSender.
From S2P Require TCPConnection EndToEnd Progress.
Import TCPSegment(TCPSegment).
Import TCPReceiver(TCPReceiver).
Import TCPSender(TCPSender).
Import TCPConnection(TCPConnection).
Import EndToEnd(stream_of, crosses).
Module SR := StreamReassembler.

(** ** The stream grows while it is being received *)

Lemma slice_agree S S' a n :
  (forall i, a <= i < a + Z.of_nat n -> S i = S' i) -> slice S a n = slice S' a n.
Proof.
  intros H. apply list_eq. intros k. destruct (decide (k < n)%nat) as [Hk|Hk].
  - rewrite !slice_lookup by done. rewrite H by lia. done.
  - by rewrite !lookup_ge_None_2 by (rewrite slice_length; lia).
Qed.

Section Grow.
Context (S S' : Z -> byte) (L L' : Z) (HL : L <= L').
Context (Hagree : forall i, 0 <= i < L -> S i = S' i).

Lemma chain_agree l : forall lo,
  (forall i, SR.covered l i -> i < L) -> SR.chain S lo l -> SR.chain S' lo l.
Proof using Hagree.
  induction l as [|e l IH]; intros lo Hk; [done|]. cbn. intros (H1 & [E1 E2 E3] & H3).
  split; [done|]. split.
  - constructor; [done|done|]. rewrite E3 at 1. apply slice_agree. intros i Hi. apply Hagree.
    split; [lia|]. apply Hk, SR.covered_cons. left. unfold SR.stop, size. lia.
  - apply IH; [|done]. intros i Hi. apply Hk, SR.covered_cons. by right.
Qed.

Lemma run_inv_grow t ra :
  SR.run_inv S L t ra ->
  (SR.checkeof ra = true \/ ByteStream.input_ended (SR.output ra) = true -> L' = L) ->
  SR.run_inv S' L' t ra.
Proof using HL Hagree.
  intros Hinv Heq. pose proof (SR.wf_first_nonneg _ _ (SR.inv_wf _ _ _ _ Hinv)) as H0.
  assert (HF : SR.firstindex ra <= L \/ SR.firstindex ra = 0).
  { destruct (Z.eq_dec (SR.firstindex ra) 0); [by right|left].
    pose proof (SR.inv_known _ _ _ _ Hinv (SR.firstindex ra - 1) ltac:(left; lia)). lia. }
  destruct Hinv as [[Ho Hc Hm Hw Hf Hct Hch Hu Hcnt] Hr Har Hk He Hend Hst].
  pose proof (ByteStream.wf_read _ Ho) as Hrd.
  constructor.
  - constructor; try done.
    + rewrite Hct at 1. apply slice_agree. intros i Hi. apply Hagree. unfold size in *. lia.
    + apply chain_agree; [|done]. intros i Hi. apply Hk. by right.
  - rewrite Hr at 1. apply slice_agree. intros i Hi. apply Hagree.
    rewrite Har in Hf. unfold size in *. lia.
  - done.
  - intros i Hi. specialize (Hk i Hi). lia.
  - intros Hx. rewrite Heq by (by left). by apply He.
  - intros Hx. rewrite Heq by (by right). by apply Hend.
  - eapply Forall_impl; [exact Hst|]. cbn. lia.
Qed.

Lemma receiver_inv_grow n0 t r :
  TCPReceiver.inv S L n0 t r ->
  (TCPReceiver.finset r = true \/ ByteStream.input_ended (TCPReceiver.stream_out r) = true -> L' = L) ->
  TCPReceiver.inv S' L' n0 t r.
Proof using HL Hagree.
  intros [H1 H2 H3 H4 H5] Heq. constructor; try done. apply run_inv_grow; [done|].
  by rewrite <- H3.
Qed.
End Grow.

(** What an arrival does to the first missing index and to the end of input. *)
Lemma arrival_advances S L t ra d index eof ra' :
  0 <= L < 9223372036854775808 -> SR.run_inv S L t ra -> SR.arrival S L ra d index eof ->
  SR.push_substring d index eof ra = Ok ra' ->
  SR.firstindex ra <= SR.firstindex ra' /\
  (ByteStream.input_ended (SR.output ra') = true ->
     ByteStream.input_ended (SR.output ra) = true \/ eof || SR.checkeof ra = true).
Proof.
  intros HL Hinv (Hd & Hi & Hb & H63 & _) Hp. pose proof (SR.inv_wf _ _ _ _ Hinv) as Hwf.
  pose proof (size_nonneg d). destruct (Z.eq_dec (size d) 0) as [E|E];
    [|destruct (Z.lt_ge_cases (SR.firstindex ra) (index + size d)) as [Hn|Ho]].
  - apply size_0_nil in E. subst d. rewrite SR.push_empty in Hp. injection Hp as <-. cbv zeta.
    cbn [SR.checkeof SR.set_checkeof SR.firstindex].
    destruct (eof || SR.checkeof ra) eqn:Hc; cbn [andb]; [|by split; [|by left]].
    split; [by destruct (_ =? _)|by right].
  - destruct (SR.push_fresh S ra d index eof) as (st & E1 & _ & _ & Hf & _ & _ & He);
      try done; try lia. rewrite E1 in Hp. injection Hp as ->. split; [done|].
    intros Hx. destruct (He Hx) as [?|[? _]]; [by left|by right].
  - rewrite SR.push_stale in Hp by (done || lia). injection Hp as <-. by split; [|by left].
Qed.

(** When everything is assembled and the end is known, the stream ends, unless the
    excerpt changed nothing but the knowledge of the end. *)
Lemma arrival_ends S L t ra d index eof ra' :
  0 <= L < 9223372036854775808 -> SR.run_inv S L t ra -> SR.arrival S L ra d index eof ->
  SR.push_substring d index eof ra = Ok ra' -> eof || SR.checkeof ra = true ->
  SR.firstindex ra' = L ->
  ByteStream.input_ended (SR.output ra') = true \/
  (ra' = SR.set_checkeof true ra /\ (d = [] -> eof = false)).
Proof.
  intros HL Hinv Ha Hp Hc HF. pose proof Ha as (Hd & Hi & Hb & H63 & Heof & Hemp).
  pose proof (SR.reassembler_step_inv S L ltac:(lia) ltac:(lia) _ _ _ _ Hinv
    (SR.step_push _ _ t _ _ _ _ _ Ha Hp)) as Hinv'.
  pose proof (SR.inv_wf _ _ _ _ Hinv') as Hwf'. pose proof (size_nonneg d).
  destruct (Z.eq_dec (size d) 0) as [E|E];
    [|destruct (Z.lt_ge_cases (SR.firstindex ra) (index + size d)) as [Hn|Ho]].
  - apply size_0_nil in E. subst d. rewrite SR.push_empty in Hp. injection Hp as <-. cbv zeta in *.
    cbn [SR.checkeof SR.set_checkeof SR.firstindex] in *. rewrite Hc in *. cbn [andb] in *.
    destruct (Z.eqb_spec (SR.firstindex ra) index) as [Ei|Ei]; [by left|right]. split; [done|].
    intros _. destruct (Hemp eq_refl) as [[-> E]|[? _]]; [|done]. destruct (Heof eq_refl) as [Hx _].
    change (size []) with 0 in Hx. lia.
  - left. apply (SR.push_ends S _ _ _ _ _ Hp Hwf'); [lia| |done].
    destruct (SR.storelist ra') as [|e l] eqn:El; [done|]. exfalso.
    pose proof (SR.inv_stored _ _ _ _ Hinv') as Hst. rewrite El in Hst.
    pose proof (SR.wf_chain _ _ Hwf') as Hch. rewrite El in Hch. destruct Hch as [Hch _].
    apply Forall_cons in Hst as [Hst _]. lia.
  - right. rewrite SR.push_stale in Hp by (done || lia). injection Hp as <-. rewrite Hc.
    split; [done|]. by intros ->.
Qed.

(** ** One direction of the connection *)

(** Streams shorter than this leave no doubt about which 32-bit number stands for
    which byte. *)
Definition stream_limit : Z := 2147483645.

(** An empty segment at number [a]: it only acknowledges. *)
Definition bare (n0 : WrappingInt32) (a : Z) (g : TCPSegment) : Prop :=
  TCPHeader.seqno (TCPSegment.header g) = wrap a n0 /\
  TCPHeader.syn (TCPSegment.header g) = false /\ TCPHeader.fin (TCPSegment.header g) = false /\
  Buffer.str (TCPSegment.payload g) = [].

(** A segment that [s] may have produced: an excerpt of what it has sent, or an
    empty one that comes after the SYN. *)
Definition placed (W : bytes) (s : TCPSender) (g : TCPSegment) : Prop :=
  (exists a, TCPSender.carries W (TCPSender.isn s) a g /\
     a + TCPSender.len g <= TCPSender.byte_sent s) \/
  (exists a, 1 <= a <= TCPSender.byte_sent s /\ bare (TCPSender.isn s) a g).

Lemma placed_same W s g h : TCPConnection.same_content g h -> placed W s g -> placed W s h.
Proof.
  intros Hs [(a & Hc & Hl)|(a & Ha & Hb)]; [left|right]; exists a.
  - rewrite <- (TCPConnection.same_content_len g h Hs). split; [|done].
    by eapply TCPConnection.same_content_carries.
  - split; [done|]. unfold bare, TCPConnection.same_content in *. intuition congruence.
Qed.

Lemma tiles_placed W s a q b :
  TCPSender.tiles W (TCPSender.isn s) a q b -> b <= TCPSender.byte_sent s ->
  Forall (placed W s) q.
Proof.
  revert a. induction q as [|g q IH]; intros a; cbn; [done|]. intros [Hg Hq] Hb.
  constructor; [|by eapply IH]. left. exists a. split; [done|].
  apply TCPSender.tiles_le in Hq. lia.
Qed.

(** How many bytes of the stream have been put into segments. *)
Abbreviation sent_bytes s := (ByteStream.alread (TCPSender.stream s)).

(** The acknowledgement number of [r] for a stream of which [L] bytes were sent,
    0 before the SYN; and one more than the last number the window admits. *)
Definition acked (L : Z) (r : TCPReceiver) : Z :=
  if TCPReceiver.isnset r then TCPReceiver.abs_ack L r else 0.
Definition edge (cap : Z) (r : TCPReceiver) : Z :=
  if TCPReceiver.isnset r then 1 + SR.firstindex (TCPReceiver.reassembler r) + cap else 1.

(** An acknowledgement sent by [r]'s side: it claims no more than has arrived,
    and its window is at most the capacity. *)
Definition honest (cap L : Z) (n0 : WrappingInt32) (r : TCPReceiver) (g : TCPSegment) : Prop :=
  TCPHeader.ack (TCPSegment.header g) = true ->
  TCPReceiver.isnset r = true /\ 0 <= TCPHeader.win (TCPSegment.header g) <= cap /\
  TCPHeader.win (TCPSegment.header g) < 65536 /\
  exists k, 1 <= k <= acked L r /\ TCPHeader.ackno (TCPSegment.header g) = wrap k n0.

(** The sender itself acknowledges nothing: the connection does, when it moves a
    segment to its queue. *)
Definition unstamped (s : TCPSender) : Prop :=
  Forall (fun g => TCPHeader.ack (TCPSegment.header g) = false)
    (TCPSender.segments_out s ++ TCPSender.unacked s).

Lemma unstamped_body s : unstamped s -> unstamped (TCPSender.fill_body s).1.
Proof.
  unfold TCPSender.fill_body. destruct (TCPSender.eof s); [done|].
  destruct (_ || _); [done|]. destruct (_ && _); [done|]. cbn [ByteStream.read fst snd].
  assert (He : forall g b e, TCPHeader.ack (TCPSegment.header g) = false ->
    unstamped s -> unstamped (TCPSender.enqueue g b e s)).
  { intros g b e Hg Hs. unfold unstamped in *.
    destruct (TCPSender.enqueue_fields g b e s) as (_ & E1 & _ & _ & _ & E2 & _).
    rewrite E1, E2, !Forall_app in *. destruct Hs as [H1 H2].
    split; (split; [done|by apply Forall_singleton]). }
  intros Hs. destruct (_ <? _); apply He; try done; by destruct (_ =? 0).
Qed.

Lemma unstamped_fill s : unstamped s -> unstamped (TCPSender.fill_window s).
Proof.
  unfold TCPSender.fill_window. generalize (TCPSender.fill_fuel s). intros n. revert s.
  induction n as [|n IH]; intros s Hs; [done|]. cbn [TCPSender.fill_loop].
  pose proof (unstamped_body s Hs) as Hb. destruct (TCPSender.fill_body s) as [s' []]; [|done].
  by apply IH.
Qed.

Lemma unstamped_tick ms s s' : TCPSender.tick ms s = Ok s' -> unstamped s -> unstamped s'.
Proof.
  unfold TCPSender.tick. cbn. destruct (TCPSender.active _); [|by intros [= <-]].
  destruct (TCPSender.timeout _); [|by intros [= <-]].
  destruct (TCPSender.unacked s) as [|g q] eqn:E; [done|]. intros [= <-]. unfold unstamped. cbn.
  rewrite E, !Forall_app, Forall_cons. intros (H1 & H2 & H3). by rewrite Forall_singleton.
Qed.

(** A segment with the last byte of the stream. *)
Definition closes (W : bytes) (n0 : WrappingInt32) (g : TCPSegment) : Prop :=
  exists a, TCPSender.carries W n0 a g /\ Buffer.str (TCPSegment.payload g) <> [] /\
    index_of a + size (Buffer.str (TCPSegment.payload g)) = size W.

(** All the segments that may still be sent or arrive. *)
Definition in_use (q : list TCPSegment) (s : TCPSender) : list TCPSegment :=
  q ++ TCPSender.segments_out s ++ TCPSender.unacked s.

(** Once the FIN is sent, either every copy of the last byte carries it, and then the
    receiver cannot know the last byte without the FIN, or none does. *)
Definition closing (W : bytes) (s : TCPSender) (q : list TCPSegment) (r : TCPReceiver) : Prop :=
  TCPSender.eof s = true ->
  exists b, (forall g, g ∈ in_use q s -> closes W (TCPSender.isn s) g ->
               TCPHeader.fin (TCPSegment.header g) = b) /\
    (b = true -> TCPReceiver.finset r = false -> ~ SR.known (TCPReceiver.reassembler r) (size W - 1)).

(** The direction from the sender [s], to which [W] was written, to the receiver
    [r] of capacity [cap], from which [R] was read.  [q] is everything the
    sender's side has queued for the network and [aq] everything the receiver's
    side has. *)
Record link (cap : Z) (W : bytes) (s : TCPSender) (q : list TCPSegment)
    (R : bytes) (r : TCPReceiver) (aq : list TCPSegment) : Prop := {
  l_cap : 0 < cap < 4611686018427387904;
  l_wf : TCPSender.wf W s;
  l_isn : wi_wf (TCPSender.isn s);
  l_size : size W < stream_limit;
  l_queue : Forall (placed W s) q;
  l_out : Forall (placed W s) (TCPSender.segments_out s);
  l_plain : unstamped s;
  l_recv : TCPReceiver.inv (stream_of W) (sent_bytes s) (TCPSender.isn s) R r;
  l_rcap : TCPReceiver.capacity r = cap;
  l_open : TCPReceiver.isnset r = true -> 1 <= TCPSender.byte_sent s;
  l_fin : TCPReceiver.finset r = true -> TCPSender.eof s = true;
  l_end : ByteStream.input_ended (TCPReceiver.stream_out r) = true -> TCPReceiver.finset r = true;
  l_acked : TCPSender.byte_received s <= acked (sent_bytes s) r;
  l_window : TCPSender.window_size s <= (if TCPReceiver.isnset r then cap else 1);
  l_sent : TCPSender.byte_sent s <= edge cap r;
  l_acks : Forall (honest cap (sent_bytes s) (TCPSender.isn s) r) aq;
  l_syn : TCPSender.byte_received s = 0 -> TCPSender.window_size s <= 1 /\ TCPSender.byte_sent s <= 1;
  l_closing : closing W s q r;
  l_ended : TCPReceiver.finset r = true ->
    SR.firstindex (TCPReceiver.reassembler r) = sent_bytes s ->
    ByteStream.input_ended (TCPReceiver.stream_out r) = true
}.

#[global] Arguments l_cap {_ _ _ _ _ _ _} _.
#[global] Arguments l_wf {_ _ _ _ _ _ _} _.
#[global] Arguments l_isn {_ _ _ _ _ _ _} _.
#[global] Arguments l_size {_ _ _ _ _ _ _} _.
#[global] Arguments l_queue {_ _ _ _ _ _ _} _.
#[global] Arguments l_out {_ _ _ _ _ _ _} _.
#[global] Arguments l_plain {_ _ _ _ _ _ _} _.
#[global] Arguments l_recv {_ _ _ _ _ _ _} _.
#[global] Arguments l_rcap {_ _ _ _ _ _ _} _.
#[global] Arguments l_open {_ _ _ _ _ _ _} _.
#[global] Arguments l_fin {_ _ _ _ _ _ _} _.
#[global] Arguments l_end {_ _ _ _ _ _ _} _.
#[global] Arguments l_acked {_ _ _ _ _ _ _} _.
#[global] Arguments l_window {_ _ _ _ _ _ _} _.
#[global] Arguments l_sent {_ _ _ _ _ _ _} _.
#[global] Arguments l_acks {_ _ _ _ _ _ _} _.
#[global] Arguments l_syn {_ _ _ _ _ _ _} _.
#[global] Arguments l_closing {_ _ _ _ _ _ _} _.
#[global] Arguments l_ended {_ _ _ _ _ _ _} _.

(** *** Facts about one state *)

Lemma eof_all_read W s : TCPSender.wf W s -> TCPSender.eof s = true -> sent_bytes s = size W.
Proof.
  intros H He. pose proof (TCPSender.wf_eof _ _ H He) as Hb.
  unfold ByteStream.eof, ByteStream.buffer_empty in Hb. apply andb_true_iff in Hb as [_ Hb].
  apply Z.eqb_eq in Hb. rewrite (TCPSender.wf_content _ _ H) in Hb.
  pose proof (TCPSender.wf_read _ _ H). pose proof (ByteStream.wf_read _ (TCPSender.wf_stream _ _ H)).
  rewrite size_drop in Hb; lia.
Qed.

Lemma fill_opens W s : TCPSender.wf W s -> 1 <= TCPSender.byte_sent (TCPSender.fill_window s).
Proof.
  intros H. destruct (TCPSender.fill_window_spec W s H) as (Hwf & Hf & _).
  pose proof (TCPSender.wf_received _ _ Hwf).
  destruct (Z.eq_dec (TCPSender.byte_sent (TCPSender.fill_window s)) 0) as [Hz|Hz]; [|lia].
  destruct (TCPSender.wf_sent0 _ _ Hwf Hz) as [_ He].
  destruct Hf as [?|[?|[? _]]]; [congruence| |lia]. unfold TCPSender.win in *. lia.
Qed.

Section Link.
Context {cap : Z} {W : bytes} {s : TCPSender} {q : list TCPSegment}.
Context {R : bytes} {r : TCPReceiver} {aq : list TCPSegment}.
Context (HL : link cap W s q R r aq).

Lemma link_sizes :
  0 <= sent_bytes s <= size W /\ 0 <= TCPSender.byte_sent s <= size W + 2 /\
  size W < stream_limit.
Proof using HL.
  pose proof (TCPSender.wf_sent_bound _ _ (l_wf HL)).
  pose proof (TCPSender.wf_read _ _ (l_wf HL)).
  pose proof (ByteStream.wf_read _ (TCPSender.wf_stream _ _ (l_wf HL))).
  pose proof (l_size HL). lia.
Qed.

Lemma link_first : 0 <= SR.firstindex (TCPReceiver.reassembler r) <= sent_bytes s.
Proof using HL.
  pose proof link_sizes. pose proof (TCPReceiver.inv_run _ _ _ _ _ (l_recv HL)) as Hr.
  split; [apply (SR.wf_first_nonneg _ _ (SR.inv_wf _ _ _ _ Hr))|].
  by apply (SR.inv_first_le (stream_of W) (sent_bytes s) ltac:(lia) _ _ Hr).
Qed.

(** The peer acknowledges only numbers that have been sent. *)
Lemma link_acked_sent : 0 <= acked (sent_bytes s) r <= TCPSender.byte_sent s.
Proof using HL.
  pose proof link_sizes. pose proof link_first. unfold acked.
  destruct (TCPReceiver.isnset r) eqn:Hs; [|lia].
  pose proof (l_open HL Hs). unfold TCPReceiver.abs_ack.
  rewrite (TCPSender.wf_sent _ _ (l_wf HL)) by lia.
  pose proof (l_fin HL) as Hf.
  destruct (TCPReceiver.finset r); cbn [andb]; [rewrite Hf by done|]; unfold TCPSender.b2z;
    repeat case_match; lia.
Qed.

(** A placed segment, seen by the receiver. *)
Lemma placed_fin g :
  placed W s g -> TCPHeader.fin (TCPSegment.header g) = true -> TCPSender.eof s = true.
Proof using HL.
  intros [(a & Hc & Hl)|(a & _ & _ & _ & Hf & _)] Hx; [|congruence].
  apply (TCPSender.carries_fin_eof W s a g (l_wf HL) Hc Hl Hx).
Qed.

End Link.

(** *** The sender moves *)

(** What every operation of the sender respects. *)
Record grows (W : bytes) (s : TCPSender) (W' : bytes) (s' : TCPSender) : Prop := {
  g_isn : TCPSender.isn s' = TCPSender.isn s;
  g_prefix : exists t, W' = W ++ t;
  g_sent : TCPSender.byte_sent s <= TCPSender.byte_sent s';
  g_eof : TCPSender.eof s = true -> TCPSender.eof s' = true /\ W' = W
}.

Lemma grows_same W s s' :
  TCPSender.isn s' = TCPSender.isn s -> TCPSender.byte_sent s' = TCPSender.byte_sent s ->
  TCPSender.eof s' = TCPSender.eof s -> grows W s W s'.
Proof.
  intros H1 H2 H3. constructor; [done| |lia|by rewrite H3]. exists []. by rewrite app_nil_r.
Qed.

Lemma link_grows_trans W1 s1 W2 s2 W3 s3 :
  grows W1 s1 W2 s2 -> grows W2 s2 W3 s3 -> grows W1 s1 W3 s3.
Proof.
  intros [A1 [t1 A2] A3 A4] [B1 [t2 B2] B3 B4]. constructor; [congruence| |lia|].
  - exists (t1 ++ t2). by rewrite B2, A2, (assoc_L (++)).
  - intros He. destruct (A4 He) as [E1 ->]. by apply B4.
Qed.

Lemma grows_read W s W' s' :
  TCPSender.wf W s -> TCPSender.wf W' s' -> grows W s W' s' -> sent_bytes s <= sent_bytes s'.
Proof.
  intros H H' [_ [t ->] Hs He]. pose proof (TCPSender.wf_read _ _ H) as Hr.
  pose proof (ByteStream.wf_read _ (TCPSender.wf_stream _ _ H')) as Hr'.
  destruct (TCPSender.eof s') eqn:E'.
  { rewrite (eof_all_read _ _ H' E'), size_app. size_lia. }
  destruct (TCPSender.eof s); [by destruct (He eq_refl)|].
  pose proof (TCPSender.wf_sent_bound _ _ H).
  destruct (Z.eq_dec (TCPSender.byte_sent s) 0) as [Hz|Hz].
  { destruct (TCPSender.wf_sent0 _ _ H Hz) as [-> _]. lia. }
  pose proof (TCPSender.wf_sent _ _ H Hz). pose proof (TCPSender.wf_sent _ _ H' ltac:(lia)) as E.
  rewrite E' in E. unfold TCPSender.b2z in *. case_match; lia.
Qed.

Lemma placed_grow W s W' s' g :
  TCPSender.wf W s -> grows W s W' s' -> placed W s g -> placed W' s' g.
Proof.
  intros H [Hi [t ->] Hs He] [(a & Hc & Hl)|(a & Ha & Hb)]; [left|right]; exists a; rewrite Hi.
  - split; [|lia]. apply TCPSender.carries_grow; [done|]. intros Hf.
    destruct (He (TCPSender.carries_fin_eof _ _ _ _ H Hc Hl Hf)) as [_ E].
    by apply app_inv_head with (l := W); rewrite app_nil_r.
  - split; [lia|done].
Qed.

Lemma stream_of_prefix W t i : 0 <= i < size W -> stream_of W i = stream_of (W ++ t) i.
Proof. intros Hi. unfold stream_of. rewrite lookup_app_l; [done|]. unfold size in Hi. lia. Qed.

(** *** The last byte *)

Lemma carries_place W n0 a a' g :
  size W < stream_limit -> TCPSender.carries W n0 a g -> TCPSender.carries W n0 a' g -> a = a'.
Proof.
  intros HW H H'. pose proof (TCPSender.c_seqno _ _ _ _ H) as E. rewrite (TCPSender.c_seqno _ _ _ _ H') in E.
  pose proof (TCPSender.c_bound _ _ _ _ H). pose proof (TCPSender.c_bound _ _ _ _ H').
  pose proof (TCPSender.c_pos _ _ _ _ H). pose proof (TCPSender.c_pos _ _ _ _ H').
  pose proof (size_nonneg (Buffer.str (TCPSegment.payload g))). unfold stream_limit, index_of in *.
  rewrite <- (unwrap_wrap_near a n0 0), <- E, unwrap_wrap_near; repeat case_match; lia.
Qed.

Lemma same_content_sym g h : TCPConnection.same_content g h -> TCPConnection.same_content h g.
Proof. intros (? & ? & ? & ?). by split_and!. Qed.

Lemma closes_same W n0 g h : TCPConnection.same_content g h -> closes W n0 h -> closes W n0 g.
Proof.
  intros Hs (a & Hc & Hn & He). exists a. pose proof Hs as (_ & _ & _ & ->). split; [|done].
  eapply TCPConnection.same_content_carries; [|exact Hc]. by apply same_content_sym.
Qed.

(** No new data: the same bytes, or none. *)
Lemma closing_keep W s q s' q' r :
  TCPSender.isn s' = TCPSender.isn s -> TCPSender.eof s' = TCPSender.eof s ->
  (forall g, g ∈ in_use q' s' -> Buffer.str (TCPSegment.payload g) = [] \/
     exists g0, g0 ∈ in_use q s /\ TCPConnection.same_content g0 g) ->
  closing W s q r -> closing W s' q' r.
Proof.
  intros Ei Ee Hg Hc He. rewrite Ee in He. destruct (Hc He) as (b & Hb & Hk). exists b.
  split; [|done]. intros g Hin Hcl. rewrite Ei in Hcl. destruct (Hg g Hin) as [Hn|(g0 & Hin0 & Hs)].
  - by destruct Hcl as (a & _ & ? & _).
  - rewrite <- (Hb g0 Hin0); [by destruct Hs as (_ & _ & -> & _)|by eapply closes_same].
Qed.

Lemma tiles_elem W n0 q : forall a b g,
  TCPSender.tiles W n0 a q b -> g ∈ q ->
  exists c, TCPSender.carries W n0 c g /\ a <= c /\ c + TCPSender.len g <= b.
Proof.
  induction q as [|h q IH]; intros a b g; [by intros _ ?%elem_of_nil|].
  intros [Hh Ht] [->|Hin]%elem_of_cons.
  - exists a. pose proof (TCPSender.tiles_le _ _ _ _ _ Ht). by split_and!.
  - destruct (IH _ _ _ Ht Hin) as (c & Hc & H1 & H2). exists c.
    pose proof (TCPSender.carries_len _ _ _ _ Hh). split_and!; [done|lia|done].
Qed.

(** In consecutive segments nothing follows the last byte but the FIN. *)
Lemma closes_last W n0 a b g h q :
  size W < stream_limit -> TCPSender.carries W n0 a g -> TCPSender.tiles W n0 (a + TCPSender.len g) q b ->
  closes W n0 g -> h ∈ q -> Buffer.str (TCPSegment.payload h) = [].
Proof.
  intros HW Hg Ht (a' & Hg' & _ & He) Hh. rewrite <- (carries_place _ _ _ _ _ HW Hg Hg') in He.
  destruct (tiles_elem _ _ _ _ _ _ Ht Hh) as (c & Hc & Hle & _).
  pose proof (TCPSender.carries_end _ _ _ _ Hg). pose proof (TCPSender.c_bound _ _ _ _ Hc).
  pose proof (TCPSender.c_pos _ _ _ _ Hg). pose proof (size_nonneg W).
  apply size_0_nil. pose proof (size_nonneg (Buffer.str (TCPSegment.payload h))).
  unfold index_of, TCPSender.b2z in *. repeat case_match; lia.
Qed.

Lemma tiles_closes W n0 q : forall a b g h,
  size W < stream_limit -> TCPSender.tiles W n0 a q b -> g ∈ q -> h ∈ q ->
  closes W n0 g -> closes W n0 h -> g = h.
Proof.
  induction q as [|k q IH]; intros a b g h HW; [by intros _ ?%elem_of_nil|].
  intros [Hk Ht] [->|Hg]%elem_of_cons [->|Hh]%elem_of_cons Cg Ch; [done|..].
  - destruct Ch as (_ & _ & Hn & _). by rewrite (closes_last _ _ _ _ _ _ _ HW Hk Ht Cg Hh) in Hn.
  - destruct Cg as (_ & _ & Hn & _). by rewrite (closes_last _ _ _ _ _ _ _ HW Hk Ht Ch Hg) in Hn.
  - by eapply IH.
Qed.

Section Moves.
Context {cap : Z} {W : bytes} {s : TCPSender} {q : list TCPSegment}.
Context {R : bytes} {r : TCPReceiver} {aq : list TCPSegment}.
Context (HL : link cap W s q R r aq).

Lemma acked_grow W' s' :
  TCPSender.wf W' s' -> grows W s W' s' -> acked (sent_bytes s') r = acked (sent_bytes s) r.
Proof using HL.
  intros H' G. unfold acked, TCPReceiver.abs_ack. destruct (TCPReceiver.finset r) eqn:Hf; [|done].
  apply (l_fin HL) in Hf. destruct (g_eof _ _ _ _ G Hf) as [He ->].
  by rewrite (eof_all_read _ _ (l_wf HL) Hf), (eof_all_read _ _ H' He).
Qed.

Lemma link_sender W' s' :
  grows W s W' s' -> TCPSender.wf W' s' -> size W' < stream_limit ->
  Forall (placed W' s') (TCPSender.segments_out s') -> unstamped s' ->
  TCPSender.byte_received s' <= acked (sent_bytes s) r ->
  TCPSender.window_size s' <= (if TCPReceiver.isnset r then cap else 1) ->
  TCPSender.byte_sent s' <= edge cap r ->
  (TCPSender.byte_received s' = 0 -> TCPSender.window_size s' <= 1 /\ TCPSender.byte_sent s' <= 1) ->
  closing W' s' q r ->
  link cap W' s' q R r aq.
Proof using HL.
  intros G H' Hsz Ho Hp Hr Hw Hs Hsyn Hcl. pose proof (acked_grow W' s' H' G) as Ea.
  pose proof (grows_read _ _ _ _ (l_wf HL) H' G) as Hrd.
  constructor; try done; try apply HL.
  - rewrite (g_isn _ _ _ _ G). apply HL.
  - eapply Forall_impl; [apply (l_queue HL)|]. intros g. by apply placed_grow, G; apply HL.
  - rewrite (g_isn _ _ _ _ G). pose proof (link_sizes HL).
    apply (receiver_inv_grow (stream_of W) _ (sent_bytes s)); [done| |apply HL|].
    + destruct (g_prefix _ _ _ _ G) as [t ->]. intros i Hi. apply stream_of_prefix. lia.
    + intros Hx. assert (Hf : TCPReceiver.finset r = true).
      { destruct Hx; [done|by apply (l_end HL)]. }
      apply (l_fin HL) in Hf. destruct (g_eof _ _ _ _ G Hf) as [He ->].
      by rewrite (eof_all_read _ _ (l_wf HL) Hf), (eof_all_read _ _ H' He).
  - intros Hi. pose proof (l_open HL Hi). pose proof (g_sent _ _ _ _ G). lia.
  - intros Hf. apply (g_eof _ _ _ _ G). by apply (l_fin HL).
  - by rewrite Ea.
  - eapply Forall_impl; [apply (l_acks HL)|]. intros g Hg Ha. unfold honest in Hg.
    rewrite Ea, (g_isn _ _ _ _ G). by apply Hg.
  - intros Hf HF. apply (l_ended HL Hf). rewrite HF. apply (l_fin HL) in Hf.
    destruct (g_eof _ _ _ _ G Hf) as [He ->].
    by rewrite (eof_all_read _ _ (l_wf HL) Hf), (eof_all_read _ _ H' He).
Qed.

Lemma fill_eof : TCPSender.eof s = true -> TCPSender.fill_window s = s.
Proof using.
  intros He. apply TCPSender.fill_loop_fix. unfold TCPSender.fill_body. by rewrite He.
Qed.

(** What the window lets the sender send stays below the receiver's edge. *)
Lemma window_edge n :
  TCPSender.eof s = false -> n - TCPSender.byte_received s <= TCPSender.win s -> n <= edge cap r.
Proof using HL.
  intros He Hn. pose proof (l_acked HL) as Ha. pose proof (l_window HL) as Hw.
  pose proof (l_cap HL). pose proof (l_fin HL) as Hf. unfold TCPSender.win in Hn.
  unfold acked, edge, TCPReceiver.abs_ack in *. destruct (TCPReceiver.isnset r); [|lia].
  destruct (TCPReceiver.finset r); [rewrite Hf in He by done; done|]. cbn [andb] in Ha. lia.
Qed.

Lemma link_write data :
  ByteStream.bs_end (TCPSender.stream s) = false -> size W + size data < stream_limit ->
  link cap (W ++ substr0 data (ByteStream.write data (TCPSender.stream s)).1)
    (TCPSender.set_stream (ByteStream.write data (TCPSender.stream s)).2 s) q R r aq.
Proof using HL.
  intros He Hsz. pose proof (TCPSender.open_not_eof W s (l_wf HL) He) as Hne.
  pose proof (TCPSender.sender_write_wf W s data (l_wf HL) He ltac:(unfold stream_limit in *; lia)) as Hwf.
  set (n := (ByteStream.write data (TCPSender.stream s)).1) in *.
  set (b := (ByteStream.write data (TCPSender.stream s)).2) in *. cbv zeta in Hwf.
  assert (G : grows W s (W ++ substr0 data n) (TCPSender.set_stream b s)).
  { constructor; [done|by eexists|done|]. intros Hx. congruence. }
  apply link_sender; try done.
  - assert (size (substr0 data n) <= size data); [|rewrite size_app; lia].
    rewrite <- (substr0_app data n) at 2. rewrite size_app. size_lia.
  - eapply Forall_impl; [apply (l_out HL)|]. intros g. apply placed_grow; [apply HL|done].
  - apply HL.
  - apply HL.
  - apply HL.
  - apply HL.
  - apply HL.
  - intros Hx. cbn in Hx. congruence.
Qed.

Lemma link_stream b :
  TCPSender.wf W (TCPSender.set_stream b s) -> link cap W (TCPSender.set_stream b s) q R r aq.
Proof using HL. intros Hwf. apply link_sender; try done; try apply HL. by apply grows_same. Qed.

(** What is sent next starts after what was sent before. *)
Lemma starts_after c g :
  TCPSender.eof s = false -> TCPSender.byte_sent s <= c -> TCPSender.carries W (TCPSender.isn s) c g ->
  sent_bytes s <= index_of c.
Proof using HL.
  intros He Hc Hg. pose proof (TCPSender.c_pos _ _ _ _ Hg). pose proof (link_sizes HL).
  destruct (Z.eq_dec (TCPSender.byte_sent s) 0) as [Hz|Hz].
  - destruct (TCPSender.wf_sent0 _ _ (l_wf HL) Hz) as [-> _]. unfold index_of. case_Z; lia.
  - pose proof (TCPSender.wf_sent _ _ (l_wf HL) Hz) as E. rewrite He in E. cbn in E.
    unfold index_of. case_Z; lia.
Qed.

Lemma closes_before g :
  TCPSender.eof s = false -> placed W s g -> closes W (TCPSender.isn s) g ->
  TCPHeader.fin (TCPSegment.header g) = false /\ size W <= sent_bytes s.
Proof using HL.
  intros He Hp (a & Hc & Hn & Hend). pose proof (link_sizes HL) as (_ & Hsz2 & Hsz).
  assert (Hf : TCPHeader.fin (TCPSegment.header g) = false).
  { destruct (TCPHeader.fin _) eqn:Ef; [|done]. by rewrite (placed_fin HL g Hp Ef) in He. }
  split; [done|]. destruct Hp as [(a' & Hc' & Hle)|(_ & _ & _ & _ & _ & ?)]; [|done].
  rewrite (carries_place _ _ _ _ _ Hsz Hc' Hc) in Hle.
  pose proof (TCPSender.carries_end _ _ _ _ Hc) as Ha. rewrite Hf in Ha. cbn in Ha. pose proof (size_nonneg W).
  pose proof (TCPSender.wf_sent _ _ (l_wf HL) ltac:(lia)) as E. rewrite He in E. cbn in E. lia.
Qed.

Lemma unacked_placed : Forall (placed W s) (TCPSender.unacked s).
Proof using HL.
  destruct (TCPSender.wf_unacked _ _ (l_wf HL)) as (u & _ & Ht & _). by eapply tiles_placed.
Qed.

(** The new segments of [fill_window]: the last byte, if it is among them, was not sent
    before. *)
Lemma closing_fill s' new :
  TCPSender.eof s = false -> TCPSender.isn s' = TCPSender.isn s ->
  TCPSender.unacked s' = TCPSender.unacked s ++ new ->
  TCPSender.segments_out s' = TCPSender.segments_out s ++ new ->
  TCPSender.tiles W (TCPSender.isn s) (TCPSender.byte_sent s) new (TCPSender.byte_sent s') ->
  closing W s' q r.
Proof using HL.
  intros He Ei Eu Eo Ht _. pose proof (link_sizes HL) as (_ & _ & Hsz).
  assert (Hall : forall g, g ∈ in_use q s' -> placed W s g \/ g ∈ new).
  { pose proof (l_queue HL) as H1. pose proof (l_out HL) as H2. pose proof unacked_placed as H3.
    rewrite Forall_forall in H1, H2, H3. intros g. unfold in_use. rewrite Eu, Eo, !elem_of_app.
    intros [?|[[?|?]|[?|?]]]; auto. }
  set (f := fun g => TCPHeader.fin (TCPSegment.header g) &&
    negb (size (Buffer.str (TCPSegment.payload g)) =? 0)).
  assert (Hb : existsb f new = true -> exists h, h ∈ new /\
    TCPHeader.fin (TCPSegment.header h) = true /\ closes W (TCPSender.isn s) h /\ sent_bytes s < size W).
  { intros (h & Hin%list_elem_of_In & [Hf Hn]%andb_true_iff)%existsb_exists. exists h.
    destruct (tiles_elem _ _ _ _ _ _ Ht Hin) as (c & Hc & Hle & _).
    apply negb_true_iff, Z.eqb_neq in Hn. pose proof (starts_after c h He Hle Hc).
    pose proof (TCPSender.c_fin _ _ _ _ Hc Hf) as E. split_and!; [done|done| |size_lia].
    exists c. split_and!; [done| |done]. intros Hx. by rewrite Hx in Hn. }
  exists (existsb f new). split.
  - intros g Hin Hcl. rewrite Ei in Hcl. destruct (Hall g Hin) as [Hp|Hg].
    + destruct (closes_before g He Hp Hcl) as [-> Hle]. destruct (existsb f new); [|done].
      destruct (Hb eq_refl) as (_ & _ & _ & _ & ?). lia.
    + destruct (existsb f new) eqn:Eb.
      * destruct (Hb eq_refl) as (h & Hh & Hf & Hch & _).
        by rewrite (tiles_closes _ _ _ _ _ _ _ Hsz Ht Hg Hh Hcl Hch).
      * destruct (TCPHeader.fin _) eqn:Ef; [|done]. destruct Hcl as (a & _ & Hn & _).
        rewrite <- Eb. symmetry. apply existsb_exists. exists g. split; [by apply list_elem_of_In|].
        unfold f. rewrite Ef. destruct (Buffer.str _); [done|]. rewrite size_cons. size_lia.
  - intros Hx _ Hk. destruct (Hb Hx) as (_ & _ & _ & _ & ?).
    apply (SR.inv_known _ _ _ _ (TCPReceiver.inv_run _ _ _ _ _ (l_recv HL))) in Hk. lia.
Qed.

Lemma link_fill : link cap W (TCPSender.fill_window s) q R r aq.
Proof using HL.
  destruct (TCPSender.eof s) eqn:He; [rewrite fill_eof by done; exact HL|].
  destruct (TCPSender.fill_window_spec W s (l_wf HL))
    as (Hwf & _ & _ & Ei & Ew & Er & new & Eu & Eo & Ht & Hn).
  set (s' := TCPSender.fill_window s) in *. pose proof (TCPSender.tiles_le _ _ _ _ _ Ht) as Hle.
  assert (G : grows W s W s').
  { constructor; try done; [exists []; by rewrite app_nil_r|congruence]. }
  apply link_sender; try done; try apply HL.
  - rewrite Eo. apply Forall_app. split.
    + eapply Forall_impl; [apply (l_out HL)|]. intros g. apply placed_grow; [apply HL|done].
    + rewrite <- Ei in Ht. by eapply tiles_placed.
  - apply unstamped_fill, HL.
  - rewrite Er. apply HL.
  - rewrite Ew. apply HL.
  - destruct new as [|g new]; [cbn in Ht; rewrite <- Ht; apply HL|].
    apply window_edge; [done|]. rewrite <- Er. by apply Hn.
  - intros Hz. rewrite Er in Hz. rewrite Ew. destruct (l_syn HL Hz) as [H1 H2]. split; [done|].
    destruct new as [|g new]; [cbn in Ht; lia|]. unfold TCPSender.win in Hn. specialize (Hn ltac:(done)). lia.
  - by eapply closing_fill.
Qed.

Lemma link_window w :
  0 <= w < 65536 -> w <= (if TCPReceiver.isnset r then cap else 1) ->
  0 < TCPSender.byte_received s ->
  link cap W (TCPSender.set_window_size w s) q R r aq.
Proof using HL.
  intros H1 H2 H3. apply link_sender; try done; try apply HL; [by apply grows_same| |].
  - apply TCPSender.set_window_wf; [apply HL|done].
  - cbn. lia.
Qed.

Lemma accept_ack_frame k :
  TCPSender.stream (TCPSender.accept_ack k s) = TCPSender.stream s /\
  TCPSender.eof (TCPSender.accept_ack k s) = TCPSender.eof s.
Proof using. unfold TCPSender.accept_ack. by destruct (negb _). Qed.

Lemma link_accept k :
  TCPSender.byte_received s < k <= acked (sent_bytes s) r ->
  link cap W (TCPSender.accept_ack k s) q R r aq.
Proof using HL.
  intros Hk. pose proof (link_acked_sent HL).
  destruct (TCPSender.accept_ack_wf W s k (l_wf HL)) as (Hwf & Er & Es & Ei & Ew & Eo & p & _ & _ & Eu & _); [lia|].
  destruct (accept_ack_frame k) as [Est Ee].
  assert (G : grows W s W (TCPSender.accept_ack k s)) by (by apply grows_same).
  apply link_sender; try done; try apply HL.
  - rewrite Eo. eapply Forall_impl; [apply (l_out HL)|]. intros g. apply placed_grow; [apply HL|done].
  - pose proof (l_plain HL) as Hp. unfold unstamped in *. rewrite Eo, Forall_app in *.
    destruct Hp as [Hp1 Hp2]. split; [done|]. rewrite Eu in Hp2. by apply Forall_app in Hp2 as [_ ?].
  - lia.
  - rewrite Ew. apply HL.
  - rewrite Es. apply HL.
  - pose proof (TCPSender.wf_received _ _ (l_wf HL)). lia.
  - eapply closing_keep; [done|done| |apply (l_closing HL)]. intros g Hg. right. exists g. split; [|done].
    revert Hg. unfold in_use. rewrite Eo, Eu, !elem_of_app. tauto.
Qed.
End Moves.

Lemma accept_ack_window k w s :
  TCPSender.accept_ack k (TCPSender.set_window_size w s) =
  TCPSender.set_window_size w (TCPSender.accept_ack k s).
Proof. unfold TCPSender.accept_ack. cbn. by destruct (negb _). Qed.

(** A genuine acknowledgement is never refused. *)
Lemma link_ack cap W s q R r aq g :
  link cap W s q R r aq -> honest cap (sent_bytes s) (TCPSender.isn s) r g ->
  TCPHeader.ack (TCPSegment.header g) = true ->
  exists s', TCPSender.ack_received (TCPHeader.ackno (TCPSegment.header g))
      (TCPHeader.win (TCPSegment.header g)) s = (true, s') /\
    link cap W s' q R r aq /\ 1 <= TCPSender.byte_sent s'.
Proof.
  intros HL Hh Ha. destruct (Hh Ha) as (Hset & Hw & Hw16 & k & Hk & Ek).
  destruct (TCPSender.ack_received_spec W s (TCPHeader.ackno (TCPSegment.header g))
    (TCPHeader.win (TCPSegment.header g)) (l_wf HL) ltac:(lia)) as [E _].
  cbv zeta in E. rewrite E. clear E. pose proof (link_acked_sent HL).
  pose proof (l_open HL Hset) as Ho. pose proof (link_sizes HL) as (_ & Hb & Hlim).
  unfold stream_limit in Hlim. pose proof (TCPSender.wf_received _ _ (l_wf HL)).
  rewrite Ek, unwrap_wrap_near by lia.
  assert (HL1 : forall s1, link cap W s1 q R r aq -> 0 < TCPSender.byte_received s1 ->
    link cap W (TCPSender.set_window_size (TCPHeader.win (TCPSegment.header g)) s1) q R r aq).
  { intros s1 Hs1 Hpos. apply link_window; [done|lia| |done]. rewrite Hset. lia. }
  case_Z; [lia|]. case_Z; [eexists; split; [reflexivity|]; split; [apply HL1; [done|lia]|done]|].
  eexists. split; [reflexivity|].
  assert (HL2 : forall s2, link cap W s2 q R r aq ->
    link cap W (TCPSender.fill_window s2) q R r aq /\ 1 <= TCPSender.byte_sent (TCPSender.fill_window s2)).
  { intros s2 Hs2. split; [by apply link_fill|by eapply fill_opens, Hs2]. }
  apply HL2. case_Z; [apply HL1; [done|lia]|]. rewrite accept_ack_window. apply HL1.
  - apply link_accept; [done|]. lia.
  - destruct (TCPSender.accept_ack_wf W s k (l_wf HL)) as (_ & -> & _); lia.
Qed.

Lemma link_tick cap W s q R r aq ms s' :
  link cap W s q R r aq -> TCPSender.consecutive_retrans_v s < 4294967295 ->
  TCPSender.tick ms s = Ok s' -> link cap W s' q R r aq.
Proof.
  intros HL Hk Et. destruct (TCPSender.tick_spec W s ms (l_wf HL) Hk)
    as (s1 & E & Hwf & _ & Eu & Es & Er & Ei & Eo & _). rewrite Et in E. injection E as <-.
  destruct (Progress.tick_frame _ _ _ Et) as (Ew & _ & Ee).
  assert (G : grows W s W s') by (by apply grows_same).
  apply (link_sender HL); try done; try apply HL.
  - rewrite Eo. apply Forall_app. split.
    + eapply Forall_impl; [apply (l_out HL)|]. intros g. apply placed_grow; [apply HL|done].
    + destruct (_ && _); [|done]. destruct (TCPSender.wf_unacked _ _ Hwf) as (u & _ & Ht & _).
      rewrite Eu in Ht. apply Forall_take. by eapply tiles_placed.
  - by eapply unstamped_tick, HL.
  - rewrite Er. apply HL.
  - rewrite Ew. apply HL.
  - rewrite Es. apply HL.
  - rewrite Er, Ew, Es. apply HL.
  - eapply closing_keep; [done|done| |apply (l_closing HL)]. intros g Hg. right. exists g. split; [|done].
    revert Hg. unfold in_use. rewrite Eo, Eu, !elem_of_app. intros [?|[[?|Hg]|?]]; [tauto..| |tauto].
    right; right. destruct (_ && _); [|by apply elem_of_nil in Hg]. rewrite <- (take_drop 1 (TCPSender.unacked s)).
    apply elem_of_app. by left.
Qed.

Lemma link_empty cap W s q R r aq :
  link cap W s q R r aq -> 1 <= TCPSender.byte_sent s ->
  link cap W (TCPSender.send_empty_segment s) q R r aq.
Proof.
  intros HL Hs. apply (link_sender HL); try done; try apply HL; [by apply grows_same| | | |].
  - apply TCPSender.send_empty_wf, HL.
  - apply Forall_app. split; [apply (l_out HL)|]. apply Forall_singleton. right.
    exists (TCPSender.byte_sent s). by split.
  - pose proof (l_plain HL) as Hp. unfold unstamped in *. cbn. rewrite !Forall_app in *.
    destruct Hp as [H1 H2]. by rewrite Forall_singleton.
  - apply (closing_keep W s q); [done|done| |apply (l_closing HL)]. intros g Hg.
    unfold in_use in *. cbn in Hg. rewrite !elem_of_app, list_elem_of_singleton in Hg.
    destruct Hg as [Hg|[[Hg| ->]|Hg]]; [| |by left|]; right; exists g; rewrite !elem_of_app;
      (split; [tauto|done]).
Qed.

(** The sender's segments move to the connection's queue. *)
Lemma link_drain cap W s q R r aq p rest moved :
  link cap W s q R r aq -> TCPSender.segments_out s = p ++ rest ->
  Forall (fun g => exists g0, g0 ∈ p /\ TCPConnection.same_content g0 g) moved ->
  link cap W (TCPSender.set_segments_out rest s) (q ++ moved) R r aq.
Proof.
  intros HL E Hm. pose proof (l_out HL) as Ho. rewrite E in Ho. apply Forall_app in Ho as [Hp Hrest].
  assert (HL1 : link cap W (TCPSender.set_segments_out rest s) q R r aq).
  { apply (link_sender HL); try done; try apply HL; [by apply grows_same| | |].
    - eapply TCPSender.drain_wf; [apply HL|done].
    - pose proof (l_plain HL) as Hpl. unfold unstamped in *. cbn. rewrite E, !Forall_app in Hpl.
      apply Forall_app. tauto.
    - apply (closing_keep W s q); [done|done| |apply (l_closing HL)]. intros g Hg. right. exists g.
      split; [|done]. revert Hg. unfold in_use. cbn. rewrite E, !elem_of_app. tauto. }
  destruct HL1. constructor; try done.
  - apply Forall_app. split; [done|]. eapply Forall_impl; [exact Hm|].
    intros g (g0 & Hg & Hs). rewrite Forall_forall in Hp. eapply placed_same; [exact Hs|]. by apply Hp.
  - apply (closing_keep W s q); [done|done| |apply (l_closing HL)]. rewrite Forall_forall in Hm.
    intros g. unfold in_use. cbn. rewrite E, !elem_of_app. intros [[Hg|Hg]|[Hg|Hg]]; right.
    2: { destruct (Hm g Hg) as (g0 & Hg0 & Hs). exists g0. rewrite !elem_of_app. tauto. }
    all: exists g; rewrite !elem_of_app; (split; [tauto|done]).
Qed.

(** *** The receiver moves *)

(** [r'] knows at least as much as [r]. *)
Record advances (r r' : TCPReceiver) : Prop := {
  a_set : TCPReceiver.isnset r = true -> TCPReceiver.isnset r' = true;
  a_fin : TCPReceiver.finset r = true -> TCPReceiver.finset r' = true;
  a_first : SR.firstindex (TCPReceiver.reassembler r) <= SR.firstindex (TCPReceiver.reassembler r')
}.

Section Receives.
Context {cap : Z} {W : bytes} {s : TCPSender} {q : list TCPSegment}.
Context {R : bytes} {r : TCPReceiver} {aq : list TCPSegment}.
Context (HL : link cap W s q R r aq).

Lemma window_size_bounds : 0 <= TCPReceiver.window_size r <= cap.
Proof using HL.
  pose proof (TCPReceiver.inv_run _ _ _ _ _ (l_recv HL)) as Hr.
  pose proof (SR.wf_remaining _ _ (SR.inv_wf _ _ _ _ Hr)) as Hrem.
  pose proof (ByteStream.wf_capacity _ (SR.wf_out _ _ (SR.inv_wf _ _ _ _ Hr))) as Hc.
  rewrite (SR.wf_max _ _ (SR.inv_wf _ _ _ _ Hr)) in Hc.
  rewrite (TCPReceiver.inv_cap _ _ _ _ _ (l_recv HL)), (l_rcap HL) in *.
  unfold TCPReceiver.window_size, TCPReceiver.stream_out, SR.stream_out. rewrite Hrem. size_lia.
Qed.

Lemma acked_advances R' r' :
  TCPReceiver.inv (stream_of W) (sent_bytes s) (TCPSender.isn s) R' r' ->
  advances r r' -> acked (sent_bytes s) r <= acked (sent_bytes s) r'.
Proof using HL.
  intros H' [H1 H2 H3]. pose proof (link_sizes HL). pose proof (link_first HL).
  pose proof (SR.inv_first_le (stream_of W) (sent_bytes s) ltac:(lia) _ _
    (TCPReceiver.inv_run _ _ _ _ _ H')) as HF.
  unfold acked, TCPReceiver.abs_ack.
  destruct (TCPReceiver.isnset r) eqn:E; [rewrite H1 by done|destruct (TCPReceiver.isnset r')];
    repeat case_match; try lia.
  destruct (TCPReceiver.finset r) eqn:E2; [|done]. rewrite H2 in * by done. cbn [andb] in *. lia.
Qed.

Lemma link_receiver R' r' :
  advances r r' ->
  TCPReceiver.inv (stream_of W) (sent_bytes s) (TCPSender.isn s) R' r' ->
  TCPReceiver.capacity r' = cap ->
  (TCPReceiver.isnset r' = true -> 1 <= TCPSender.byte_sent s) ->
  (TCPReceiver.finset r' = true -> TCPSender.eof s = true) ->
  (ByteStream.input_ended (TCPReceiver.stream_out r') = true -> TCPReceiver.finset r' = true) ->
  closing W s q r' ->
  (TCPReceiver.finset r' = true -> SR.firstindex (TCPReceiver.reassembler r') = sent_bytes s ->
   ByteStream.input_ended (TCPReceiver.stream_out r') = true) ->
  link cap W s q R' r' aq.
Proof using HL.
  intros A H' Hc Ho Hf He Hcl Hen. pose proof (acked_advances R' r' H' A) as Ha.
  pose proof (l_cap HL). pose proof (l_window HL) as Hw. pose proof (l_sent HL) as Hs.
  pose proof (l_acked HL). destruct A as [A1 A2 A3]. pose proof (link_first HL).
  constructor; try done; try apply HL; try lia.
  - destruct (TCPReceiver.isnset r); [by rewrite A1|]. destruct (TCPReceiver.isnset r'); lia.
  - unfold edge in *. destruct (TCPReceiver.isnset r); [rewrite A1 by done; lia|].
    destruct (TCPReceiver.isnset r'); lia.
  - eapply Forall_impl; [apply (l_acks HL)|]. intros g Hg Hack.
    destruct (Hg Hack) as (I1 & I2 & I3 & k & Hk & Ek). split; [by apply A1|]. split; [done|].
    split; [done|]. exists k. split; [lia|done].
Qed.

Lemma link_read len u o :
  0 <= len -> ByteStream.read len (TCPReceiver.stream_out r) = (u, o) ->
  link cap W s q (R ++ u) (TCPReceiver.set_stream_out o r) aq.
Proof using HL.
  intros Hl E. pose proof (link_sizes HL) as (? & ? & Hlim). unfold stream_limit in Hlim.
  assert (Ee : ByteStream.input_ended o = ByteStream.input_ended (TCPReceiver.stream_out r)).
  { unfold ByteStream.read in E. by injection E as _ <-. }
  apply link_receiver; try apply HL; try done.
  - eapply (TCPReceiver.receiver_step_inv (stream_of W) (sent_bytes s));
      [lia|lia|apply HL|apply (l_recv HL)|]. by econstructor.
  - cbn. unfold SR.stream_out. cbn. rewrite Ee. apply HL.
  - cbn. unfold SR.stream_out. cbn. rewrite Ee. apply HL.
Qed.

Lemma link_error :
  link cap W s q R
    (TCPReceiver.set_stream_out (ByteStream.set_error (TCPReceiver.stream_out r)) r) aq.
Proof using HL.
  apply link_receiver; try apply HL; [done|]. destruct (l_recv HL) as [[[] ? ? ? ? ?] ? ? ? ?].
  constructor; try done. constructor; try done. constructor; try done. cbn. by destruct wf_out.
Qed.

(** New segments stamped by [r] acknowledge what [r] has. *)
Lemma link_stamped new :
  Forall (fun g => TCPHeader.ack (TCPSegment.header g) = true -> TCPReceiver.isnset r = true /\
    TCPConnection.stamped r g) new ->
  link cap W s q R r (aq ++ new).
Proof using HL.
  intros Hn. pose proof HL as []. constructor; try done. apply Forall_app. split; [done|].
  eapply Forall_impl; [exact Hn|]. intros g Hg Ha. destruct (Hg Ha) as [Hset Hst].
  split; [done|]. pose proof (link_sizes HL) as (? & ? & Hlim). unfold stream_limit in Hlim.
  unfold TCPConnection.stamped in Hst.
  rewrite (TCPReceiver.ackno_abs (stream_of W) (sent_bytes s) ltac:(lia) ltac:(lia)
    (TCPSender.isn s) R r (l_recv HL) Hset) in Hst.
  destruct Hst as (_ & Ek & Ew). rewrite Ew.
  pose proof window_size_bounds as Hwin.
  assert (0 <= u16 (TCPReceiver.window_size r) <= TCPReceiver.window_size r /\
          u16 (TCPReceiver.window_size r) < 65536) as [Hu1 Hu2].
  { unfold u16. split; [split; [by apply Z.mod_pos_bound|apply Z.mod_le; lia]|].
    by apply Z.mod_pos_bound. }
  split; [lia|]. split; [done|]. exists (TCPReceiver.abs_ack (sent_bytes s) r). split; [|done].
  pose proof (link_first HL). unfold acked. rewrite Hset. unfold TCPReceiver.abs_ack.
  repeat case_match; lia.
Qed.
End Receives.

(** What the network must not do: bring a FIN without payload to the receiver
    before the bytes the FIN follows; nor, once some FIN has arrived, an empty
    segment that carries the number of the first missing byte.  Both make this
    receiver end the stream too early. *)
Definition orderly (W : bytes) (n0 : WrappingInt32) (r : TCPReceiver) (seg : TCPSegment) : Prop :=
  let F := SR.firstindex (TCPReceiver.reassembler r) in
  let header := TCPSegment.header seg in
  TCPReceiver.isnset r = true -> Buffer.str (TCPSegment.payload seg) = [] ->
  if TCPHeader.fin header then F = size W
  else SR.checkeof (TCPReceiver.reassembler r) = true ->
       TCPHeader.seqno header = wrap (if TCPHeader.syn header then F else 1 + F) n0 -> F = size W.

Section Segment.
Context {cap : Z} {W : bytes} {s : TCPSender} {q : list TCPSegment}.
Context {R : bytes} {r : TCPReceiver} {aq : list TCPSegment}.
Context (HL : link cap W s q R r aq).
Context (seg : TCPSegment) (Hord : orderly W (TCPSender.isn s) r seg).

Lemma carries_arrives a :
  TCPSender.carries W (TCPSender.isn s) a seg -> a + TCPSender.len seg <= TCPSender.byte_sent s ->
  (TCPReceiver.isnset r = false -> a = 0) ->
  TCPReceiver.peer_segment (stream_of W) (sent_bytes s) (TCPSender.isn s) a seg r.
Proof using HL Hord.
  intros Hc Hle Ha0. pose proof (TCPSender.carries_end _ _ _ _ Hc) as Hend.
  pose proof (TCPSender.carries_len _ _ _ _ Hc) as Hlen.
  pose proof (link_sizes HL) as (HL1 & HL2 & HL3). pose proof (link_first HL) as HF.
  pose proof (l_cap HL) as Hcap. pose proof (l_sent HL) as Hedge.
  pose proof (TCPSender.carries_fin_eof W s a seg (l_wf HL) Hc Hle) as Heof.
  pose proof (TCPSender.wf_sent _ _ (l_wf HL) ltac:(destruct Hc; lia)) as Hsent.
  pose proof (eof_all_read W s (l_wf HL)) as Hall.
  pose proof (l_recv HL) as Hrecv. unfold orderly, stream_limit, edge in *.
  destruct Hc as [H0 H1 H2 H3 _ H5 H6 _].
  assert (Hi : 0 <= index_of a) by (unfold index_of; case_Z; lia).
  assert (Hb : index_of a + size (Buffer.str (TCPSegment.payload seg)) <= sent_bytes s).
  { destruct (TCPSender.eof s) eqn:E; [rewrite Hall by done; lia|]. cbn in Hsent.
    destruct (TCPHeader.fin _); cbn in Hend; lia. }
  unfold TCPReceiver.peer_segment, SR.arrival.
  rewrite (TCPReceiver.inv_cap _ _ _ _ _ Hrecv), (l_rcap HL). split_and!; try done; try lia.
  - rewrite EndToEnd.slice_stream_of by (unfold size in *; lia). exact H3.
  - unfold index_of in *. destruct (TCPReceiver.isnset r); [|rewrite Ha0 by done; cbn; lia].
    destruct (a =? 0); lia.
  - intros Hf. rewrite (Hall (Heof Hf)). split; [by apply H6|]. rewrite Heof in Hsent by done.
    rewrite (Hall (Heof Hf)) in Hsent. cbn in Hsent. destruct (TCPReceiver.isnset r); lia.
  - intros Hnil. revert Hord. destruct (TCPHeader.fin _) eqn:Hf; intros Ho; [left|right];
      (split; [done|]).
    + rewrite Heof in Hsent by done. cbn in Hsent.
      pose proof (Hall (Heof eq_refl)).
      destruct (TCPReceiver.isnset r); [specialize (Ho eq_refl Hnil)|]; lia.
    + intros Hck HFi. rewrite <- (TCPReceiver.inv_fin _ _ _ _ _ Hrecv) in *.
      destruct (TCPReceiver.isnset r) eqn:Hset;
        [|by rewrite (TCPReceiver.inv_fresh _ _ _ _ _ Hrecv Hset) in Hck].
      assert (SR.firstindex (TCPReceiver.reassembler r) = size W); [|lia].
      apply (Ho eq_refl Hnil Hck). rewrite H1, H2. unfold index_of in HFi.
      destruct (Z.eqb_spec a 0); f_equal; lia.
Qed.

Lemma bare_arrives a :
  1 <= a <= TCPSender.byte_sent s -> bare (TCPSender.isn s) a seg ->
  TCPReceiver.isnset r = true -> a - 1 <= sent_bytes s ->
  TCPReceiver.peer_segment (stream_of W) (sent_bytes s) (TCPSender.isn s) a seg r.
Proof using HL Hord.
  intros Ha (H1 & H2 & H3 & H4) Hset Hidx. pose proof (link_sizes HL) as (HL1 & HL2 & HL3).
  pose proof (link_first HL) as HF. pose proof (l_cap HL) as Hcap. pose proof (l_sent HL) as Hedge.
  unfold orderly, stream_limit, edge in *. rewrite Hset in *.
  unfold TCPReceiver.peer_segment, SR.arrival, index_of.
  rewrite (TCPReceiver.inv_cap _ _ _ _ _ (l_recv HL)), (l_rcap HL), H1, H2, H3, H4.
  assert ((a =? 0) = false) as -> by lia. size_simpl. split_and!; try done; try lia.
  intros _. right. split; [done|]. intros Hck HFi. specialize (Hord eq_refl H4).
  rewrite H3 in Hord. specialize (Hord Hck). rewrite H1, H2 in Hord.
  assert (SR.firstindex (TCPReceiver.reassembler r) = size W); [|lia].
  apply Hord. f_equal. lia.
Qed.

(** Past the FIN, an empty segment changes nothing. *)
Lemma bare_beyond a :
  1 <= a <= TCPSender.byte_sent s -> bare (TCPSender.isn s) a seg ->
  TCPReceiver.isnset r = true -> sent_bytes s < a - 1 ->
  exists b, TCPReceiver.segment_received seg r = Ok (b, r) /\
    (a = TCPReceiver.abs_ack (sent_bytes s) r -> b = true).
Proof using HL.
  clear Hord. intros Ha (H1 & H2 & H3 & H4) Hset Hidx.
  pose proof (link_sizes HL) as (HL1 & HL2 & HL3). pose proof (link_first HL) as HF.
  unfold stream_limit in HL3.
  unfold TCPReceiver.segment_received, Buffer.copy. rewrite Hset. cbn [negb]. cbv zeta.
  rewrite (TCPReceiver.inv_written _ _ _ _ _ (l_recv HL)), (TCPReceiver.inv_isn _ _ _ _ _ (l_recv HL) Hset).
  rewrite (TCPReceiver.ackno_abs (stream_of W) (sent_bytes s) ltac:(lia) ltac:(lia)
    (TCPSender.isn s) R r (l_recv HL) Hset), H1, H2, H3, H4. cbn [TCPReceiver.value mbind result_bind negb].
  rewrite SR.push_empty, (unwrap_wrap_near a) by lia. rewrite (u64_id (a - 1)) by lia. cbv zeta.
  cbn [orb SR.checkeof SR.set_checkeof SR.firstindex].
  assert ((SR.firstindex (TCPReceiver.reassembler r) =? a - 1) = false) as -> by lia.
  rewrite andb_false_r. cbn [mbind result_bind andb]. eexists. split.
  - f_equal. f_equal. rewrite <- (TCPReceiver.inv_isn _ _ _ _ _ (l_recv HL) Hset), <- Hset.
    by destruct r as [[] ? ? ? ?].
  - pose proof (window_size_bounds HL) as Hwin. pose proof (l_cap HL). intros E. rewrite <- E, unwrap_wrap_near by lia.
    unfold Buffer.buf_size. rewrite H4. change (size []) with 0. cbn [Z.eqb].
    rewrite (u64_id (a + 1)) by lia. rewrite u64_id by (case_Z; lia).
    apply andb_true_iff. split; [|destruct (Z.eqb_spec (TCPReceiver.window_size r) 0)]; lia.
Qed.

Lemma queue_placed g : g ∈ q -> TCPConnection.same_content g seg -> placed W s seg.
Proof using HL.
  intros Hg Hs. eapply placed_same; [exact Hs|]. pose proof (l_queue HL) as Hq.
  rewrite Forall_forall in Hq. by apply Hq.
Qed.

Lemma placed_carries a :
  placed W s seg -> Buffer.str (TCPSegment.payload seg) <> [] ->
  TCPHeader.seqno (TCPSegment.header seg) = wrap a (TCPSender.isn s) -> 0 <= a ->
  index_of a <= size W -> TCPSender.carries W (TCPSender.isn s) a seg.
Proof using HL.
  intros [(a' & Hc & Hle)|(_ & _ & _ & _ & _ & ?)] Hn E Ha Hi; [|done].
  pose proof (link_sizes HL) as (_ & _ & Hsz). pose proof (TCPSender.c_bound _ _ _ _ Hc).
  pose proof (TCPSender.c_pos _ _ _ _ Hc). rewrite (TCPSender.c_seqno _ _ _ _ Hc) in E.
  pose proof (size_nonneg (Buffer.str (TCPSegment.payload seg))). unfold stream_limit in Hsz.
  replace a with a'; [done|]. unfold index_of in *.
  rewrite <- (unwrap_wrap_near a' (TCPSender.isn s) 0), E, unwrap_wrap_near;
    repeat case_match; lia.
Qed.

(** A segment with the last byte and without the FIN is not sent when the FIN goes with it. *)
Lemma closes_fin a g b :
  (forall g, g ∈ in_use q s -> closes W (TCPSender.isn s) g -> TCPHeader.fin (TCPSegment.header g) = b) ->
  g ∈ q -> TCPConnection.same_content g seg ->
  TCPHeader.seqno (TCPSegment.header seg) = wrap a (TCPSender.isn s) -> 0 <= a ->
  Buffer.str (TCPSegment.payload seg) <> [] ->
  index_of a + size (Buffer.str (TCPSegment.payload seg)) = size W ->
  TCPHeader.fin (TCPSegment.header seg) = b.
Proof using HL.
  intros Hb Hg Hsame Hseq Ha Hn He. pose proof (size_nonneg (Buffer.str (TCPSegment.payload seg))).
  pose proof (placed_carries a (queue_placed g Hg Hsame) Hn Hseq Ha ltac:(lia)) as Hc.
  pose proof Hsame as (_ & _ & <- & _). apply Hb; [unfold in_use; apply elem_of_app; by left|].
  eapply closes_same; [exact Hsame|]. by exists a.
Qed.

(** The last byte becomes known only together with the FIN, when the FIN goes with it. *)
Lemma closing_arrival a g ra cp :
  g ∈ q -> TCPConnection.same_content g seg ->
  TCPReceiver.peer_segment (stream_of W) (sent_bytes s) (TCPSender.isn s) a seg r ->
  SR.push_substring (Buffer.str (TCPSegment.payload seg)) (index_of a)
    (TCPHeader.fin (TCPSegment.header seg)) (TCPReceiver.reassembler r) = Ok ra ->
  closing W s q (TCPReceiver.mkReceiver ra cp (TCPSender.isn s) true
    (TCPHeader.fin (TCPSegment.header seg) || TCPReceiver.finset r)).
Proof using HL.
  intros Hg Hsame (Ha & Hseq & _ & Harr & _) Hp He. pose proof Harr as (Hd & Hi & Hle & H63 & _).
  pose proof (link_sizes HL) as (HL1 & _ & HL3). unfold stream_limit in HL3.
  destruct (l_closing HL He) as (b & Hb & Hk). exists b. split; [done|].
  cbn. intros -> [Hf Hfin]%orb_false_iff Hx. apply (Hk eq_refl Hfin).
  destruct (SR.push_spec (stream_of W) (TCPReceiver.reassembler r) (Buffer.str (TCPSegment.payload seg))
    (index_of a) (TCPHeader.fin (TCPSegment.header seg))) as (ra' & E & _ & Hkn & _); try done; [|lia|].
  { apply (SR.inv_wf _ _ _ _ (TCPReceiver.inv_run _ _ _ _ _ (l_recv HL))). }
  rewrite Hp in E. injection E as <-. apply Hkn in Hx as [?|[Hx _]]; [done|exfalso].
  rewrite (eof_all_read _ _ (l_wf HL) He) in Hle.
  rewrite (closes_fin a g true) in Hf; try done; [|lia].
  intros E. rewrite E in Hx. change (size []) with 0 in Hx. lia.
Qed.

Lemma ended_arrival a g ra :
  g ∈ q -> TCPConnection.same_content g seg ->
  TCPReceiver.peer_segment (stream_of W) (sent_bytes s) (TCPSender.isn s) a seg r ->
  SR.push_substring (Buffer.str (TCPSegment.payload seg)) (index_of a)
    (TCPHeader.fin (TCPSegment.header seg)) (TCPReceiver.reassembler r) = Ok ra ->
  TCPHeader.fin (TCPSegment.header seg) || TCPReceiver.finset r = true ->
  SR.firstindex ra = sent_bytes s -> ByteStream.input_ended (SR.output ra) = true.
Proof using HL.
  intros Hg Hsame (Ha & Hseq & _ & Harr & _) Hp Hf HF.
  pose proof (link_sizes HL) as (HL1 & _ & HL3). unfold stream_limit in HL3.
  pose proof (TCPReceiver.inv_fin _ _ _ _ _ (l_recv HL)) as Efin.
  destruct (arrival_ends _ (sent_bytes s) _ _ _ _ _ _ ltac:(lia)
    (TCPReceiver.inv_run _ _ _ _ _ (l_recv HL)) Harr Hp) as [?|[-> Hnil]]; [by rewrite <- Efin|done|done|].
  cbn in HF |- *. destruct (TCPReceiver.finset r) eqn:Efs; [by apply (l_ended HL)|].
  rewrite orb_false_r in Hf. exfalso.
  pose proof (placed_fin HL seg (queue_placed g Hg Hsame) Hf) as He.
  assert (Hn : Buffer.str (TCPSegment.payload seg) <> []) by (intros E; specialize (Hnil E); congruence).
  destruct (l_closing HL He) as (b & Hb & Hk). destruct Harr as (_ & _ & Hle & _ & Heof & _).
  destruct (Heof Hf) as [Hend _]. rewrite (eof_all_read _ _ (l_wf HL) He) in *.
  assert (Hb1 : b = true) by (rewrite <- Hf; symmetry; by eapply closes_fin).
  apply (Hk Hb1 Efs). left. rewrite HF. destruct (Buffer.str (TCPSegment.payload seg)); [done|].
  rewrite size_cons in Hend. pose proof (size_nonneg l). unfold index_of in Hend. case_match; lia.
Qed.

Lemma link_peer a g :
  (TCPReceiver.isnset r = false -> a = 0) -> g ∈ q -> TCPConnection.same_content g seg ->
  (TCPReceiver.isnset r = false -> 1 <= TCPSender.byte_sent s) ->
  TCPReceiver.peer_segment (stream_of W) (sent_bytes s) (TCPSender.isn s) a seg r ->
  exists b r', TCPReceiver.segment_received seg r = Ok (b, r') /\ link cap W s q R r' aq.
Proof using HL.
  clear Hord. intros Ha0 Hg Hsame Hopen Hp. pose proof (link_sizes HL) as (HL1 & HL2 & HL3).
  pose proof (queue_placed g Hg Hsame) as Hpl. unfold stream_limit in HL3.
  destruct (TCPReceiver.received_spec (stream_of W) (sent_bytes s) ltac:(lia) ltac:(lia)
    (TCPSender.isn s) (l_isn HL) R r seg a (l_recv HL) Ha0 Hp) as (ra & Epush & _ & E).
  do 2 eexists. split; [exact E|].
  pose proof Hp as (_ & _ & _ & Harr & _).
  destruct (arrival_advances _ (sent_bytes s) _ _ _ _ _ _ ltac:(lia)
    (TCPReceiver.inv_run _ _ _ _ _ (l_recv HL)) Harr Epush) as [Hfirst Hended].
  apply (link_receiver HL); cbn.
  - constructor; cbn; [done|intros ->; apply orb_true_r|done].
  - eapply (TCPReceiver.receiver_step_inv (stream_of W) (sent_bytes s));
      [lia|lia|apply HL|apply (l_recv HL)|]. eapply TCPReceiver.step_segment; [exact Ha0| |exact E].
    exact Hp.
  - apply HL.
  - intros _. destruct (TCPReceiver.isnset r) eqn:Hset; [by apply (l_open HL)|by apply Hopen].
  - intros [Hf|Hf]%orb_true_iff; [by apply (placed_fin HL seg)|by apply (l_fin HL)].
  - intros Hx. destruct (Hended Hx) as [Hold|Hnew].
    + rewrite (l_end HL Hold). apply orb_true_r.
    + by rewrite (TCPReceiver.inv_fin _ _ _ _ _ (l_recv HL)).
  - by eapply closing_arrival.
  - intros Hf HF. by eapply ended_arrival.
Qed.

Lemma link_segment g :
  g ∈ q -> TCPConnection.same_content g seg ->
  exists b r', TCPReceiver.segment_received seg r = Ok (b, r') /\ link cap W s q R r' aq.
Proof using HL Hord.
  intros Hg Hsame. pose proof (queue_placed g Hg Hsame) as Hpl.
  destruct (TCPReceiver.isnset r) eqn:Hset.
  - pose proof Hpl as [(a & Hc & Hl)|(a & Ha & Hb)].
    + apply (link_peer a g); try done; [congruence..|]. apply carries_arrives; [done|done|congruence].
    + destruct (Z.le_gt_cases (a - 1) (sent_bytes s)).
      * apply (link_peer a g); try done; [congruence..|]. by apply bare_arrives.
      * destruct (bare_beyond a Ha Hb Hset ltac:(lia)) as (b & E & _). by exists b, r.
  - destruct (TCPHeader.syn (TCPSegment.header seg)) eqn:Hsyn.
    + pose proof Hpl as [(a & Hc & Hl)|(a & _ & _ & ? & _)]; [|congruence].
      pose proof (TCPSender.c_syn _ _ _ _ Hc) as E. rewrite Hsyn in E. symmetry in E.
      apply Z.eqb_eq in E. subst a. pose proof (TCPSender.carries_len _ _ _ _ Hc).
      apply (link_peer 0 g); try done; [lia|]. by apply carries_arrives.
    + exists (TCPHeader.fin (TCPSegment.header seg)), r. split; [|done].
      unfold TCPReceiver.segment_received. rewrite Hset, Hsyn. cbn. by destruct (TCPHeader.fin _).
Qed.
End Segment.

(** Who retransmits has sent something. *)
Lemma retransmitted_open W s :
  TCPSender.wf W s -> TCPSender.MAX_RETX_ATTEMPTS < TCPSender.consecutive_retransmissions s ->
  1 <= TCPSender.byte_sent s.
Proof.
  intros Hwf Hk. unfold TCPSender.consecutive_retransmissions, TCPSender.MAX_RETX_ATTEMPTS in Hk.
  destruct (TCPSender.unacked s) as [|g q] eqn:Eu.
  - pose proof (TCPSender.wf_idle _ _ Hwf Eu). lia.
  - destruct (TCPSender.wf_unacked _ _ Hwf) as (u & Hu & Ht & _). rewrite Eu in Ht.
    cbn in Ht. destruct Ht as [Hg Ht]. pose proof (TCPSender.carries_len _ _ _ _ Hg).
    pose proof (TCPSender.tiles_le _ _ _ _ _ Ht). lia.
Qed.

(** ** Two endpoints *)

(** One endpoint with its application and its wire: what was written to it, what
    was read from it, the connection, and every segment its owner has taken from
    the queue and put on the network. *)
Record side := mkSide {
  wrote : bytes;
  got : bytes;
  conn : TCPConnection;
  sent : list TCPSegment
}.

(** Everything queued for the network so far, taken or not. *)
Definition queued (lg : list TCPSegment) (c : TCPConnection) : list TCPSegment :=
  lg ++ TCPConnection.segments_out c.

(** Both directions, seen from an endpoint whose receiver has capacity [cx];
    [y] is the other endpoint, with capacity [cy]. *)
Definition joined (cx cy : Z) (W R : bytes) (c : TCPConnection) (lg : list TCPSegment) (y : side)
    : Prop :=
  link cy W (TCPConnection.sender c) (queued lg c)
    (got y) (TCPConnection.receiver (conn y)) (queued (sent y) (conn y)) /\
  link cx (wrote y) (TCPConnection.sender (conn y)) (queued (sent y) (conn y))
    R (TCPConnection.receiver c) (queued lg c).

Lemma joined_sym cx cy x y :
  joined cx cy (wrote x) (got x) (conn x) (sent x) y ->
  joined cy cx (wrote y) (got y) (conn y) (sent y) x.
Proof. intros [H1 H2]. by split. Qed.

(** The wire keeps the fields that acknowledge. *)
Lemma crosses_header g seg :
  crosses g seg ->
  TCPSegment.header seg = TCPHeader.set_cksum (TCPHeader.cksum (TCPSegment.header seg))
    (TCPSegment.header g).
Proof.
  intros (ck & old & l & Hwf & Hs & Hp).
  destruct (TCPSegment.segment_parse_serialize ck g old Hwf) as (l' & seg' & Hs' & Hp' & Hh & _).
  rewrite Hs in Hs'. injection Hs' as <-. rewrite Hp in Hp'. by injection Hp' as <-.
Qed.

(** Stamping a segment that had no acknowledgement. *)
Lemma info_stamped r g :
  TCPHeader.ack (TCPSegment.header g) = false ->
  TCPHeader.ack (TCPSegment.header (TCPConnection.receiver_info r g)) = true ->
  TCPReceiver.isnset r = true /\ TCPConnection.stamped r (TCPConnection.receiver_info r g).
Proof.
  intros Hg Ha. split; [|apply TCPConnection.receiver_info_stamped].
  revert Ha. unfold TCPConnection.receiver_info, TCPReceiver.ackno.
  destruct (TCPReceiver.isnset r); [done|]. congruence.
Qed.

Section Joined.
Context {cx cy : Z} {y : side} {R : bytes} {lg : list TCPSegment}.

(** A change that leaves the halves and the queue alone. *)
Lemma joined_frame W c c' :
  TCPConnection.sender c' = TCPConnection.sender c ->
  TCPConnection.receiver c' = TCPConnection.receiver c ->
  TCPConnection.segments_out c' = TCPConnection.segments_out c ->
  joined cx cy W R c lg y -> joined cx cy W R c' lg y.
Proof using. unfold joined, queued. by intros -> -> ->. Qed.

Lemma joined_sender W W' s' c :
  (forall q R r aq, link cy W (TCPConnection.sender c) q R r aq -> link cy W' s' q R r aq) ->
  joined cx cy W R c lg y -> joined cx cy W' R (TCPConnection.set_sender s' c) lg y.
Proof using. intros Hs [H1 H2]. split; [by apply Hs|done]. Qed.

Lemma joined_queue W c p rest moved :
  TCPSender.segments_out (TCPConnection.sender c) = p ++ rest ->
  Forall (fun g => exists g0, g0 ∈ p /\ TCPConnection.same_content g0 g /\
    (TCPHeader.ack (TCPSegment.header g0) = false ->
     TCPHeader.ack (TCPSegment.header g) = true ->
     TCPReceiver.isnset (TCPConnection.receiver c) = true /\
     TCPConnection.stamped (TCPConnection.receiver c) g)) moved ->
  joined cx cy W R c lg y ->
  joined cx cy W R
    (TCPConnection.set_sender (TCPSender.set_segments_out rest (TCPConnection.sender c))
      (TCPConnection.set_segments_out (TCPConnection.segments_out c ++ moved) c)) lg y.
Proof using.
  intros E Hm [H1 H2]. unfold joined, queued. cbn. rewrite (assoc_L (++)). split.
  - eapply link_drain; [exact H1|exact E|]. eapply Forall_impl; [exact Hm|].
    intros g (g0 & Hg & Hs & _). by exists g0.
  - apply link_stamped; [exact H2|]. eapply Forall_impl; [exact Hm|].
    intros g (g0 & Hg & _ & Ha). apply Ha. pose proof (l_plain H1) as Hp.
    unfold unstamped in Hp. rewrite Forall_forall in Hp. apply Hp. rewrite E.
    apply elem_of_app. left. apply elem_of_app. by left.
Qed.

Lemma joined_out W c : joined cx cy W R c lg y -> joined cx cy W R (TCPConnection.segment_out c) lg y.
Proof using.
  apply (joined_queue W c (TCPSender.segments_out (TCPConnection.sender c)) []).
  - by rewrite app_nil_r.
  - apply Forall_fmap, Forall_forall. intros g Hg. exists g. split; [done|].
    split; [apply TCPConnection.same_content_info|]. cbn. apply info_stamped.
Qed.

Lemma joined_kill W c : joined cx cy W R c lg y -> joined cx cy W R (TCPConnection.kill c) lg y.
Proof using.
  intros [H1 H2]. split.
  - apply (link_stream H1). apply TCPSender.set_error_wf, H1.
  - apply (link_error H2).
Qed.

Lemma joined_empty W c :
  1 <= TCPSender.byte_sent (TCPConnection.sender c) -> joined cx cy W R c lg y ->
  joined cx cy W R (TCPConnection.set_sender
    (TCPSender.send_empty_segment (TCPConnection.sender c)) c) lg y.
Proof using. intros Hs. apply joined_sender. intros. by apply link_empty. Qed.

Lemma joined_rst W c c' :
  1 <= TCPSender.byte_sent (TCPConnection.sender c) -> TCPConnection.rst_segment c = Ok c' ->
  joined cx cy W R c lg y -> joined cx cy W R c' lg y.
Proof using.
  intros Hs E HJ. unfold TCPConnection.rst_segment in E.
  set (s := if size _ =? 0 then _ else _) in E.
  assert (HJ1 : joined cx cy W R (TCPConnection.set_sender s c) lg y).
  { subst s. case_Z; [by apply joined_empty|]. by eapply joined_frame. }
  destruct (TCPSender.segments_out s) as [|g q] eqn:Eq; [done|]. injection E as <-.
  apply (joined_queue W (TCPConnection.set_sender s c) [g] q); [exact Eq| |exact HJ1].
  apply Forall_singleton. exists g. split; [apply list_elem_of_here|].
  split; [|intros Hg Ha; destruct (info_stamped (TCPConnection.receiver c) g Hg Ha) as [H1 H2]].
  - unfold TCPConnection.receiver_info. by destruct (TCPReceiver.ackno _).
  - split; [done|]. unfold TCPConnection.stamped in *. by destruct (TCPReceiver.ackno _).
Qed.

(** The two halves of [segment_received]. *)
Lemma joined_halves W c g seg :
  g ∈ sent y -> crosses g seg ->
  orderly (wrote y) (TCPSender.isn (TCPConnection.sender (conn y))) (TCPConnection.receiver c) seg ->
  joined cx cy W R c lg y ->
  exists s b r,
    (if TCPHeader.ack (TCPSegment.header seg)
     then TCPSender.ack_received (TCPHeader.ackno (TCPSegment.header seg))
            (TCPHeader.win (TCPSegment.header seg)) (TCPConnection.sender c)
     else (true, TCPSender.fill_window (TCPConnection.sender c))) = (true, s) /\
    1 <= TCPSender.byte_sent s /\
    TCPReceiver.segment_received seg (TCPConnection.receiver c) = Ok (b, r) /\
    joined cx cy W R (TCPConnection.set_receiver r (TCPConnection.set_sender s c)) lg y.
Proof using.
  intros Hg Hcross Hord [H1 H2].
  assert (Hq : g ∈ queued (sent y) (conn y)) by (apply elem_of_app; by left).
  assert (Hh : honest cy (sent_bytes (TCPConnection.sender c)) (TCPSender.isn (TCPConnection.sender c))
    (TCPConnection.receiver (conn y)) seg).
  { pose proof (l_acks H1) as Ha. rewrite Forall_forall in Ha. specialize (Ha g Hq).
    unfold honest in *. by rewrite (crosses_header g seg Hcross). }
  destruct (link_segment H2 seg Hord g Hq (EndToEnd.crosses_same _ _ Hcross)) as (b & r & Er & H2').
  assert (exists s, (if TCPHeader.ack (TCPSegment.header seg)
     then TCPSender.ack_received (TCPHeader.ackno (TCPSegment.header seg))
            (TCPHeader.win (TCPSegment.header seg)) (TCPConnection.sender c)
     else (true, TCPSender.fill_window (TCPConnection.sender c))) = (true, s) /\
    1 <= TCPSender.byte_sent s /\
    link cy W s (queued lg c) (got y) (TCPConnection.receiver (conn y)) (queued (sent y) (conn y)))
    as (s & Es & Hs & H1').
  { destruct (TCPHeader.ack _) eqn:Ha.
    - destruct (link_ack _ _ _ _ _ _ _ seg H1 Hh Ha) as (s & E & Hl & Hs). by exists s.
    - eexists. split; [reflexivity|]. split; [eapply fill_opens, H1|by apply link_fill]. }
  exists s, b, r. by split_and!.
Qed.

Lemma joined_segment W c g seg :
  g ∈ sent y -> crosses g seg ->
  orderly (wrote y) (TCPSender.isn (TCPConnection.sender (conn y))) (TCPConnection.receiver c) seg ->
  joined cx cy W R c lg y ->
  exists c', TCPConnection.segment_received seg c = Ok c' /\ joined cx cy W R c' lg y.
Proof using.
  intros Hg Hcross Hord HJ. unfold TCPConnection.segment_received. cbv zeta.
  destruct (TCPHeader.rst _).
  { eexists. split; [reflexivity|]. apply joined_kill. by eapply joined_frame. }
  destruct (negb _ && _); [eexists; split; [reflexivity|by eapply joined_frame]|].
  set (c1 := if _ && negb _ then _ else _).
  assert (HJ1 : joined cx cy W R c1 lg y).
  { subst c1. destruct (_ && _); by eapply joined_frame. }
  assert (Ec : TCPConnection.receiver c1 = TCPConnection.receiver c) by (subst c1; by destruct (_ && _)).
  rewrite <- Ec in Hord. clearbody c1.
  destruct (joined_halves W c1 g seg Hg Hcross Hord HJ1) as (s & b & r & Es & Hs & Er & HJ2).
  rewrite Es. cbn [TCPConnection.receiver TCPConnection.set_sender]. rewrite Er.
  cbn [mbind result_bind]. destruct (_ && _ && true); [by eexists|].
  eexists. split; [reflexivity|]. apply joined_out. destruct (_ && TCPConnection.has_ackno _); [|done].
  by apply joined_empty.
Qed.

Lemma joined_tick W c ms :
  TCPSender.consecutive_retrans_v (TCPConnection.sender c) < 4294967295 ->
  joined cx cy W R c lg y ->
  exists c', TCPConnection.tick ms c = Ok c' /\ joined cx cy W R c' lg y.
Proof using.
  intros Hk HJ. pose proof HJ as [H1 _].
  destruct (TCPSender.tick_spec W (TCPConnection.sender c) ms (l_wf H1) Hk) as (s & Es & Hwf & _).
  unfold TCPConnection.tick. rewrite Es. cbn [mbind result_bind]. cbv zeta.
  set (c1 := TCPConnection.set_times _ _ _).
  assert (HJ1 : joined cx cy W R c1 lg y).
  { apply (joined_frame W (TCPConnection.set_sender s c)); [done..|].
    eapply joined_sender; [|exact HJ]. intros q R' r aq Hl. by eapply link_tick. }
  case_Z; [|eexists; split; [reflexivity|by apply joined_out]].
  destruct (TCPConnection.rst_segment_ok (TCPConnection.kill c1)) as (c2 & E2 & _). rewrite E2.
  cbn [mbind result_bind]. eexists. split; [reflexivity|]. apply joined_out.
  eapply joined_rst; [|exact E2|by apply joined_kill].
  by apply (retransmitted_open W s Hwf).
Qed.
End Joined.

(** *** Operations on one side *)

Definition apply_side (o : TCPConnection.op) (x : side) : result side :=
  c ← TCPConnection.apply_op o (conn x);
  Ok (mkSide (TCPConnection.written o (wrote x) (conn x))
        (got x ++ match o with
                  | TCPConnection.Read len => (TCPConnection.read len (conn x)).1
                  | _ => []
                  end)
        c
        (sent x ++ match o with
                   | TCPConnection.Take => TCPConnection.segments_out (conn x)
                   | _ => []
                   end)).

(** What may happen to [x] while its peer is [y]: the owner's conditions, and the
    arrival of any segment that [y] has ever put on the network. *)
Definition allowed (y x : side) (o : TCPConnection.op) : Prop :=
  match o with
  | TCPConnection.Write data =>
      ByteStream.bs_end (TCPSender.stream (TCPConnection.sender (conn x))) = false /\
      size (wrote x) + size data < stream_limit
  | TCPConnection.Segment seg =>
      (exists g, g ∈ sent y /\ crosses g seg) /\
      orderly (wrote y) (TCPSender.isn (TCPConnection.sender (conn y)))
        (TCPConnection.receiver (conn x)) seg
  | TCPConnection.Tick ms =>
      TCPSender.consecutive_retrans_v (TCPConnection.sender (conn x)) < 4294967295
  | TCPConnection.Read len => 0 <= len
  | _ => True
  end.

Inductive duplex_step : side * side -> side * side -> Prop :=
| step_left o x x' y : allowed y x o -> apply_side o x = Ok x' -> duplex_step (x, y) (x', y)
| step_right o x y y' : allowed x y o -> apply_side o y = Ok y' -> duplex_step (x, y) (x, y').

Definition fresh (k : TCPSender.TCPConfig) (random : Z) : side :=
  mkSide [] [] (TCPConnection.construct k random) [].

Lemma joined_op cx cy x y o :
  allowed y x o -> joined cx cy (wrote x) (got x) (conn x) (sent x) y ->
  exists x', apply_side o x = Ok x' /\ joined cx cy (wrote x') (got x') (conn x') (sent x') y.
Proof.
  destruct x as [W R c lg]. unfold apply_side.
  destruct o; cbn [allowed TCPConnection.apply_op TCPConnection.written wrote got conn sent];
    intros Hok HJ.
  - eexists. split; [reflexivity|]. cbn. rewrite !app_nil_r. apply joined_out.
    eapply joined_sender; [|exact HJ]. intros q R' r aq Hl. by apply link_fill.
  - eexists. split; [reflexivity|]. cbn [wrote got conn sent]. rewrite !app_nil_r. destruct Hok as [He Hs].
    unfold TCPConnection.write. destruct (ByteStream.write data _) as [n b] eqn:Ew. cbn.
    apply joined_out. eapply joined_sender; [|exact HJ]. intros q R' r aq Hl. apply link_fill.
    pose proof (link_write Hl data He Hs) as Hl'. unfold TCPSender.stream_in in Ew.
    by rewrite Ew in Hl'.
  - eexists. split; [reflexivity|]. cbn. rewrite !app_nil_r. apply joined_out.
    eapply joined_sender; [|exact HJ]. intros q R' r aq Hl. apply link_fill, (link_stream Hl).
    apply TCPSender.sender_end_input_wf, Hl.
  - destruct Hok as [(g & Hg & Hcross) Hord].
    destruct (joined_segment W c g seg Hg Hcross Hord HJ) as (c' & E & HJ').
    rewrite E. cbn. rewrite !app_nil_r. by eexists.
  - destruct (joined_tick W c ms Hok HJ) as (c' & E & HJ'). rewrite E. cbn. rewrite !app_nil_r.
    by eexists.
  - eexists. split; [reflexivity|]. cbn [wrote got conn sent]. rewrite app_nil_r. unfold TCPConnection.read.
    destruct (ByteStream.read len (TCPConnection.inbound_stream c)) as [u o] eqn:Er. cbn.
    destruct HJ as [H1 H2]. split; [done|]. by apply (link_read H2 len).
  - eexists. split; [reflexivity|]. cbn. rewrite app_nil_r. unfold joined, queued in *. cbn.
    by rewrite app_nil_r.
Qed.

(** *** The start *)

Definition config_ok (k : TCPSender.TCPConfig) (random : Z) : Prop :=
  0 <= TCPSender.send_capacity k < M64 /\ 0 < TCPSender.recv_capacity k < 4611686018427387904 /\
  0 <= TCPSender.rt_timeout k < 65536 /\
  wi_wf (default (mkWrappingInt32 random) (TCPSender.fixed_isn k)).

Lemma fresh_link k1 n1 k2 n2 :
  config_ok k1 n1 -> config_ok k2 n2 ->
  link (TCPSender.recv_capacity k2) [] (TCPConnection.sender (TCPConnection.construct k1 n1)) []
    [] (TCPConnection.receiver (TCPConnection.construct k2 n2)) [].
Proof.
  intros (A1 & A2 & A3 & A4) (B1 & B2 & B3 & B4). constructor; try done.
  - by apply TCPSender.sender_construct_wf.
  - by apply Forall_nil.
  - apply TCPReceiver.construct_inv; cbn; lia.
Qed.

Lemma duplex_joined k1 n1 k2 n2 x y :
  config_ok k1 n1 -> config_ok k2 n2 ->
  rtc duplex_step (fresh k1 n1, fresh k2 n2) (x, y) ->
  joined (TCPSender.recv_capacity k1) (TCPSender.recv_capacity k2)
    (wrote x) (got x) (conn x) (sent x) y.
Proof.
  intros Hk1 Hk2 Hrun.
  change (let st := (x, y) in joined (TCPSender.recv_capacity k1) (TCPSender.recv_capacity k2)
    (wrote st.1) (got st.1) (conn st.1) (sent st.1) st.2).
  revert Hrun. generalize (x, y). apply rtc_ind_r.
  - split; by apply fresh_link.
  - intros st st' _ Hs HJ. destruct Hs as [o a a' b Ha E|o a b b' Ha E]; cbn in *.
    + destruct (joined_op _ _ a b o Ha HJ) as (a2 & E2 & HJ'). rewrite E in E2. by injection E2 as ->.
    + apply joined_sym. apply joined_sym in HJ.
      destruct (joined_op _ _ b a o Ha HJ) as (b2 & E2 & HJ'). rewrite E in E2. by injection E2 as ->.
Qed.

(** What an endpoint has received in order: read by its application, or waiting. *)
Definition received (y : side) : bytes :=
  got y ++ ByteStream.content (TCPConnection.inbound_stream (conn y)).

Lemma link_received cap W s q y aq :
  link cap W s q (got y) (TCPConnection.receiver (conn y)) aq ->
  size (received y) = SR.firstindex (TCPReceiver.reassembler (TCPConnection.receiver (conn y))) /\
  received y = take (length (received y)) W.
Proof.
  intros HL. pose proof (TCPReceiver.inv_run _ _ _ _ _ (l_recv HL)) as Hr.
  pose proof (SR.run_content _ _ _ _ Hr) as Hc. pose proof (link_first HL).
  pose proof (link_sizes HL). rewrite EndToEnd.slice_stream_of, drop_0 in Hc by lia.
  unfold received, TCPConnection.inbound_stream, TCPReceiver.stream_out, SR.stream_out.
  rewrite Hc. split; [|rewrite length_take; f_equal]; rewrite ?size_take; unfold size in *; lia.
Qed.

Lemma link_complete cap W s q y aq :
  link cap W s q (got y) (TCPConnection.receiver (conn y)) aq ->
  SR.firstindex (TCPReceiver.reassembler (TCPConnection.receiver (conn y))) = size W ->
  received y = W.
Proof.
  intros HL HF. destruct (link_received _ _ _ _ _ _ HL) as [Hs ->].
  apply take_ge. unfold size in *. lia.
Qed.

(** In the direction from [x] to [y]: what [y] has is a prefix of what was written
    to [x], and all of it when [y] sees the end of the stream. *)
Definition transfers (x y : side) : Prop :=
  received y = take (length (received y)) (wrote x) /\
  (ByteStream.input_ended (TCPConnection.inbound_stream (conn y)) = true -> received y = wrote x).

(** What [x] believes of [y] is true: of the sequence numbers it counts as acknowledged
    (the SYN first, the FIN last) all but the SYN's and the FIN's are of bytes that have
    arrived, and the FIN's is counted only when it was sent and every byte has arrived;
    when it has nothing outstanding after its FIN everything has arrived; and it
    has sent at most the capacity of [y] beyond the bytes that arrived. *)
Definition believes (cap : Z) (x y : side) : Prop :=
  let s := TCPConnection.sender (conn x) in
  TCPSender.byte_received s <= 1 + size (received y) + 1 /\
  (1 + size (received y) < TCPSender.byte_received s ->
     TCPSender.fin_sent s = true /\ received y = wrote x) /\
  (TCPSender.fin_acked s = true -> received y = wrote x) /\
  TCPSender.byte_sent s <= 1 + size (received y) + cap.

Lemma link_transfers cap x q y aq :
  link cap (wrote x) (TCPConnection.sender (conn x)) q (got y) (TCPConnection.receiver (conn y)) aq ->
  transfers x y.
Proof.
  intros HL. split; [by apply (link_received _ _ _ _ _ _ HL)|]. intros He.
  apply (link_complete _ _ _ _ _ _ HL). pose proof (l_fin HL (l_end HL He)) as Heof.
  rewrite <- (eof_all_read _ _ (l_wf HL) Heof).
  by apply (SR.inv_end _ _ _ _ (TCPReceiver.inv_run _ _ _ _ _ (l_recv HL))).
Qed.

Lemma link_believes cap x q y aq :
  link cap (wrote x) (TCPConnection.sender (conn x)) q (got y) (TCPConnection.receiver (conn y)) aq ->
  believes cap x y.
Proof.
  intros HL. unfold believes. cbv zeta. pose proof (link_complete _ _ _ _ _ _ HL) as Hall.
  destruct (link_received _ _ _ _ _ _ HL) as [-> _]. pose proof (eof_all_read _ _ (l_wf HL)) as Hread.
  pose proof (l_acked HL) as Ha. pose proof (l_sent HL) as Hs. pose proof (link_first HL).
  pose proof (l_fin HL) as Hf. pose proof (l_cap HL). unfold acked, TCPReceiver.abs_ack, edge in *.
  unfold TCPSender.fin_acked, TCPSender.fin_sent. split_and!.
  - destruct (TCPReceiver.isnset _); repeat case_match; lia.
  - intros Hlt. destruct (TCPReceiver.isnset _); [|lia].
    destruct (TCPReceiver.finset _); [|cbn in Ha; lia]. rewrite Hf by done.
    split; [done|]. apply Hall. rewrite <- Hread by auto. cbn in Ha.
    destruct (Z.eqb_spec (SR.firstindex (TCPReceiver.reassembler (TCPConnection.receiver (conn y))))
      (sent_bytes (TCPConnection.sender (conn x)))); lia.
  - intros [Hu He]%andb_true_iff. apply Z.eqb_eq, size_0_nil in Hu.
    apply Hall. rewrite <- (Hread He).
    destruct (TCPSender.wf_unacked _ _ (l_wf HL)) as (u & Hu' & Ht & _). rewrite Hu in Ht. cbn in Ht.
    pose proof (TCPSender.wf_received _ _ (l_wf HL)).
    destruct (Z.eq_dec (TCPSender.byte_sent (TCPConnection.sender (conn x))) 0) as [Hz|Hz].
    { destruct (TCPSender.wf_sent0 _ _ (l_wf HL) Hz). congruence. }
    pose proof (TCPSender.wf_sent _ _ (l_wf HL) Hz) as Hsent. rewrite He in Hsent. cbn in Hsent.
    revert Ha. destruct (TCPReceiver.isnset _); [|lia]. repeat case_match; lia.
  - destruct (TCPReceiver.isnset _); lia.
Qed.

Section Claims.
Context (k1 k2 : TCPSender.TCPConfig) (n1 n2 : Z).
Context (Hk1 : config_ok k1 n1) (Hk2 : config_ok k2 n2).
Context (x y : side) (Hrun : rtc duplex_step (fresh k1 n1, fresh k2 n2) (x, y)).

(** C2: a whole connection transfers both streams.  Two endpoints, each with an
    application that connects, writes, closes and reads as it likes, with timeouts
    at any time, exchange segments over a network that drops, repeats, reorders
    and delays them, except that it is [orderly] with segments without payload:
    a bare FIN does not overtake the bytes before it, nor, after a FIN, does an empty
    segment at the first missing byte.  Each stream is shorter than 2^31 - 3
    bytes.  Then each application has received exactly a prefix of what the other
    wrote, and all of it when it is told that the stream has ended. *)
Theorem duplex_transfer : transfers x y /\ transfers y x.
Proof using All.
  destruct (duplex_joined k1 n1 k2 n2 x y Hk1 Hk2 Hrun) as [H1 H2].
  split; by eapply link_transfers.
Qed.

(** C10: the bookkeeping of each endpoint is true of the other: no byte is counted
    as acknowledged that has not arrived, a FIN is counted as acknowledged only when it
    was sent and everything written has arrived, and neither endpoint ever sends more than
    the other's capacity beyond the bytes that have arrived there.  The network is
    [orderly] and the streams are shorter than 2^31 - 3 bytes, as in the claim on transfer. *)
Theorem duplex_beliefs :
  believes (TCPSender.recv_capacity k2) x y /\ believes (TCPSender.recv_capacity k1) y x.
Proof using All.
  destruct (duplex_joined k1 n1 k2 n2 x y Hk1 Hk2 Hrun) as [H1 H2].
  split; by eapply link_believes.
Qed.

(** C11: in such a connection, over an [orderly] network and with streams shorter than
    2^31 - 3 bytes, no step makes an endpoint throw: every operation of the application, every
    tick of the clock and the arrival of every segment the network may bring returns, in
    particular without [front()] of an empty container.  One undefined operation
    is not excluded: the insertion loop of the reassembler decrements [begin()] when a segment
    touches the first one stored ([front_merge_undefined]); here it has the meaning that
    [insert_loop] gives it. *)
Theorem duplex_total o :
  (allowed y x o -> exists x', apply_side o x = Ok x') /\
  (allowed x y o -> exists y', apply_side o y = Ok y').
Proof using All.
  pose proof (duplex_joined k1 n1 k2 n2 x y Hk1 Hk2 Hrun) as HJ. split; intros Ho.
  - destruct (joined_op _ _ x y o Ho HJ) as (x' & E & _). by exists x'.
  - destruct (joined_op _ _ y x o Ho (joined_sym _ _ _ _ HJ)) as (y' & E & _). by exists y'.
Qed.
End Claims.

(** ** A run *)

(** The conditions of [TCPSegment.wf] without pseudo-header, decided. *)
Definition wire_ok (g : TCPSegment) : bool :=
  let h := TCPSegment.header g in
  let d := TCPSegment.payload g in
  bool_decide ((0 <= TCPHeader.sport h < 65536 /\ 0 <= TCPHeader.dport h < 65536) /\
    wi_wf (TCPHeader.seqno h) /\ wi_wf (TCPHeader.ackno h) /\ 5 <= TCPHeader.doff h < 16 /\
    0 <= TCPHeader.win h < 65536 /\ 0 <= TCPHeader.cksum h < 65536 /\ 0 <= TCPHeader.uptr h < 65536) &&
  match Buffer.storage d with
  | Some b => (0 <=? Buffer.starting_offset d) && (Buffer.starting_offset d <=? size b) && (size b <? M64)
  | None => true
  end && (65280 * (4 * TCPHeader.doff h + size (Buffer.str d)) <? M32).

Lemma wire_ok_wf g : wire_ok g = true -> TCPSegment.wf 0 g.
Proof.
  unfold wire_ok. cbv zeta. intros [[H1 H2]%andb_true_iff H3]%andb_true_iff.
  apply bool_decide_eq_true in H1. apply Z.ltb_lt in H3.
  constructor; [constructor; tauto| |done|lia].
  unfold Buffer.buf_wf. destruct (Buffer.storage _); [|done].
  apply andb_true_iff in H2 as [[?%Z.leb_le ?%Z.leb_le]%andb_true_iff ?%Z.ltb_lt]. lia.
Qed.

(** An event at one endpoint: an operation of its owner, or the arrival of the
    [i]-th segment its peer has put on the network. *)
Inductive event := Do (o : TCPConnection.op) | Arrive (i : nat).

#[export] Instance orderly_dec W n0 r seg : Decision (orderly W n0 r seg).
Proof.
  unfold orderly. cbv zeta. apply impl_dec; [apply _|]. apply impl_dec; [apply _|].
  destruct (TCPHeader.fin _); apply _.
Defined.

Definition event_op (y x : side) (e : event) : option TCPConnection.op :=
  match e with
  | Do (TCPConnection.Segment _) => None
  | Do (TCPConnection.Write data) =>
      if negb (ByteStream.bs_end (TCPSender.stream (TCPConnection.sender (conn x)))) &&
         (size (wrote x) + size data <? stream_limit)
      then Some (TCPConnection.Write data) else None
  | Do (TCPConnection.Tick ms) =>
      if TCPSender.consecutive_retrans_v (TCPConnection.sender (conn x)) <? 4294967295
      then Some (TCPConnection.Tick ms) else None
  | Do (TCPConnection.Read len) => if 0 <=? len then Some (TCPConnection.Read len) else None
  | Do o => Some o
  | Arrive i =>
      match sent y !! i with
      | Some g =>
          if wire_ok g && bool_decide (orderly (wrote y) (TCPSender.isn (TCPConnection.sender (conn y)))
               (TCPConnection.receiver (conn x)) (EndToEnd.over_wire g))
          then Some (TCPConnection.Segment (EndToEnd.over_wire g)) else None
      | None => None
      end
  end.

Lemma event_allowed y x e o : event_op y x e = Some o -> allowed y x o.
Proof.
  destruct e as [o'|i]; cbn.
  - destruct o'; intros E; try done; try by injection E as <-.
    + destruct (negb _ && _) eqn:Hb; [|done]. injection E as <-.
      by apply andb_true_iff in Hb as [?%negb_true_iff ?%Z.ltb_lt].
    + destruct (_ <? _) eqn:Hb; [|done]. injection E as <-. by apply Z.ltb_lt.
    + destruct (0 <=? len) eqn:Hb; [|done]. injection E as <-. by apply Z.leb_le.
  - destruct (sent y !! i) as [g|] eqn:Hi; [|done]. destruct (wire_ok g && _) eqn:Hb; [|done].
    intros [= <-]. apply andb_true_iff in Hb as [Hw Ho%bool_decide_eq_true]. split; [|done].
    exists g. split; [by eapply list_elem_of_lookup_2|]. by apply EndToEnd.crosses_over_wire, wire_ok_wf.
Qed.

(** Runs events, each at the left ([true]) or the right endpoint. *)
Fixpoint duplex_run (l : list (bool * event)) (x y : side) : option (side * side) :=
  match l with
  | [] => Some (x, y)
  | (true, e) :: l' =>
      match event_op y x e with
      | Some o => match apply_side o x with Ok x' => duplex_run l' x' y | Throw _ => None end
      | None => None
      end
  | (false, e) :: l' =>
      match event_op x y e with
      | Some o => match apply_side o y with Ok y' => duplex_run l' x y' | Throw _ => None end
      | None => None
      end
  end.

Lemma duplex_run_steps l : forall x y st, duplex_run l x y = Some st -> rtc duplex_step (x, y) st.
Proof.
  induction l as [|[[] e] l IH]; intros x y st; cbn.
  - intros [= <-]. apply rtc_refl.
  - destruct (event_op y x e) as [o|] eqn:Eo; [|done]. apply event_allowed in Eo.
    destruct (apply_side o x) as [x'|] eqn:E; [|done]. intros Hr.
    eapply rtc_l; [by eapply step_left|by apply IH].
  - destruct (event_op x y e) as [o|] eqn:Eo; [|done]. apply event_allowed in Eo.
    destruct (apply_side o y) as [y'|] eqn:E; [|done]. intros Hr.
    eapply rtc_l; [by eapply step_right|by apply IH].
Qed.

Definition config_a : TCPSender.TCPConfig :=
  TCPSender.mkTCPConfig 1000 16 64 (Some (mkWrappingInt32 4294967295)).
Definition config_b : TCPSender.TCPConfig :=
  TCPSender.mkTCPConfig 1000 8 64 (Some (mkWrappingInt32 7)).
Definition text_a : bytes := [Byte.x61; Byte.x62; Byte.x63].
Definition text_b : bytes := [Byte.x64; Byte.x65; Byte.x66; Byte.x67; Byte.x68; Byte.x69].
Import TCPConnection(Connect, Write, EndInput, Tick, Read, Take).

(** The SYN is retransmitted and arrives twice; the data fills the window of 8 and
    arrives in the wrong order; both sides close. *)
Definition sample_events : list (bool * event) :=
  [(true, Do Connect); (true, Do (Tick 1000)); (true, Do Take);
   (false, Arrive 1); (false, Do Take); (false, Arrive 0);
   (true, Arrive 0); (true, Do (Write text_a)); (true, Do (Write text_b)); (true, Do EndInput);
   (true, Do Take);
   (false, Arrive 4); (false, Arrive 3); (false, Do (Read 8)); (false, Arrive 3); (false, Do Take);
   (true, Arrive 4); (true, Do (Tick 10)); (true, Do Take);
   (false, Arrive 5); (false, Do (Write text_a)); (false, Do EndInput); (false, Do Take);
   (true, Arrive 6); (true, Arrive 5); (true, Arrive 7); (true, Do (Read 2)); (true, Do Take)].

Definition sample_end : side * side :=
  match duplex_run sample_events (fresh config_a 0) (fresh config_b 0) with
  | Some st => st
  | None => (fresh config_a 0, fresh config_b 0)
  end.

Lemma sample_duplex : rtc duplex_step (fresh config_a 0, fresh config_b 0) (sample_end.1, sample_end.2).
Proof. apply (duplex_run_steps sample_events). vm_compute. reflexivity. Qed.

Lemma config_a_ok : config_ok config_a 0.
Proof. unfold config_ok. vm_compute. intuition congruence. Qed.
Lemma config_b_ok : config_ok config_b 0.
Proof. unfold config_ok. vm_compute. intuition congruence. Qed.

Lemma duplex_transfer_witness :
  received sample_end.2 = text_a ++ text_b /\ received sample_end.1 = text_a /\
  transfers sample_end.1 sample_end.2 /\ transfers sample_end.2 sample_end.1.
Proof.
  split; [vm_compute; reflexivity|]. split; [vm_compute; reflexivity|].
  apply (duplex_transfer config_a config_b 0 0 config_a_ok config_b_ok sample_end.1 sample_end.2
    sample_duplex).
Defined.

Lemma duplex_beliefs_witness :
  TCPSender.fin_acked (TCPConnection.sender (conn sample_end.1)) = true /\
  received sample_end.2 = wrote sample_end.1.
Proof.
  split; [vm_compute; reflexivity|].
  destruct (duplex_beliefs config_a config_b 0 0 config_a_ok config_b_ok sample_end.1 sample_end.2
    sample_duplex) as [(_ & H & _) _].
  apply H. vm_compute. reflexivity.
Defined.

Lemma duplex_total_witness : exists x', apply_side (Tick 5000) sample_end.1 = Ok x'.
Proof.
  apply (duplex_total config_a config_b 0 0 config_a_ok config_b_ok sample_end.1 sample_end.2
    sample_duplex (Tick 5000)).
  vm_compute. reflexivity.
Defined.
