(* ===== verification/Recovery.v ===== *)
(** Liveness of a whole connection, [libsponge/tcp_connection.cc].  In any state that two
    endpoints reach over a network that loses, repeats, reorders and delays segments, as
    long as neither has given up, turns of retransmission complete both transfers. *)
From S2P Require Import Prelude WrappingIntegers.
From S2P Require Buffer ByteStream StreamReassembler TCPSegment TCPHeader TCPReceiver TCPSender.
From S2P Require TCPConnection EndToEnd Progress.
From S2P Require Import Duplex.
Import TCPSegment(TCPSegment).
Import TCPReceiver(TCPReceiver).
Import TCPSender(TCPSender).
Import TCPConnection(TCPConnection).
Import EndToEnd(crosses, over_wire, same_content_trans, stream_of).
Module SR := StreamReassembler.

(** ** Segments that have a wire form *)

(** A segment as the sender makes it. *)
Record plain (g : TCPSegment) : Prop := {
  p_header : TCPHeader.wf (TCPSegment.header g);
  p_rst : TCPHeader.rst (TCPSegment.header g) = false;
  p_doff : TCPHeader.doff (TCPSegment.header g) = 5;
  p_payload : Buffer.buf_wf (TCPSegment.payload g)
}.

Definition plainly (s : TCPSender) : Prop :=
  Forall plain (TCPSender.segments_out s ++ TCPSender.unacked s).

Lemma read_size n b : size (ByteStream.read n b).1 <= Z.max 0 n.
Proof.
  unfold ByteStream.read, ByteStream.peek_output, substr0, size. cbn. rewrite length_take.
  repeat case_Z; lia.
Qed.

Lemma sent_plain n syn fin data :
  wi_wf n -> size data < M64 ->
  plain (TCPSegment.mkTCPSegment
    (TCPHeader.set_fin fin (TCPHeader.set_seqno n
      (if syn : bool then TCPHeader.set_syn true TCPHeader.default else TCPHeader.default)))
    (Buffer.of_string data)).
Proof.
  intros Hn Hd. pose proof (size_nonneg data). by constructor; destruct syn.
Qed.

Lemma plainly_body s : plainly s -> plainly (TCPSender.fill_body s).1.
Proof.
  intros Hs. unfold TCPSender.fill_body. cbv zeta. destruct (TCPSender.eof s); [done|].
  destruct (_ || _); [done|]. set (n := if TCPSender.MAX_PAYLOAD_SIZE <? _ then _ else _).
  destruct (_ && _); [done|]. pose proof (read_size n (TCPSender.stream s)) as Hn.
  destruct (ByteStream.read n (TCPSender.stream s)) as [data b]. cbn [fst] in Hn.
  assert (Hd : size data < M64).
  { assert (n <= TCPSender.MAX_PAYLOAD_SIZE) by (unfold n; case_Z; lia).
    unfold TCPSender.MAX_PAYLOAD_SIZE in *. lia. }
  pose proof (fun fin => sent_plain (TCPSender.next_seqno s) (TCPSender.byte_sent s =? 0) fin data
    (wrap_wf _ _) Hd) as Hp.
  assert (He : forall g b e, plain g -> plainly (TCPSender.enqueue g b e s)).
  { intros g b' e Hg. unfold plainly in *.
    destruct (TCPSender.enqueue_fields g b' e s) as (_ & E1 & _ & _ & _ & E2 & _).
    rewrite E1, E2, !Forall_app, Forall_singleton in *. tauto. }
  destruct (u64 _ <? _); cbn [fst]; apply He; [apply Hp|]. specialize (Hp false).
  by destruct (_ =? 0).
Qed.

Lemma plainly_fill s : plainly s -> plainly (TCPSender.fill_window s).
Proof.
  unfold TCPSender.fill_window. generalize (TCPSender.fill_fuel s). intros n. revert s.
  induction n as [|n IH]; intros s Hs; [done|]. cbn [TCPSender.fill_loop].
  pose proof (plainly_body s Hs) as Hb. destruct (TCPSender.fill_body s) as [s' []]; [|done].
  by apply IH.
Qed.

Lemma plainly_tick ms s s' : TCPSender.tick ms s = Ok s' -> plainly s -> plainly s'.
Proof.
  unfold TCPSender.tick. cbn. destruct (TCPSender.active _); [|by intros [= <-]].
  destruct (TCPSender.timeout _); [|by intros [= <-]].
  destruct (TCPSender.unacked s) as [|g q] eqn:E; [done|]. intros [= <-]. unfold plainly. cbn.
  rewrite E, !Forall_app, Forall_cons. intros (H1 & H2 & H3). by rewrite Forall_singleton.
Qed.

Lemma plainly_empty s : plainly s -> plainly (TCPSender.send_empty_segment s).
Proof.
  unfold plainly. cbn. rewrite !Forall_app, Forall_singleton. intros [H1 H2]. split; [|done].
  split; [done|]. constructor; cbn; try done. constructor; cbn; try done; apply wrap_wf.
Qed.

Lemma plainly_drain s p rest :
  TCPSender.segments_out s = p ++ rest -> plainly s -> plainly (TCPSender.set_segments_out rest s).
Proof. unfold plainly. cbn. intros ->. rewrite !Forall_app. tauto. Qed.

(** Stamped by the connection, such a segment can cross the wire. *)
Lemma stamped_wired W s r g :
  plain g -> placed W s g ->
  TCPSegment.wf 0 (TCPConnection.receiver_info r g) /\
  TCPHeader.rst (TCPSegment.header (TCPConnection.receiver_info r g)) = false.
Proof.
  intros [[] Hr Hd Hp] Hpl.
  assert (Hs : size (Buffer.str (TCPSegment.payload g)) <= TCPSender.MAX_PAYLOAD_SIZE).
  { destruct Hpl as [(a & Hc & _)|(a & _ & _ & _ & _ & ->)]; [apply Hc|done]. }
  unfold TCPSender.MAX_PAYLOAD_SIZE in Hs.
  unfold TCPConnection.receiver_info, TCPReceiver.ackno. destruct (TCPReceiver.isnset r).
  - split; [|done]. constructor; cbn; try done; [|lia]. constructor; cbn; try done; [apply wrap_wf|].
    unfold u16. by apply Z.mod_pos_bound.
  - split; [|done]. constructor; try done; lia.
Qed.

(** ** What one endpoint keeps true *)

(** With nothing in flight, everything written has been sent, and so has the FIN if the
    input was ended. *)
Definition drained (s : TCPSender) : Prop :=
  TCPSender.unacked s = [] -> 1 <= TCPSender.byte_sent s ->
  TCPSender.eof s = true \/
  (ByteStream.buffer_empty (TCPSender.stream s) = true /\ ByteStream.eof (TCPSender.stream s) = false).

Lemma nothing_in_flight W s :
  TCPSender.wf W s -> TCPSender.unacked s = [] -> TCPSender.byte_received s = TCPSender.byte_sent s.
Proof.
  intros H E. destruct (TCPSender.wf_unacked _ _ H) as (u & Hu & Ht & _). rewrite E in Ht. cbn in Ht.
  pose proof (TCPSender.wf_received _ _ H). lia.
Qed.

Lemma fill_drained W s : TCPSender.wf W s -> drained (TCPSender.fill_window s).
Proof.
  intros H E _. destruct (TCPSender.fill_window_spec W s H) as (H' & Hf & _).
  pose proof (nothing_in_flight W _ H' E). unfold TCPSender.full, TCPSender.win in Hf.
  destruct Hf as [?|[?|(_ & ? & ?)]]; [by left|lia|by right].
Qed.

(** A segment on the network has a wire form; it is no RST unless the endpoint is dead. *)
Definition wired (c : TCPConnection) (g : TCPSegment) : Prop :=
  TCPSegment.wf 0 g /\ (TCPConnection.rst c = false -> TCPHeader.rst (TCPSegment.header g) = false).

Record lively (lg : list TCPSegment) (c : TCPConnection) : Prop := {
  v_plain : plainly (TCPConnection.sender c);
  v_queue : Forall (wired c) (queued lg c);
  v_open : TCPReceiver.isnset (TCPConnection.receiver c) = true ->
    1 <= TCPSender.byte_sent (TCPConnection.sender c);
  v_drained : drained (TCPConnection.sender c)
}.

(** *** Operations *)

(** What [segment_received] does with the acknowledgement. *)
Definition heard (seg : TCPSegment) (s : TCPSender) : bool * TCPSender :=
  if TCPHeader.ack (TCPSegment.header seg)
  then TCPSender.ack_received (TCPHeader.ackno (TCPSegment.header seg))
         (TCPHeader.win (TCPSegment.header seg)) s
  else (true, TCPSender.fill_window s).

Lemma heard_lively W s seg ok s' :
  TCPSender.wf W s -> 0 <= TCPHeader.win (TCPSegment.header seg) < 65536 ->
  heard seg s = (ok, s') -> plainly s -> drained s -> plainly s' /\ drained s'.
Proof.
  intros H Hw E Hp Hd. unfold heard in E. destruct (TCPHeader.ack _).
  2: { injection E as <- <-. split; [by apply plainly_fill|by eapply fill_drained]. }
  destruct (TCPSender.ack_received_spec W s (TCPHeader.ackno (TCPSegment.header seg)) _ H Hw) as [E' _].
  cbv zeta in E'. rewrite E' in E. clear E'. set (k := unwrap _ _ _) in E.
  set (s1 := TCPSender.set_window_size _ s) in E.
  assert (H1 : TCPSender.wf W s1) by (by apply TCPSender.set_window_wf).
  revert E. case_Z; [by intros [= <- <-]|]. case_Z; [by intros [= <- <-]|].
  intros [= <- <-]. case_Z.
  - split; [by apply plainly_fill|by eapply fill_drained].
  - destruct (TCPSender.accept_ack_wf W s1 k H1) as (Hw2 & _ & _ & _ & _ & Eo & p & _ & _ & Eu & _);
      [cbn; lia|].
    split; [apply plainly_fill|by eapply fill_drained]. unfold plainly in *. rewrite Eo.
    change (TCPSender.segments_out s1) with (TCPSender.segments_out s).
    change (TCPSender.unacked s1) with (TCPSender.unacked s) in Eu. rewrite Eu, !Forall_app in Hp.
    apply Forall_app. tauto.
Qed.

(** The end of [segment_received], when the sender has become [s] and the receiver [r]:
    nothing is sent if [silent], and otherwise all that the sender has, or an empty
    segment. *)
Definition replied (s : TCPSender) (r : TCPReceiver) (silent : bool) (c c' : TCPConnection) : Prop :=
  TCPConnection.receiver c' = r /\ TCPConnection.rst c' = TCPConnection.rst c /\
  if silent then TCPConnection.sender c' = s /\
    TCPConnection.segments_out c' = TCPConnection.segments_out c
  else
    let s1 := if (size (TCPSender.segments_out s) =? 0) && TCPReceiver.isnset r
              then TCPSender.send_empty_segment s else s in
    TCPConnection.sender c' = TCPSender.set_segments_out [] s1 /\
    TCPConnection.segments_out c' = TCPConnection.segments_out c ++
      (TCPConnection.receiver_info r <$> TCPSender.segments_out s1).

Lemma has_ackno_set c : TCPConnection.has_ackno c = TCPReceiver.isnset (TCPConnection.receiver c).
Proof.
  unfold TCPConnection.has_ackno, TCPReceiver.ackno. by destruct (TCPReceiver.isnset _).
Qed.

Lemma segment_received_replies seg c s b r :
  TCPHeader.rst (TCPSegment.header seg) = false ->
  TCPReceiver.isnset (TCPConnection.receiver c) = true \/ TCPSender.len seg <> 0 ->
  heard seg (TCPConnection.sender c) = (true, s) ->
  TCPReceiver.segment_received seg (TCPConnection.receiver c) = Ok (b, r) ->
  exists c', TCPConnection.segment_received seg c = Ok c' /\
    replied s r ((TCPSender.len seg =? 0) && b) c c'.
Proof.
  intros Hr Hn Es Er. unfold TCPConnection.segment_received. cbv zeta. rewrite Hr.
  assert (negb (TCPConnection.has_ackno (TCPConnection.set_times (TCPConnection.time c)
    (TCPConnection.time c) c)) && (TCPSegment.length_in_sequence_space seg =? 0) = false) as ->.
  { rewrite has_ackno_set. cbn. destruct Hn as [->|Hn]; [done|]. apply Z.eqb_neq in Hn.
    rewrite Hn. apply andb_false_r. }
  set (c1 := if _ && negb _ then _ else _).
  assert (Ec : TCPConnection.sender c1 = TCPConnection.sender c /\
    TCPConnection.receiver c1 = TCPConnection.receiver c /\ TCPConnection.rst c1 = TCPConnection.rst c /\
    TCPConnection.segments_out c1 = TCPConnection.segments_out c) by (subst c1; by destruct (_ && _)).
  clearbody c1. destruct Ec as (E1 & E2 & E3 & E4). unfold heard in Es. rewrite E1, Es.
  cbn [TCPConnection.receiver TCPConnection.set_sender]. rewrite E2, Er. cbn [mbind result_bind].
  rewrite andb_true_r.
  destruct ((TCPSender.len seg =? 0) && b); [by eexists|]. eexists. split; [reflexivity|].
  rewrite has_ackno_set. unfold replied. cbn [TCPConnection.receiver TCPConnection.set_receiver
    TCPConnection.sender TCPConnection.set_sender]. cbv zeta.
  destruct (_ && TCPReceiver.isnset r); cbn; by rewrite E3, E4.
Qed.

Section Lively.
Context {cx cy : Z} {y : side} {lg : list TCPSegment} {W R : bytes}.

(** A change of the sender alone, which is then not dead. *)
Lemma lively_sender s' c :
  plainly s' -> drained s' ->
  (TCPReceiver.isnset (TCPConnection.receiver c) = true -> 1 <= TCPSender.byte_sent s') ->
  lively lg c -> lively lg (TCPConnection.set_sender s' c).
Proof using. intros Hp Hd Ho []. by constructor. Qed.

(** The sender's segments move to the queue of the connection. *)
Lemma lively_out c :
  joined cx cy W R c lg y -> lively lg c -> lively lg (TCPConnection.segment_out c).
Proof using.
  intros [H1 _] [Hp Hq Ho Hd]. constructor; cbn; try done.
  - eapply plainly_drain; [by rewrite app_nil_r|done].
  - unfold queued in *. cbn. rewrite (assoc_L (++)). apply Forall_app. split; [exact Hq|].
    apply Forall_fmap, Forall_forall. intros g Hg. cbn.
    pose proof (l_out H1) as Hpl. rewrite Forall_forall in Hpl.
    unfold plainly in Hp. rewrite Forall_app in Hp. destruct Hp as [Hp _].
    rewrite Forall_forall in Hp.
    destruct (stamped_wired W _ (TCPConnection.receiver c) g (Hp g Hg) (Hpl g Hg)). by split.
Qed.

Lemma lively_fill c :
  joined cx cy W R c lg y -> plainly (TCPConnection.sender c) -> Forall (wired c) (queued lg c) ->
  lively lg (TCPConnection.segment_out
    (TCPConnection.set_sender (TCPSender.fill_window (TCPConnection.sender c)) c)).
Proof using.
  intros HJ Hp Hq. pose proof HJ as [H1 _]. apply lively_out.
  - eapply joined_sender; [|exact HJ]. intros. by apply link_fill.
  - constructor; cbn; [by apply plainly_fill|done| |eapply fill_drained, H1].
    intros _. eapply fill_opens, H1.
Qed.

Lemma lively_kill c : lively lg c -> lively lg (TCPConnection.kill c).
Proof using.
  intros [Hp Hq Ho Hd]. constructor; cbn; try done. unfold queued in *. cbn.
  eapply Forall_impl; [exact Hq|]. intros g [Hg _]. by split.
Qed.

Lemma lively_rst c c' :
  1 <= TCPSender.byte_sent (TCPConnection.sender c) -> TCPConnection.rst c = true ->
  TCPConnection.rst_segment c = Ok c' ->
  joined cx cy W R c lg y -> lively lg c -> lively lg c'.
Proof using.
  intros Hs Hr E HJ HV. unfold TCPConnection.rst_segment in E. set (s := if size _ =? 0 then _ else _) in E.
  assert (HJ1 : joined cx cy W R (TCPConnection.set_sender s c) lg y).
  { subst s. case_Z; [by apply joined_empty|]. by eapply joined_frame. }
  assert (HV1 : lively lg (TCPConnection.set_sender s c)).
  { subst s. case_Z; apply lively_sender; try done; try apply HV. by apply plainly_empty, HV. }
  clearbody s. destruct (TCPSender.segments_out s) as [|g q] eqn:Eq; [done|]. injection E as <-.
  destruct HJ1 as [H1 _], HV1 as [Hp Hq Ho Hd]. cbn in *. constructor; cbn; try done.
  - by apply (plainly_drain s [g] q).
  - unfold queued in *. cbn in *. rewrite (assoc_L (++)). apply Forall_app. split; [exact Hq|].
    apply Forall_singleton. pose proof (l_out H1) as Hpl. rewrite Eq in Hpl.
    apply Forall_cons in Hpl as [Hpl _]. unfold plainly in Hp. rewrite Eq in Hp.
    apply Forall_cons in Hp as [Hp _].
    destruct (stamped_wired W s (TCPConnection.receiver c) g Hp Hpl) as [[[] ? ? ?] _].
    split; [|cbn; congruence]. by constructor.
Qed.

Lemma lively_tick c c' ms :
  TCPSender.consecutive_retrans_v (TCPConnection.sender c) < 4294967295 ->
  TCPConnection.tick ms c = Ok c' -> joined cx cy W R c lg y -> lively lg c -> lively lg c'.
Proof using.
  intros Hk E HJ HV. pose proof HJ as [H1 _]. unfold TCPConnection.tick in E.
  apply result_bind_Ok in E as (s & Es & E). cbv zeta in E.
  set (c1 := TCPConnection.set_times _ _ _) in E.
  destruct (TCPSender.tick_spec W _ ms (l_wf H1) Hk) as (s' & Es' & Hwf & _ & Eu & Eb & _).
  rewrite Es in Es'. injection Es' as <-. destruct (Progress.tick_frame _ _ _ Es) as (_ & Est & Ee).
  assert (HJ1 : joined cx cy W R c1 lg y).
  { apply (joined_frame W (TCPConnection.set_sender s c)); [done..|].
    eapply joined_sender; [|exact HJ]. intros. by eapply link_tick. }
  assert (HV1 : lively lg c1).
  { destruct HV as [Hp Hq Ho Hd]. constructor; cbn; try done; [by eapply plainly_tick|by rewrite Eb|].
    unfold drained in *. by rewrite Eu, Eb, Est, Ee. }
  apply result_bind_Ok in E as (c2 & E2 & E). injection E as <-. revert E2.
  case_Z; [|intros [= <-]; by apply lively_out]. intros E2.
  assert (Hs : 1 <= TCPSender.byte_sent s) by (by apply (retransmitted_open W)).
  apply lively_out.
  - apply (joined_rst W (TCPConnection.kill c1)); [exact Hs|exact E2|by apply joined_kill].
  - apply (lively_rst (TCPConnection.kill c1)); [exact Hs|done|exact E2|by apply joined_kill|by apply lively_kill].
Qed.

Lemma lively_replied c c' s r silent :
  replied s r silent c c' -> 1 <= TCPSender.byte_sent s ->
  joined cx cy W R (TCPConnection.set_receiver r (TCPConnection.set_sender s c)) lg y ->
  plainly s -> drained s -> lively lg c -> lively lg c'.
Proof using.
  intros (Er & Erst & E) Hs HJ Hp Hd HV. set (c1 := TCPConnection.set_receiver r _) in HJ.
  assert (HV1 : lively lg c1) by (destruct HV; by constructor).
  destruct silent.
  - destruct E as [E1 E2]. destruct HV1 as [V1 V2 V3 V4]. constructor; rewrite ?E1, ?Er; try done.
    unfold queued, wired in *. by rewrite E2, Erst.
  - set (s1 := if _ && _ then _ else _) in E. destruct E as [E1 E2].
    assert (joined cx cy W R (TCPConnection.set_sender s1 c1) lg y /\
                 lively lg (TCPConnection.set_sender s1 c1)) as [HJ2 HV2].
    { subst s1. destruct (_ && _).
      - split; [by apply joined_empty|]. apply lively_sender; try done. by apply plainly_empty.
      - split; [by eapply joined_frame|]. by apply lively_sender. }
    destruct (lively_out _ HJ2 HV2) as [V1 V2 V3 V4]. constructor; rewrite ?E1, ?Er; try done.
    unfold queued, wired in *. by rewrite E2, Erst.
Qed.

Lemma lively_segment c c' g seg :
  g ∈ sent y -> crosses g seg ->
  orderly (wrote y) (TCPSender.isn (TCPConnection.sender (conn y))) (TCPConnection.receiver c) seg ->
  0 <= TCPHeader.win (TCPSegment.header seg) < 65536 ->
  TCPConnection.segment_received seg c = Ok c' ->
  joined cx cy W R c lg y -> lively lg c -> lively lg c'.
Proof using.
  intros Hg Hcross Hord Hw E HJ HV.
  destruct (TCPHeader.rst (TCPSegment.header seg)) eqn:Hr.
  { unfold TCPConnection.segment_received in E. rewrite Hr in E. injection E as <-.
    apply lively_kill. by destruct HV. }
  destruct (decide (TCPReceiver.isnset (TCPConnection.receiver c) = true \/ TCPSender.len seg <> 0))
    as [Hn|Hn].
  2: { unfold TCPConnection.segment_received in E. rewrite Hr, has_ackno_set in E. cbv zeta in E.
    cbn [TCPConnection.receiver TCPConnection.set_times] in E.
    destruct (TCPReceiver.isnset _); [by destruct Hn; left|].
    destruct (Z.eqb_spec (TCPSender.len seg) 0); [|by destruct Hn; right].
    injection E as <-. by destruct HV. }
  destruct (joined_halves W c g seg Hg Hcross Hord HJ) as (s & b & r & Es & Hs & Er & HJ').
  change (heard seg (TCPConnection.sender c) = (true, s)) in Es.
  destruct (segment_received_replies seg c s b r Hr Hn Es Er) as (c2 & E2 & Hrep).
  rewrite E in E2. injection E2 as <-.
  destruct (heard_lively W _ seg true s (l_wf (proj1 HJ)) Hw Es (v_plain _ _ HV) (v_drained _ _ HV)).
  by eapply lively_replied.
Qed.
End Lively.

(** *** Both endpoints *)

(** The invariant of the two endpoints. *)
Record sound (cx cy : Z) (x y : side) : Prop := {
  so_joined : joined cx cy (wrote x) (got x) (conn x) (sent x) y;
  so_left : lively (sent x) (conn x);
  so_right : lively (sent y) (conn y)
}.

Lemma sound_sym cx cy x y : sound cx cy x y -> sound cy cx y x.
Proof. intros []. constructor; [by apply joined_sym|done..]. Qed.

Lemma lively_op cx cy x y o x' :
  allowed y x o -> apply_side o x = Ok x' -> sound cx cy x y -> lively (sent x') (conn x').
Proof.
  intros Ha E [HJ HV HVy]. destruct x as [W R c lg]. cbn [wrote got conn sent] in *.
  unfold apply_side in E. cbn [wrote got conn sent] in E.
  apply result_bind_Ok in E as (c' & Eo & E). injection E as <-. cbn [conn sent].
  destruct o; cbn [allowed TCPConnection.apply_op] in *; rewrite ?app_nil_r.
  - injection Eo as <-. eapply lively_fill; [done|apply HV..].
  - assert (c' = (TCPConnection.write data c).2) as -> by congruence. destruct Ha as [He Hs].
    unfold TCPConnection.write.
    destruct (ByteStream.write data (TCPSender.stream_in (TCPConnection.sender c))) as [n b] eqn:Ew. cbn [snd].
    set (c1 := TCPConnection.set_sender (TCPSender.set_stream b (TCPConnection.sender c)) c).
    change (lively lg (TCPConnection.segment_out
      (TCPConnection.set_sender (TCPSender.fill_window (TCPConnection.sender c1)) c1))).
    apply (lively_fill (W := W ++ substr0 data n) (R := R) (cx := cx) (cy := cy) (y := y)); [|apply HV..].
    eapply joined_sender; [|exact HJ]. intros q R' r aq Hl. pose proof (link_write Hl data He Hs) as Hl'.
    unfold TCPSender.stream_in in Ew. by rewrite Ew in Hl'.
  - injection Eo as <-. unfold TCPConnection.end_input_stream. set (b := ByteStream.end_input _).
    set (c1 := TCPConnection.set_sender (TCPSender.set_stream b (TCPConnection.sender c)) c).
    change (lively lg (TCPConnection.segment_out
      (TCPConnection.set_sender (TCPSender.fill_window (TCPConnection.sender c1)) c1))).
    apply (lively_fill (W := W) (R := R) (cx := cx) (cy := cy) (y := y)); [|apply HV..].
    eapply joined_sender; [|exact HJ]. intros q R' r aq Hl. apply (link_stream Hl).
    apply TCPSender.sender_end_input_wf, Hl.
  - destruct Ha as [(g & Hg & Hcross) Hord]. eapply lively_segment; try done.
    rewrite (crosses_header g seg Hcross). destruct Hcross as (ck & _ & _ & [[] _ _ _] & _). done.
  - by eapply lively_tick.
  - injection Eo as <-. unfold TCPConnection.read. destruct (ByteStream.read len (TCPConnection.inbound_stream c)). by destruct HV.
  - injection Eo as <-. destruct HV as [V1 V2 V3 V4]. constructor; cbn; try done.
    unfold queued in *. cbn. by rewrite app_nil_r.
Qed.

Lemma sound_op cx cy x y o :
  allowed y x o -> sound cx cy x y -> exists x', apply_side o x = Ok x' /\ sound cx cy x' y.
Proof.
  intros Ha HS. destruct (joined_op cx cy x y o Ha (so_joined _ _ _ _ HS)) as (x' & E & HJ).
  exists x'. split; [done|]. constructor; [done|by eapply lively_op|apply HS].
Qed.

Lemma fresh_lively k n : lively [] (TCPConnection.construct k n).
Proof. constructor; try by apply Forall_nil.
  - done.
  - intros _ H. cbn in H. lia.
Qed.

Lemma duplex_sound k1 n1 k2 n2 x y :
  config_ok k1 n1 -> config_ok k2 n2 -> rtc duplex_step (fresh k1 n1, fresh k2 n2) (x, y) ->
  sound (TCPSender.recv_capacity k1) (TCPSender.recv_capacity k2) x y.
Proof.
  intros Hk1 Hk2 Hrun.
  change (sound (TCPSender.recv_capacity k1) (TCPSender.recv_capacity k2) (x, y).1 (x, y).2).
  revert Hrun. generalize (x, y). apply rtc_ind_r.
  - constructor; [|apply fresh_lively..]. split; by apply fresh_link.
  - intros st st' _ Hs HS. destruct Hs as [o a a' b Ha E|o a b b' Ha E]; cbn in *.
    + destruct (sound_op _ _ a b o Ha HS) as (a2 & E2 & HS'). rewrite E in E2. by injection E2 as ->.
    + apply sound_sym. apply sound_sym in HS.
      destruct (sound_op _ _ b a o Ha HS) as (b2 & E2 & HS'). rewrite E in E2. by injection E2 as ->.
Qed.

(** ** The receiver gets the oldest segment *)

Section Oldest.
Context {cap : Z} {W : bytes} {s : TCPSender} {q : list TCPSegment}.
Context {R : bytes} {r : TCPReceiver} {aq : list TCPSegment}.
Context (HL : link cap W s q R r aq).
Abbreviation next := (SR.firstindex (TCPReceiver.reassembler r)).

Lemma oldest_place g rest :
  TCPSender.unacked s = g :: rest ->
  exists u, TCPSender.carries W (TCPSender.isn s) u g /\
    0 <= u <= TCPSender.byte_received s /\ TCPSender.byte_received s < u + TCPSender.len g /\
    u + TCPSender.len g <= TCPSender.byte_sent s.
Proof using HL.
  intros E. destruct (TCPSender.wf_unacked _ _ (l_wf HL)) as (u & Hu & Ht & Hm). rewrite E in *.
  cbn in Ht. destruct Ht as [Hg Ht]. pose proof (TCPSender.tiles_le _ _ _ _ _ Ht). exists u. done.
Qed.

(** What was sent is in the stream, and what is acknowledged is assembled. *)
Lemma placed_end u g :
  TCPSender.carries W (TCPSender.isn s) u g -> u + TCPSender.len g <= TCPSender.byte_sent s ->
  index_of u + size (Buffer.str (TCPSegment.payload g)) <= sent_bytes s.
Proof using HL.
  intros Hg Hle. pose proof (TCPSender.carries_end _ _ _ _ Hg) as He.
  pose proof (TCPSender.carries_len _ _ _ _ Hg). pose proof (TCPSender.c_pos _ _ _ _ Hg).
  pose proof (TCPSender.wf_sent _ _ (l_wf HL) ltac:(lia)) as Hs.
  destruct (TCPSender.eof s) eqn:Ee.
  - rewrite (eof_all_read _ _ (l_wf HL) Ee). apply Hg.
  - cbn in Hs. unfold TCPSender.b2z in He. case_match; lia.
Qed.

Lemma acked_assembled u :
  0 <= u <= acked (sent_bytes s) r -> index_of u <= next \/ next = sent_bytes s.
Proof using HL.
  intros [Hu Ha]. pose proof (link_first HL). unfold acked, TCPReceiver.abs_ack in Ha.
  unfold index_of. destruct (TCPReceiver.isnset r); [|left; case_Z; lia].
  destruct (TCPReceiver.finset r); cbn [andb] in Ha; [|left; case_Z; lia].
  destruct (Z.eqb_spec next (sent_bytes s)); [by right|left; case_Z; lia].
Qed.

(** A retransmission of the oldest segment is never out of order. *)
Lemma oldest_orderly g rest seg :
  TCPSender.unacked s = g :: rest -> TCPConnection.same_content g seg ->
  orderly W (TCPSender.isn s) r seg.
Proof using HL.
  intros Eu Hsame. destruct (oldest_place g rest Eu) as (u & Hg & Hu & Hlt & Hle).
  pose proof Hsame as (E1 & E2 & E3 & E4). intros Hset Hnil.
  rewrite <- E1, <- E2, <- E3. rewrite <- E4 in Hnil. pose proof (link_first HL) as HF.
  pose proof (link_sizes HL) as (HL1 & HL2 & HL3). pose proof (size_nonneg W).
  destruct (TCPHeader.fin (TCPSegment.header g)) eqn:Ef.
  - pose proof (TCPSender.c_fin _ _ _ _ Hg Ef) as Hend. rewrite Hnil in Hend. change (size []) with 0 in Hend.
    pose proof (TCPSender.carries_fin_eof W s u g (l_wf HL) Hg Hle Ef) as Heof.
    pose proof (eof_all_read _ _ (l_wf HL) Heof). pose proof (l_acked HL).
    destruct (acked_assembled u ltac:(lia)); lia.
  - intros Hck. exfalso. pose proof (TCPSender.carries_end _ _ _ _ Hg) as Hend.
    pose proof (TCPSender.c_syn _ _ _ _ Hg) as Hsyn. pose proof (TCPSender.c_nonempty _ _ _ _ Hg) as Hn.
    rewrite Hnil, Ef in Hend. change (size []) with 0 in Hend. cbn in Hend.
    assert (u = 0) as -> by (unfold index_of in Hend; destruct (Z.eqb_spec u 0); lia).
    cbn in Hend. destruct (l_syn HL ltac:(lia)) as [_ H1].
    rewrite <- (TCPReceiver.inv_fin _ _ _ _ _ (l_recv HL)) in Hck. apply (l_fin HL) in Hck.
    pose proof (TCPSender.wf_sent _ _ (l_wf HL) ltac:(lia)) as Hs. rewrite Hck in Hs. cbn in Hs. lia.
Qed.

(** When everything sent is acknowledged, nothing is out of order. *)
Lemma acked_orderly seg :
  TCPSender.unacked s = [] -> placed W s seg -> orderly W (TCPSender.isn s) r seg.
Proof using HL.
  intros Eu Hp Hset Hnil. pose proof (nothing_in_flight _ _ (l_wf HL) Eu) as Hb.
  assert (Hend : TCPSender.eof s = true -> next = size W).
  { intros He. pose proof (l_acked HL) as Ha. unfold acked, TCPReceiver.abs_ack in Ha. rewrite Hset in Ha.
    pose proof (eof_all_read _ _ (l_wf HL) He) as Hall. pose proof (link_first HL).
    pose proof (l_open HL Hset). pose proof (TCPSender.wf_sent _ _ (l_wf HL) ltac:(lia)) as Hs.
    rewrite He in Hs. cbn in Hs. revert Ha. destruct (_ && _); lia. }
  destruct (TCPHeader.fin (TCPSegment.header seg)) eqn:Ef.
  - by apply Hend, (placed_fin HL seg).
  - intros Hck _. rewrite <- (TCPReceiver.inv_fin _ _ _ _ _ (l_recv HL)) in Hck. by apply Hend, (l_fin HL).
Qed.

(** With enough room, the reassembler takes all of a segment that starts before the first
    missing byte. *)
Lemma push_advances d index eof ra :
  SR.arrival (stream_of W) (sent_bytes s) (TCPReceiver.reassembler r) d index eof ->
  index <= next -> index + size d <= ByteStream.alread (TCPReceiver.stream_out r) + cap ->
  SR.push_substring d index eof (TCPReceiver.reassembler r) = Ok ra ->
  index + size d <= SR.firstindex ra.
Proof using HL.
  intros (Hd & Hi & Hb & H63 & _) Hlo Hhi Hp. pose proof (link_sizes HL) as (HL1 & _ & HL3).
  pose proof (TCPReceiver.inv_run _ _ _ _ _ (l_recv HL)) as Hr.
  pose proof (SR.inv_wf _ _ _ _ Hr) as Hwf. pose proof (size_nonneg d). unfold stream_limit in HL3.
  pose proof (TCPReceiver.inv_cap _ _ _ _ _ (l_recv HL)) as Hc. rewrite (l_rcap HL) in Hc.
  destruct (Z.eq_dec (size d) 0) as [E%size_0_nil|E]; [|destruct (Z.lt_ge_cases next (index + size d)) as [Hn|Ho]].
  - subst d. rewrite SR.push_empty in Hp. injection Hp as <-. change (size []) with 0. cbv zeta.
    destruct (_ && _); cbn; lia.
  - destruct (SR.push_fresh (stream_of W) (TCPReceiver.reassembler r) d index eof)
      as (ra' & E1 & Hwf' & Hc' & Hf & Hk & Hfull & _); try done; try lia.
    rewrite Hp in E1. injection E1 as <-.
    destruct (Z.lt_ge_cases (SR.firstindex ra) (index + size d)) as [Hlt|]; [exfalso|done].
    pose proof (SR.wf_first _ _ Hwf) as F. unfold TCPReceiver.stream_out, SR.stream_out in Hhi.
    pose proof (size_nonneg (ByteStream.content (SR.output (TCPReceiver.reassembler r)))).
    pose proof (SR.wf_remaining _ _ Hwf') as Hrem. rewrite Hfull in Hrem by (apply Hk; right; lia).
    destruct (SR.push_frame _ _ _ _ _ Hp) as (_ & _ & Hrd). cbn in Hrd.
    pose proof (SR.wf_first _ _ Hwf'). lia.
  - rewrite SR.push_stale in Hp by (done || lia). injection Hp as <-. done.
Qed.

(** A segment that starts at a number already acknowledged, at most, is acknowledged
    completely if there is room for all that was sent. *)
Lemma arrival_acked u seg b r' :
  TCPSender.carries W (TCPSender.isn s) u seg -> 0 <= u <= acked (sent_bytes s) r ->
  u + TCPSender.len seg <= TCPSender.byte_sent s -> orderly W (TCPSender.isn s) r seg ->
  sent_bytes s <= ByteStream.alread (TCPReceiver.stream_out r) + cap ->
  TCPReceiver.segment_received seg r = Ok (b, r') ->
  TCPReceiver.isnset r' = true /\ u + TCPSender.len seg <= acked (sent_bytes s) r' /\
  (TCPHeader.fin (TCPSegment.header seg) = true ->
     SR.firstindex (TCPReceiver.reassembler r') = sent_bytes s).
Proof using HL.
  intros Hseg Hu Hle Hord Hroom E. pose proof (link_sizes HL) as (HL1 & HL2 & HL3). unfold stream_limit in HL3.
  assert (Hu0 : TCPReceiver.isnset r = false -> u = 0).
  { intros Hset. unfold acked in Hu. rewrite Hset in Hu. lia. }
  pose proof (carries_arrives HL seg Hord u Hseg Hle Hu0) as Hpeer.
  destruct (TCPReceiver.received_spec (stream_of W) (sent_bytes s) ltac:(lia) ltac:(lia)
    (TCPSender.isn s) (l_isn HL) R r seg u (l_recv HL) Hu0 Hpeer) as (ra & Epush & Hst & E').
  rewrite E in E'. injection E' as _ ->. split; [done|]. cbn [TCPReceiver.reassembler].
  pose proof (placed_end u seg Hseg Hle) as Hin. pose proof (TCPSender.carries_end _ _ _ _ Hseg) as Hend.
  assert (Hadv : index_of u + size (Buffer.str (TCPSegment.payload seg)) <= SR.firstindex ra).
  { destruct Hpeer as (_ & _ & _ & Harr & _).
    destruct (arrival_advances _ (sent_bytes s) _ _ _ _ _ _ ltac:(lia)
      (TCPReceiver.inv_run _ _ _ _ _ (l_recv HL)) Harr Epush) as [Hmono _].
    destruct (acked_assembled u Hu) as [Hlo|Hall]; [|lia]. eapply push_advances; try done. lia. }
  assert (Hfin : TCPHeader.fin (TCPSegment.header seg) = true -> SR.firstindex ra = sent_bytes s).
  { intros Ef. pose proof (TCPSender.c_fin _ _ _ _ Hseg Ef).
    pose proof (eof_all_read _ _ (l_wf HL) (TCPSender.carries_fin_eof W s u seg (l_wf HL) Hseg Hle Ef)).
    pose proof (SR.reassembler_step_inv (stream_of W) (sent_bytes s) ltac:(lia) ltac:(lia) _ _ _ _
      (TCPReceiver.inv_run _ _ _ _ _ (l_recv HL)) Hst) as Hinv'.
    pose proof (SR.inv_first_le (stream_of W) (sent_bytes s) ltac:(lia) _ _ Hinv'). lia. }
  split; [|done]. unfold acked, TCPReceiver.abs_ack. cbn [TCPReceiver.isnset TCPReceiver.reassembler TCPReceiver.finset].
  destruct (TCPHeader.fin (TCPSegment.header seg)) eqn:Ef; cbn [orb TCPSender.b2z] in *.
  - rewrite Hfin, Z.eqb_refl in * by done. cbn. lia.
  - repeat case_match; lia.
Qed.

(** There is room for all that was sent when the application has read everything. *)
Lemma read_room :
  ByteStream.content (TCPReceiver.stream_out r) = [] ->
  sent_bytes s <= ByteStream.alread (TCPReceiver.stream_out r) + cap.
Proof using HL.
  intros Hnil. pose proof (SR.wf_first _ _ (SR.inv_wf _ _ _ _ (TCPReceiver.inv_run _ _ _ _ _ (l_recv HL)))) as F.
  unfold TCPReceiver.stream_out, SR.stream_out in *. rewrite Hnil in F. change (size []) with 0 in F.
  pose proof (l_sent HL) as Hs. unfold edge in Hs. pose proof (l_cap HL). pose proof (link_first HL).
  destruct (Z.eq_dec (TCPSender.byte_sent s) 0) as [Hz|Hz].
  { destruct (TCPSender.wf_sent0 _ _ (l_wf HL) Hz). lia. }
  pose proof (TCPSender.wf_sent _ _ (l_wf HL) Hz) as Hb.
  destruct (TCPReceiver.isnset r), (TCPSender.eof s); cbn in Hb; lia.
Qed.

(** The oldest segment, delivered to a receiver whose application has read everything, is
    acknowledged completely. *)
Lemma oldest_received g rest seg b r' :
  TCPSender.unacked s = g :: rest -> TCPConnection.same_content g seg ->
  ByteStream.content (TCPReceiver.stream_out r) = [] ->
  TCPReceiver.segment_received seg r = Ok (b, r') ->
  TCPReceiver.isnset r' = true /\ TCPSender.byte_received s < acked (sent_bytes s) r'.
Proof using HL.
  intros Eu Hsame Hnil E. destruct (oldest_place g rest Eu) as (u & Hg & Hu & Hlt & Hle).
  pose proof (TCPConnection.same_content_carries _ _ _ _ _ Hsame Hg) as Hseg.
  rewrite (TCPConnection.same_content_len _ _ Hsame) in Hlt, Hle. pose proof (l_acked HL) as Ha.
  destruct (arrival_acked u seg b r' Hseg ltac:(lia) Hle (oldest_orderly g rest seg Eu Hsame)) as (? & ? & _);
    try done; [|split; [done|lia]].
  by apply read_room.
Qed.
End Oldest.

(** ** The sender gets an acknowledgement *)

Abbreviation retries := TCPSender.consecutive_retrans_v.
Abbreviation ended_input s := (ByteStream.bs_end (TCPSender.stream s)).

Lemma heard_acks cap W s q R r aq seg s' :
  link cap W s q R r aq -> honest cap (sent_bytes s) (TCPSender.isn s) r seg ->
  heard seg s = (true, s') ->
  TCPSender.byte_received s <= TCPSender.byte_received s' /\ retries s' <= retries s /\
  ended_input s' = ended_input s /\
  (TCPHeader.ack (TCPSegment.header seg) = true ->
   TCPHeader.ackno (TCPSegment.header seg) = wrap (acked (sent_bytes s) r) (TCPSender.isn s) ->
   acked (sent_bytes s) r <= TCPSender.byte_received s' /\
   (TCPSender.byte_received s < acked (sent_bytes s) r -> retries s' = 0)).
Proof.
  intros HL Hh E. unfold heard in E. pose proof (TCPSender.wf_retrans _ _ (l_wf HL)) as Hr0.
  destruct (TCPHeader.ack (TCPSegment.header seg)) eqn:Ha.
  2: { injection E as <-. destruct (TCPSender.fill_window_spec W s (l_wf HL)) as (_ & _ & _ & _ & _ & -> & _).
    destruct (Progress.fill_window_frame s) as [-> ->]. done. }
  destruct (Hh Ha) as (Hset & Hw & Hw16 & k & Hk & Ek).
  destruct (TCPSender.ack_received_spec W s (TCPHeader.ackno (TCPSegment.header seg))
    (TCPHeader.win (TCPSegment.header seg)) (l_wf HL) ltac:(lia)) as [E' _].
  cbv zeta in E'. rewrite E' in E. clear E'. pose proof (link_acked_sent HL).
  pose proof (link_sizes HL) as (_ & Hb & Hlim). unfold stream_limit in Hlim.
  pose proof (TCPSender.wf_received _ _ (l_wf HL)). rewrite Ek, unwrap_wrap_near in E by lia.
  set (s1 := TCPSender.set_window_size _ s) in E. pose proof (l_acked HL) as Hacked.
  assert (H1 : TCPSender.wf W s1) by (apply TCPSender.set_window_wf; [apply HL|lia]).
  assert (Hkk : wrap k (TCPSender.isn s) = wrap (acked (sent_bytes s) r) (TCPSender.isn s) ->
    k = acked (sent_bytes s) r).
  { intros Ew. rewrite <- (unwrap_wrap_near k (TCPSender.isn s) 0), Ew, unwrap_wrap_near; lia. }
  rewrite Ek. revert E. case_Z; [lia|]. case_Z.
  { intros [= <-]. split_and!; try done. intros _ Ew%Hkk. lia. }
  intros [= <-]. case_Z.
  - destruct (TCPSender.fill_window_spec W s1 H1) as (_ & _ & _ & _ & _ & -> & _).
    destruct (Progress.fill_window_frame s1) as [-> ->]. split_and!; try done. intros _ Ew%Hkk. cbn. lia.
  - destruct (TCPSender.accept_ack_wf W s1 k H1) as (Hw2 & Er & _); [cbn; lia|].
    destruct (Progress.accept_ack_unacked k s1) as (_ & Ec & Es & _).
    destruct (TCPSender.fill_window_spec W _ Hw2) as (_ & _ & _ & _ & _ & Er' & _).
    destruct (Progress.fill_window_frame (TCPSender.accept_ack k s1)) as [Ec' Eb'].
    rewrite Er', Er, Ec', Ec, Eb', Es. split_and!; try done; try lia.
    intros _ Ew%Hkk. lia.
Qed.

(** ** A turn *)

Abbreviation tx x := (TCPConnection.sender (conn x)).
Abbreviation rx x := (TCPConnection.receiver (conn x)).

(** [x] waits for its time-out, if anything is in flight; everything it has queued goes out. *)
Definition speak (x : side) : result side :=
  x ← match TCPSender.unacked (tx x) with
      | [] => Ok x
      | _ => apply_side (TCPConnection.Tick (Progress.time_left (tx x))) x
      end;
  apply_side TCPConnection.Take x.

(** The application of [y] reads, and the last segment of [x] arrives; the network may have
    lost all the others. *)
Definition listen (x y : side) : result side :=
  y ← apply_side (TCPConnection.Read (ByteStream.buffer_size (TCPConnection.inbound_stream (conn y)))) y;
  match last (sent x) with
  | Some g => apply_side (TCPConnection.Segment (over_wire g)) y
  | None => Ok y
  end.

Definition turn (x y : side) : result (side * side) :=
  x ← speak x; y ← listen x y; Ok (x, y).

(** Nothing is in flight. *)
Definition settled (x y : side) : bool :=
  match TCPSender.unacked (tx x), TCPSender.unacked (tx y) with [], [] => true | _, _ => false end.

(** Turns of the two endpoints, until nothing is in flight. *)
Fixpoint recover (turns : nat) (x y : side) : result (side * side) :=
  if settled x y then Ok (x, y) else
  match turns with
  | O => Ok (x, y)
  | S turns => '(x, y) ← turn x y; '(y, x) ← recover turns y x; Ok (x, y)
  end.

(** *** Speaking *)

(** Speaking leaves the endpoint as it is, apart from its clock and its queues. *)
Record unmoved (x x' : side) : Prop := {
  u_wrote : wrote x' = wrote x;
  u_rx : rx x' = rx x;
  u_received : TCPSender.byte_received (tx x') = TCPSender.byte_received (tx x);
  u_sent : TCPSender.byte_sent (tx x') = TCPSender.byte_sent (tx x);
  u_unacked : TCPSender.unacked (tx x') = TCPSender.unacked (tx x);
  u_isn : TCPSender.isn (tx x') = TCPSender.isn (tx x);
  u_stream : TCPSender.stream (tx x') = TCPSender.stream (tx x);
  u_rst : TCPConnection.rst (conn x') = TCPConnection.rst (conn x)
}.

Lemma timeout_retransmits cx cy x y g rest :
  sound cx cy x y -> TCPSender.unacked (tx x) = g :: rest ->
  retries (tx x) < TCPSender.MAX_RETX_ATTEMPTS ->
  exists x', apply_side (TCPConnection.Tick (Progress.time_left (tx x))) x = Ok x' /\ unmoved x x' /\
    retries (tx x') = retries (tx x) + 1 /\
    last (queued (sent x') (conn x')) = Some (TCPConnection.receiver_info (rx x) g).
Proof.
  intros [[H1 _] _ _] Eu Hr. unfold TCPSender.MAX_RETX_ATTEMPTS in Hr. set (ms := Progress.time_left (tx x)).
  destruct (TCPSender.tick_spec (wrote x) (tx x) ms (l_wf H1) ltac:(lia))
    as (s & Es & Hwf & _ & Eu' & Eb & Er & Ei & Eo & Ec & _).
  destruct (Progress.tick_frame _ _ _ Es) as (_ & Est & _).
  rewrite (proj2 (TCPSender.wf_timer _ _ (l_wf H1))) in Eo, Ec by (by rewrite Eu).
  unfold ms in Eo, Ec. rewrite Progress.time_left_due, Z.leb_refl in Eo, Ec
    by (rewrite (TCPSender.wf_rto _ _ (l_wf H1)); apply u64_range).
  rewrite Eu in Eo. cbn in Eo, Ec. rewrite take_0 in Eo.
  unfold apply_side, TCPConnection.apply_op, TCPConnection.tick. rewrite Es. cbn [mbind result_bind].
  unfold TCPSender.consecutive_retransmissions, TCPSender.MAX_RETX_ATTEMPTS.
  cbn [TCPConnection.sender TCPConnection.set_sender TCPConnection.set_times]. cbv zeta.
  rewrite Ec. case_Z; [lia|]. cbn [mbind result_bind]. eexists. split; [reflexivity|]. split.
  { by constructor. }
  split; [done|]. unfold queued. cbn. rewrite app_nil_r, Eo, fmap_app, !(assoc_L (++)). cbn.
  by rewrite list.last_snoc.
Qed.

Lemma unmoved_take x x' : apply_side TCPConnection.Take x = Ok x' ->
  unmoved x x' /\ retries (tx x') = retries (tx x) /\
  last (sent x') = last (queued (sent x) (conn x)) /\ queued (sent x') (conn x') = sent x'.
Proof.
  intros E. cbn in E. injection E as <-. split_and!; try done. unfold queued. cbn. by rewrite app_nil_r.
Qed.

Lemma unmoved_trans x y z : unmoved x y -> unmoved y z -> unmoved x z.
Proof. intros [] []. constructor; congruence. Qed.

Lemma speaks cx cy x y :
  sound cx cy x y -> retries (tx x) < TCPSender.MAX_RETX_ATTEMPTS ->
  exists x', speak x = Ok x' /\ rtc duplex_step (x, y) (x', y) /\ sound cx cy x' y /\ unmoved x x' /\
    queued (sent x') (conn x') = sent x' /\
    match TCPSender.unacked (tx x) with
    | [] => retries (tx x') = retries (tx x) /\ last (sent x') = last (queued (sent x) (conn x))
    | g :: _ => retries (tx x') = retries (tx x) + 1 /\
                last (sent x') = Some (TCPConnection.receiver_info (rx x) g)
    end.
Proof.
  intros HS Hr. unfold speak.
  assert (Htake : forall x1, sound cx cy x1 y ->
    exists x', apply_side TCPConnection.Take x1 = Ok x' /\ duplex_step (x1, y) (x', y) /\ sound cx cy x' y).
  { intros x1 H1. destruct (sound_op cx cy x1 y TCPConnection.Take I H1) as (x' & E & H').
    exists x'. split; [done|]. split; [by apply (step_left TCPConnection.Take)|done]. }
  destruct (TCPSender.unacked (tx x)) as [|g rest] eqn:Eu.
  - destruct (Htake x HS) as (x' & E & Hst & HS'). destruct (unmoved_take _ _ E) as (U & Ur & Ul & Uq).
    exists x'. split; [done|]. split; [by apply rtc_once|]. done.
  - destruct (timeout_retransmits cx cy x y g rest HS Eu Hr) as (x1 & E1 & U1 & R1 & L1).
    assert (Ha : allowed y x (TCPConnection.Tick (Progress.time_left (tx x)))).
    { cbn. unfold TCPSender.MAX_RETX_ATTEMPTS in Hr. lia. }
    destruct (sound_op cx cy x y _ Ha HS) as (x1' & E1' & HS1). rewrite E1 in E1'. injection E1' as <-.
    destruct (Htake x1 HS1) as (x' & E & Hst & HS'). destruct (unmoved_take _ _ E) as (U & Ur & Ul & Uq).
    exists x'. rewrite E1. cbn [mbind result_bind]. split; [done|].
    split; [eapply rtc_l; [by eapply step_left|by apply rtc_once]|]. split; [done|].
    split; [by eapply unmoved_trans|]. split; [done|]. split; [lia|]. by rewrite Ul.
Qed.

(** *** Listening *)

(** The last segment of [q] acknowledges all that [r] has. *)
Definition stamps (r : TCPReceiver) (q : list TCPSegment) : Prop :=
  exists g, last q = Some g /\ TCPHeader.ack (TCPSegment.header g) = true /\
    TCPReceiver.ackno r = Some (TCPHeader.ackno (TCPSegment.header g)).
Definition up_to_date (z : side) : Prop := stamps (rx z) (queued (sent z) (conn z)).

Lemma reads_out cx cy x y :
  sound cx cy x y ->
  exists y', apply_side (TCPConnection.Read (ByteStream.buffer_size (TCPConnection.inbound_stream (conn y)))) y
      = Ok y' /\ duplex_step (x, y) (x, y') /\ sound cx cy x y' /\ wrote y' = wrote y /\ tx y' = tx y /\
    TCPConnection.rst (conn y') = TCPConnection.rst (conn y) /\
    ByteStream.content (TCPReceiver.stream_out (rx y')) = [].
Proof.
  intros HS. set (n := ByteStream.buffer_size _).
  assert (Ha : allowed x y (TCPConnection.Read n)) by (cbn; unfold n; apply size_nonneg).
  destruct (sound_op cy cx y x _ Ha (sound_sym _ _ _ _ HS)) as (y' & E & HS').
  exists y'. split; [done|]. split; [by eapply step_right|]. split; [by apply sound_sym|].
  cbn in E. injection E as <-. split_and!; try done. cbn.
  unfold n, ByteStream.buffer_size, TCPConnection.inbound_stream. cbn. rewrite !Z.leb_refl.
  apply size_0_nil. rewrite substr0_rest_size by apply size_nonneg. lia.
Qed.

(** What the arrival of a segment of [x] does to [y]. *)
Record hears (x : side) (g : TCPSegment) (y y' : side) : Prop := {
  h_wrote : wrote y' = wrote y;
  h_rst : TCPConnection.rst (conn y') = TCPConnection.rst (conn y);
  h_received : TCPSender.byte_received (tx y) <= TCPSender.byte_received (tx y');
  h_retries : retries (tx y') <= retries (tx y);
  h_ended : ended_input (tx y') = ended_input (tx y);
  h_open : 1 <= TCPSender.byte_sent (tx y');
  h_ack : TCPHeader.ack (TCPSegment.header g) = true ->
    TCPReceiver.ackno (rx x) = Some (TCPHeader.ackno (TCPSegment.header g)) ->
    acked (sent_bytes (tx y)) (rx x) <= TCPSender.byte_received (tx y') /\
    (TCPSender.byte_received (tx y) < acked (sent_bytes (tx y)) (rx x) -> retries (tx y') = 0);
  h_oldest g0 rest : TCPSender.unacked (tx x) = g0 :: rest -> TCPConnection.same_content g0 g ->
    up_to_date y' /\ TCPSender.byte_received (tx x) < acked (sent_bytes (tx x)) (rx y')
}.

Lemma replied_stamps s r c c' :
  replied s r false c c' -> TCPReceiver.isnset r = true -> stamps r (TCPConnection.segments_out c').
Proof.
  intros (Er & _ & _ & Eq) Hset. set (s1 := if _ && _ then _ else _) in Eq.
  assert (Hn : TCPSender.segments_out s1 <> []).
  { subst s1. rewrite Hset, andb_true_r. case_Z; [cbn; by intros [_ ?]%app_eq_nil|].
    intros E. by rewrite E in *. }
  destruct (TCPSender.segments_out s1) as [|h p _] eqn:E using rev_ind; [done|].
  exists (TCPConnection.receiver_info r h). rewrite Eq, fmap_app, (assoc_L (++)). cbn [fmap list_fmap].
  rewrite list.last_snoc. split; [done|]. unfold TCPConnection.receiver_info, TCPReceiver.ackno. by rewrite Hset.
Qed.

Lemma replied_up_to_date s r c z :
  replied s r false c (conn z) -> TCPReceiver.isnset r = true -> up_to_date z.
Proof.
  intros Hr Hset. destruct (replied_stamps _ _ _ _ Hr Hset) as (g & Eg & Hg). destruct Hr as (Er & _).
  exists g. rewrite Er. split; [|done]. unfold queued. by rewrite last_app, Eg.
Qed.

Lemma replied_frame s r silent c c' :
  replied s r silent c c' ->
  TCPSender.byte_received (TCPConnection.sender c') = TCPSender.byte_received s /\
  retries (TCPConnection.sender c') = retries s /\
  TCPSender.stream (TCPConnection.sender c') = TCPSender.stream s /\
  TCPSender.byte_sent (TCPConnection.sender c') = TCPSender.byte_sent s.
Proof.
  intros (_ & _ & E). destruct silent; [destruct E as [-> _]; done|]. destruct E as [-> _].
  by destruct (_ && _).
Qed.

(** An acknowledgement of everything, in terms of the number it stands for. *)
Lemma ackno_acked cap W s q R r aq a :
  link cap W s q R r aq -> TCPReceiver.ackno r = Some a ->
  a = wrap (acked (sent_bytes s) r) (TCPSender.isn s).
Proof.
  intros HL E. pose proof (link_sizes HL) as (? & ? & Hlim). unfold stream_limit in Hlim.
  assert (Hset : TCPReceiver.isnset r = true).
  { unfold TCPReceiver.ackno in E. by destruct (TCPReceiver.isnset r). }
  rewrite (TCPReceiver.ackno_abs (stream_of W) (sent_bytes s) ltac:(lia) ltac:(lia)
    (TCPSender.isn s) R r (l_recv HL) Hset) in E. injection E as <-. unfold acked. by rewrite Hset.
Qed.

Lemma hears_segment cx cy x y g :
  sound cx cy x y -> g ∈ sent x -> TCPConnection.rst (conn x) = false ->
  ByteStream.content (TCPReceiver.stream_out (rx y)) = [] ->
  TCPReceiver.isnset (rx y) = true \/ TCPSender.len g <> 0 ->
  orderly (wrote x) (TCPSender.isn (tx x)) (rx y) (over_wire g) ->
  exists y', apply_side (TCPConnection.Segment (over_wire g)) y = Ok y' /\ duplex_step (x, y) (x, y') /\
    sound cx cy x y' /\ hears x g y y'.
Proof.
  intros HS Hg Hrst Hnil Hn Hord. pose proof (sound_sym _ _ _ _ HS) as HS'.
  assert (Hwire : TCPSegment.wf 0 g /\ TCPHeader.rst (TCPSegment.header g) = false).
  { pose proof (v_queue _ _ (so_left _ _ _ _ HS)) as Hq. rewrite Forall_forall in Hq.
    destruct (Hq g) as [Hw Hr]; [apply elem_of_app; by left|]. split; [done|by apply Hr]. }
  destruct Hwire as [Hwf Hr]. pose proof (EndToEnd.crosses_over_wire g Hwf) as Hcross.
  pose proof (crosses_header _ _ Hcross) as Hhead. pose proof (EndToEnd.crosses_same _ _ Hcross) as Hsame.
  set (seg := over_wire g) in *.
  assert (Ha : allowed x y (TCPConnection.Segment seg)) by (split; [by exists g|done]).
  destruct (sound_op cy cx y x _ Ha HS') as (y' & E & HSy). exists y'.
  split; [done|]. split; [by eapply step_right|]. split; [by apply sound_sym|].
  destruct (joined_halves (wrote y) (conn y) g seg Hg Hcross Hord (so_joined _ _ _ _ HS'))
    as (s & b & r & Es & Hs & Er & _).
  change (heard seg (tx y) = (true, s)) in Es.
  rewrite (TCPConnection.same_content_len _ _ Hsame) in Hn.
  destruct (segment_received_replies seg (conn y) s b r) as (c' & Ec & Hrep); [by rewrite Hhead|done..|].
  unfold apply_side in E. cbn [TCPConnection.apply_op] in E. rewrite Ec in E. cbn in E. injection E as <-.
  destruct (so_joined _ _ _ _ HS) as [Hxy Hyx]. destruct (replied_frame _ _ _ _ _ Hrep) as (F1 & F2 & F3 & F4).
  assert (Hh : honest cx (sent_bytes (tx y)) (TCPSender.isn (tx y)) (rx x) seg).
  { pose proof (l_acks Hyx) as Hacks. rewrite Forall_forall in Hacks.
    specialize (Hacks g ltac:(apply elem_of_app; by left)). unfold honest in *. by rewrite Hhead. }
  destruct (heard_acks _ _ _ _ _ _ _ seg s Hyx Hh Es) as (A1 & A2 & A3 & A4).
  pose proof Hrep as (Er' & Erst & _).
  constructor; cbn [conn wrote]; rewrite ?F1, ?F2, ?F3, ?F4, ?Er'; try done.
  - intros Hack Eack. rewrite Hhead in A4. apply A4; [done|].
    by apply (ackno_acked _ _ _ _ _ _ _ _ Hyx).
  - intros g0 rest Eu Hs0. pose proof (same_content_trans _ _ _ Hs0 Hsame) as Hs1.
    destruct (oldest_received Hxy g0 rest seg b r Eu Hs1 Hnil Er) as [Hset Hlt]. split; [|done].
    destruct (oldest_place Hxy g0 rest Eu) as (u & Hc & _). pose proof (TCPSender.carries_len _ _ _ _ Hc).
    rewrite (TCPConnection.same_content_len _ _ Hs1) in *.
    replace (TCPSender.len seg =? 0) with false in Hrep by lia.
    by apply (replied_up_to_date s r (conn y)).
Qed.

(** *** The whole turn *)

Record turned (x y x' y' : side) : Prop := {
  t_unmoved : unmoved x x';
  t_tries : retries (tx x') = retries (tx x) + match TCPSender.unacked (tx x) with [] => 0 | _ => 1 end;
  t_wrote : wrote y' = wrote y;
  t_rst : TCPConnection.rst (conn y') = TCPConnection.rst (conn y);
  t_received : TCPSender.byte_received (tx y) <= TCPSender.byte_received (tx y');
  t_retries : retries (tx y') <= retries (tx y);
  t_ended : ended_input (tx y') = ended_input (tx y);
  t_open : 1 <= TCPSender.byte_sent (tx y) -> 1 <= TCPSender.byte_sent (tx y');
  t_ack : TCPSender.unacked (tx x) <> [] \/ up_to_date x ->
    acked (sent_bytes (tx y)) (rx x) <= TCPSender.byte_received (tx y') /\
    (TCPSender.byte_received (tx y) < acked (sent_bytes (tx y)) (rx x) -> retries (tx y') = 0);
  t_oldest : TCPSender.unacked (tx x) <> [] ->
    up_to_date y' /\ TCPSender.byte_received (tx x) < acked (sent_bytes (tx x)) (rx y')
}.

Lemma last_elem {A} (l : list A) a : last l = Some a -> a ∈ l.
Proof. intros [l' ->]%list.last_Some. apply elem_of_app. right. apply list_elem_of_here. Qed.

(** The last segment of an endpoint with nothing in flight. *)
Lemma settled_orderly cap W s q R r aq g seg :
  link cap W s q R r aq -> TCPSender.unacked s = [] -> g ∈ q -> TCPConnection.same_content g seg ->
  TCPReceiver.isnset r = true /\ orderly W (TCPSender.isn s) r seg.
Proof.
  intros HL Eu Hg Hsame. pose proof (l_queue HL) as Hq. rewrite Forall_forall in Hq. specialize (Hq g Hg).
  split; [|apply (acked_orderly HL); [done|by eapply placed_same]].
  pose proof (nothing_in_flight _ _ (l_wf HL) Eu). pose proof (l_acked HL) as Ha. unfold acked in Ha.
  destruct (TCPReceiver.isnset r); [done|exfalso].
  destruct Hq as [(a & Hc & Hle)|(a & Hle & _)]; [|lia].
  pose proof (TCPSender.carries_len _ _ _ _ Hc). pose proof (TCPSender.c_pos _ _ _ _ Hc). lia.
Qed.

Lemma heard_turn x y x' y1 y' g :
  unmoved x x' ->
  retries (tx x') = retries (tx x) + match TCPSender.unacked (tx x) with [] => 0 | _ => 1 end ->
  wrote y1 = wrote y -> tx y1 = tx y -> TCPConnection.rst (conn y1) = TCPConnection.rst (conn y) ->
  0 <= TCPSender.byte_received (tx y) -> hears x' g y1 y' ->
  (TCPSender.unacked (tx x) <> [] \/ up_to_date x -> TCPReceiver.isnset (rx x) = true ->
     TCPHeader.ack (TCPSegment.header g) = true /\
     TCPReceiver.ackno (rx x) = Some (TCPHeader.ackno (TCPSegment.header g))) ->
  (forall g0 rest, TCPSender.unacked (tx x) = g0 :: rest -> TCPConnection.same_content g0 g) ->
  turned x y x' y'.
Proof.
  intros U Ur W1 T1 R1 H0 [A1 A2 A3 A4 A5 Ao A6 A7] Hack Hold. rewrite T1, (u_rx _ _ U) in *.
  pose proof (u_received _ _ U) as E1. pose proof (u_unacked _ _ U) as E2. pose proof (u_stream _ _ U) as E3.
  constructor; try done; try congruence.
  - intros Hx. destruct (TCPReceiver.isnset (rx x)) eqn:Hset.
    + destruct (Hack Hx eq_refl). by apply A6.
    + unfold acked. rewrite Hset. lia.
  - intros Hn. destruct (TCPSender.unacked (tx x)) as [|g0 rest] eqn:Eu; [done|].
    rewrite <- E1, <- E3. by apply (A7 g0 rest); [|by eapply Hold].
Qed.

Lemma last_crosses cx cy x y g :
  sound cx cy x y -> queued (sent x) (conn x) = sent x -> last (sent x) = Some g ->
  TCPConnection.same_content g (over_wire g).
Proof.
  intros HS Eq El. apply EndToEnd.crosses_same, EndToEnd.crosses_over_wire.
  pose proof (v_queue _ _ (so_left _ _ _ _ HS)) as Hq. rewrite Eq, Forall_forall in Hq.
  by apply Hq, last_elem.
Qed.

Lemma turn_works cx cy x y :
  sound cx cy x y -> TCPConnection.rst (conn x) = false ->
  retries (tx x) < TCPSender.MAX_RETX_ATTEMPTS ->
  exists x' y', turn x y = Ok (x', y') /\ rtc duplex_step (x, y) (x', y') /\ sound cx cy x' y' /\
    turned x y x' y'.
Proof.
  intros HS Hrst Hr. destruct (speaks cx cy x y HS Hr) as (x' & Ex & Hsx & HSx & U & Uq & Hlast).
  destruct (reads_out cx cy x' y HSx) as (y1 & E1 & St1 & HS1 & W1 & T1 & R1 & Hnil).
  unfold turn, listen. rewrite Ex. cbn [mbind result_bind]. rewrite E1. cbn [mbind result_bind].
  assert (Hsteps : rtc duplex_step (x, y) (x', y1)) by (eapply rtc_r; done).
  pose proof (u_rst _ _ U) as Hrx. rewrite Hrst in Hrx. destruct (so_joined _ _ _ _ HS1) as [Hxy _].
  rewrite Uq in Hxy. pose proof (u_unacked _ _ U) as Eu'.
  assert (Hhear : forall g, last (sent x') = Some g ->
    TCPReceiver.isnset (rx y1) = true \/ TCPSender.len g <> 0 ->
    orderly (wrote x') (TCPSender.isn (tx x')) (rx y1) (over_wire g) ->
    exists y', apply_side (TCPConnection.Segment (over_wire g)) y1 = Ok y' /\
      rtc duplex_step (x, y) (x', y') /\ sound cx cy x' y' /\ hears x' g y1 y').
  { intros g El Hn Hord. destruct (hears_segment cx cy x' y1 g) as (y' & E & St & HS' & Hh);
      try done; [by apply last_elem|]. exists y'. split; [done|]. split; [by eapply rtc_r|done]. }
  pose proof (fun g => last_crosses _ _ _ _ g HS1 Uq) as Hwire.
  assert (H0 : 0 <= TCPSender.byte_received (tx y)).
  { destruct (so_joined _ _ _ _ HS) as [_ Hyx]. pose proof (TCPSender.wf_received _ _ (l_wf Hyx)). lia. }
  exists x'.
  destruct (TCPSender.unacked (tx x)) as [|g0 rest] eqn:Eu; destruct Hlast as [Hret El].
  - rewrite El. destruct (last (queued (sent x) (conn x))) as [g|] eqn:Eg.
    + destruct (settled_orderly _ _ _ _ _ _ _ g (over_wire g) Hxy Eu' (last_elem _ _ El) (Hwire g El))
        as [Hset Hord].
      destruct (Hhear g El (or_introl Hset) Hord) as (y' & E & Hst & HS' & Hh). exists y'.
      rewrite E. cbn [mbind result_bind]. split_and!; try done.
      apply (heard_turn x y x' y1 y' g); try done; [by rewrite Eu; lia| |by rewrite Eu].
      intros [?|(h & Eh & Ha & Ek)] _; [done|]. rewrite Eg in Eh. by injection Eh as <-.
    + exists y1. split_and!; try done. constructor; try congruence; try (by rewrite ?T1).
      * rewrite Eu. lia.
      * intros [?|(h & Eh & _)]; congruence.
  - rewrite El. set (g := TCPConnection.receiver_info (rx x) g0) in *.
    assert (Hs0 : TCPConnection.same_content g0 g) by apply TCPConnection.same_content_info.
    pose proof (oldest_orderly Hxy g0 rest (over_wire g) Eu' (same_content_trans _ _ _ Hs0 (Hwire g El))) as Hord.
    destruct (Hhear g El) as (y' & E & Hst & HS' & Hh); [right|done|].
    { destruct (oldest_place Hxy g0 rest Eu') as (u & Hc & _). pose proof (TCPSender.carries_len _ _ _ _ Hc).
      rewrite <- (TCPConnection.same_content_len _ _ Hs0). lia. }
    exists y'. rewrite E. cbn [mbind result_bind]. split_and!; try done.
    apply (heard_turn x y x' y1 y' g); try done; [by rewrite Eu| |].
    + intros _ Hset. unfold g, TCPConnection.receiver_info, TCPReceiver.ackno. by rewrite Hset.
    + rewrite Eu. by intros g1 rest1 [= <- <-].
Qed.

(** ** The turns lead to the end *)

(** A turn of [x] will tell [y] of bytes it does not know to have arrived. *)
Definition due (x y : side) : Prop :=
  TCPSender.byte_received (tx y) < acked (sent_bytes (tx y)) (rx x) /\
  (TCPSender.unacked (tx x) <> [] \/ up_to_date x).

(** Neither endpoint has given up or is about to, when it is the turn of [x]. *)
Record steady (x y : side) : Prop := {
  st_left : TCPConnection.rst (conn x) = false;
  st_right : TCPConnection.rst (conn y) = false;
  st_speaker : retries (tx x) < TCPSender.MAX_RETX_ATTEMPTS;
  st_listener : retries (tx y) < TCPSender.MAX_RETX_ATTEMPTS \/ due x y
}.

Lemma turned_due x y x' y' : turned x y x' y' -> TCPSender.unacked (tx x) <> [] -> due y' x'.
Proof.
  intros T Hn. destruct (t_oldest _ _ _ _ T Hn) as [Hu Hlt]. split; [|by right].
  by rewrite (u_received _ _ (t_unmoved _ _ _ _ T)), (u_stream _ _ (t_unmoved _ _ _ _ T)).
Qed.

Lemma turned_steady x y x' y' : turned x y x' y' -> steady x y -> steady y' x'.
Proof.
  intros T [H1 H2 H3 H4]. constructor.
  - by rewrite (t_rst _ _ _ _ T).
  - by rewrite (u_rst _ _ (t_unmoved _ _ _ _ T)).
  - pose proof (t_retries _ _ _ _ T). destruct H4 as [?|[Hlt Hd]]; [lia|].
    destruct (t_ack _ _ _ _ T Hd) as [_ Hz]. by rewrite Hz.
  - destruct (TCPSender.unacked (tx x)) eqn:Eu.
    + left. pose proof (t_tries _ _ _ _ T) as E. rewrite Eu in E. lia.
    + right. apply (turned_due x y); [done|]. by rewrite Eu.
Qed.

(** The numbers that are still to be acknowledged, and how far the next one is: a turn, two
    turns or three. *)
Definition left_over (x y : side) : Z :=
  size (wrote x) + size (wrote y) + 4 - TCPSender.byte_received (tx x) - TCPSender.byte_received (tx y).
Definition stage (x y : side) (m : Z) : Prop :=
  (m = 1 /\ due x y) \/ (m = 2 /\ TCPSender.unacked (tx x) <> []) \/ m = 3.

Lemma left_over_nonneg cx cy x y : sound cx cy x y -> 0 <= left_over x y.
Proof.
  intros [[H1 H2] _ _]. pose proof (link_sizes H1). pose proof (link_sizes H2).
  pose proof (TCPSender.wf_received _ _ (l_wf H1)). pose proof (TCPSender.wf_received _ _ (l_wf H2)).
  unfold left_over. lia.
Qed.

Lemma turned_closer x y x' y' m :
  turned x y x' y' -> stage x y m -> settled y' x' = false ->
  exists m', stage y' x' m' /\ 3 * left_over y' x' + m' < 3 * left_over x y + m.
Proof.
  intros T Hm Hs. assert (Hle : left_over y' x' <= left_over x y).
  { unfold left_over. rewrite (t_wrote _ _ _ _ T), (u_wrote _ _ (t_unmoved _ _ _ _ T)).
    rewrite (u_received _ _ (t_unmoved _ _ _ _ T)). pose proof (t_received _ _ _ _ T). lia. }
  destruct (TCPSender.unacked (tx x)) as [|g q] eqn:Eu.
  - destruct Hm as [[-> [Hlt Hd]]|[[_ ?]| ->]]; [|congruence|].
    + exists 3. split; [by right; right|]. destruct (t_ack _ _ _ _ T Hd) as [Hk _].
      unfold left_over in *. rewrite (t_wrote _ _ _ _ T), (u_wrote _ _ (t_unmoved _ _ _ _ T)) in *.
      rewrite (u_received _ _ (t_unmoved _ _ _ _ T)) in *. lia.
    + exists 2. split; [|lia]. right; left. split; [done|]. intros E. unfold settled in Hs.
      by rewrite E, (u_unacked _ _ (t_unmoved _ _ _ _ T)), Eu in Hs.
  - assert (Hn : TCPSender.unacked (tx x) <> []) by (by rewrite Eu).
    destruct Hm as [[-> [Hlt Hd]]|Hm].
    + exists 3. split; [by right; right|]. destruct (t_ack _ _ _ _ T Hd) as [Hk _].
      unfold left_over in *. rewrite (t_wrote _ _ _ _ T), (u_wrote _ _ (t_unmoved _ _ _ _ T)) in *.
      rewrite (u_received _ _ (t_unmoved _ _ _ _ T)) in *. lia.
    + exists 1. split; [left; split; [done|by apply (turned_due x y)]|]. lia.
Qed.

Lemma duplex_step_swap x y x' y' : rtc duplex_step (x, y) (x', y') -> rtc duplex_step (y, x) (y', x').
Proof.
  intros H. apply (rtc_congruence (fun p : side * side => (p.2, p.1)) duplex_step) in H; [done|].
  intros [a b] [a' b'] Hs. inversion Hs; subst; [by eapply step_right|by eapply step_left].
Qed.

Lemma settled_sym x y : settled x y = settled y x.
Proof. unfold settled. by destruct (TCPSender.unacked _), (TCPSender.unacked _). Qed.

Lemma settled_unacked x y :
  settled x y = true -> TCPSender.unacked (tx x) = [] /\ TCPSender.unacked (tx y) = [].
Proof. unfold settled. by destruct (TCPSender.unacked _), (TCPSender.unacked _). Qed.

Lemma recover_settled n x y : settled x y = true -> recover n x y = Ok (x, y).
Proof. intros H. destruct n; cbn; by rewrite H. Qed.

(** What the turns leave alone. *)
Definition kept (x x' : side) : Prop :=
  wrote x' = wrote x /\ ended_input (tx x') = ended_input (tx x) /\
  TCPConnection.rst (conn x') = TCPConnection.rst (conn x) /\
  (1 <= TCPSender.byte_sent (tx x) -> 1 <= TCPSender.byte_sent (tx x')).

Lemma turned_kept x y x' y' : turned x y x' y' -> kept x x' /\ kept y y'.
Proof.
  intros T. pose proof (t_unmoved _ _ _ _ T) as U. split; [|split_and!; apply T].
  split_and!; [apply U|by rewrite (u_stream _ _ U)|apply U|by rewrite (u_sent _ _ U)].
Qed.

Lemma kept_trans x y z : kept x y -> kept y z -> kept x z.
Proof. intros (A1 & A2 & A3 & A4) (B1 & B2 & B3 & B4). split_and!; congruence || auto. Qed.

Lemma recover_settles n : forall cx cy x y m,
  sound cx cy x y -> steady x y -> stage x y m -> 3 * left_over x y + m <= Z.of_nat n ->
  exists x' y', recover n x y = Ok (x', y') /\ rtc duplex_step (x, y) (x', y') /\
    sound cx cy x' y' /\ settled x' y' = true /\ (steady x' y' \/ steady y' x') /\
    kept x x' /\ kept y y'.
Proof.
  induction n as [|n IH]; intros cx cy x y m HS Hst Hm Hn; cbn [recover];
    destruct (settled x y) eqn:Es; try (exists x, y; split_and!; done || apply rtc_refl || by left).
  { pose proof (left_over_nonneg _ _ _ _ HS). destruct Hm as [[-> _]|[[-> _]| ->]]; lia. }
  destruct (turn_works _ _ _ _ HS (st_left _ _ Hst) (st_speaker _ _ Hst)) as (x1 & y1 & E & Hs & HS1 & T).
  rewrite E. cbn [mbind result_bind]. pose proof (turned_kept _ _ _ _ T) as [K1 K2].
  pose proof (turned_steady _ _ _ _ T Hst) as Hst1. apply sound_sym in HS1.
  destruct (settled y1 x1) eqn:Es1.
  - rewrite (recover_settled n _ _ Es1). cbn [mbind result_bind]. exists x1, y1.
    split_and!; try done; [by apply sound_sym|by rewrite settled_sym|by right].
  - destruct (turned_closer _ _ _ _ _ T Hm Es1) as (m' & Hm' & Hlt).
    destruct (IH cy cx y1 x1 m' HS1 Hst1 Hm' ltac:(lia)) as (y2 & x2 & E2 & Hs2 & HS2 & Es2 & Hst2 & Q1 & Q2).
    rewrite E2. cbn [mbind result_bind]. exists x2, y2.
    split_and!; [done| |by apply sound_sym|by rewrite settled_sym|by destruct Hst2; auto|by eapply kept_trans..].
    etrans; [done|by apply duplex_step_swap].
Qed.

(** ** What is so when nothing is in flight *)

(** The transfer from [x] to [y] is done: [y] has every byte that was written to [x], [x] knows
    it, and once the application of [x] has ended its stream, [y] has seen the end and [x]
    knows that too. *)
Definition delivered (x y : side) : Prop :=
  received y = wrote x /\ TCPSender.bytes_in_flight (tx x) = 0 /\
  (ended_input (tx x) = true ->
    ByteStream.input_ended (TCPConnection.inbound_stream (conn y)) = true /\
    TCPSender.fin_acked (tx x) = true).

Lemma drained_all W s :
  TCPSender.wf W s -> drained s -> TCPSender.unacked s = [] -> 1 <= TCPSender.byte_sent s ->
  sent_bytes s = size W /\ (ended_input s = true -> TCPSender.eof s = true).
Proof.
  intros H Hd E Hs. destruct (Hd E Hs) as [He|[Hb Hn]].
  - by rewrite (eof_all_read _ _ H He).
  - unfold ByteStream.eof in Hn. rewrite Hb, andb_true_r in Hn. split; [|congruence].
    unfold ByteStream.buffer_empty in Hb. apply Z.eqb_eq in Hb. rewrite (TCPSender.wf_content _ _ H) in Hb.
    pose proof (TCPSender.wf_read _ _ H). pose proof (ByteStream.wf_read _ (TCPSender.wf_stream _ _ H)).
    rewrite size_drop in Hb; lia.
Qed.

Lemma settled_delivered cx cy x y :
  sound cx cy x y -> TCPSender.unacked (tx x) = [] -> 1 <= TCPSender.byte_sent (tx x) ->
  delivered x y /\ 1 <= TCPSender.byte_sent (tx y).
Proof.
  intros [[HL _] Hx Hy] Eu Ho. pose proof (l_wf HL) as Hw.
  destruct (drained_all _ _ Hw (v_drained _ _ Hx) Eu Ho) as [Hall Hfin].
  pose proof (nothing_in_flight _ _ Hw Eu) as Hb. pose proof (l_acked HL) as Ha. unfold acked in Ha.
  destruct (TCPReceiver.isnset (rx y)) eqn:Hset; [|lia]. split; [|by apply (v_open _ _ Hy)].
  pose proof (TCPSender.wf_sent _ _ Hw ltac:(lia)) as Hs. pose proof (link_first HL) as Hf.
  unfold TCPReceiver.abs_ack in Ha.
  assert (HF : SR.firstindex (TCPReceiver.reassembler (rx y)) = size (wrote x)).
  { revert Ha. destruct (_ && _) eqn:Hq; intros Ha; destruct (TCPSender.eof (tx x)); cbn in *; lia. }
  split; [by apply (link_complete _ _ _ _ _ _ HL)|].
  split; [rewrite (TCPSender.flight_eq _ _ Hw); lia|].
  intros He. specialize (Hfin He). rewrite Hfin in Hs. cbn in Hs. split.
  - apply (l_ended HL); [|congruence]. revert Ha. destruct (TCPReceiver.finset _); [done|]. cbn. lia.
  - unfold TCPSender.fin_acked, TCPSender.fin_sent. by rewrite Eu, Hfin.
Qed.

(** When nothing is in flight, no retransmission is counted against the endpoints. *)
Lemma settled_steady cx cy x y :
  sound cx cy x y -> settled x y = true -> steady x y ->
  retries (tx x) < TCPSender.MAX_RETX_ATTEMPTS /\ retries (tx y) < TCPSender.MAX_RETX_ATTEMPTS.
Proof.
  intros [[_ HL] _ _] Es Hst. split; [apply Hst|]. destruct (st_listener _ _ Hst) as [|[Hlt _]]; [done|].
  pose proof (link_acked_sent HL). apply settled_unacked in Es as [_ Uy].
  pose proof (nothing_in_flight _ _ (l_wf HL) Uy). lia.
Qed.

(** An endpoint that is done with both streams, and waits for ten retransmission time-outs, is
    closed, and not by a reset. *)
Definition closes_after (z : side) : Prop := forall ms, 0 <= ms ->
  10 * TCPSender.rt_timeout (TCPConnection.cfg (conn z)) <= ms ->
  TCPConnection.time_since_last_segment_received (conn z) + ms < M64 ->
  exists c, TCPConnection.tick ms (conn z) = Ok c /\ TCPConnection.active c = false /\
    TCPConnection.rst c = false.

Lemma done_inactive c :
  TCPSender.fin_acked (TCPConnection.sender c) = true ->
  ByteStream.input_ended (TCPConnection.inbound_stream c) = true ->
  10 * TCPSender.rt_timeout (TCPConnection.cfg c) <= TCPConnection.time_since_last_segment_received c ->
  TCPConnection.active c = false.
Proof.
  intros Hf He H. assert (Hs : TCPSender.fin_sent (TCPConnection.sender c) = true).
  { by apply andb_true_iff in Hf as [_ ?]. }
  unfold TCPConnection.active. unfold TCPConnection.inbound_stream in He. rewrite Hs, Hf, He. cbn [negb orb].
  replace (_ <=? _) with true by lia. by repeat case_match.
Qed.

Lemma quiet_closes W z :
  TCPSender.wf W (tx z) ->
  retries (tx z) < TCPSender.MAX_RETX_ATTEMPTS -> TCPConnection.rst (conn z) = false ->
  TCPSender.fin_acked (tx z) = true ->
  ByteStream.input_ended (TCPConnection.inbound_stream (conn z)) = true -> closes_after z.
Proof.
  intros Hw Hr Hrst Hf He ms Hms H10 Hlt.
  assert (Ht : TCPSender.tick ms (tx z) = Ok (TCPSender.set_time (u64 (TCPSender.time (tx z) + ms)) (tx z))).
  { unfold TCPSender.tick. cbn. destruct (TCPSender.active _) eqn:Ha; [|done].
    apply (TCPSender.wf_timer _ _ Hw) in Ha. unfold TCPSender.fin_acked in Hf.
    by destruct (TCPSender.unacked (tx z)). }
  unfold TCPConnection.tick. rewrite Ht. cbn [mbind result_bind].
  replace (TCPSender.MAX_RETX_ATTEMPTS <? _) with false
    by (unfold TCPSender.consecutive_retransmissions; cbn -[TCPSender.MAX_RETX_ATTEMPTS]; lia).
  cbn [mbind result_bind]. eexists. split; [reflexivity|]. split; [|done].
  apply done_inactive; [exact Hf|exact He|]. unfold TCPConnection.time_since_last_segment_received in *.
  cbn -[u64 Z.mul]. set (t := TCPConnection.time _) in *. set (l := TCPConnection.last_segment_time _) in *.
  pose proof (u64_range (t - l)). assert (E : u64 (u64 (t + ms) - l) = u64 (u64 (t - l) + ms)).
  { rewrite u64_add_u64. unfold Z.sub at 1. rewrite u64_add_u64. f_equal. lia. }
  rewrite E, u64_id; lia.
Qed.

Lemma delivered_closes cx cy x y :
  sound cx cy x y -> settled x y = true -> steady x y \/ steady y x ->
  delivered x y -> delivered y x -> ended_input (tx x) = true -> ended_input (tx y) = true ->
  closes_after x /\ closes_after y.
Proof.
  intros HS Es Hst (_ & _ & Dx) (_ & _ & Dy) Ex Ey. destruct (Dx Ex), (Dy Ey).
  destruct (so_joined _ _ _ _ HS) as [Hx Hy].
  assert (retries (tx x) < TCPSender.MAX_RETX_ATTEMPTS /\ retries (tx y) < TCPSender.MAX_RETX_ATTEMPTS) as [].
  { destruct Hst as [Hst|Hst]; [by apply (settled_steady _ _ _ _ HS)|].
    apply and_comm. apply (settled_steady _ _ _ _ (sound_sym _ _ _ _ HS)); [by rewrite settled_sym|done]. }
  assert (TCPConnection.rst (conn x) = false /\ TCPConnection.rst (conn y) = false) as [].
  { by destruct Hst as [[]|[]]. }
  split; [by apply (quiet_closes _ _ (l_wf Hx))|by apply (quiet_closes _ _ (l_wf Hy))].
Qed.

(** ** The theorem *)

Lemma steady_start x y :
  TCPConnection.rst (conn x) = false -> TCPConnection.rst (conn y) = false ->
  retries (tx x) < TCPSender.MAX_RETX_ATTEMPTS -> retries (tx y) < TCPSender.MAX_RETX_ATTEMPTS ->
  steady x y.
Proof. by constructor; auto. Qed.

(** C4: Liveness of the connection: take any state that two endpoints reach over a network that
    loses, repeats, reorders and delays segments but is [orderly] with those that have no payload
    (a bare FIN does not overtake the bytes before it, nor, after a FIN, does an empty segment at
    the first missing byte), with streams shorter than 2^31 - 3 bytes and configurations that are
    [config_ok], in which one of them has sent its SYN and
    neither has been reset or has used up its retransmissions.  Why [orderly] is
    needed is shown by [early_fin_acknowledged].  Turns complete it, in which an
    endpoint waits for its retransmission timer and only the last segment it sends arrives:
    within three turns for every byte written and fifteen more, each application has every byte
    that the other wrote, nothing is in flight, and an end of stream has arrived and has been
    acknowledged.  No endpoint gives up on the way; and if both streams were ended, each
    endpoint is closed when ten more retransmission time-outs have passed. *)
Theorem connection_recovers k1 n1 k2 n2 x y turns :
  config_ok k1 n1 -> config_ok k2 n2 ->
  rtc duplex_step (fresh k1 n1, fresh k2 n2) (x, y) ->
  TCPConnection.rst (conn x) = false -> TCPConnection.rst (conn y) = false ->
  TCPSender.consecutive_retransmissions (tx x) < TCPSender.MAX_RETX_ATTEMPTS ->
  TCPSender.consecutive_retransmissions (tx y) < TCPSender.MAX_RETX_ATTEMPTS ->
  1 <= TCPSender.next_seqno_absolute (tx x) \/ 1 <= TCPSender.next_seqno_absolute (tx y) ->
  3 * (size (wrote x) + size (wrote y)) + 15 <= Z.of_nat turns ->
  exists x' y', recover turns x y = Ok (x', y') /\ rtc duplex_step (x, y) (x', y') /\
    wrote x' = wrote x /\ wrote y' = wrote y /\
    ended_input (tx x') = ended_input (tx x) /\ ended_input (tx y') = ended_input (tx y) /\
    TCPConnection.rst (conn x') = false /\ TCPConnection.rst (conn y') = false /\
    delivered x' y' /\ delivered y' x' /\
    (ended_input (tx x) = true -> ended_input (tx y) = true -> closes_after x' /\ closes_after y').
Proof.
  intros Hk1 Hk2 Hrun Hx Hy Rx Ry Ho Hn. pose proof (duplex_sound _ _ _ _ _ _ Hk1 Hk2 Hrun) as HS.
  destruct (recover_settles turns _ _ x y 3 HS (steady_start _ _ Hx Hy Rx Ry)) as
    (x' & y' & E & Hs & HS' & Es & Hst & (A1 & A2 & A3 & A4) & (B1 & B2 & B3 & B4)).
  { by right; right. }
  { pose proof (so_joined _ _ _ _ HS) as [H1 H2]. unfold left_over.
    pose proof (TCPSender.wf_received _ _ (l_wf H1)). pose proof (TCPSender.wf_received _ _ (l_wf H2)). lia. }
  exists x', y'. destruct (settled_unacked _ _ Es) as [Ux Uy].
  pose proof (settled_delivered _ _ x' y' HS' Ux) as Dx.
  pose proof (settled_delivered _ _ y' x' (sound_sym _ _ _ _ HS') Uy) as Dy.
  assert (delivered x' y' /\ delivered y' x') as [Hd1 Hd2].
  { destruct Ho as [Ho|Ho]; [destruct (Dx (A4 Ho)) as [? H]; destruct (Dy H)
                            |destruct (Dy (B4 Ho)) as [? H]; destruct (Dx H)]; done. }
  split_and!; try (congruence || done). intros Hex Hey.
  apply (delivered_closes _ _ _ _ HS' Es Hst Hd1 Hd2); congruence.
Qed.

(** The connection is open, then the network loses everything: the data of both sides, the
    retransmissions, the acknowledgements and the FINs. *)
Definition lossy_events : list (bool * event) :=
  [(true, Do TCPConnection.Connect); (true, Do (TCPConnection.Tick 1000)); (true, Do TCPConnection.Take);
   (false, Arrive 1); (false, Do TCPConnection.Take);
   (true, Do (TCPConnection.Write text_a)); (true, Do (TCPConnection.Write text_b));
   (true, Do TCPConnection.EndInput); (true, Do (TCPConnection.Tick 2000)); (true, Do TCPConnection.Take);
   (false, Do (TCPConnection.Write text_a)); (false, Do TCPConnection.EndInput);
   (false, Do (TCPConnection.Tick 1000)); (false, Do TCPConnection.Take)].

Definition lossy_end : side * side :=
  match duplex_run lossy_events (fresh config_a 0) (fresh config_b 0) with
  | Some st => st
  | None => (fresh config_a 0, fresh config_b 0)
  end.

Lemma lossy_reached :
  rtc duplex_step (fresh config_a 0, fresh config_b 0) (lossy_end.1, lossy_end.2).
Proof. apply (duplex_run_steps lossy_events). vm_compute. reflexivity. Qed.

Lemma connection_recovers_witness :
  received lossy_end.1 = [] /\ received lossy_end.2 = [] /\
  exists x' y', recover 51 lossy_end.1 lossy_end.2 = Ok (x', y') /\
    received x' = text_a /\ received y' = text_a ++ text_b /\
    TCPSender.fin_acked (tx x') = true /\ TCPSender.fin_acked (tx y') = true.
Proof.
  split; [vm_compute; reflexivity|]. split; [vm_compute; reflexivity|].
  destruct (connection_recovers config_a 0 config_b 0 lossy_end.1 lossy_end.2 51 config_a_ok config_b_ok
    lossy_reached) as (x' & y' & E & _ & Wx & Wy & Ex & Ey & _ & _ & (Rx & _ & Fx) & (Ry & _ & Fy) & _).
  1-4: vm_compute; reflexivity.
  - left. vm_compute. congruence.
  - vm_compute. congruence.
  - exists x', y'. split; [exact E|]. rewrite Ry, Rx, Wx, Wy.
    split; [vm_compute; reflexivity|]. split; [vm_compute; reflexivity|].
    split; [apply Fx; rewrite Ex|apply Fy; rewrite Ey]; vm_compute; reflexivity.
Defined.
