(* ===== verification/Benchmark.v ===== *)
(** The benchmark [apps/tcp_benchmark.cc]: two connections in one process exchange
    their segments directly, in order or with each batch from one side reversed. *)
From S2P Require Import Prelude.
From S2P Require Buffer ByteStream TCPSegment TCPReceiver TCPSender TCPConnection Progress.
Import Buffer(Buffer).
Import TCPSegment(TCPSegment).
Import TCPConnection(TCPConnection).
Import Progress(fill_window_frame).

(** The loops of [move_segments] that give [segments] to [y]. *)
Fixpoint receive_all (segments : list TCPSegment) (y : TCPConnection) : result TCPConnection :=
  match segments with
  | [] => Ok y
  | seg :: segments => y ← TCPConnection.segment_received seg y; receive_all segments y
  end.

(** [move_segments]; the vector is empty before and after. *)
Definition move_segments (x y : TCPConnection) (reorder : bool)
    : result (TCPConnection * TCPConnection) :=
  let segments := TCPConnection.segments_out x in
  let x := TCPConnection.set_segments_out [] x in
  y ← receive_all (if reorder then reverse segments else segments) y;
  Ok (x, y).

(** The local variables of [main_loop]. *)
Record Locals := mkLocals {
  x : TCPConnection;
  y : TCPConnection;
  bytes_to_send : Buffer;
  x_closed : bool;
  string_received : bytes
}.

(** The first loop of [loop], which writes input into [x]. *)
Fixpoint write_input (fuel : nat) (x : TCPConnection) (bytes_to_send : Buffer)
    : result (TCPConnection * Buffer) :=
  match fuel with
  | O => Throw undefined_behaviour
  | S fuel =>
      if negb (Buffer.buf_size bytes_to_send =? 0) &&
         negb (TCPConnection.remaining_outbound_capacity x =? 0) then
        let want := Z.min (TCPConnection.remaining_outbound_capacity x) (Buffer.buf_size bytes_to_send) in
        let '(written, x) := TCPConnection.write (substr0 (Buffer.str bytes_to_send) want) x in
        if negb (want =? written) then Throw runtime_error else
        bytes_to_send ← Buffer.remove_prefix written bytes_to_send;
        write_input fuel x bytes_to_send
      else Ok (x, bytes_to_send)
  end.

(** The lambda [loop] *)
Definition loop (reorder : bool) (l : Locals) : result Locals :=
  '(x, bytes_to_send) ← write_input (S (Z.to_nat (Buffer.buf_size (bytes_to_send l)))) (x l) (bytes_to_send l);
  let '(x, x_closed) :=
    if (Buffer.buf_size bytes_to_send =? 0) && negb (x_closed l)
    then (TCPConnection.end_input_stream x, true) else (x, x_closed l) in
  '(x, y) ← move_segments x (y l) reorder;
  '(y, x) ← move_segments y x false;
  let available_output := ByteStream.buffer_size (TCPConnection.inbound_stream y) in
  let '(t, y) := if 0 <? available_output then TCPConnection.read available_output y else ([], y) in
  x ← TCPConnection.tick 1000 x;
  y ← TCPConnection.tick 1000 y;
  Ok (mkLocals x y bytes_to_send x_closed (string_received l ++ t)).

(** [while (condition) loop()]; the flag says that the condition has become false. *)
Fixpoint loop_while (fuel : nat) (condition : Locals -> bool) (reorder : bool) (l : Locals)
    : result (bool * Locals) :=
  if negb (condition l) then Ok (true, l) else
  match fuel with
  | O => Ok (false, l)
  | S fuel => l ← loop reorder l; loop_while fuel condition reorder l
  end.

(** [main_loop], without the measurement; [string_to_send] are the random bytes and
    [rx], [ry] the random numbers of the two connections. *)
Definition main_loop (fuel : nat) (string_to_send : bytes) (rx ry : Z) (reorder : bool)
    : result (bool * Locals) :=
  let config := TCPSender.default_config in
  let l := mkLocals (TCPConnection.connect (TCPConnection.construct config rx))
             (TCPConnection.end_input_stream (TCPConnection.construct config ry))
             (Buffer.of_string string_to_send) false [] in
  '(ended, l) ← loop_while fuel (fun l => negb (ByteStream.eof (TCPConnection.inbound_stream (y l))))
                  reorder l;
  if negb ended then Ok (false, l) else
  if negb (bool_decide (string_received l = string_to_send)) then Throw runtime_error else
  loop_while fuel (fun l => TCPConnection.active (x l) || TCPConnection.active (y l))
    reorder l.

(** ** The input phase *)

(** A write to the connection of no more than it has room for. *)
Lemma write_accepted W x data :
  TCPSender.wf W (TCPConnection.sender x) ->
  ByteStream.bs_end (TCPSender.stream (TCPConnection.sender x)) = false ->
  size W + size data < 4611686018427387904 ->
  size data <= TCPConnection.remaining_outbound_capacity x ->
  let '(n, x') := TCPConnection.write data x in
  n = size data /\ TCPSender.wf (W ++ data) (TCPConnection.sender x') /\
  ByteStream.bs_end (TCPSender.stream (TCPConnection.sender x')) = false.
Proof.
  intros H He Hs Hd. unfold TCPConnection.write. pose proof (TCPSender.wf_stream _ _ H) as Hb.
  pose proof (TCPSender.sender_write_wf W _ data H He Hs) as H1. cbv zeta in H1.
  unfold TCPConnection.remaining_outbound_capacity, TCPSender.stream_in in Hd.
  rewrite (ByteStream.remaining_capacity_eq _ Hb) in Hd.
  pose proof (ByteStream.write_accepts data _ Hb) as En. rewrite Z.min_l in En by lia.
  rewrite En, substr0_all in H1 by lia. unfold TCPSender.stream_in.
  assert (Ee : ByteStream.bs_end (snd (ByteStream.write data (TCPSender.stream (TCPConnection.sender x)))) = false)
    by exact He.
  destruct (ByteStream.write data _) as [n b]. cbn [fst snd] in En, H1, Ee. split; [done|].
  destruct (TCPSender.fill_window_spec _ _ H1) as [H2 _].
  destruct (fill_window_frame (TCPSender.set_stream b (TCPConnection.sender x))) as [_ E2].
  split; [|cbn; by rewrite E2].
  apply (TCPSender.drain_wf _ _ (TCPSender.segments_out (TCPSender.fill_window
    (TCPSender.set_stream b (TCPConnection.sender x))))); [done|]. by rewrite app_nil_r.
Qed.

(** The input phase of a turn ends without an exception: it writes a prefix of the input,
    in order, and stops only when no input is left or the connection has no room. *)
Theorem write_input_fills fuel : forall W x b,
  TCPSender.wf W (TCPConnection.sender x) ->
  ByteStream.bs_end (TCPSender.stream (TCPConnection.sender x)) = false -> Buffer.buf_wf b ->
  size W + Buffer.buf_size b < 4611686018427387904 -> Buffer.buf_size b < Z.of_nat fuel ->
  exists x' b' data, write_input fuel x b = Ok (x', b') /\
    data ++ Buffer.str b' = Buffer.str b /\ TCPSender.wf (W ++ data) (TCPConnection.sender x') /\
    (Buffer.buf_size b' = 0 \/ TCPConnection.remaining_outbound_capacity x' = 0).
Proof.
  induction fuel as [|fuel IH]; intros W x b H He Hb Hs Hf; unfold Buffer.buf_size in *;
    [pose proof (size_nonneg (Buffer.str b)); lia|].
  cbn [write_input]. unfold Buffer.buf_size in *. pose proof (size_nonneg (Buffer.str b)).
  destruct (Z.eqb_spec (size (Buffer.str b)) 0) as [E0|E0]; cbn [negb andb].
  { exists x, b, []. rewrite app_nil_r. auto. }
  destruct (Z.eqb_spec (TCPConnection.remaining_outbound_capacity x) 0) as [E1|E1]; cbn [negb].
  { exists x, b, []. rewrite app_nil_r. auto. }
  set (want := Z.min _ _).
  assert (Hw : 0 < want <= size (Buffer.str b)).
  { pose proof (u64_range (ByteStream.bs_max (TCPSender.stream (TCPConnection.sender x)) -
      size (ByteStream.content (TCPSender.stream (TCPConnection.sender x))))).
    unfold want, TCPConnection.remaining_outbound_capacity, ByteStream.remaining_capacity,
      TCPSender.stream_in in *. lia. }
  set (data := substr0 (Buffer.str b) want).
  assert (Hd : size data = want) by (unfold data; rewrite substr0_size; lia).
  pose proof (write_accepted W x data H He ltac:(lia) ltac:(unfold want in Hd; lia)) as Hx.
  destruct (TCPConnection.write data x) as [written x']. destruct Hx as (-> & H' & He').
  rewrite Hd, Z.eqb_refl. cbn [negb].
  destruct (Buffer.remove_prefix_spec want b Hb) as [(_ & b' & -> & Hb' & Es)|[Hlt _]]; [lia| |lia].
  cbn [mbind result_bind].
  assert (Ed : data ++ Buffer.str b' = Buffer.str b).
  { rewrite Es. unfold data, substr0. rewrite Z.min_l by lia. apply take_drop. }
  assert (Hl : size (Buffer.str b') = size (Buffer.str b) - want).
  { apply (f_equal size) in Ed. rewrite size_app in Ed. lia. }
  destruct (IH (W ++ data) x' b' H' He' Hb') as (x2 & b2 & d2 & -> & E2 & H2 & Hend);
    [rewrite size_app; lia|lia|].
  exists x2, b2, (data ++ d2). split; [done|]. split; [|by rewrite <- (assoc_L (++)) in H2].
  by rewrite <- (assoc_L (++)), E2.
Qed.

(** ** A run *)

Definition sample (n : nat) : bytes := (fun k => byte.of_Z (Z.of_nat k)) <$> seq 0 n.

(** Twelve hundred bytes, two segments, are received as they were sent and both connections
    are closed, in order and with reordering; the sequence numbers wrap around. *)
Example benchmark_runs :
  Forall (fun reorder =>
    (fun '(ended, l) => (ended, string_received l)) <$> main_loop 40 (sample 1200) 5 4294967290 reorder
    = Ok (true, sample 1200)) [false; true].
Proof. repeat constructor; vm_compute; reflexivity. Qed.
