(* ===== verification/Completion.v ===== *)
(** The benchmark [apps/tcp_benchmark.cc] completes.  Its two connections hand each other all
    their segments in order; [spans] says what that means for the segments under way, and
    the loops of the program are followed with it from the first SYN until both ends are closed. *)
From S2P Require Import Prelude WrappingIntegers.
From S2P Require Buffer ByteStream StreamReassembler TCPSegment TCPHeader TCPReceiver TCPSender.
From S2P Require TCPConnection EndToEnd Progress Benchmark.
From S2P Require Import Duplex Recovery.
Import TCPSegment(TCPSegment).
Import TCPReceiver(TCPReceiver).
Import TCPSender(TCPSender).
Import TCPConnection(TCPConnection).
Import EndToEnd(crosses, over_wire, same_content_trans, stream_of).
Module SR := StreamReassembler.

(** ** Segments handed over directly *)

(** A connection does not look at the fields that the wire changes. *)
Lemma received_same g seg c :
  crosses g seg -> TCPConnection.segment_received seg c = TCPConnection.segment_received g c.
Proof.
  intros Hc. pose proof (crosses_header _ _ Hc) as Hh. pose proof (EndToEnd.crosses_same _ _ Hc) as (_ & _ & _ & Ep).
  unfold TCPConnection.segment_received, TCPSegment.length_in_sequence_space, TCPReceiver.segment_received,
    Buffer.copy, Buffer.buf_size. by rewrite Hh, <- Ep.
Qed.

(** ** Segments that follow each other *)

(** [g] stands at number [a]: it carries what the stream has there, or only acknowledges. *)
Definition lies (W : bytes) (n0 : WrappingInt32) (a : Z) (g : TCPSegment) : Prop :=
  TCPSender.carries W n0 a g \/ (1 <= a /\ bare n0 a g).

(** A receiver that has everything before [u], and then gets [q] in order, has everything
    before [v]: each segment begins where something has arrived already. *)
Fixpoint spans (W : bytes) (n0 : WrappingInt32) (u : Z) (q : list TCPSegment) (v : Z) : Prop :=
  match q with
  | [] => u = v
  | g :: q => exists a, lies W n0 a g /\ a <= u /\ spans W n0 (Z.max u (a + TCPSender.len g)) q v
  end.

Section Spans.
Context (W : bytes) (n0 : WrappingInt32).

Lemma spans_le q : forall u v, spans W n0 u q v -> u <= v.
Proof using.
  induction q as [|g q IH]; intros u v; cbn; [lia|]. intros (a & _ & _ & H). apply IH in H. lia.
Qed.

Lemma spans_app q1 q2 : forall u v w, spans W n0 u q1 v -> spans W n0 v q2 w -> spans W n0 u (q1 ++ q2) w.
Proof using.
  induction q1 as [|g q1 IH]; intros u v w; cbn; [by intros ->|].
  intros (a & Ha & Hle & H1) H2. exists a. split; [done|]. split; [done|by eapply IH].
Qed.

(** More may have arrived. *)
Lemma spans_later q : forall u u' v, u <= u' <= v -> spans W n0 u q v -> spans W n0 u' q v.
Proof using.
  induction q as [|g q IH]; intros u u' v Hu; cbn; [lia|]. intros (a & Ha & Hle & H).
  exists a. split; [done|]. split; [lia|]. eapply IH; [|exact H]. pose proof (spans_le _ _ _ H). lia.
Qed.

Lemma spans_tiles q : forall u v, TCPSender.tiles W n0 u q v -> spans W n0 u q v.
Proof using.
  induction q as [|g q IH]; intros u v; cbn; [done|]. intros [Hg Hq]. exists u. split; [by left|]. split; [lia|].
  pose proof (TCPSender.carries_len _ _ _ _ Hg). rewrite Z.max_r by lia. by apply IH.
Qed.

Lemma bare_len v g : bare n0 v g -> TCPSender.len g = 0.
Proof using.
  intros (_ & H1 & H2 & H3). unfold TCPSegment.length_in_sequence_space, Buffer.buf_size.
  by rewrite H1, H2, H3.
Qed.

Lemma spans_bare v g : 1 <= v -> bare n0 v g -> spans W n0 v [g] v.
Proof using.
  intros Hv Hb. exists v. split; [by right|]. split; [lia|]. cbn [spans]. rewrite (bare_len v g Hb). lia.
Qed.

Lemma spans_again a v g : TCPSender.carries W n0 a g -> a + TCPSender.len g <= v -> spans W n0 v [g] v.
Proof using.
  intros Hg Hv. pose proof (TCPSender.carries_len _ _ _ _ Hg). exists a. split; [by left|]. cbn [spans]. lia.
Qed.

Lemma lies_same a g h : TCPConnection.same_content g h -> lies W n0 a g -> lies W n0 a h.
Proof using.
  intros Hs [Hc|[Ha Hb]]; [left; by eapply TCPConnection.same_content_carries|right]. split; [done|].
  unfold bare, TCPConnection.same_content in *. intuition congruence.
Qed.

Lemma spans_same q q' : Forall2 TCPConnection.same_content q q' ->
  forall u v, spans W n0 u q v -> spans W n0 u q' v.
Proof using.
  induction 1 as [|g h q q' Hs _ IH]; intros u v; cbn; [done|]. intros (a & Ha & Hle & H).
  exists a. split; [by eapply lies_same|]. split; [done|].
  rewrite <- (TCPConnection.same_content_len _ _ Hs). by apply IH.
Qed.
End Spans.

Lemma stamped_same r q : Forall2 TCPConnection.same_content q (TCPConnection.receiver_info r <$> q).
Proof.
  induction q as [|g q IH]; constructor; [apply TCPConnection.same_content_info|done].
Qed.

Lemma same_contents_refl q : Forall2 TCPConnection.same_content q q.
Proof. induction q; constructor; [by unfold TCPConnection.same_content|done]. Qed.

Lemma spans_grow W s W' s' q : TCPSender.wf W s -> grows W s W' s' ->
  forall u v, v <= TCPSender.byte_sent s -> spans W (TCPSender.isn s) u q v ->
  spans W' (TCPSender.isn s') u q v.
Proof.
  intros Hw [Hi [t ->] Hs He]. rewrite Hi. induction q as [|g q IH]; intros u v Hv; cbn; [done|].
  intros (a & Ha & Hle & H). exists a. split; [|split; [done|by apply IH]].
  destruct Ha as [Hc|Hb]; [left|by right]. apply TCPSender.carries_grow; [done|]. intros Hf.
  pose proof (spans_le _ _ _ _ _ H). pose proof (TCPSender.carries_fin_eof _ _ _ _ Hw Hc ltac:(lia) Hf) as Ee.
  destruct (He Ee) as [_ E]. by apply app_inv_head with (l := W); rewrite app_nil_r.
Qed.

(** ** What an endpoint adds *)

(** The sender has become [s'], and [new] is what it has sent in between. *)
Record sends (W : bytes) (s s' : TCPSender) (new : list TCPSegment) : Prop := {
  n_isn : TCPSender.isn s' = TCPSender.isn s;
  n_eof : TCPSender.eof s = true -> TCPSender.eof s' = true;
  n_out : TCPSender.segments_out s' = TCPSender.segments_out s ++ new;
  n_tiles : TCPSender.tiles W (TCPSender.isn s) (TCPSender.byte_sent s) new (TCPSender.byte_sent s')
}.

Lemma sends_grows W s s' new : sends W s s' new -> grows W s W s'.
Proof.
  intros [H1 H2 _ H4]. apply TCPSender.tiles_le in H4. constructor; try done; [|by intros ?%H2].
  exists []. by rewrite app_nil_r.
Qed.

(** The size of the outgoing stream. *)
Abbreviation capacity_of s := (ByteStream.bs_max (TCPSender.stream s)).

Lemma fill_capacity s : capacity_of (TCPSender.fill_window s) = capacity_of s.
Proof.
  unfold TCPSender.fill_window. generalize (TCPSender.fill_fuel s). intros n. revert s.
  induction n as [|n IH]; intros s; [done|]. cbn [TCPSender.fill_loop].
  assert (E : capacity_of (TCPSender.fill_body s).1 = capacity_of s).
  { unfold TCPSender.fill_body. cbv zeta. destruct (TCPSender.eof s); [done|]. destruct (_ || _); [done|].
    destruct (_ && _); [done|]. cbn [ByteStream.read fst snd].
    destruct (_ <? _); cbn [fst]; unfold TCPSender.enqueue; by destruct (negb _). }
  destruct (TCPSender.fill_body s) as [s' []]; cbn [fst] in E; [by rewrite IH|done].
Qed.

Lemma fill_sends W s : TCPSender.wf W s -> exists new, sends W s (TCPSender.fill_window s) new.
Proof.
  intros H. destruct (TCPSender.fill_window_spec W s H) as (_ & _ & _ & Ei & _ & _ & new & _ & Eo & Ht & _).
  exists new. constructor; try done. intros He. by rewrite fill_eof.
Qed.

(** Nothing has been acknowledged, or the count of retransmissions is 0. *)
Definition calms (s s' : TCPSender) : Prop :=
  (TCPSender.byte_received s' = TCPSender.byte_received s /\ retries s' = retries s) \/ retries s' = 0.

Lemma heard_sends cap W s q R r aq seg s' :
  link cap W s q R r aq -> honest cap (sent_bytes s) (TCPSender.isn s) r seg ->
  heard seg s = (true, s') -> TCPSender.wf W s' /\ capacity_of s' = capacity_of s /\
    calms s s' /\ exists new, sends W s s' new.
Proof.
  intros HL Hh E. unfold heard in E. pose proof (l_wf HL) as Hw.
  destruct (TCPHeader.ack (TCPSegment.header seg)) eqn:Ha.
  2: { injection E as <-. split; [by apply TCPSender.fill_window_spec|]. split; [apply fill_capacity|].
    split; [|by apply fill_sends]. left.
    destruct (TCPSender.fill_window_spec W s Hw) as (_ & _ & _ & _ & _ & -> & _).
    by destruct (Progress.fill_window_frame s) as [-> _]. }
  destruct (Hh Ha) as (Hset & Hw1 & Hw16 & k & Hk & Ek).
  destruct (TCPSender.ack_received_spec W s (TCPHeader.ackno (TCPSegment.header seg))
    (TCPHeader.win (TCPSegment.header seg)) Hw ltac:(lia)) as [E' _].
  cbv zeta in E'. rewrite E' in E. clear E'. pose proof (link_acked_sent HL).
  pose proof (link_sizes HL) as (_ & Hb & Hlim). unfold stream_limit in Hlim.
  pose proof (TCPSender.wf_received _ _ Hw). rewrite Ek, unwrap_wrap_near in E by lia.
  set (s1 := TCPSender.set_window_size _ s) in E.
  assert (H1 : TCPSender.wf W s1) by (apply TCPSender.set_window_wf; [done|lia]).
  revert E. case_Z; [lia|]. case_Z.
  { intros [= <-]. split; [done|]. split; [done|]. split; [by left|]. exists [].
    constructor; try done. by rewrite app_nil_r. }
  intros [= <-]. case_Z.
  - split; [by apply TCPSender.fill_window_spec|]. split; [apply (fill_capacity s1)|].
    split; [left|destruct (fill_sends W s1 H1) as [new [? ? ? ?]]; by exists new].
    destruct (TCPSender.fill_window_spec W s1 H1) as (_ & _ & _ & _ & _ & -> & _).
    by destruct (Progress.fill_window_frame s1) as [-> _].
  - destruct (TCPSender.accept_ack_wf W s1 k H1) as (Hw2 & _ & Eb & Ei & _ & Eo & _); [cbn; lia|].
    destruct (Progress.accept_ack_unacked k s1) as (_ & Ec & Est & Ee).
    split; [by apply TCPSender.fill_window_spec|]. split; [by rewrite fill_capacity, Est|]. split.
    + right. destruct (Progress.fill_window_frame (TCPSender.accept_ack k s1)) as [-> _]. done.
    + destruct (fill_sends W _ Hw2) as [new [N1 N2 N3 N4]]. exists new.
      rewrite Ee, Eo, Eb, Ei in *. by constructor.
Qed.

(** Everything an endpoint has not given away. *)
Definition pending (c : TCPConnection) : list TCPSegment :=
  TCPConnection.segments_out c ++ TCPSender.segments_out (TCPConnection.sender c).

(** The same for a connection: [l] has been added to [pending c]. *)
Record adds (W : bytes) (c : TCPConnection) (W' : bytes) (c' : TCPConnection) (l : list TCPSegment)
    : Prop := {
  a_grows : grows W (TCPConnection.sender c) W' (TCPConnection.sender c');
  a_spans : spans W' (TCPSender.isn (TCPConnection.sender c))
    (TCPSender.byte_sent (TCPConnection.sender c)) l (TCPSender.byte_sent (TCPConnection.sender c'));
  a_pending : Forall2 TCPConnection.same_content (pending c ++ l) (pending c')
}.

(** ** A segment arrives in order *)

Section Arrives.
Context {cap : Z} {W : bytes} {s : TCPSender} {q : list TCPSegment}.
Context {R : bytes} {r : TCPReceiver} {aq : list TCPSegment}.
Context (HL : link cap W s q R r aq).
Context (Hlast : TCPReceiver.finset r = true -> SR.firstindex (TCPReceiver.reassembler r) = sent_bytes s).
Context (a : Z) (seg : TCPSegment) (Hlies : lies W (TCPSender.isn s) a seg).
Context (Hle : a <= acked (sent_bytes s) r) (Hend : a + TCPSender.len seg <= TCPSender.byte_sent s).

Lemma flow_orderly : orderly W (TCPSender.isn s) r seg.
Proof using All.
  intros Hset Hnil. destruct (TCPHeader.fin _) eqn:Ef.
  - destruct Hlies as [Hc|(_ & _ & _ & ? & _)]; [|congruence]. pose proof (TCPSender.c_pos _ _ _ _ Hc).
    pose proof (TCPSender.c_fin _ _ _ _ Hc Ef) as Hi. rewrite Hnil in Hi. change (size []) with 0 in Hi.
    pose proof (eof_all_read _ _ (l_wf HL) (TCPSender.carries_fin_eof W s a seg (l_wf HL) Hc Hend Ef)).
    pose proof (link_first HL). destruct (acked_assembled HL a ltac:(lia)); lia.
  - intros Hck _. rewrite <- (TCPReceiver.inv_fin _ _ _ _ _ (l_recv HL)) in Hck.
    rewrite (Hlast Hck). by apply eof_all_read, (l_fin HL); [apply HL|].
Qed.

(** An empty segment leaves the receiver where it is. *)
Lemma bare_received b r' :
  1 <= a -> bare (TCPSender.isn s) a seg -> TCPReceiver.segment_received seg r = Ok (b, r') ->
  TCPReceiver.isnset r' = true /\ TCPReceiver.finset r' = TCPReceiver.finset r /\
  SR.firstindex (TCPReceiver.reassembler r') = SR.firstindex (TCPReceiver.reassembler r) /\
  (a = acked (sent_bytes s) r -> b = true).
Proof using All.
  intros Ha Hb E. assert (Hset : TCPReceiver.isnset r = true).
  { unfold acked in Hle. destruct (TCPReceiver.isnset r); [done|lia]. }
  pose proof Hend as Hend'. rewrite (bare_len _ _ _ Hb) in Hend'.
  pose proof (link_sizes HL) as (HL1 & HL2 & HL3). unfold stream_limit in HL3.
  unfold acked. rewrite Hset. destruct (Z.le_gt_cases (a - 1) (sent_bytes s)) as [Hi|Hi].
  2: { destruct (bare_beyond HL seg a ltac:(lia) Hb Hset ltac:(lia)) as (b' & E' & Hin).
    rewrite E in E'. injection E' as -> ->. done. }
  pose proof (bare_arrives HL seg flow_orderly a ltac:(lia) Hb Hset Hi) as Hp.
  destruct (TCPReceiver.received_spec (stream_of W) (sent_bytes s) ltac:(lia) ltac:(lia)
    (TCPSender.isn s) (l_isn HL) R r seg a (l_recv HL) ltac:(congruence) Hp) as (ra & Epush & _ & E').
  rewrite E in E'. injection E' as -> ->. destruct Hb as (_ & _ & H3 & H4). rewrite H3, H4, Hset in *.
  rewrite SR.push_empty in Epush. injection Epush as <-. cbn [orb negb TCPReceiver.isnset TCPReceiver.finset
    TCPReceiver.reassembler]. split_and!; try done; [by case_match|].
  intros ->. change (size []) with 0. apply andb_true_iff. split; lia.
Qed.

(** Anything else. *)
Lemma carries_advances b r' :
  TCPSender.carries W (TCPSender.isn s) a seg -> TCPReceiver.segment_received seg r = Ok (b, r') ->
  advances r r' /\ TCPReceiver.finset r' = TCPHeader.fin (TCPSegment.header seg) || TCPReceiver.finset r.
Proof using All.
  intros Hc E. pose proof (link_sizes HL) as (HL1 & HL2 & HL3). unfold stream_limit in HL3.
  pose proof (TCPSender.c_pos _ _ _ _ Hc).
  assert (Hu0 : TCPReceiver.isnset r = false -> a = 0).
  { intros Hset. pose proof Hle as Ha. unfold acked in Ha. rewrite Hset in Ha. lia. }
  pose proof (carries_arrives HL seg flow_orderly a Hc Hend Hu0) as Hp.
  destruct (TCPReceiver.received_spec (stream_of W) (sent_bytes s) ltac:(lia) ltac:(lia)
    (TCPSender.isn s) (l_isn HL) R r seg a (l_recv HL) Hu0 Hp) as (ra & Epush & _ & E').
  rewrite E in E'. injection E' as _ ->. split; [|done]. destruct Hp as (_ & _ & _ & Harr & _).
  destruct (arrival_advances _ (sent_bytes s) _ _ _ _ _ _ ltac:(lia)
    (TCPReceiver.inv_run _ _ _ _ _ (l_recv HL)) Harr Epush) as [Hmono _].
  constructor; cbn; [done| |done]. intros ->. apply orb_true_r.
Qed.

Lemma flow_arrives q' aq' b r' :
  sent_bytes s <= ByteStream.alread (TCPReceiver.stream_out r) + cap ->
  TCPReceiver.segment_received seg r = Ok (b, r') -> link cap W s q' R r' aq' ->
  TCPReceiver.isnset r' = true /\
  Z.max (acked (sent_bytes s) r) (a + TCPSender.len seg) <= acked (sent_bytes s) r' /\
  (TCPReceiver.finset r' = true -> SR.firstindex (TCPReceiver.reassembler r') = sent_bytes s) /\
  (TCPSender.len seg = 0 -> acked (sent_bytes s) r' = acked (sent_bytes s) r /\
     (a = acked (sent_bytes s) r -> b = true)).
Proof using All.
  intros Hroom E HL'. destruct Hlies as [Hc|[Ha Hb]].
  - pose proof (TCPSender.c_pos _ _ _ _ Hc). pose proof (TCPSender.carries_len _ _ _ _ Hc).
    destruct (arrival_acked HL a seg b r' Hc ltac:(lia) Hend flow_orderly Hroom E) as (Hs & Ha & Hf).
    destruct (carries_advances b r' Hc E) as [Hadv Ef]. split; [done|].
    pose proof (acked_advances HL _ _ (l_recv HL') Hadv). split; [lia|]. split; [|lia].
    rewrite Ef. intros [?|Hfin]%orb_true_iff; [by apply Hf|]. pose proof (a_first _ _ Hadv) as Hm.
    rewrite (Hlast Hfin) in Hm. pose proof (link_first HL'). lia.
  - destruct (bare_received b r' Ha Hb E) as (E1 & E2 & E3 & Hin). rewrite (bare_len _ _ _ Hb).
    assert (Hset : TCPReceiver.isnset r = true).
    { pose proof Hle as Hx. unfold acked in Hx. destruct (TCPReceiver.isnset r); [done|lia]. }
    assert (Ea : acked (sent_bytes s) r' = acked (sent_bytes s) r).
    { unfold acked, TCPReceiver.abs_ack. by rewrite E1, E2, E3, Hset. }
    rewrite Ea, E2, E3. split_and!; try done. lia.
Qed.
End Arrives.

(** ** One segment changes hands *)

(** From [x] to [y], [q] is under way; what comes after it is in the sender. *)
Definition flow (x y : side) (q : list TCPSegment) : Prop :=
  spans (wrote x) (TCPSender.isn (tx x)) (acked (sent_bytes (tx x)) (rx y))
    (q ++ TCPSender.segments_out (tx x)) (TCPSender.byte_sent (tx x)).

(** The FIN comes after all the bytes. *)
Definition fin_last (x y : side) : Prop :=
  TCPReceiver.finset (rx y) = true ->
  SR.firstindex (TCPReceiver.reassembler (rx y)) = sent_bytes (tx x).

(** [x] knows what [y] has, or the last segment of [q] will tell it. *)
Definition told (x y : side) (q : list TCPSegment) : Prop :=
  TCPSender.byte_received (tx x) = acked (sent_bytes (tx x)) (rx y) \/ stamps (rx y) q.

(** What [y] has sent since number [b], or later, and not yet queued for the network. *)
Definition fresh_tail (b : Z) (y : side) : Prop :=
  exists b', b <= b' /\ TCPSender.tiles (wrote y) (TCPSender.isn (tx y)) b'
    (TCPSender.segments_out (tx y)) (TCPSender.byte_sent (tx y)).

(** What [y] becomes when it gets the segment [g] of [x]. *)
Record took (x : side) (g : TCPSegment) (y y' : side) : Prop := {
  k_wrote : wrote y' = wrote y;
  k_got : got y' = got y;
  k_sent : sent y' = sent y;
  k_rst : TCPConnection.rst (conn y') = TCPConnection.rst (conn y);
  k_ended : ended_input (tx y') = ended_input (tx y);
  k_received : TCPSender.byte_received (tx y) <= TCPSender.byte_received (tx y');
  k_calms : calms (tx y) (tx y');
  k_capacity : capacity_of (tx y') = capacity_of (tx y);
  k_tail b : b <= TCPSender.byte_sent (tx y) -> fresh_tail b y -> fresh_tail b y';
  k_acked : acked (sent_bytes (tx x)) (rx y) <= acked (sent_bytes (tx x)) (rx y');
  k_clock : TCPConnection.time (conn y') = TCPConnection.time (conn y) /\
    TCPConnection.last_segment_time (conn y') = TCPConnection.time (conn y) /\
    TCPConnection.cfg (conn y') = TCPConnection.cfg (conn y);
  k_read : ByteStream.alread (TCPReceiver.stream_out (rx y')) = ByteStream.alread (TCPReceiver.stream_out (rx y));
  k_adds : exists l, adds (wrote y) (conn y) (wrote y) (conn y') l;
  k_told : told x y (TCPConnection.segments_out (conn y)) -> told x y' (TCPConnection.segments_out (conn y'));
  k_ack : TCPHeader.ack (TCPSegment.header g) = true ->
    TCPReceiver.ackno (rx x) = Some (TCPHeader.ackno (TCPSegment.header g)) ->
    TCPSender.byte_received (tx y') = acked (sent_bytes (tx y')) (rx x);
  k_eof : TCPSender.eof (tx y) = true -> TCPSender.segments_out (tx y) = [] ->
    TCPSender.segments_out (tx y') = [] /\ exists e,
      TCPConnection.segments_out (conn y') = TCPConnection.segments_out (conn y) ++ e /\
      Forall (bare (TCPSender.isn (tx y)) (TCPSender.byte_sent (tx y))) e /\
      (bare (TCPSender.isn (tx x)) (acked (sent_bytes (tx x)) (rx y)) g -> e = [])
}.

Lemma replied_adds W s s' new r silent c c' :
  TCPConnection.sender c = s -> sends W s s' new -> 1 <= TCPSender.byte_sent s' ->
  replied s' r silent c c' -> exists l, adds W c W c' l.
Proof.
  intros Es Hn H1 (_ & _ & E). pose proof (sends_grows _ _ _ _ Hn) as G. destruct silent.
  - destruct E as [E1 E2]. exists new. constructor; [by rewrite Es, E1|rewrite Es, E1; by apply spans_tiles, Hn|].
    unfold pending. rewrite Es, E1, E2, (n_out _ _ _ _ Hn), (assoc_L (++)). apply same_contents_refl.
  - set (s1 := if _ && _ then _ else _) in E. destruct E as [E1 E2].
    assert (Hs1 : exists e, TCPSender.segments_out s1 = TCPSender.segments_out s' ++ e /\
      Forall (bare (TCPSender.isn s) (TCPSender.byte_sent s')) e /\ TCPSender.byte_sent s1 = TCPSender.byte_sent s' /\
      TCPSender.isn s1 = TCPSender.isn s' /\ TCPSender.eof s1 = TCPSender.eof s').
    { subst s1. destruct (_ && _); [|exists []; by rewrite app_nil_r]. eexists. split; [reflexivity|].
      split_and!; try done. apply Forall_singleton. rewrite <- (n_isn _ _ _ _ Hn). by split_and!. }
    destruct Hs1 as (e & Eo & He & Eb & Ei & Ee). exists (new ++ e). constructor.
    + rewrite Es, E1. eapply link_grows_trans; [exact G|]. by apply grows_same.
    + rewrite Es, E1. cbn. rewrite Eb. eapply spans_app; [by apply spans_tiles, Hn|].
      clear -He H1. induction He as [|h e Hb _ IH]; [done|].
      apply (spans_app W (TCPSender.isn s) [h] e _ (TCPSender.byte_sent s')); [by apply spans_bare|done].
    + unfold pending. rewrite Es, E1, E2, Eo, (n_out _ _ _ _ Hn). cbn. rewrite app_nil_r, <- !(assoc_L (++)).
      apply Forall2_app; [apply same_contents_refl|apply stamped_same].
Qed.

Lemma tiles_app W n0 q1 q2 : forall a b c,
  TCPSender.tiles W n0 a q1 b -> TCPSender.tiles W n0 b q2 c -> TCPSender.tiles W n0 a (q1 ++ q2) c.
Proof.
  induction q1 as [|g q1 IH]; intros a b c; cbn; [by intros ->|]. intros [Hg H1] H2. split; [done|by eapply IH].
Qed.

Lemma replied_tail W s s' new r silent c c' b b' :
  sends W s s' new -> replied s' r silent c c' -> b <= TCPSender.byte_sent s -> b <= b' ->
  TCPSender.tiles W (TCPSender.isn s) b' (TCPSender.segments_out s) (TCPSender.byte_sent s) ->
  exists b'', b <= b'' /\ TCPSender.tiles W (TCPSender.isn (TCPConnection.sender c')) b''
    (TCPSender.segments_out (TCPConnection.sender c')) (TCPSender.byte_sent (TCPConnection.sender c')).
Proof.
  intros Hn (_ & _ & E) Hb Hb' Ht. pose proof (TCPSender.tiles_le _ _ _ _ _ (n_tiles _ _ _ _ Hn)). destruct silent.
  - destruct E as [-> _]. exists b'. rewrite (n_out _ _ _ _ Hn), (n_isn _ _ _ _ Hn).
    split; [done|]. eapply tiles_app; [exact Ht|apply Hn].
  - destruct E as [-> _]. eexists. split; [|reflexivity]. cbn. destruct (_ && _); cbn; lia.
Qed.

Lemma tiles_nil W n0 a q : TCPSender.tiles W n0 a q a -> q = [].
Proof.
  destruct q as [|g q]; [done|]. intros [Hg Hq%TCPSender.tiles_le]. pose proof (TCPSender.carries_len _ _ _ _ Hg). lia.
Qed.

(** Once the FIN is sent, nothing more is. *)
Lemma eof_sent W s s' :
  TCPSender.wf W s -> TCPSender.wf W s' -> grows W s W s' -> TCPSender.eof s = true ->
  TCPSender.eof s' = true /\ TCPSender.byte_sent s' = TCPSender.byte_sent s.
Proof.
  intros Hw Hw' G He. destruct (g_eof _ _ _ _ G He) as [He' _]. split; [done|].
  pose proof (eof_all_read _ _ Hw He). pose proof (eof_all_read _ _ Hw' He').
  pose proof (TCPSender.wf_sent0 _ _ Hw) as Z0. pose proof (TCPSender.wf_sent0 _ _ Hw') as Z0'.
  rewrite (TCPSender.wf_sent _ _ Hw), (TCPSender.wf_sent _ _ Hw'), He, He'; [lia|..].
  - intros Hz. destruct (Z0' Hz). congruence.
  - intros Hz. destruct (Z0 Hz). congruence.
Qed.

(** After the FIN only empty segments are sent. *)
Lemma replied_eof W s s' new r silent c c' :
  TCPSender.wf W s -> TCPSender.wf W s' -> sends W s s' new -> TCPSender.eof s = true ->
  TCPSender.segments_out s = [] -> replied s' r silent c c' ->
  TCPSender.segments_out (TCPConnection.sender c') = [] /\ exists e,
    TCPConnection.segments_out c' = TCPConnection.segments_out c ++ e /\
    Forall (bare (TCPSender.isn s) (TCPSender.byte_sent s)) e /\ (silent = true -> e = []).
Proof.
  intros Hw Hw' Hn He Ho (_ & _ & E).
  destruct (eof_sent _ _ _ Hw Hw' (sends_grows _ _ _ _ Hn) He) as [He' Eb].
  pose proof (n_tiles _ _ _ _ Hn) as Ht. rewrite Eb in Ht. apply tiles_nil in Ht. subst new.
  pose proof (n_out _ _ _ _ Hn) as Eo. rewrite Ho in Eo. cbn in Eo. destruct silent.
  - destruct E as [-> ->]. split; [done|]. exists []. by rewrite app_nil_r.
  - rewrite Eo in E. cbn [size length Z.of_nat Z.eqb andb] in E. change (size [] =? 0) with true in E.
    cbn [andb] in E. destruct E as [-> ->]. split; [done|]. destruct (TCPReceiver.isnset r).
    + cbn. rewrite Eo. eexists. split; [reflexivity|]. cbn. split; [|done]. apply Forall_singleton.
      assert (Hb : bare (TCPSender.isn s) (TCPSender.byte_sent s) (TCPSegment.mkTCPSegment
        (TCPHeader.set_seqno (TCPSender.next_seqno s') TCPHeader.default) Buffer.empty_buffer)).
      { unfold TCPSender.next_seqno. rewrite Eb, (n_isn _ _ _ _ Hn). done. }
      pose proof (TCPConnection.same_content_info r (TCPSegment.mkTCPSegment
        (TCPHeader.set_seqno (TCPSender.next_seqno s') TCPHeader.default) Buffer.empty_buffer)) as Hs.
      unfold bare, TCPConnection.same_content in *. intuition congruence.
    + rewrite Eo. exists []. by rewrite !app_nil_r.
Qed.

(** The clock at an arrival. *)
Lemma received_clock seg c c' :
  TCPConnection.segment_received seg c = Ok c' ->
  TCPConnection.time c' = TCPConnection.time c /\
  TCPConnection.last_segment_time c' = TCPConnection.time c /\ TCPConnection.cfg c' = TCPConnection.cfg c.
Proof.
  unfold TCPConnection.segment_received. cbv zeta. destruct (TCPHeader.rst _); [by intros [= <-]|].
  destruct (negb _ && _); [by intros [= <-]|]. set (c1 := if _ && negb _ then _ else _).
  assert (H1 : TCPConnection.time c1 = TCPConnection.time c /\
    TCPConnection.last_segment_time c1 = TCPConnection.time c /\ TCPConnection.cfg c1 = TCPConnection.cfg c)
    by (subst c1; by destruct (_ && _)). clearbody c1.
  destruct (if TCPHeader.ack _ then _ else _) as [ok s]. intros ([b r] & _ & E)%result_bind_Ok.
  revert E. destruct (_ && _ && _); [by intros [= <-]|]. destruct (_ && _); by intros [= <-].
Qed.

Lemma flow_head x y g q :
  flow x y (g :: q) -> exists a, lies (wrote x) (TCPSender.isn (tx x)) a g /\
    a <= acked (sent_bytes (tx x)) (rx y) /\ a + TCPSender.len g <= TCPSender.byte_sent (tx x) /\
    spans (wrote x) (TCPSender.isn (tx x)) (Z.max (acked (sent_bytes (tx x)) (rx y)) (a + TCPSender.len g))
      (q ++ TCPSender.segments_out (tx x)) (TCPSender.byte_sent (tx x)).
Proof.
  intros (a & Ha & Hle & Hq). exists a. pose proof (spans_le _ _ _ _ _ Hq). split_and!; try done. lia.
Qed.

Lemma received_read seg r b r' :
  TCPReceiver.segment_received seg r = Ok (b, r') ->
  ByteStream.alread (TCPReceiver.stream_out r') = ByteStream.alread (TCPReceiver.stream_out r).
Proof.
  unfold TCPReceiver.segment_received. cbv zeta. destruct (TCPReceiver.isnset r); cbn [negb].
  - intros (a & _ & E)%result_bind_Ok. apply result_bind_Ok in E as (ra & Ep & E). injection E as <- <-.
    by destruct (SR.push_frame _ _ _ _ _ Ep) as (_ & _ & ?).
  - destruct (TCPHeader.syn _); [|by destruct (TCPHeader.fin _); intros [= <- <-]].
    intros (ra & Ep & E)%result_bind_Ok. injection E as <- <-.
    by destruct (SR.push_frame _ _ _ _ _ Ep) as (_ & _ & ?).
Qed.

Lemma ackno_is {cap W s q R r aq} :
  link cap W s q R r aq -> TCPReceiver.isnset r = true ->
  TCPReceiver.ackno r = Some (wrap (acked (sent_bytes s) r) (TCPSender.isn s)).
Proof.
  intros HL Hset. destruct (TCPReceiver.ackno r) as [a|] eqn:E.
  - by rewrite (ackno_acked _ _ _ _ _ _ _ _ HL E).
  - unfold TCPReceiver.ackno in E. by rewrite Hset in E.
Qed.

Section One.
Context (cx cy : Z) (x y : side) (g : TCPSegment) (q : list TCPSegment).
Context (HS : sound cx cy x y) (Hg : g ∈ sent x) (Hrst : TCPConnection.rst (conn x) = false).
Context (Hflow : flow x y (g :: q)) (Hfin : fin_last x y).
Context (Hroom : sent_bytes (tx x) <= ByteStream.alread (TCPReceiver.stream_out (rx y)) + cy).

(** [y] with the connection [c']. *)
Abbreviation become c' := (mkSide (wrote y) (got y) c' (sent y)).

Lemma took_replied s b r c' (seg := over_wire g) :
  crosses g seg -> heard seg (tx y) = (true, s) -> 1 <= TCPSender.byte_sent s ->
  TCPReceiver.segment_received seg (rx y) = Ok (b, r) ->
  replied s r ((TCPSender.len seg =? 0) && b) (conn y) c' -> sound cx cy x (become c') ->
  TCPConnection.segment_received seg (conn y) = Ok c' ->
  acked (sent_bytes (tx x)) (rx y) <= acked (sent_bytes (tx x)) r -> TCPReceiver.isnset r = true ->
  (TCPSender.len seg = 0 -> acked (sent_bytes (tx x)) r = acked (sent_bytes (tx x)) (rx y) /\
     (bare (TCPSender.isn (tx x)) (acked (sent_bytes (tx x)) (rx y)) seg -> b = true)) ->
  took x g y (become c').
Proof using HS Hg.
  intros Hcross Es Hs Er Hrep HSy Ec Hmax Hset Hbare. destruct (so_joined _ _ _ _ HS) as [Hxy Hyx].
  destruct (so_joined _ _ _ _ HSy) as [Hxy' Hyx']. cbn [conn wrote got sent] in *.
  pose proof (crosses_header _ _ Hcross) as Hhead. pose proof (EndToEnd.crosses_same _ _ Hcross) as Hsame.
  assert (Hh : honest cx (sent_bytes (tx y)) (TCPSender.isn (tx y)) (rx x) seg).
  { pose proof (l_acks Hyx) as Hacks. rewrite Forall_forall in Hacks.
    specialize (Hacks g ltac:(apply elem_of_app; by left)). unfold honest in *. by rewrite Hhead. }
  destruct (heard_acks _ _ _ _ _ _ _ seg s Hyx Hh Es) as (A1 & A2 & A3 & A4).
  destruct (heard_sends _ _ _ _ _ _ _ seg s Hyx Hh Es) as (Hws & Hcap & Hc & new & Hn).
  destruct (replied_frame _ _ _ _ _ Hrep) as (F1 & F2 & F3 & F4). pose proof Hrep as (Er' & Erst & _).
  constructor; cbn [conn wrote got sent]; rewrite ?F1, ?F3; try done.
  - unfold calms in *. by rewrite F1, F2.
  - intros b0 Hb0 (b1 & Hb1 & Ht). cbn [conn wrote]. by eapply replied_tail.
  - by rewrite Er'.
  - by eapply received_clock.
  - rewrite Er'. by eapply received_read.
  - by eapply replied_adds.
  - intros Ht. rewrite Er' in Hxy'. destruct ((TCPSender.len seg =? 0) && b) eqn:Esil.
    + apply andb_true_iff in Esil as [El%Z.eqb_eq _]. destruct (Hbare El) as [Ea _].
      destruct Hrep as (_ & _ & _ & Eo). unfold told, stamps in *. cbn [conn]. rewrite Er', Eo, Ea.
      destruct Ht as [?|(h & Eh & Hah & Ek)]; [by left|right]. exists h. split_and!; try done.
      apply (ackno_acked _ _ _ _ _ _ _ _ Hxy) in Ek. rewrite Ek, <- Ea. by apply (ackno_is Hxy').
    + right. cbn [conn]. rewrite Er'. by apply (replied_stamps s r (conn y)).
  - intros Hack Eack. rewrite Hhead in A4. destruct (replied_adds _ _ _ _ _ _ _ _ eq_refl Hn Hs Hrep) as [l Hl].
    pose proof (acked_grow Hyx _ _ (l_wf Hyx') (a_grows _ _ _ _ _ Hl)) as Ea. pose proof (l_acked Hyx') as Hle.
    rewrite F1, Ea, F3 in *. destruct A4 as [A4 _]; [done|by apply (ackno_acked _ _ _ _ _ _ _ _ Hyx)|]. lia.
  - intros He Ho.
    destruct (replied_eof _ _ _ _ _ _ _ _ (l_wf Hyx) Hws Hn He Ho Hrep) as (E1 & e & E2 & E3 & E4).
    split; [done|]. exists e. split_and!; try done. intros Hb. apply E4.
    assert (Hb' : bare (TCPSender.isn (tx x)) (acked (sent_bytes (tx x)) (rx y)) seg).
    { unfold bare, TCPConnection.same_content in *. intuition congruence. }
    pose proof (bare_len _ _ _ Hb') as El. destruct (Hbare El) as [_ Hin]. by rewrite El, (Hin Hb').
Qed.

Lemma deliver_one :
  exists y', TCPConnection.segment_received g (conn y) = Ok (conn y') /\ sound cx cy x y' /\
    took x g y y' /\ flow x y' q /\ fin_last x y'.
Proof using All.
  pose proof (sound_sym _ _ _ _ HS) as HS'. destruct (flow_head _ _ _ _ Hflow) as (a & Ha & Hle & Hend & Hq).
  assert (Hwire : TCPSegment.wf 0 g /\ TCPHeader.rst (TCPSegment.header g) = false).
  { pose proof (v_queue _ _ (so_left _ _ _ _ HS)) as Hw. rewrite Forall_forall in Hw.
    destruct (Hw g) as [Hw1 Hw2]; [apply elem_of_app; by left|]. split; [done|by apply Hw2]. }
  destruct Hwire as [Hwf Hr]. pose proof (EndToEnd.crosses_over_wire g Hwf) as Hcross.
  pose proof (crosses_header _ _ Hcross) as Hhead. pose proof (EndToEnd.crosses_same _ _ Hcross) as Hsame.
  pose proof (TCPConnection.same_content_len _ _ Hsame) as Hlen. rewrite Hlen in *.
  rewrite <- (received_same g _ (conn y) Hcross). pose proof took_replied as Htook. set (seg := over_wire g) in *.
  destruct (so_joined _ _ _ _ HS) as [Hxy Hyx].
  pose proof (lies_same _ _ _ _ _ Hsame Ha) as Hlies.
  pose proof (flow_orderly Hxy Hfin a seg Hlies Hle Hend) as Hord.
  assert (Hal : allowed x y (TCPConnection.Segment seg)) by (split; [by exists g|done]).
  destruct (sound_op cy cx y x _ Hal HS') as (y' & E & HSy). apply sound_sym in HSy.
  destruct (joined_halves (wrote y) (conn y) g seg Hg Hcross Hord (so_joined _ _ _ _ HS'))
    as (s & b & r & Es & Hs & Er & HJ). change (heard seg (tx y) = (true, s)) in Es.
  assert (Hn : TCPReceiver.isnset (rx y) = true \/ TCPSender.len seg <> 0).
  { destruct Hlies as [Hc|[H1 _]]; [right; pose proof (TCPSender.carries_len _ _ _ _ Hc); lia|left].
    unfold acked in Hle. destruct (TCPReceiver.isnset (rx y)); [done|lia]. }
  destruct (segment_received_replies seg (conn y) s b r) as (c' & Ec & Hrep); [by rewrite Hhead|done..|].
  unfold apply_side in E. cbn [TCPConnection.apply_op] in E. rewrite Ec in E. cbn in E. injection E as <-.
  rewrite !app_nil_r in *. exists (become c'). split; [exact Ec|]. split; [exact HSy|].
  destruct (so_joined _ _ _ _ HSy) as [Hxy' Hyx']. cbn [conn wrote got sent] in *.
  pose proof Hrep as (Er' & Erst & _). rewrite Er' in Hxy'.
  destruct (flow_arrives Hxy Hfin a seg Hlies Hle Hend _ _ b r Hroom Er Hxy') as (Hset & Hmax & Hlast & Hbare).
  split; [|split].
  - apply (Htook s b r c'); try done; [lia|]. intros El. split; [by apply Hbare|]. intros Hb.
    destruct Hn as [Hset0|?]; [|done]. pose proof (link_acked_sent Hxy).
    destruct (flow_arrives Hxy Hfin (acked (sent_bytes (tx x)) (rx y)) seg) with (4 := Hroom) (5 := Er) (6 := Hxy')
      as (_ & _ & _ & Hin); [|lia|lia|by apply Hin].
    right. split; [|done]. unfold acked. rewrite Hset0. unfold TCPReceiver.abs_ack. pose proof (link_first Hxy).
    case_match; lia.
  - unfold flow. cbn [conn]. rewrite Er'. eapply spans_later; [|exact Hq].
    pose proof (link_acked_sent Hxy'). lia.
  - unfold fin_last. cbn [conn]. by rewrite Er'.
Qed.
End One.

(** ** A batch changes hands *)

Lemma calms_trans s s' s'' : calms s s' -> calms s' s'' -> calms s s''.
Proof. unfold calms. intros [[A1 A2]|A] [[B1 B2]|B]; [left|right..]; intuition congruence. Qed.

Lemma same_content_list_trans q q' q'' :
  Forall2 TCPConnection.same_content q q' -> Forall2 TCPConnection.same_content q' q'' ->
  Forall2 TCPConnection.same_content q q''.
Proof.
  intros H. revert q''. induction H as [|g h q q' Hs _ IH]; intros q'' H'; [done|].
  inversion H'; subst. constructor; [by eapply same_content_trans|by apply IH].
Qed.

Lemma adds_trans W1 c1 W2 c2 W3 c3 l1 l2 :
  TCPSender.wf W2 (TCPConnection.sender c2) ->
  adds W1 c1 W2 c2 l1 -> adds W2 c2 W3 c3 l2 -> adds W1 c1 W3 c3 (l1 ++ l2).
Proof.
  intros Hw [A1 A2 A3] [B1 B2 B3]. constructor.
  - by eapply link_grows_trans.
  - rewrite (g_isn _ _ _ _ A1) in B2. eapply spans_app; [|exact B2].
    rewrite <- (g_isn _ _ _ _ A1) in *. rewrite <- (g_isn _ _ _ _ B1). by eapply spans_grow.
  - eapply same_content_list_trans; [|exact B3]. rewrite (assoc_L (++)).
    apply Forall2_app; [done|apply same_contents_refl].
Qed.

(** What [y] becomes when it gets all of [q]. *)
Record moved (x : side) (q : list TCPSegment) (y y' : side) : Prop := {
  m_wrote : wrote y' = wrote y;
  m_got : got y' = got y;
  m_sent : sent y' = sent y;
  m_rst : TCPConnection.rst (conn y') = TCPConnection.rst (conn y);
  m_ended : ended_input (tx y') = ended_input (tx y);
  m_received : TCPSender.byte_received (tx y) <= TCPSender.byte_received (tx y');
  m_calms : calms (tx y) (tx y');
  m_capacity : capacity_of (tx y') = capacity_of (tx y);
  m_tail b : b <= TCPSender.byte_sent (tx y) -> fresh_tail b y -> fresh_tail b y';
  m_idle : q = [] -> TCPConnection.last_segment_time (conn y') = TCPConnection.last_segment_time (conn y);
  m_clock : TCPConnection.time (conn y') = TCPConnection.time (conn y) /\
    (TCPConnection.last_segment_time (conn y') = TCPConnection.last_segment_time (conn y) \/
     TCPConnection.last_segment_time (conn y') = TCPConnection.time (conn y)) /\
    TCPConnection.cfg (conn y') = TCPConnection.cfg (conn y);
  m_read : ByteStream.alread (TCPReceiver.stream_out (rx y')) = ByteStream.alread (TCPReceiver.stream_out (rx y));
  m_adds : exists l, adds (wrote y) (conn y) (wrote y) (conn y') l;
  m_told : told x y (TCPConnection.segments_out (conn y)) -> told x y' (TCPConnection.segments_out (conn y'));
  m_ack : told y x q -> TCPSender.byte_received (tx y') = acked (sent_bytes (tx y')) (rx x);
  m_eof : TCPSender.eof (tx y) = true -> TCPSender.segments_out (tx y) = [] ->
    TCPSender.segments_out (tx y') = [] /\ exists e,
      TCPConnection.segments_out (conn y') = TCPConnection.segments_out (conn y) ++ e /\
      Forall (bare (TCPSender.isn (tx y)) (TCPSender.byte_sent (tx y))) e /\
      (acked (sent_bytes (tx x)) (rx y) = TCPSender.byte_sent (tx x) ->
       Forall (bare (TCPSender.isn (tx x)) (TCPSender.byte_sent (tx x))) q -> e = [])
}.

Lemma moved_nil x y : moved x [] y y.
Proof.
  constructor; try done; try (by split_and!; auto).
  - by left.
  - exists []. constructor; [by apply grows_same|done|]. rewrite app_nil_r. apply same_contents_refl.
  - by intros [?|(h & ? & _)].
  - intros _ Ho. split; [done|]. exists []. by rewrite app_nil_r.
Qed.

Lemma took_told cx cy x y y1 g q :
  sound cx cy x y -> sound cx cy x y1 -> took x g y y1 -> told y x (g :: q) -> told y1 x q.
Proof.
  intros HS HS1 K Ht. destruct (so_joined _ _ _ _ HS) as [_ Hyx]. destruct (so_joined _ _ _ _ HS1) as [_ Hyx1].
  destruct (k_adds _ _ _ _ K) as [l Hl]. rewrite (k_wrote _ _ _ _ K) in Hyx1.
  pose proof (acked_grow Hyx _ _ (l_wf Hyx1) (a_grows _ _ _ _ _ Hl)) as Ea.
  pose proof (l_acked Hyx1). pose proof (k_received _ _ _ _ K).
  destruct Ht as [Ht|(h & Eh & Hh & Ek)]; [left; lia|].
  destruct q as [|h' q]; [left|right; by exists h]. injection Eh as ->. by apply K.
Qed.

Lemma moved_cons cx cy x y y1 y2 g q :
  sound cx cy x y -> sound cx cy x y1 -> took x g y y1 -> moved x q y1 y2 -> moved x (g :: q) y y2.
Proof.
  intros HS HS1 K M. pose proof (k_wrote _ _ _ _ K) as Ew. destruct (so_joined _ _ _ _ HS) as [Hxy Hyx].
  destruct (so_joined _ _ _ _ HS1) as [Hxy1 Hyx1]. rewrite Ew in Hyx1.
  destruct (k_adds _ _ _ _ K) as [l1 Hl1]. destruct (m_adds _ _ _ _ M) as [l2 Hl2]. rewrite Ew in Hl2.
  constructor; try (etrans; [apply M|apply K]).
  - etrans; [apply K|apply M].
  - eapply calms_trans; [apply K|apply M].
  - intros b Hb Ht. pose proof (g_sent _ _ _ _ (a_grows _ _ _ _ _ Hl1)).
    apply M; [lia|]. by apply K.
  - done.
  - destruct (k_clock _ _ _ _ K) as (T1 & T2 & T3). destruct (m_clock _ _ _ _ M) as (U1 & U2 & U3).
    split_and!; [congruence| |congruence]. right. destruct U2; congruence.
  - exists (l1 ++ l2). eapply adds_trans; [apply Hyx1|done|done].
  - intros Ht. apply M. by apply K.
  - intros Ht. apply M. by apply (took_told cx cy x y y1 g q).
  - intros He Ho. destruct (k_eof _ _ _ _ K He Ho) as (Ho1 & e1 & E1 & B1 & S1).
    destruct (eof_sent _ _ _ (l_wf Hyx) (l_wf Hyx1) (a_grows _ _ _ _ _ Hl1) He) as [He1 Eb].
    destruct (m_eof _ _ _ _ M He1 Ho1) as (Ho2 & e2 & E2 & B2 & S2). split; [done|]. exists (e1 ++ e2).
    rewrite E2, E1, (assoc_L (++)). split; [done|]. rewrite Eb, (g_isn _ _ _ _ (a_grows _ _ _ _ _ Hl1)) in B2.
    split; [by apply Forall_app|]. intros Ea [Hg Hq]%Forall_cons. rewrite S1 by (by rewrite Ea).
    rewrite S2; [done| |done]. pose proof (k_acked _ _ _ _ K). pose proof (link_acked_sent Hxy1). lia.
Qed.

Lemma deliver_all cx cy x q : forall y,
  sound cx cy x y -> Forall (fun g => g ∈ sent x) q -> TCPConnection.rst (conn x) = false ->
  flow x y q -> fin_last x y ->
  sent_bytes (tx x) <= ByteStream.alread (TCPReceiver.stream_out (rx y)) + cy ->
  exists y', Benchmark.receive_all q (conn y) = Ok (conn y') /\ sound cx cy x y' /\ moved x q y y' /\
    flow x y' [] /\ fin_last x y'.
Proof.
  induction q as [|g q IH]; intros y HS Hq Hrst Hflow Hfin Hroom; cbn [Benchmark.receive_all].
  { exists y. split_and!; try done. apply moved_nil. }
  apply Forall_cons in Hq as [Hg Hq].
  destruct (deliver_one cx cy x y g q HS Hg Hrst Hflow Hfin Hroom) as (y1 & E1 & HS1 & K & Hflow1 & Hfin1).
  rewrite E1. cbn [mbind result_bind]. rewrite <- (k_read _ _ _ _ K) in Hroom.
  destruct (IH y1 HS1 Hq Hrst Hflow1 Hfin1 Hroom) as (y' & E & HS' & M & Hflow' & Hfin').
  exists y'. split_and!; try done. by apply (moved_cons cx cy x y y1 y' g q).
Qed.

(** ** Two endpoints that hand over everything *)

Abbreviation out x := (TCPConnection.segments_out (conn x)).

(** Between two operations of the program. *)
Record paired (cx cy : Z) (x y : side) : Prop := {
  pr_sound : sound cx cy x y;
  pr_left : TCPConnection.rst (conn x) = false;
  pr_right : TCPConnection.rst (conn y) = false;
  pr_forth : flow x y (out x);
  pr_back : flow y x (out y);
  pr_fin_forth : fin_last x y;
  pr_fin_back : fin_last y x;
  pr_told_left : told x y (out y);
  pr_told_right : told y x (out x)
}.

Lemma paired_sym cx cy x y : paired cx cy x y -> paired cy cx y x.
Proof. intros []. constructor; try done. by apply sound_sym. Qed.

(** [x] becomes [x'] on its own. *)
Section Acts.
Context {cx cy : Z} {x x' y : side} {l : list TCPSegment}.
Context (HS : sound cx cy x y) (HS' : sound cx cy x' y).
Context (Hl : adds (wrote x) (conn x) (wrote x') (conn x') l).

Lemma acted_acked : acked (sent_bytes (tx x')) (rx y) = acked (sent_bytes (tx x)) (rx y).
Proof using All.
  destruct (so_joined _ _ _ _ HS) as [Hxy _]. destruct (so_joined _ _ _ _ HS') as [Hxy' _].
  apply (acked_grow Hxy _ _ (l_wf Hxy')), Hl.
Qed.

Lemma acted_flow : flow x y (out x) -> flow x' y (out x').
Proof using All.
  intros Hf. destruct (so_joined _ _ _ _ HS) as [Hxy _]. destruct Hl as [G Hsp Hp]. unfold flow in *.
  rewrite acted_acked, (g_isn _ _ _ _ G). eapply spans_same; [exact Hp|]. eapply spans_app; [|exact Hsp].
  rewrite <- (g_isn _ _ _ _ G). eapply spans_grow; [apply Hxy|done|done|exact Hf].
Qed.

Lemma acted_fin : fin_last x y -> fin_last x' y.
Proof using All.
  intros Hf Hfin. destruct (so_joined _ _ _ _ HS) as [Hxy _]. destruct (so_joined _ _ _ _ HS') as [Hxy' _].
  destruct (g_eof _ _ _ _ (a_grows _ _ _ _ _ Hl) (l_fin Hxy Hfin)) as [_ Ew].
  rewrite (Hf Hfin), (eof_all_read _ _ (l_wf Hxy) (l_fin Hxy Hfin)).
  by rewrite (eof_all_read _ _ (l_wf Hxy') (l_fin Hxy' Hfin)), Ew.
Qed.

Lemma acted_told q :
  TCPSender.byte_received (tx x) <= TCPSender.byte_received (tx x') -> told x y q -> told x' y q.
Proof using All.
  intros Hr [Ht|Ht]; [left|by right]. destruct (so_joined _ _ _ _ HS') as [Hxy' _].
  pose proof (l_acked Hxy'). pose proof acted_acked. lia.
Qed.
End Acts.

(** [x] without what it has given away. *)
Definition emptied (x : side) : side :=
  mkSide (wrote x) (got x) (TCPConnection.set_segments_out [] (conn x)) (sent x ++ out x).

Lemma emptied_sound cx cy x y : sound cx cy x y -> sound cx cy (emptied x) y.
Proof.
  intros HS. destruct (sound_op cx cy x y TCPConnection.Take I HS) as (x' & E & HS').
  unfold apply_side in E. cbn in E. injection E as <-. by rewrite app_nil_r in HS'.
Qed.

(** [move_segments], without reordering. *)
Lemma move_works cx cy x y :
  paired cx cy x y ->
  sent_bytes (tx x) <= ByteStream.alread (TCPReceiver.stream_out (rx y)) + cy ->
  exists y', Benchmark.move_segments (conn x) (conn y) false = Ok (conn (emptied x), conn y') /\
    paired cx cy (emptied x) y' /\ moved (emptied x) (out x) y y'.
Proof.
  intros [HS Hx Hy F1 F2 L1 L2 T1 T2] Hroom. pose proof (emptied_sound _ _ _ _ HS) as HSe.
  destruct (deliver_all cx cy (emptied x) (out x) y HSe) as (y' & E & HS' & M & Hf & Hl); try done.
  { apply Forall_forall. intros g Hg. apply elem_of_app. by right. }
  exists y'. unfold Benchmark.move_segments. rewrite E. cbn [mbind result_bind]. split; [done|]. split; [|done].
  destruct (m_adds _ _ _ _ M) as [l Ha]. rewrite <- (m_wrote _ _ _ _ M) in Ha at 2.
  pose proof (sound_sym _ _ _ _ HSe) as HSs. pose proof (sound_sym _ _ _ _ HS') as HSs'.
  constructor; try done.
  - by rewrite (m_rst _ _ _ _ M).
  - by apply (acted_flow HSs HSs' Ha).
  - by apply (acted_fin HSs HSs' Ha).
  - apply M. exact T1.
  - left. apply M. exact T2.
Qed.

(** *** Operations of one endpoint *)

Record acts (x x' : side) : Prop := {
  c_got : got x' = got x;
  c_rx : rx x' = rx x;
  c_rst : TCPConnection.rst (conn x') = TCPConnection.rst (conn x);
  c_received : TCPSender.byte_received (tx x') = TCPSender.byte_received (tx x);
  c_sent : TCPSender.byte_sent (tx x) <= TCPSender.byte_sent (tx x');
  c_retries : retries (tx x') = retries (tx x);
  c_capacity : capacity_of (tx x') = capacity_of (tx x);
  c_clock : TCPConnection.time (conn x') = TCPConnection.time (conn x) /\
    TCPConnection.last_segment_time (conn x') = TCPConnection.last_segment_time (conn x) /\
    TCPConnection.cfg (conn x') = TCPConnection.cfg (conn x);
  c_queue : TCPSender.segments_out (tx x) = [] -> TCPSender.segments_out (tx x') = []
}.

Lemma acts_refl x : acts x x.
Proof. by constructor. Qed.
Lemma acts_trans x y z : acts x y -> acts y z -> acts x z.
Proof.
  intros [A1 A2 A3 A4 A5 A6 Ac A7 A8] [B1 B2 B3 B4 B5 B6 Bc B7 B8].
  constructor; try congruence; [lia| |auto]. destruct A7 as (? & ? & ?), B7 as (? & ? & ?). split_and!; congruence.
Qed.

(** What an operation has queued carries the newest acknowledgement. *)
Lemma stamps_app r q m : stamps r q -> stamps r (q ++ (TCPConnection.receiver_info r <$> m)).
Proof.
  intros (g & Eg & Hg & Ek). destruct m as [|h m _] using rev_ind; [exists g; by rewrite app_nil_r|].
  exists (TCPConnection.receiver_info r h). rewrite fmap_app, (assoc_L (++)). cbn [fmap list_fmap].
  rewrite list.last_snoc. split; [done|]. unfold TCPConnection.receiver_info. by rewrite Ek.
Qed.

(** The sender has become [s], with [l] at the end of its queue, and its queue moves on. *)
Lemma flushed_paired cx cy x x' y s l :
  paired cx cy x y -> sound cx cy x' y -> grows (wrote x) (tx x) (wrote x') s ->
  TCPSender.segments_out s = TCPSender.segments_out (tx x) ++ l ->
  spans (wrote x') (TCPSender.isn (tx x)) (TCPSender.byte_sent (tx x)) l (TCPSender.byte_sent s) ->
  TCPSender.byte_received s = TCPSender.byte_received (tx x) ->
  tx x' = TCPSender.set_segments_out [] s -> rx x' = rx x ->
  TCPConnection.rst (conn x') = TCPConnection.rst (conn x) ->
  out x' = out x ++ (TCPConnection.receiver_info (rx x) <$> TCPSender.segments_out s) ->
  paired cx cy x' y.
Proof.
  intros [HS Hx Hy F1 F2 L1 L2 T1 T2] HS' G Eo Hsp Eb Et Er Erst Eout.
  assert (Ha : adds (wrote x) (conn x) (wrote x') (conn x') l).
  { constructor; [rewrite Et; by destruct G|by rewrite Et|]. unfold pending. rewrite Et, Eout, Eo. cbn.
    rewrite app_nil_r, <- (assoc_L (++)). apply Forall2_app; [apply same_contents_refl|apply stamped_same]. }
  constructor; try done; unfold flow, fin_last, told; rewrite ?Er; try done.
  - by rewrite Erst.
  - by apply (acted_flow HS HS' Ha).
  - by apply (acted_fin HS HS' Ha).
  - apply (acted_told HS HS' Ha); [rewrite Et; cbn; lia|done].
  - rewrite Eout. destruct T2 as [?|?]; [by left|right; by apply stamps_app].
Qed.

(** [b] is the new outgoing stream, and the window is filled. *)
Definition refilled (b : ByteStream.ByteStream) (c : TCPConnection) : TCPConnection :=
  TCPConnection.segment_out
    (TCPConnection.set_sender (TCPSender.fill_window (TCPSender.set_stream b (TCPConnection.sender c))) c).

Lemma refilled_paired cx cy x y W' b (x' := mkSide W' (got x) (refilled b (conn x)) (sent x)) :
  paired cx cy x y -> sound cx cy x' y -> TCPSender.wf W' (TCPSender.set_stream b (tx x)) ->
  grows (wrote x) (tx x) W' (TCPSender.set_stream b (tx x)) ->
  ByteStream.bs_max b = capacity_of (tx x) ->
  paired cx cy x' y /\ acts x x' /\ 1 <= TCPSender.byte_sent (tx x').
Proof.
  intros HP HS' Hw G Emax. set (s0 := TCPSender.set_stream b (tx x)) in *.
  destruct (fill_sends W' s0 Hw) as [new Hn].
  destruct (TCPSender.fill_window_spec W' s0 Hw) as (_ & _ & _ & _ & _ & Er & _).
  destruct (Progress.fill_window_frame s0) as [Ec _]. split; [|split; [|by apply (fill_opens W' s0)]].
  - apply (flushed_paired cx cy x x' y (TCPSender.fill_window s0) new); try done.
    + eapply link_grows_trans; [exact G|by eapply sends_grows].
    + apply Hn.
    + apply spans_tiles, Hn.
  - constructor; try done; [exact (TCPSender.tiles_le _ _ _ _ _ (n_tiles _ _ _ _ Hn))|].
    etrans; [apply (fill_capacity s0)|]. exact Emax.
Qed.

Lemma write_works cx cy x y data :
  paired cx cy x y -> ended_input (tx x) = false -> size (wrote x) + size data < stream_limit ->
  size data <= TCPConnection.remaining_outbound_capacity (conn x) ->
  exists x', TCPConnection.write data (conn x) = (size data, conn x') /\ paired cx cy x' y /\ acts x x' /\
    wrote x' = wrote x ++ data /\ ended_input (tx x') = false.
Proof.
  intros HP He Hs Hd. pose proof (pr_sound _ _ _ _ HP) as HS. destruct (so_joined _ _ _ _ HS) as [Hxy _].
  pose proof (TCPSender.wf_stream _ _ (l_wf Hxy)) as Hb. unfold stream_limit in Hs.
  unfold TCPConnection.remaining_outbound_capacity, TCPSender.stream_in in Hd.
  rewrite (ByteStream.remaining_capacity_eq _ Hb) in Hd.
  pose proof (ByteStream.write_accepts data _ Hb) as En. rewrite Z.min_l in En by lia.
  pose proof (TCPSender.sender_write_wf (wrote x) (tx x) data (l_wf Hxy) He ltac:(lia)) as Hw. cbv zeta in Hw.
  destruct (sound_op cx cy x y (TCPConnection.Write data)) as (x' & E & HS'); [by split|done|].
  unfold apply_side in E. cbn [TCPConnection.apply_op TCPConnection.written] in E. revert E Hw En.
  assert (Ee : ByteStream.bs_max (ByteStream.write data (TCPSender.stream (tx x))).2 = capacity_of (tx x) /\
    ByteStream.bs_end (ByteStream.write data (TCPSender.stream (tx x))).2 = false) by (by split).
  unfold TCPConnection.write, TCPSender.stream_in. revert Ee.
  destruct (ByteStream.write data (TCPSender.stream (tx x))) as [n b]. cbn [fst snd mbind result_bind].
  intros [Em Ee] E Hw ->. injection E as <-. rewrite !app_nil_r in HS'. rewrite substr0_all in Hw, HS' by lia.
  destruct (refilled_paired cx cy x y (wrote x ++ data) b HP HS' Hw) as (HP' & Ha & _).
  { constructor; try done; [by exists data|]. intros Hx. apply (TCPSender.wf_eof _ _ (l_wf Hxy)) in Hx.
    unfold ByteStream.eof in Hx. by rewrite He in Hx. }
  { done. }
  eexists. split; [|split; [exact HP'|split; [exact Ha|]]]; [done|]. split; [done|]. cbn.
  by destruct (Progress.fill_window_frame (TCPSender.set_stream b (tx x))) as [_ ->].
Qed.

Lemma end_works cx cy x y :
  paired cx cy x y ->
  exists x', TCPConnection.end_input_stream (conn x) = conn x' /\ paired cx cy x' y /\ acts x x' /\
    wrote x' = wrote x /\ ended_input (tx x') = true /\ 1 <= TCPSender.byte_sent (tx x').
Proof.
  intros HP. pose proof (pr_sound _ _ _ _ HP) as HS. destruct (so_joined _ _ _ _ HS) as [Hxy _].
  destruct (sound_op cx cy x y TCPConnection.EndInput I HS) as (x' & E & HS').
  unfold apply_side in E. cbn [TCPConnection.apply_op mbind result_bind TCPConnection.written] in E.
  injection E as <-. rewrite !app_nil_r in HS'.
  set (b := ByteStream.end_input (TCPSender.stream (tx x))).
  destruct (refilled_paired cx cy x y (wrote x) b HP HS') as (HP' & Ha & Ho).
  - apply TCPSender.sender_end_input_wf, Hxy.
  - by apply grows_same.
  - done.
  - eexists. split; [|split; [exact HP'|split; [exact Ha|]]]; [done|]. split; [done|]. split; [|exact Ho]. cbn.
    by destruct (Progress.fill_window_frame (TCPSender.set_stream b (tx x))) as [_ ->].
Qed.

(** Time passes at [x]. *)
Record ticked (ms : Z) (x x' : side) : Prop := {
  i_wrote : wrote x' = wrote x;
  i_got : got x' = got x;
  i_rx : rx x' = rx x;
  i_stream : TCPSender.stream (tx x') = TCPSender.stream (tx x);
  i_received : TCPSender.byte_received (tx x') = TCPSender.byte_received (tx x);
  i_sent : TCPSender.byte_sent (tx x') = TCPSender.byte_sent (tx x);
  i_eof : TCPSender.eof (tx x') = TCPSender.eof (tx x);
  i_isn : TCPSender.isn (tx x') = TCPSender.isn (tx x);
  i_unacked : TCPSender.unacked (tx x') = TCPSender.unacked (tx x);
  i_retries : retries (tx x) <= retries (tx x') <= retries (tx x) + 1;
  i_queue : TCPSender.segments_out (tx x') = [];
  i_idle : TCPSender.unacked (tx x) = [] ->
    retries (tx x') = retries (tx x) /\
    out x' = out x ++ (TCPConnection.receiver_info (rx x) <$> TCPSender.segments_out (tx x));
  i_clock : TCPConnection.time (conn x') = u64 (TCPConnection.time (conn x) + ms) /\
    TCPConnection.last_segment_time (conn x') = TCPConnection.last_segment_time (conn x) /\
    TCPConnection.cfg (conn x') = TCPConnection.cfg (conn x)
}.

Lemma tick_flushes W c ms s :
  TCPSender.wf W (TCPConnection.sender c) ->
  retries (TCPConnection.sender c) < TCPSender.MAX_RETX_ATTEMPTS ->
  TCPSender.tick ms (TCPConnection.sender c) = Ok s ->
  TCPConnection.tick ms c = Ok (TCPConnection.segment_out (TCPConnection.set_times
    (u64 (TCPConnection.time c + ms)) (TCPConnection.last_segment_time c) (TCPConnection.set_sender s c))).
Proof.
  intros Hw Hr Es. unfold TCPSender.MAX_RETX_ATTEMPTS in Hr.
  destruct (TCPSender.tick_spec W _ ms Hw ltac:(lia)) as (s' & Es' & _ & _ & _ & _ & _ & _ & _ & Ec & _).
  rewrite Es in Es'. injection Es' as <-. unfold TCPConnection.tick. rewrite Es. cbn [mbind result_bind]. cbv zeta.
  unfold TCPSender.consecutive_retransmissions, TCPSender.MAX_RETX_ATTEMPTS.
  cbn [TCPConnection.sender TCPConnection.set_sender TCPConnection.set_times]. rewrite Ec.
  set (due := _ && _). assert (Hdue : 0 <= TCPSender.b2z due <= 1) by (by destruct due).
  by replace (8 <? _) with false by lia.
Qed.

Lemma tick_works cx cy x y ms :
  paired cx cy x y -> retries (tx x) < TCPSender.MAX_RETX_ATTEMPTS ->
  exists x', TCPConnection.tick ms (conn x) = Ok (conn x') /\ paired cx cy x' y /\ ticked ms x x'.
Proof.
  intros HP Hr. pose proof (pr_sound _ _ _ _ HP) as HS. destruct (so_joined _ _ _ _ HS) as [Hxy _].
  pose proof Hr as Hr'. unfold TCPSender.MAX_RETX_ATTEMPTS in Hr'.
  destruct (sound_op cx cy x y (TCPConnection.Tick ms)) as (x' & E & HS'); [cbn; lia|done|].
  destruct (TCPSender.tick_spec (wrote x) (tx x) ms (l_wf Hxy) ltac:(lia))
    as (s & Es & Hwf & _ & Eu & Eb & Er & Ei & Eo & Ec & _).
  destruct (Progress.tick_frame _ _ _ Es) as (_ & Est & Ee).
  unfold apply_side in E. cbn [TCPConnection.apply_op TCPConnection.written] in E.
  rewrite (tick_flushes _ _ _ _ (l_wf Hxy) Hr Es) in *. cbn [mbind result_bind] in E. injection E as <-.
  set (due := _ && _) in *. assert (Hdue : 0 <= TCPSender.b2z due <= 1) by (by destruct due).
  set (l := if due then _ else _) in Eo.
  eexists. split; [|split; [eapply (flushed_paired cx cy x _ y s l); [done|exact HS'|..]|]]; try done.
  - by apply grows_same.
  - cbn. rewrite Eb. unfold l. destruct due; [|done]. destruct (TCPSender.unacked (tx x)) as [|g rest] eqn:Eq; [done|].
    destruct (oldest_place Hxy g rest Eq) as (u & Hc & _ & _ & Hle). by apply (spans_again _ _ u).
  - constructor; cbn; rewrite ?app_nil_r, ?Est; try done; [lia|].
    intros Hn. rewrite Eo, Ec. pose proof (TCPSender.wf_timer _ _ (l_wf Hxy)) as Htm.
    unfold l, due. destruct (TCPSender.active (TCPSender.sendtimer (tx x))); [|by rewrite app_nil_r, Z.add_0_r].
    by destruct (proj1 Htm eq_refl).
Qed.

(** The application of [y] reads all there is. *)
Lemma read_works cx cy x y (n := ByteStream.buffer_size (TCPConnection.inbound_stream (conn y))) :
  paired cx cy x y ->
  exists y', (if 0 <? n then TCPConnection.read n (conn y) else ([], conn y)) =
      (ByteStream.content (TCPConnection.inbound_stream (conn y)), conn y') /\ paired cx cy x y' /\
    wrote y' = wrote y /\ tx y' = tx y /\ out y' = out y /\
    got y' = got y ++ ByteStream.content (TCPConnection.inbound_stream (conn y)) /\
    ByteStream.content (TCPReceiver.stream_out (rx y')) = [] /\
    (forall L, acked L (rx y') = acked L (rx y)) /\
    TCPConnection.time (conn y') = TCPConnection.time (conn y) /\
    TCPConnection.last_segment_time (conn y') = TCPConnection.last_segment_time (conn y) /\
    TCPConnection.cfg (conn y') = TCPConnection.cfg (conn y).
Proof.
  intros HP. subst n. set (c := ByteStream.content _). unfold ByteStream.buffer_size. fold c.
  destruct (Z.ltb_spec 0 (size c)) as [Hn|Hn].
  2: { assert (Ec : c = []) by (apply size_0_nil; size_lia). exists y. rewrite Ec, app_nil_r. by split_and!. }
  destruct HP as [HS Hx Hy F1 F2 L1 L2 T1 T2]. 
  destruct (sound_op cy cx y x (TCPConnection.Read (size c))) as (y' & E & HS'); [cbn; lia|by apply sound_sym|].
  unfold apply_side in E. cbn [TCPConnection.apply_op TCPConnection.written mbind result_bind] in E.
  assert (Ec : (TCPConnection.read (size c) (conn y)).1 = c).
  { unfold TCPConnection.read. cbn. unfold ByteStream.peek_output, ByteStream.buffer_size. fold c.
    rewrite !Z.leb_refl. apply substr0_all. lia. }
  rewrite Ec, app_nil_r in E. injection E as <-. apply sound_sym in HS'.
  exists (mkSide (wrote y) (got y ++ c) (TCPConnection.read (size c) (conn y)).2 (sent y)).
  split; [by rewrite <- Ec at 2; destruct (TCPConnection.read (size c) (conn y))|].
  split; [by constructor|]. split_and!; try done. cbn. unfold ByteStream.buffer_size. fold c.
  rewrite !Z.leb_refl. apply size_0_nil. rewrite substr0_rest_size by lia. fold c. lia.
Qed.

(** ** One turn of the loop *)

(** The input phase. *)
Lemma write_phase cx cy y fuel : forall x b,
  paired cx cy x y -> ended_input (tx x) = false -> Buffer.buf_wf b ->
  size (wrote x) + Buffer.buf_size b < stream_limit -> Buffer.buf_size b < Z.of_nat fuel ->
  exists x' b', Benchmark.write_input fuel (conn x) b = Ok (conn x', b') /\ paired cx cy x' y /\ acts x x' /\
    wrote x' ++ Buffer.str b' = wrote x ++ Buffer.str b /\ ended_input (tx x') = false /\ Buffer.buf_wf b' /\
    (Buffer.buf_size b' = 0 \/ TCPConnection.remaining_outbound_capacity (conn x') = 0).
Proof.
  induction fuel as [|fuel IH]; intros x b HP He Hb Hs Hf; unfold Buffer.buf_size in *;
    pose proof (size_nonneg (Buffer.str b)); [lia|].
  cbn [Benchmark.write_input]. unfold Buffer.buf_size in *.
  destruct (Z.eqb_spec (size (Buffer.str b)) 0) as [E0|E0]; cbn [negb andb].
  { exists x, b. split_and!; auto using acts_refl. }
  destruct (Z.eqb_spec (TCPConnection.remaining_outbound_capacity (conn x)) 0) as [E1|E1]; cbn [negb].
  { exists x, b. split_and!; auto using acts_refl. }
  set (want := Z.min _ _).
  assert (Hw : 0 < want <= size (Buffer.str b)).
  { pose proof (u64_range (ByteStream.bs_max (TCPSender.stream (tx x)) -
      size (ByteStream.content (TCPSender.stream (tx x))))).
    unfold want, TCPConnection.remaining_outbound_capacity, ByteStream.remaining_capacity,
      TCPSender.stream_in in *. lia. }
  set (data := substr0 (Buffer.str b) want).
  assert (Hd : size data = want) by (unfold data; rewrite substr0_size; lia).
  destruct (write_works cx cy x y data HP He ltac:(lia) ltac:(unfold want in Hd; lia))
    as (x1 & E & HP1 & Ha & Ew & He1).
  rewrite E, Hd, Z.eqb_refl. cbn [negb].
  destruct (Buffer.remove_prefix_spec want b Hb) as [(_ & b1 & -> & Hb1 & Es)|[Hlt _]]; [lia| |lia].
  cbn [mbind result_bind].
  assert (Ed : data ++ Buffer.str b1 = Buffer.str b).
  { rewrite Es. unfold data, substr0. rewrite Z.min_l by lia. apply take_drop. }
  assert (Hl : size (Buffer.str b1) = size (Buffer.str b) - want).
  { apply (f_equal size) in Ed. rewrite size_app in Ed. lia. }
  destruct (IH x1 b1 HP1 He1 Hb1) as (x' & b' & -> & HP' & Ha' & Ew' & He' & Hb' & Hend);
    [rewrite Ew, size_app; lia|lia|].
  exists x', b'. split_and!; try done; [by eapply acts_trans|].
  by rewrite Ew', Ew, <- (assoc_L (++)), Ed.
Qed.

(** *** The state between two turns *)

Abbreviation cap := (TCPSender.recv_capacity TCPSender.default_config).

(** After [k] turns, for the string [s]. *)
Definition on_time (k : Z) (x : side) : Prop :=
  TCPConnection.time (conn x) = 1000 * k /\
  0 <= TCPConnection.last_segment_time (conn x) <= TCPConnection.time (conn x) /\
  TCPConnection.cfg (conn x) = TCPSender.default_config.

(** The endpoint [x], which sends the string: no retransmission is in vain. *)
Record sending (s : bytes) (b : Buffer.Buffer) (closed : bool) (x : side) : Prop := {
  se_queue : TCPSender.segments_out (tx x) = [];
  se_string : wrote x ++ Buffer.str b = s;
  se_buffer : Buffer.buf_wf b;
  se_closed : closed = ended_input (tx x);
  se_empty : closed = true -> Buffer.buf_size b = 0;
  se_open : 1 <= TCPSender.byte_sent (tx x);
  se_capacity : 0 < capacity_of (tx x);
  se_tries : retries (tx x) <= 1;
  se_idle : TCPSender.byte_received (tx x) = TCPSender.byte_sent (tx x) -> retries (tx x) = 0
}.

(** The endpoint [y], which sends only its SYN and its FIN, to [x]. *)
Record answering (x y : side) : Prop := {
  an_queue : TCPSender.segments_out (tx y) = [];
  an_wrote : wrote y = [];
  an_ended : ended_input (tx y) = true;
  an_open : 1 <= TCPSender.byte_sent (tx y);
  an_tries : retries (tx y) <= 2;
  an_fresh : acked (sent_bytes (tx y)) (rx x) < TCPSender.byte_sent (tx y) -> retries (tx y) <= 1;
  an_idle : TCPSender.byte_received (tx y) = TCPSender.byte_sent (tx y) -> retries (tx y) = 0
}.

Record head (s : bytes) (k : Z) (l : Benchmark.Locals) (x y : side) : Prop := {
  hd_x : Benchmark.x l = conn x;
  hd_y : Benchmark.y l = conn y;
  hd_pair : paired cap cap x y;
  hd_sending : sending s (Benchmark.bytes_to_send l) (Benchmark.x_closed l) x;
  hd_answering : answering x y;
  hd_got : got y = Benchmark.string_received l;
  hd_read : ByteStream.content (TCPReceiver.stream_out (rx y)) = [];
  hd_clock_x : on_time k x;
  hd_clock_y : on_time k y
}.

(** When all is acknowledged and the input has ended, the FIN has been sent. *)
Lemma idle_eof cx cy x y :
  sound cx cy x y -> 1 <= TCPSender.byte_sent (tx x) -> ended_input (tx x) = true ->
  TCPSender.unacked (tx x) = [] -> TCPSender.eof (tx x) = true.
Proof.
  intros HS Ho He Hu. destruct (v_drained _ _ (so_left _ _ _ _ HS) Hu Ho) as [?|[Hb Hn]]; [done|].
  unfold ByteStream.eof in Hn. by rewrite He, Hb in Hn.
Qed.

(** When there is no room for more input, something is in flight. *)
Lemma idle_room cx cy x y :
  sound cx cy x y -> 1 <= TCPSender.byte_sent (tx x) -> 0 < capacity_of (tx x) ->
  TCPConnection.remaining_outbound_capacity (conn x) = 0 ->
  TCPSender.unacked (tx x) = [] -> TCPSender.eof (tx x) = true.
Proof.
  intros HS Ho Hc Hr Hu. destruct (v_drained _ _ (so_left _ _ _ _ HS) Hu Ho) as [?|[Hb _]]; [done|].
  destruct (so_joined _ _ _ _ HS) as [Hxy _]. pose proof (TCPSender.wf_stream _ _ (l_wf Hxy)) as Hs.
  unfold TCPConnection.remaining_outbound_capacity, TCPSender.stream_in in Hr.
  rewrite (ByteStream.remaining_capacity_eq _ Hs) in Hr. apply Z.eqb_eq in Hb. lia.
Qed.

(** Input, and its end. *)
Lemma input_phase s k l x y :
  head s k l x y -> size s < stream_limit ->
  exists x1 x2 b, Benchmark.write_input (S (Z.to_nat (Buffer.buf_size (Benchmark.bytes_to_send l))))
      (Benchmark.x l) (Benchmark.bytes_to_send l) = Ok (conn x1, b) /\
    (if (Buffer.buf_size b =? 0) && negb (Benchmark.x_closed l)
     then (TCPConnection.end_input_stream (conn x1), true) else (conn x1, Benchmark.x_closed l)) =
      (conn x2, ended_input (tx x2)) /\
    paired cap cap x2 y /\ acts x x2 /\ wrote x2 ++ Buffer.str b = s /\ Buffer.buf_wf b /\
    (ended_input (tx x2) = true -> Buffer.buf_size b = 0) /\
    (TCPSender.unacked (tx x2) = [] -> TCPSender.eof (tx x2) = true) /\ (ended_input (tx x) = true -> x2 = x).
Proof.
  intros [Ex _ HP [Hq Hstr Hbuf Hcl Hemp Ho Hcap _ _] _ _ _ _ _] Hs. rewrite Ex.
  set (b0 := Benchmark.bytes_to_send l) in *. destruct (Benchmark.x_closed l) eqn:Ec.
  - specialize (Hemp eq_refl). exists x, x, b0. rewrite Hemp. cbn [Z.to_nat Benchmark.write_input]. rewrite Hemp.
    cbn [Z.eqb negb andb]. rewrite <- Hcl. split_and!; try done.
    by apply (idle_eof _ _ _ _ (pr_sound _ _ _ _ HP) Ho).
  - destruct (write_phase cap cap y (S (Z.to_nat (Buffer.buf_size b0))) x b0 HP (eq_sym Hcl) Hbuf)
      as (x1 & b & E & HP1 & Ha & Ew & He & Hb & Hend).
    { apply (f_equal size) in Hstr. rewrite size_app in Hstr. unfold Buffer.buf_size. lia. }
    { unfold Buffer.buf_size. pose proof (size_nonneg (Buffer.str b0)). lia. }
    rewrite Hstr in Ew. exists x1. destruct (Z.eq_dec (Buffer.buf_size b) 0) as [Eb|Eb].
    + destruct (end_works cap cap x1 y HP1) as (x2 & E2 & HP2 & Ha2 & Ew2 & He2 & _). exists x2, b.
      rewrite Eb, E2, He2, Ew2. pose proof (acts_trans _ _ _ Ha Ha2) as Ha'. split_and!; try done.
      2: { intros ?. congruence. }
      apply (idle_eof _ _ _ _ (pr_sound _ _ _ _ HP2)); [|done]. pose proof (c_sent _ _ Ha'). lia.
    + exists x1, b. rewrite He, (proj2 (Z.eqb_neq _ _) Eb). split_and!; try done; [|intros ?; congruence].
      destruct Hend as [?|Hend]; [done|].
      apply (idle_room _ _ _ _ (pr_sound _ _ _ _ HP1)); [|by rewrite (c_capacity _ _ Ha)|done].
      pose proof (c_sent _ _ Ha). lia.
Qed.

(** What has arrived, of an endpoint that has sent nothing before [b] since its queue was empty. *)
Lemma tail_acked cx cy x y b :
  sound cx cy x y -> flow x y [] -> fresh_tail b x -> b <= acked (sent_bytes (tx x)) (rx y).
Proof.
  intros HS Hf (b' & Hb & Ht). destruct (so_joined _ _ _ _ HS) as [Hxy _]. unfold flow in Hf. cbn in Hf.
  destruct (TCPSender.segments_out (tx x)) as [|g q]; cbn in Hf, Ht; [lia|].
  destruct Hf as (a & Ha & Hle & _), Ht as [Hc _]. destruct Ha as [Ha|[_ Hbare]].
  - rewrite (carries_place _ _ _ _ _ (l_size Hxy) Hc Ha) in Hb. lia.
  - pose proof (bare_len _ _ _ Hbare). pose proof (TCPSender.carries_len _ _ _ _ Hc). lia.
Qed.

(** Both batches change hands, first that of [x]. *)
Record exchanged (x y y' x' : side) : Prop := {
  e_pair : paired cap cap x' (emptied y');
  e_forth : moved (emptied x) (out x) y y';
  e_back : moved (emptied y') (out y') (emptied x) x';
  e_received_x : TCPSender.byte_sent (tx x) <= TCPSender.byte_received (tx x');
  e_known_x : TCPSender.byte_received (tx x') = acked (sent_bytes (tx x')) (rx y');
  e_received_y : TCPSender.byte_received (tx y') = acked (sent_bytes (tx y)) (rx x);
  e_acked_y : TCPSender.byte_sent (tx y) <= acked (sent_bytes (tx y')) (rx x')
}.

Lemma exchange_phase x y :
  paired cap cap x y -> TCPSender.segments_out (tx x) = [] -> TCPSender.segments_out (tx y) = [] ->
  wrote y = [] -> ByteStream.content (TCPReceiver.stream_out (rx y)) = [] ->
  exists y' x', Benchmark.move_segments (conn x) (conn y) false = Ok (conn (emptied x), conn y') /\
    Benchmark.move_segments (conn y') (conn (emptied x)) false = Ok (conn (emptied y'), conn x') /\
    exchanged x y y' x'.
Proof.
  intros HP Hqx Hqy Hwy Hread. destruct (so_joined _ _ _ _ (pr_sound _ _ _ _ HP)) as [Hxy _].
  destruct (move_works cap cap x y HP (read_room Hxy Hread)) as (y' & E1 & HP1 & M1).
  destruct (so_joined _ _ _ _ (pr_sound _ _ _ _ HP1)) as [_ Hyx1]. pose proof (m_wrote _ _ _ _ M1) as Ew.
  destruct (move_works cap cap y' (emptied x) (paired_sym _ _ _ _ HP1)) as (x' & E2 & HP2 & M2).
  { pose proof (link_sizes Hyx1) as (Hs & _ & _). rewrite Ew, Hwy in Hs. change (size []) with 0 in Hs.
    pose proof (l_cap Hyx1).
    pose proof (SR.wf_out _ _ (SR.inv_wf _ _ _ _ (TCPReceiver.inv_run _ _ _ _ _ (l_recv Hyx1)))) as Hr.
    assert (0 <= ByteStream.alread (TCPReceiver.stream_out (rx (emptied x)))) by exact (proj1 (ByteStream.wf_read _ Hr)).
    lia. }
  exists y', x'. split; [done|]. split; [done|].
  pose proof (pr_forth _ _ _ _ HP1) as F1. pose proof (pr_told_right _ _ _ _ HP1) as T1.
  pose proof (pr_forth _ _ _ _ HP2) as F2. pose proof (pr_told_right _ _ _ _ HP2) as T2.
  destruct (m_adds _ _ _ _ M1) as [l1 A1]. rewrite <- (m_wrote _ _ _ _ M1) in A1 at 2.
  destruct (m_adds _ _ _ _ M2) as [l2 A2]. rewrite <- (m_wrote _ _ _ _ M2) in A2 at 2.
  pose proof (acted_acked (sound_sym _ _ _ _ (emptied_sound _ _ _ _ (pr_sound _ _ _ _ HP)))
    (sound_sym _ _ _ _ (pr_sound _ _ _ _ HP1)) A1) as K1.
  pose proof (acted_acked (sound_sym _ _ _ _ (emptied_sound _ _ _ _ (sound_sym _ _ _ _ (pr_sound _ _ _ _ HP1))))
    (sound_sym _ _ _ _ (pr_sound _ _ _ _ HP2)) A2) as K2.
  assert (Hx : TCPSender.byte_received (tx x') = acked (sent_bytes (tx x')) (rx y'))
    by (by destruct T2 as [?|(h & ? & _)]).
  constructor; try done.
  - by apply paired_sym.
  - unfold flow in F1. cbn in F1, K2. rewrite Hqx in F1. cbn in F1. lia.
  - etrans; [|exact K1]. by destruct T1 as [?|(h & ? & _)].
  - apply (tail_acked _ _ _ _ _ (pr_sound _ _ _ _ HP2) F2).
    destruct (m_tail _ _ _ _ M1 (TCPSender.byte_sent (tx y))) as (b & Hb & Ht); [done| |by exists b].
    exists (TCPSender.byte_sent (tx y)). by rewrite Hqy.
Qed.

(** No retransmission of [x] is counted after an exchange. *)
Lemma sender_calm x y y' x' :
  paired cap cap x y -> exchanged x y y' x' ->
  (TCPSender.byte_received (tx x) = TCPSender.byte_sent (tx x) -> retries (tx x) = 0) -> retries (tx x') = 0.
Proof.
  intros HP X Hi. destruct (so_joined _ _ _ _ (pr_sound _ _ _ _ HP)) as [Hxy _].
  destruct (m_calms _ _ _ _ (e_back _ _ _ _ X)) as [[Er Ec]|?]; [|done]. cbn in Er, Ec.
  pose proof (e_received_x _ _ _ _ X). pose proof (TCPSender.wf_received _ _ (l_wf Hxy)). rewrite Ec. apply Hi. lia.
Qed.

(** The endpoint [y] may have to repeat its SYN once more, as [x] acknowledges it only in the
    next turn. *)
Lemma answerer_calm x y y' x' :
  paired cap cap x y -> exchanged x y y' x' -> answering x y ->
  retries (tx y') <= 1 /\
  (TCPSender.byte_received (tx y') = TCPSender.byte_sent (tx y') -> retries (tx y') = 0) /\
  (TCPSender.byte_sent (tx y) < TCPSender.byte_sent (tx y') -> retries (tx y') = 0).
Proof.
  intros HP X [_ Hw _ Ho Ht Hf Hi]. destruct (so_joined _ _ _ _ (pr_sound _ _ _ _ HP)) as [_ Hyx].
  destruct (m_calms _ _ _ _ (e_forth _ _ _ _ X)) as [[Er Ec]|Ec]; [|rewrite Ec; lia]. rewrite Ec.
  pose proof (e_received_y _ _ _ _ X) as Ey. pose proof (TCPSender.wf_received _ _ (l_wf Hyx)).
  destruct (m_adds _ _ _ _ (e_forth _ _ _ _ X)) as [l Ha]. pose proof (g_sent _ _ _ _ (a_grows _ _ _ _ _ Ha)) as Hg.
  split_and!.
  - destruct (Z.lt_ge_cases (acked (sent_bytes (tx y)) (rx x)) (TCPSender.byte_sent (tx y))) as [Hlt|Hge];
      [by apply Hf|]. rewrite Hi; lia.
  - intros E. apply Hi. lia.
  - intros Hlt. apply Hi.
    pose proof (pr_sound _ _ _ _ (e_pair _ _ _ _ X)) as HS. apply sound_sym in HS.
    destruct (so_joined _ _ _ _ HS) as [Hl _]. cbn in Hl. rewrite (m_wrote _ _ _ _ (e_forth _ _ _ _ X)), Hw in Hl.
    pose proof (link_sizes Hl) as (_ & Hb & _). change (size []) with 0 in Hb. cbn in Hb.
    pose proof (l_syn Hl) as Hsyn. cbn in Hsyn. destruct (Z.eq_dec (TCPSender.byte_received (tx y')) 0) as [Hz|Hz].
    { destruct (Hsyn Hz). lia. }
    lia.
Qed.

(** A turn of the loop takes [x] and [y] to [x'] and [y']. *)
Record round (x y x2 y1 x1 y2 x' y' : side) : Prop := {
  r_acts : acts x x2;
  r_idle : TCPSender.unacked (tx x2) = [] -> TCPSender.eof (tx x2) = true;
  r_closed : ended_input (tx x) = true -> x2 = x;
  r_first : paired cap cap x2 y;
  r_exchanged : exchanged x2 y y1 x1;
  r_tick_x : ticked 1000 x1 x';
  r_tick_y : ticked 1000 y2 y';
  r_pair : paired cap cap x' y';
  r_tx : tx y2 = tx y1;
  r_out : out y2 = [];
  r_wrote : wrote y2 = wrote y1;
  r_got : exists t, got y' = got y ++ t;
  r_acked : forall L, acked L (rx y2) = acked L (rx y1);
  r_time : TCPConnection.time (conn y2) = TCPConnection.time (conn y1);
  r_last : TCPConnection.last_segment_time (conn y2) = TCPConnection.last_segment_time (conn y1);
  r_cfg : TCPConnection.cfg (conn y2) = TCPConnection.cfg (conn y1)
}.

Lemma received_idle cx cy x y :
  sound cx cy x y -> TCPSender.byte_received (tx x) = TCPSender.byte_sent (tx x) -> TCPSender.unacked (tx x) = [].
Proof.
  intros HS E. destruct (so_joined _ _ _ _ HS) as [Hxy _]. destruct (TCPSender.unacked (tx x)) as [|g q] eqn:Eu; [done|].
  destruct (oldest_place Hxy g q Eu) as (u & _ & _ & ? & ?). lia.
Qed.

Lemma on_time_tick k x x' :
  0 <= k -> 1000 * (k + 1) < M64 -> on_time k x -> ticked 1000 x x' -> on_time (k + 1) x'.
Proof.
  intros Hk Hm (T1 & T2 & T3) T. destruct (i_clock _ _ _ T) as (U1 & U2 & U3). unfold on_time.
  rewrite U1, U2, U3, T1, u64_id; [|lia]. split_and!; [lia|lia|lia|done].
Qed.

Lemma on_time_moved k x q y y' : on_time k y -> moved x q y y' -> on_time k y'.
Proof.
  intros (T1 & T2 & T3) M. destruct (m_clock _ _ _ _ M) as (U1 & U2 & U3). unfold on_time.
  rewrite U1, U3. destruct U2 as [-> | ->]; split_and!; done || lia.
Qed.

Lemma next_sending s b0 closed b x x2 y y1 x1 x' :
  sending s b0 closed x -> acts x x2 -> paired cap cap x2 y -> exchanged x2 y y1 x1 -> ticked 1000 x1 x' ->
  wrote x2 ++ Buffer.str b = s -> Buffer.buf_wf b -> (ended_input (tx x2) = true -> Buffer.buf_size b = 0) ->
  retries (tx x1) = 0 -> sending s b (ended_input (tx x2)) x'.
Proof.
  intros [_ _ _ _ _ Ho Hc _ _] Ha HP X T Hstr Hbuf Hemp Hr. pose proof (e_back _ _ _ _ X) as M.
  pose proof (m_ended _ _ _ _ M) as Me. pose proof (m_capacity _ _ _ _ M) as Mc. cbn in Me, Mc.
  destruct (m_adds _ _ _ _ M) as [l Hl]. pose proof (g_sent _ _ _ _ (a_grows _ _ _ _ _ Hl)) as Hg. cbn in Hg.
  pose proof (c_sent _ _ Ha). pose proof (i_retries _ _ _ T). constructor; try done.
  - apply T.
  - by rewrite (i_wrote _ _ _ T), (m_wrote _ _ _ _ M).
  - by rewrite (i_stream _ _ _ T).
  - rewrite (i_sent _ _ _ T). lia.
  - by rewrite (i_stream _ _ _ T), Mc, (c_capacity _ _ Ha).
  - lia.
  - rewrite (i_received _ _ _ T), (i_sent _ _ _ T). intros E.
    apply (received_idle _ _ _ _ (pr_sound _ _ _ _ (e_pair _ _ _ _ X))) in E.
    destruct (i_idle _ _ _ T E) as [-> _]. done.
Qed.

Lemma next_answering y x2 y1 x1 y2 x' y' :
  answering x2 y -> paired cap cap x2 y -> exchanged x2 y y1 x1 -> ticked 1000 x1 x' -> ticked 1000 y2 y' ->
  wrote y2 = wrote y1 -> tx y2 = tx y1 -> answering x' y'.
Proof.
  intros Han HP X Tx Ty Ew Et. destruct (answerer_calm _ _ _ _ HP X Han) as (R1 & R2 & R3).
  destruct Han as [_ Hw He Ho _ _ _]. pose proof (e_forth _ _ _ _ X) as M.
  destruct (m_adds _ _ _ _ M) as [l Hl]. pose proof (g_sent _ _ _ _ (a_grows _ _ _ _ _ Hl)) as Hg.
  pose proof (i_retries _ _ _ Ty) as Hr. pose proof (e_acked_y _ _ _ _ X). rewrite Et in Hr. constructor.
  - apply Ty.
  - by rewrite (i_wrote _ _ _ Ty), Ew, (m_wrote _ _ _ _ M).
  - by rewrite (i_stream _ _ _ Ty), Et, (m_ended _ _ _ _ M).
  - rewrite (i_sent _ _ _ Ty), Et. lia.
  - lia.
  - rewrite (i_stream _ _ _ Ty), (i_rx _ _ _ Tx), (i_sent _ _ _ Ty), Et. intros Hlt. rewrite R3 in Hr; lia.
  - rewrite (i_received _ _ _ Ty), (i_sent _ _ _ Ty), Et. intros E.
    pose proof (received_idle _ _ _ _ (sound_sym _ _ _ _ (pr_sound _ _ _ _ (e_pair _ _ _ _ X))) E) as Hu. cbn in Hu.
    rewrite <- Et in Hu. destruct (i_idle _ _ _ Ty Hu) as [-> _]. rewrite Et. by apply R2.
Qed.

Lemma turn_of_loop s k l x y :
  head s k l x y -> size s < stream_limit -> 0 <= k -> 1000 * (k + 1) < M64 ->
  exists l' x2 y1 x1 y2 x' y', Benchmark.loop false l = Ok l' /\ head s (k + 1) l' x' y' /\
    round x y x2 y1 x1 y2 x' y'.
Proof.
  intros Hh Hs Hk Hm. destruct (input_phase s k l x y Hh Hs) as
    (xa & x2 & b & Ein & Eend & HP & Ha & Hstr & Hbuf & Hemp & Hidle & Hsame).
  destruct Hh as [Ex Ey HP0 Hse Han Hgot Hread Cx Cy].
  destruct (exchange_phase x2 y HP) as (y1 & x1 & E1 & E2 & X); try apply Han; try done.
  { by apply (c_queue _ _ Ha), Hse. }
  destruct (read_works cap cap x1 (emptied y1) (e_pair _ _ _ _ X)) as
    (y2 & Er & HP2 & Ew & Et & Eo & Eg & En & Ek & C1 & C2 & C3).
  assert (Han2 : answering x2 y) by (destruct Han; constructor; rewrite ?(c_rx _ _ Ha); done).
  assert (Hcx : retries (tx x1) = 0).
  { apply (sender_calm _ _ _ _ HP X). destruct (so_joined _ _ _ _ (pr_sound _ _ _ _ HP0)) as [Hl _].
    pose proof (TCPSender.wf_received _ _ (l_wf Hl)). pose proof (c_sent _ _ Ha).
    rewrite (c_received _ _ Ha), (c_retries _ _ Ha). intros. apply Hse. lia. }
  destruct (answerer_calm _ _ _ _ HP X Han2) as (Hcy & _).
  destruct (tick_works cap cap x1 y2 1000 HP2) as (x' & Tx & HP3 & Wx); [by rewrite Hcx|].
  destruct (tick_works cap cap y2 x' 1000 (paired_sym _ _ _ _ HP3)) as (y' & Ty & HP4 & Wy).
  { rewrite Et. unfold TCPSender.MAX_RETX_ATTEMPTS. cbn. lia. }
  eexists _, x2, y1, x1, y2, x', y'. split; [|split].
  - unfold Benchmark.loop. rewrite Ein. cbn [mbind result_bind]. rewrite Eend, Ey, E1. cbn [mbind result_bind].
    rewrite E2. cbn [mbind result_bind]. rewrite Er, Tx. cbn [mbind result_bind]. rewrite Ty. reflexivity.
  - pose proof (on_time_moved _ _ _ _ _ Cy (e_forth _ _ _ _ X)) as Cy1.
    assert (Cx2 : on_time k (emptied x2)).
    { destruct (c_clock _ _ Ha) as (D1 & D2 & D3). unfold on_time. cbn. by rewrite D1, D2, D3. }
    assert (Cy2 : on_time k y2) by (unfold on_time; cbn in C1, C2, C3; by rewrite C1, C2, C3).
    pose proof (on_time_moved _ _ _ _ _ Cx2 (e_back _ _ _ _ X)) as Cx1.
    constructor; cbn; try done; [by apply paired_sym|by eapply next_sending|by eapply next_answering| | | |].
    + rewrite (i_got _ _ _ Wy), Eg. cbn. by rewrite (m_got _ _ _ _ (e_forth _ _ _ _ X)), Hgot.
    + by rewrite (i_rx _ _ _ Wy).
    + by apply (on_time_tick k x1).
    + by apply (on_time_tick k y2).
  - constructor; try done; [by apply paired_sym|]. eexists.
    by rewrite (i_got _ _ _ Wy), Eg; cbn; rewrite (m_got _ _ _ _ (e_forth _ _ _ _ X)).
Qed.

(** *** Progress *)

(** Everything is sent, the FIN included, and acknowledged. *)
Definition complete (s : TCPSender) : Prop :=
  TCPSender.eof s = true /\ TCPSender.byte_received s = TCPSender.byte_sent s.

Lemma complete_delivered cx cy x y :
  sound cx cy x y -> complete (tx x) ->
  ByteStream.input_ended (TCPConnection.inbound_stream (conn y)) = true /\ TCPSender.fin_acked (tx x) = true.
Proof.
  intros HS [He Er]. destruct (so_joined _ _ _ _ HS) as [Hxy _].
  assert (Ho : 1 <= TCPSender.byte_sent (tx x)).
  { pose proof (TCPSender.wf_received _ _ (l_wf Hxy)). destruct (Z.eq_dec (TCPSender.byte_sent (tx x)) 0) as [Hz|]; [|lia].
    destruct (TCPSender.wf_sent0 _ _ (l_wf Hxy) Hz). congruence. }
  destruct (settled_delivered _ _ _ _ HS (received_idle _ _ _ _ HS Er) Ho) as [(_ & _ & Hd) _]. apply Hd.
  pose proof (TCPSender.wf_eof _ _ (l_wf Hxy) He) as Hb. by apply andb_true_iff in Hb as [? _].
Qed.

(** How much of what [y] sends has arrived at [x]. *)
Abbreviation arrived x y := (acked (sent_bytes (tx y)) (rx x)).

Section Round.
Context {x y x2 y1 x1 y2 x' y' : side} (Hround : round x y x2 y1 x1 y2 x' y').

Lemma round_back_grows : grows (wrote x2) (tx x2) (wrote x2) (tx x').
Proof using Hround.
  destruct (m_adds _ _ _ _ (e_back _ _ _ _ (r_exchanged _ _ _ _ _ _ _ _ Hround))) as [l Hl].
  pose proof (r_tick_x _ _ _ _ _ _ _ _ Hround) as T. eapply link_grows_trans; [exact (a_grows _ _ _ _ _ Hl)|].
  apply grows_same; apply T.
Qed.

Lemma round_forth_grows : grows (wrote y) (tx y) (wrote y) (tx y').
Proof using Hround.
  destruct (m_adds _ _ _ _ (e_forth _ _ _ _ (r_exchanged _ _ _ _ _ _ _ _ Hround))) as [l Hl].
  pose proof (r_tick_y _ _ _ _ _ _ _ _ Hround) as T. pose proof (r_tx _ _ _ _ _ _ _ _ Hround) as E.
  eapply link_grows_trans; [exact (a_grows _ _ _ _ _ Hl)|].
  apply grows_same; rewrite <- E; apply T.
Qed.

Lemma round_wrote : wrote x' = wrote x2 /\ wrote y' = wrote y.
Proof using Hround.
  pose proof (r_exchanged _ _ _ _ _ _ _ _ Hround) as X. split.
  - rewrite (i_wrote _ _ _ (r_tick_x _ _ _ _ _ _ _ _ Hround)). apply (m_wrote _ _ _ _ (e_back _ _ _ _ X)).
  - rewrite (i_wrote _ _ _ (r_tick_y _ _ _ _ _ _ _ _ Hround)), (r_wrote _ _ _ _ _ _ _ _ Hround).
    apply (m_wrote _ _ _ _ (e_forth _ _ _ _ X)).
Qed.

(** The senders before and after, with what was written to them. *)
Lemma round_wf :
  TCPSender.wf (wrote x2) (tx x2) /\ TCPSender.wf (wrote x2) (tx x') /\
  TCPSender.wf (wrote y) (tx y) /\ TCPSender.wf (wrote y) (tx y').
Proof using Hround.
  destruct round_wrote as [Ex Ey].
  destruct (so_joined _ _ _ _ (pr_sound _ _ _ _ (r_first _ _ _ _ _ _ _ _ Hround))) as [H1 H2].
  destruct (so_joined _ _ _ _ (pr_sound _ _ _ _ (r_pair _ _ _ _ _ _ _ _ Hround))) as [H3 H4].
  rewrite Ex in H3. rewrite Ey in H4. split_and!; [apply H1|apply H3|apply H2|apply H4].
Qed.

Lemma round_received_x :
  TCPSender.byte_sent (tx x2) <= TCPSender.byte_received (tx x') /\
  TCPSender.byte_received (tx x) <= TCPSender.byte_received (tx x').
Proof using Hround.
  destruct round_wf as (H1 & _). pose proof (TCPSender.wf_received _ _ H1).
  pose proof (e_received_x _ _ _ _ (r_exchanged _ _ _ _ _ _ _ _ Hround)).
  rewrite (i_received _ _ _ (r_tick_x _ _ _ _ _ _ _ _ Hround)), <- (c_received _ _ (r_acts _ _ _ _ _ _ _ _ Hround)). lia.
Qed.

(** A turn advances [x], or [x] is done. *)
Lemma round_advances_x :
  TCPSender.byte_received (tx x) < TCPSender.byte_received (tx x') \/ complete (tx x').
Proof using Hround.
  pose proof (pr_sound _ _ _ _ (r_first _ _ _ _ _ _ _ _ Hround)) as HS.
  destruct (so_joined _ _ _ _ HS) as [Hl _]. destruct round_received_x as [R1 R2].
  destruct round_wf as (W1 & W2 & _). pose proof (TCPSender.wf_received _ _ W2).
  pose proof (c_received _ _ (r_acts _ _ _ _ _ _ _ _ Hround)) as Er.
  destruct (TCPSender.unacked (tx x2)) as [|g q] eqn:Eu.
  - right. pose proof (r_idle _ _ _ _ _ _ _ _ Hround Eu) as He.
    destruct (eof_sent _ _ _ W1 W2 round_back_grows He) as [He' Eb]. split; [done|]. lia.
  - left. destruct (oldest_place Hl g q Eu) as (u & _ & _ & ? & ?). lia.
Qed.

(** The same for [y], where [x] has to tell what it has. *)
Lemma round_arrived :
  TCPSender.byte_received (tx y') = arrived x y /\ TCPSender.byte_sent (tx y) <= arrived x' y' /\
  TCPSender.byte_received (tx y) <= arrived x y <= TCPSender.byte_sent (tx y).
Proof using Hround.
  pose proof (r_exchanged _ _ _ _ _ _ _ _ Hround) as X. pose proof (r_tick_y _ _ _ _ _ _ _ _ Hround) as T.
  pose proof (r_tx _ _ _ _ _ _ _ _ Hround) as Et. pose proof (e_acked_y _ _ _ _ X) as Ha.
  destruct (so_joined _ _ _ _ (pr_sound _ _ _ _ (r_first _ _ _ _ _ _ _ _ Hround))) as [_ Hl].
  pose proof (link_acked_sent Hl) as H1. pose proof (l_acked Hl) as H2.
  rewrite (c_rx _ _ (r_acts _ _ _ _ _ _ _ _ Hround)) in *.
  rewrite (i_received _ _ _ T), (i_stream _ _ _ T), Et, (i_rx _ _ _ (r_tick_x _ _ _ _ _ _ _ _ Hround)).
  rewrite (e_received_y _ _ _ _ X), (c_rx _ _ (r_acts _ _ _ _ _ _ _ _ Hround)). lia.
Qed.

Lemma round_advances_y :
  1 <= TCPSender.byte_sent (tx y) -> ended_input (tx y) = true ->
  TCPSender.byte_received (tx y) < TCPSender.byte_received (tx y') \/ arrived x y < arrived x' y' \/
  complete (tx y').
Proof using Hround.
  intros Ho He. destruct round_arrived as (R1 & R2 & R3). destruct round_wf as (_ & _ & W1 & W2).
  destruct (Z.lt_ge_cases (arrived x y) (TCPSender.byte_sent (tx y))) as [Hlt|Hge]; [right; left; lia|].
  destruct (Z.lt_ge_cases (TCPSender.byte_received (tx y)) (TCPSender.byte_received (tx y'))) as [Hlt|Hge'];
    [by left|right; right].
  pose proof (sound_sym _ _ _ _ (pr_sound _ _ _ _ (r_first _ _ _ _ _ _ _ _ Hround))) as HS.
  pose proof (idle_eof _ _ _ _ HS Ho He (received_idle _ _ _ _ HS ltac:(lia))) as Heof.
  destruct (eof_sent _ _ _ W1 W2 round_forth_grows Heof) as [He' Eb]. split; [done|].
  pose proof (TCPSender.wf_received _ _ W2). lia.
Qed.
(** Once both are done, only empty segments are sent, and these are not answered. *)
Section Quiet.
Context (HP : paired cap cap x y) (Cx : complete (tx x)) (Cy : complete (tx y)).
Context (Qx : TCPSender.segments_out (tx x) = []) (Qy : TCPSender.segments_out (tx y) = []).
Abbreviation quiet := (Forall (bare (TCPSender.isn (tx x)) (TCPSender.byte_sent (tx x)))).

Lemma round_same : x2 = x.
Proof using Hround HP Cx.
  apply (r_closed _ _ _ _ _ _ _ _ Hround). destruct (so_joined _ _ _ _ (pr_sound _ _ _ _ HP)) as [Hl _].
  destruct Cx as [He _]. apply (TCPSender.wf_eof _ _ (l_wf Hl)), andb_true_iff in He. apply He.
Qed.

Lemma quiet_complete : complete (tx x') /\ complete (tx y').
Proof using Hround HP Cx Cy.
  destruct round_wf as (W1 & W2 & W3 & W4). pose proof round_back_grows as G. rewrite round_same in *.
  destruct Cx as [Ex Rx], Cy as [Ey Ry].
  destruct (eof_sent _ _ _ W1 W2 G Ex) as [Ex' Bx]. destruct (eof_sent _ _ _ W3 W4 round_forth_grows Ey) as [Ey' By].
  pose proof (TCPSender.wf_received _ _ W2). pose proof (TCPSender.wf_received _ _ W4).
  destruct round_received_x as [_ Mx]. destruct round_arrived as (My & _ & Ry'). split; (split; [done|lia]).
Qed.

Lemma quiet_exchange :
  TCPSender.segments_out (tx y1) = [] /\ TCPSender.segments_out (tx x1) = [] /\ quiet (out x1) /\
  (quiet (out x) -> out y1 = out y) /\ (quiet (out x) -> out y = [] -> out x1 = []).
Proof using All.
  pose proof (r_exchanged _ _ _ _ _ _ _ _ Hround) as X. rewrite round_same in X.
  destruct (so_joined _ _ _ _ (pr_sound _ _ _ _ HP)) as [Hxy Hyx]. destruct Cx as [Ex Rx], Cy as [Ey Ry].
  pose proof (l_acked Hxy) as Ax. pose proof (link_acked_sent Hxy) as Bx.
  pose proof (l_acked Hyx) as Ay. pose proof (link_acked_sent Hyx) as By.
  destruct (m_eof _ _ _ _ (e_forth _ _ _ _ X) Ey Qy) as (Q1 & e & E1 & B1 & S1).
  destruct (m_eof _ _ _ _ (e_back _ _ _ _ X) Ex Qx) as (Q2 & e' & E2 & B2 & S2). cbn in E2, B2, S1, S2.
  destruct (m_adds _ _ _ _ (e_forth _ _ _ _ X)) as [l Hl].
  split_and!; [done|done|by rewrite E2| |].
  - intros Hq. rewrite E1, S1, app_nil_r; [done|lia|done].
  - intros Hq Ho. rewrite E2. apply S2; [|rewrite E1, S1, Ho; [done|lia|done]].
    pose proof (sound_sym _ _ _ _ (pr_sound _ _ _ _ HP)) as HS.
    assert (Hwy : TCPSender.wf (wrote y) (tx y1)).
    { pose proof (sound_sym _ _ _ _ (pr_sound _ _ _ _ (e_pair _ _ _ _ X))) as HS1.
      destruct (so_joined _ _ _ _ HS1) as [H _]. cbn in H. rewrite (m_wrote _ _ _ _ (e_forth _ _ _ _ X)) in H. apply H. }
    rewrite (acked_grow Hyx _ _ Hwy (a_grows _ _ _ _ _ Hl)).
    destruct (eof_sent _ _ _ (l_wf Hyx) Hwy (a_grows _ _ _ _ _ Hl) Ey) as [_ ->]. lia.
Qed.

Lemma quiet_round :
  out y' = [] /\ Forall (bare (TCPSender.isn (tx x')) (TCPSender.byte_sent (tx x'))) (out x') /\
  (quiet (out x) -> out y = [] -> out x' = []) /\
  (out x = [] -> out y = [] ->
     TCPConnection.last_segment_time (conn x') = TCPConnection.last_segment_time (conn x) /\
     TCPConnection.last_segment_time (conn y') = TCPConnection.last_segment_time (conn y)).
Proof using All.
  destruct quiet_exchange as (Q1 & Q2 & B & S1 & S2). destruct quiet_complete as [[_ Rx] [_ Ry]].
  pose proof (r_tick_x _ _ _ _ _ _ _ _ Hround) as Tx. pose proof (r_tick_y _ _ _ _ _ _ _ _ Hround) as Ty.
  pose proof (pr_sound _ _ _ _ (r_pair _ _ _ _ _ _ _ _ Hround)) as HS.
  pose proof (received_idle _ _ _ _ HS Rx) as Ux. pose proof (received_idle _ _ _ _ (sound_sym _ _ _ _ HS) Ry) as Uy.
  rewrite (i_unacked _ _ _ Tx) in Ux. rewrite (i_unacked _ _ _ Ty) in Uy.
  destruct (i_idle _ _ _ Tx Ux) as [_ Ox]. destruct (i_idle _ _ _ Ty Uy) as [_ Oy].
  rewrite Q2 in Ox. cbn in Ox. rewrite app_nil_r in Ox.
  rewrite (r_tx _ _ _ _ _ _ _ _ Hround), Q1, (r_out _ _ _ _ _ _ _ _ Hround) in Oy. cbn in Oy.
  destruct round_wf as (W1 & W2 & _). pose proof round_back_grows as G. rewrite round_same in *.
  destruct (eof_sent _ _ _ W1 W2 G (proj1 Cx)) as [_ Eb].
  rewrite Ox, Eb, (g_isn _ _ _ _ G). split_and!; try done. intros Ex Ey.
  destruct (i_clock _ _ _ Tx) as (_ & -> & _). destruct (i_clock _ _ _ Ty) as (_ & -> & _).
  pose proof (r_exchanged _ _ _ _ _ _ _ _ Hround) as X. rewrite round_same in X. split.
  - etrans; [apply (m_idle _ _ _ _ (e_back _ _ _ _ X))|done]. rewrite S1; [done|]. by rewrite Ex.
  - rewrite (r_last _ _ _ _ _ _ _ _ Hround). by apply (m_idle _ _ _ _ (e_forth _ _ _ _ X)).
Qed.
End Quiet.
End Round.

(** ** The loops *)

(** [while (condition) loop()] ends when [Inv n] says that [n] turns are left. *)
Lemma loop_while_ends condition (Inv : Z -> Benchmark.Locals -> Prop) :
  (forall n l, Inv n l -> condition l = true ->
     0 < n /\ exists l', Benchmark.loop false l = Ok l' /\ Inv (n - 1) l') ->
  forall fuel n l, Inv n l -> n <= Z.of_nat fuel ->
  exists n' l', Benchmark.loop_while fuel condition false l = Ok (true, l') /\ Inv n' l' /\ condition l' = false.
Proof.
  intros Hstep. induction fuel as [|fuel IH]; intros n l Hi Hn; cbn [Benchmark.loop_while];
    destruct (condition l) eqn:Ec; cbn [negb]; try (by exists n, l);
    destruct (Hstep n l Hi Ec) as (H0 & l' & E & Hi'); [lia|].
  rewrite E. cbn [mbind result_bind]. apply (IH (n - 1)); [done|lia].
Qed.

Section Loops.
Context (s : bytes) (Hs : size s < stream_limit).

Lemma head_sizes k l x y :
  head s k l x y ->
  0 <= TCPSender.byte_received (tx x) <= size s + 2 /\ 0 <= TCPSender.byte_received (tx y) <= 2 /\
  0 <= arrived x y <= 2.
Proof using.
  intros [_ _ HP Hse Han _ _ _ _]. destruct (so_joined _ _ _ _ (pr_sound _ _ _ _ HP)) as [Hx Hy].
  pose proof (link_sizes Hx) as (_ & Bx & _). pose proof (link_sizes Hy) as (_ & By & _).
  rewrite (an_wrote _ _ Han) in By. change (size []) with 0 in By.
  pose proof (f_equal size (se_string _ _ _ _ Hse)) as Es. rewrite size_app in Es.
  pose proof (size_nonneg (Buffer.str (Benchmark.bytes_to_send l))).
  pose proof (TCPSender.wf_received _ _ (l_wf Hx)). pose proof (TCPSender.wf_received _ _ (l_wf Hy)).
  pose proof (link_acked_sent Hy). lia.
Qed.

(** What [y] has read is part of the string, and all of it at the end. *)
Lemma head_got k l x y :
  head s k l x y -> size (got y) <= size s /\
  (ByteStream.eof (TCPConnection.inbound_stream (conn y)) = true -> got y = s).
Proof using.
  intros [_ _ HP [_ Hstr _ Hcl Hemp _ _ _ _] _ _ Hread _ _].
  destruct (so_joined _ _ _ _ (pr_sound _ _ _ _ HP)) as [Hx _].
  pose proof (f_equal size Hstr) as Es. rewrite size_app in Es.
  pose proof (size_nonneg (Buffer.str (Benchmark.bytes_to_send l))).
  destruct (link_transfers _ _ _ _ _ Hx) as [Hr He]. destruct (link_received _ _ _ _ _ _ Hx) as [Hsz _].
  pose proof (link_first Hx). pose proof (link_sizes Hx) as (Hb & _).
  unfold received in *. unfold TCPConnection.inbound_stream in *. rewrite Hread, app_nil_r in *.
  split; [lia|]. intros [Hend _]%andb_true_iff. rewrite (He Hend), <- Hstr.
  pose proof (TCPSender.wf_eof _ _ (l_wf Hx) (l_fin Hx (l_end Hx Hend))) as [Hin _]%andb_true_iff.
  rewrite Hin in Hcl. specialize (Hemp Hcl). apply size_0_nil in Hemp. by rewrite Hemp, app_nil_r.
Qed.

(** The first loop: [n] turns are left. *)
Definition sending_turns (n : Z) (l : Benchmark.Locals) : Prop :=
  exists k x y, head s k l x y /\ 0 <= k /\ k + Z.max 0 n <= size s + 3 /\
    (ByteStream.eof (TCPConnection.inbound_stream (conn y)) = true \/
     size s + 2 - TCPSender.byte_received (tx x) < n).

Lemma sending_step n l :
  sending_turns n l -> negb (ByteStream.eof (TCPConnection.inbound_stream (Benchmark.y l))) = true ->
  0 < n /\ exists l', Benchmark.loop false l = Ok l' /\ sending_turns (n - 1) l'.
Proof using Hs.
  intros (k & x & y & Hh & Hk & Hb & Hm) Hc. rewrite (hd_y _ _ _ _ _ Hh) in Hc. apply negb_true_iff in Hc.
  destruct Hm as [Hm|Hm]; [congruence|]. pose proof (head_sizes _ _ _ _ Hh) as (Sx & _). split; [lia|].
  unfold stream_limit in Hs.
  destruct (turn_of_loop s k l x y Hh Hs Hk ltac:(lia)) as (l' & x2 & y1 & x1 & y2 & x' & y' & E & Hh' & R).
  exists l'. split; [done|]. exists (k + 1), x', y'. split; [done|]. split; [lia|]. split; [lia|].
  destruct (round_advances_x R) as [?|Hd]; [right; lia|left].
  destruct (complete_delivered _ _ _ _ (pr_sound _ _ _ _ (hd_pair _ _ _ _ _ Hh')) Hd) as [He _].
  unfold ByteStream.eof, ByteStream.buffer_empty. unfold ByteStream.input_ended in He. rewrite He.
  unfold TCPConnection.inbound_stream. by rewrite (hd_read _ _ _ _ _ Hh').
Qed.

(** The second loop: until everything is acknowledged, until nothing is sent any more, and
    until the time-out. *)
Definition still_missing (x y : side) : Z :=
  size s + 6 - TCPSender.byte_received (tx x) - TCPSender.byte_received (tx y) - arrived x y.
Definition lingered (n : Z) (x : side) : Prop :=
  10000 <= 1000 * n + (TCPConnection.time (conn x) - TCPConnection.last_segment_time (conn x)).

Definition closing_stage (n : Z) (x y : side) : Prop :=
  still_missing x y + 13 <= n \/
  (complete (tx x) /\ complete (tx y) /\
   (12 <= n \/
    (out y = [] /\ Forall (bare (TCPSender.isn (tx x)) (TCPSender.byte_sent (tx x))) (out x) /\
     (11 <= n \/ (out x = [] /\ lingered n x /\ lingered n y))))).

Definition closing_turns (n : Z) (l : Benchmark.Locals) : Prop :=
  Benchmark.string_received l = s /\
  exists k x y, head s k l x y /\ 0 <= k /\ k + Z.max 0 n <= 2 * size s + 30 /\ closing_stage n x y.

Lemma closing_next n k l x y x2 y1 x1 y2 x' y' l' :
  head s k l x y -> head s (k + 1) l' x' y' -> round x y x2 y1 x1 y2 x' y' ->
  closing_stage n x y -> closing_stage (n - 1) x' y'.
Proof using.
  intros Hh Hh' R Hst. pose proof (hd_sending _ _ _ _ _ Hh) as Se. pose proof (hd_answering _ _ _ _ _ Hh) as An.
  pose proof (hd_pair _ _ _ _ _ Hh) as HP. destruct Hst as [Hm|(Cx & Cy & Hst)].
  - pose proof (head_sizes _ _ _ _ Hh') as (S1 & S2 & S3). destruct (round_received_x R) as [_ M1].
    destruct (round_arrived R) as (M2 & M3 & M4). unfold closing_stage, still_missing in *.
    destruct (round_advances_x R) as [?|Dx]; [left; lia|].
    destruct (round_advances_y R (an_open _ _ An) (an_ended _ _ An)) as [?|[?|Dy]]; [left; lia..|].
    right. split_and!; [done|done|]. left. lia.
  - destruct (quiet_complete R HP Cx Cy) as [Dx Dy]. right. split_and!; [done|done|].
    destruct (quiet_round R HP Cx Cy (se_queue _ _ _ _ Se) (an_queue _ _ An)) as (Oy & Ox & Hx & Hl).
    destruct Hst as [Hn|(Ey & Bx & Hst)]; [right; split_and!; [done|done|left; lia]|].
    right. split_and!; [done|done|]. right. split; [by apply Hx|].
    destruct (hd_clock_x _ _ _ _ _ Hh) as (Tx & Lx & _), (hd_clock_y _ _ _ _ _ Hh) as (Ty & Ly & _).
    destruct (hd_clock_x _ _ _ _ _ Hh') as (Tx' & Lx' & _), (hd_clock_y _ _ _ _ _ Hh') as (Ty' & Ly' & _).
    unfold lingered in *. destruct Hst as [Hn|(Ex & H1 & H2)]; [lia|].
    destruct (Hl Ex Ey) as [-> ->]. lia.
Qed.

(** When the time is up, both are closed. *)
Lemma closing_active n k l x y :
  head s k l x y -> closing_stage n x y -> n <= 0 -> 0 <= k -> 1000 * k < M64 ->
  TCPConnection.active (conn x) = false /\ TCPConnection.active (conn y) = false.
Proof using.
  intros Hh Hst Hn Hk Hm. pose proof (head_sizes _ _ _ _ Hh) as (S1 & S2 & S3).
  unfold closing_stage, still_missing, lingered in Hst.
  destruct Hst as [?|(Cx & Cy & [?|(_ & _ & [?|(_ & Lx & Ly)])])]; [lia..|].
  pose proof (pr_sound _ _ _ _ (hd_pair _ _ _ _ _ Hh)) as HS.
  destruct (complete_delivered _ _ _ _ HS Cx) as [Ey Fx].
  destruct (complete_delivered _ _ _ _ (sound_sym _ _ _ _ HS) Cy) as [Ex Fy].
  destruct (hd_clock_x _ _ _ _ _ Hh) as (Tx & Bx & Kx), (hd_clock_y _ _ _ _ _ Hh) as (Ty & By & Ky).
  split; apply done_inactive; try done; rewrite ?Kx, ?Ky;
    unfold TCPConnection.time_since_last_segment_received; rewrite u64_id by lia;
    change (10 * _) with 10000; lia.
Qed.

Lemma closing_step n l :
  closing_turns n l ->
  TCPConnection.active (Benchmark.x l) || TCPConnection.active (Benchmark.y l) = true ->
  0 < n /\ exists l', Benchmark.loop false l = Ok l' /\ closing_turns (n - 1) l'.
Proof using Hs.
  intros (Er & k & x & y & Hh & Hk & Hb & Hst) Hc. pose proof Hs as Hs'. unfold stream_limit in Hs'.
  pose proof (size_nonneg s). rewrite (hd_x _ _ _ _ _ Hh), (hd_y _ _ _ _ _ Hh) in Hc.
  assert (Hn : 0 < n).
  { destruct (Z.lt_ge_cases 0 n) as [|Hn]; [done|].
    destruct (closing_active n k l x y Hh Hst Hn Hk ltac:(lia)) as [E1 E2]. by rewrite E1, E2 in Hc. }
  split; [done|].
  destruct (turn_of_loop s k l x y Hh Hs Hk ltac:(lia)) as (l' & x2 & y1 & x1 & y2 & x' & y' & E & Hh' & R).
  exists l'. split; [done|]. split.
  - rewrite <- (hd_got _ _ _ _ _ Hh'). destruct (r_got _ _ _ _ _ _ _ _ R) as [t Et].
    rewrite Et. rewrite <- (hd_got _ _ _ _ _ Hh) in Er. rewrite Er in *.
    destruct (head_got _ _ _ _ Hh') as [Hle _]. rewrite Et, size_app in Hle.
    rewrite (size_0_nil t), app_nil_r; [done|]. size_lia.
  - exists (k + 1), x', y'. split; [done|]. split; [lia|]. split; [lia|].
    by apply (closing_next n k l x y x2 y1 x1 y2 x' y' l').
Qed.
End Loops.

(** ** The whole program *)

Lemma fresh_paired k1 n1 k2 n2 :
  config_ok k1 n1 -> config_ok k2 n2 ->
  paired (TCPSender.recv_capacity k1) (TCPSender.recv_capacity k2) (fresh k1 n1) (fresh k2 n2).
Proof.
  intros H1 H2. constructor; try done; try (by left).
  apply (duplex_sound k1 n1 k2 n2); [done|done|apply rtc_refl].
Qed.

Lemma connect_works cx cy x y :
  paired cx cy x y ->
  exists x', TCPConnection.connect (conn x) = conn x' /\ paired cx cy x' y /\ acts x x' /\
    wrote x' = wrote x /\ ended_input (tx x') = ended_input (tx x) /\ 1 <= TCPSender.byte_sent (tx x').
Proof.
  intros HP. pose proof (pr_sound _ _ _ _ HP) as HS. destruct (so_joined _ _ _ _ HS) as [Hxy _].
  destruct (sound_op cx cy x y TCPConnection.Connect I HS) as (x' & E & HS').
  unfold apply_side in E. cbn [TCPConnection.apply_op mbind result_bind TCPConnection.written] in E.
  injection E as <-. rewrite !app_nil_r in HS'. set (b := TCPSender.stream (tx x)).
  assert (Es : TCPSender.set_stream b (tx x) = tx x) by (subst b; by destruct (tx x)).
  assert (Ec : TCPConnection.connect (conn x) = refilled b (conn x)) by (unfold refilled; by rewrite Es).
  rewrite Ec in *. destruct (refilled_paired cx cy x y (wrote x) b HP HS') as (HP' & Ha & Ho).
  - rewrite Es. apply Hxy.
  - by apply grows_same.
  - done.
  - eexists. split; [|split; [exact HP'|split; [exact Ha|]]]; [done|]. split; [done|]. split; [|exact Ho]. cbn.
    by destruct (Progress.fill_window_frame (TCPSender.set_stream b (tx x))) as [_ ->].
Qed.

Abbreviation default_side r := (fresh TCPSender.default_config r).

(** The state before the first turn. *)
Lemma benchmark_starts s rx ry :
  size s < stream_limit -> 0 <= rx < 4294967296 -> 0 <= ry < 4294967296 ->
  exists x y, head s 0 (Benchmark.mkLocals
    (TCPConnection.connect (TCPConnection.construct TCPSender.default_config rx))
    (TCPConnection.end_input_stream (TCPConnection.construct TCPSender.default_config ry))
    (Buffer.of_string s) false []) x y.
Proof.
  intros Hs Hx Hy. unfold stream_limit in Hs.
  assert (Hok : forall r, 0 <= r < 4294967296 -> config_ok TCPSender.default_config r).
  { intros r Hr. unfold config_ok, wi_wf. cbn. unfold TCPSender.DEFAULT_CAPACITY, TCPSender.TIMEOUT_DFLT. lia. }
  pose proof (fresh_paired _ rx _ ry (Hok rx Hx) (Hok ry Hy)) as HP.
  destruct (connect_works _ _ _ _ HP) as (x & Ex & HP1 & Ax & Wx & Ix & Ox).
  destruct (end_works _ _ _ _ (paired_sym _ _ _ _ HP1)) as (y & Ey & HP2 & Ay & Wy & Iy & Oy).
  apply paired_sym in HP2. exists x, y.
  destruct (c_clock _ _ Ax) as (T1 & T2 & T3), (c_clock _ _ Ay) as (U1 & U2 & U3).
  pose proof (c_retries _ _ Ax) as Rx. pose proof (c_retries _ _ Ay) as Ry. cbn in Rx, Ry.
  constructor; cbn; try done.
  - constructor; try done; [by apply (c_queue _ _ Ax)|..].
    + by rewrite Wx, Buffer.str_of_string by lia.
    + apply Buffer.of_string_wf. lia.
    + by rewrite (c_capacity _ _ Ax).
    + lia.
  - constructor; try done; [by apply (c_queue _ _ Ay)|lia..].
  - by rewrite (c_got _ _ Ay).
  - by rewrite (c_rx _ _ Ay).
  - unfold on_time. by rewrite T1, T2, T3.
  - unfold on_time. by rewrite U1, U2, U3.
Qed.

(** Closed, and not by a reset. *)
Definition closed_cleanly (c : TCPConnection) : Prop :=
  TCPConnection.active c = false /\ TCPConnection.rst c = false.

(** C9: The benchmark completes.  For every string shorter than 2^31 - 3 bytes (the program
    has 100 MiB) and all initial sequence numbers, the two loops of [main_loop] without
    reordering end, after at most one turn for each byte and nineteen more: nothing is thrown,
    the string received is the string sent, and both connections are closed, neither of them
    by a reset. *)
Theorem benchmark_completes s rx ry fuel :
  size s < stream_limit -> 0 <= rx < 4294967296 -> 0 <= ry < 4294967296 ->
  size s + 19 <= Z.of_nat fuel ->
  exists l, Benchmark.main_loop fuel s rx ry false = Ok (true, l) /\ Benchmark.string_received l = s /\
    closed_cleanly (Benchmark.x l) /\ closed_cleanly (Benchmark.y l).
Proof.
  intros Hs Hx Hy Hf. unfold Benchmark.main_loop. cbv zeta.
  destruct (benchmark_starts s rx ry Hs Hx Hy) as (x & y & Hh). pose proof (size_nonneg s).
  pose proof (head_sizes _ _ _ _ _ Hh) as (Sx & _).
  destruct (loop_while_ends _ (sending_turns s) (sending_step s Hs) fuel (size s + 3) _
    ltac:(exists 0, x, y; split; [exact Hh|]; split; [lia|]; split; [lia|right; lia]) ltac:(lia))
    as (n1 & l1 & E1 & (k1 & x1 & y1 & Hh1 & Hk1 & Hb1 & _) & Hc1).
  rewrite E1. cbn [mbind result_bind negb]. rewrite (hd_y _ _ _ _ _ Hh1) in Hc1. apply negb_false_iff in Hc1.
  destruct (head_got _ _ _ _ _ Hh1) as [_ Hg]. specialize (Hg Hc1). rewrite (hd_got _ _ _ _ _ Hh1) in Hg.
  rewrite (bool_decide_eq_true_2 _ Hg). cbn [negb]. pose proof (head_sizes _ _ _ _ _ Hh1) as (S1 & S2 & S3).
  destruct (loop_while_ends _ (closing_turns s) (closing_step s Hs) fuel (size s + 19) l1)
    as (n2 & l2 & E2 & (Er & k2 & x2 & y2 & Hh2 & _) & Hc2); [|done|].
  { split; [done|]. exists k1, x1, y1. split; [done|]. split; [done|]. split; [lia|]. left. unfold still_missing. lia. }
  exists l2. apply orb_false_iff in Hc2 as [A1 A2]. split_and!; try done; split; try done.
  - rewrite (hd_x _ _ _ _ _ Hh2). apply (pr_left _ _ _ _ (hd_pair _ _ _ _ _ Hh2)).
  - rewrite (hd_y _ _ _ _ _ Hh2). apply (pr_right _ _ _ _ (hd_pair _ _ _ _ _ Hh2)).
Qed.

Lemma benchmark_completes_witness :
  exists l, Benchmark.main_loop 30 (text_a ++ text_b) 4294967295 7 false = Ok (true, l) /\
    Benchmark.string_received l = text_a ++ text_b /\
    closed_cleanly (Benchmark.x l) /\ closed_cleanly (Benchmark.y l).
Proof.
  destruct (benchmark_completes (text_a ++ text_b) 4294967295 7 30) as (l & E & Er & Ax & Ay).
  - vm_compute. reflexivity.
  - lia.
  - lia.
  - vm_compute. congruence.
  - exists l. split; [exact E|]. split; [exact Er|]. split; [exact Ax|exact Ay].
Defined.
