(* ===== verification/Handshake.v ===== *)
(** The life of a connection over a network that loses nothing: how two endpoints of
    [libsponge/tcp_connection.cc] open and close a connection when their segments are
    moved from one to the other as [apps/tcp_benchmark.cc] does it. *)
From S2P Require Import Prelude WrappingIntegers.
From S2P Require Buffer ByteStream StreamReassembler TCPSegment TCPHeader TCPReceiver TCPSender.
From S2P Require TCPState TCPConnection Benchmark.
Import TCPSegment(TCPSegment).
Import TCPConnection(TCPConnection).
Import Benchmark(move_segments).

(** ** The states of an endpoint, written out *)

Section Endpoint.
Context (cfg : TCPSender.TCPConfig) (random : Z).

(** The initial sequence number. *)
Definition start : WrappingInt32 := default (mkWrappingInt32 random) (TCPSender.fixed_isn cfg).

Definition control (n : Z) (syn fin : bool) : TCPSegment :=
  TCPSegment.mkTCPSegment
    (TCPHeader.set_seqno (wrap n start) (TCPHeader.set_fin fin (TCPHeader.set_syn syn TCPHeader.default)))
    (Buffer.of_string []).

(** The sender once it has sent [sent] sequence numbers and [acked] of them are
    acknowledged; [e] says that the stream has ended, [q] is what is outstanding. *)
Definition sender (sent acked w : Z) (e : bool) (q : list TCPSegment) : TCPSender.TCPSender :=
  let rt := TCPSender.rt_timeout cfg in
  TCPSender.mkSender start [] rt
    (ByteStream.mkByteStream false e [] 0 0 (TCPSender.send_capacity cfg)) 0 q
    (TCPSender.mkTimer (negb (bool_decide (q = []))) 0 0 rt) 0 w sent acked e.

(** The receiver that has heard the SYN, and perhaps the FIN, of a peer that starts at
    [peer]. *)
Definition receiver (peer : WrappingInt32) (e : bool) : TCPReceiver.TCPReceiver :=
  let c := TCPSender.recv_capacity cfg in
  TCPReceiver.mkReceiver
    (StreamReassembler.mkReassembler 0 e [] 0 (ByteStream.mkByteStream false e [] 0 0 c) c) c
    peer true e.

Definition endpoint (r : TCPReceiver.TCPReceiver) (s : TCPSender.TCPSender) (q : list TCPSegment)
    : TCPConnection := TCPConnection.mkConnection cfg r s q true false 0 0.

Definition synced : TCPSender.TCPSender := sender 1 0 1 false [control 0 true false].
Definition listening : TCPConnection := TCPConnection.construct cfg random.
Definition syn_sent : TCPConnection :=
  endpoint (TCPReceiver.construct (TCPSender.recv_capacity cfg)) synced [control 0 true false].
Definition syn_rcvd (peer : WrappingInt32) : TCPConnection :=
  endpoint (receiver peer false) synced
    [TCPConnection.receiver_info (receiver peer false) (control 0 true false)].
Definition established (peer : WrappingInt32) (w : Z) (q : list TCPSegment) : TCPConnection :=
  endpoint (receiver peer false) (sender 1 1 w false []) q.

Lemma connect_sends_syn : TCPConnection.connect listening = syn_sent.
Proof. reflexivity. Qed.

(** A window of the peer, from a header. *)
Lemma fill_idle sent w :
  0 < sent < M64 -> 0 <= w < 65536 ->
  TCPSender.fill_window (sender sent sent w false []) = sender sent sent w false [].
Proof.
  intros Hs Hw. unfold TCPSender.fill_window, TCPSender.fill_fuel.
  replace (Z.to_nat (2 + TCPSender.window_size (sender sent sent w false [])))
    with (S (Z.to_nat (1 + w))) by (cbn; lia).
  cbn [TCPSender.fill_loop]. unfold TCPSender.fill_body, TCPSender.bytes_in_flight. cbn.
  replace (sent =? 0) with false by lia. rewrite Z.sub_diag. change (u64 0) with 0.
  change (TCPSegment.length_in_sequence_space (TCPSegment.mkTCPSegment TCPHeader.default Buffer.empty_buffer))
    with 0.
  set (win := if 0 <? w then w else 1).
  assert (Hwin : 1 <= win < 65536) by (unfold win; case_Z; lia).
  change (ByteStream.buffer_size _) with 0. change (u64 (0 + 0)) with 0.
  replace (u64 (u64 (win - 0) - 0)) with win by (rewrite !Z.sub_0_r, !u64_id; rewrite ?u64_id; lia).
  replace (win <? 0) with false by lia. replace (win <=? 0) with false by lia.
  replace (0 <? win) with true by lia. done.
Qed.

(** The acknowledgement of the SYN. *)
Lemma syn_acknowledged w :
  0 <= w < 65536 ->
  TCPSender.ack_received (wrap 1 start) w synced = (true, sender 1 1 w false []).
Proof.
  intros Hw. unfold TCPSender.ack_received. cbn [TCPSender.isn TCPSender.byte_received synced sender].
  rewrite unwrap_wrap_near by lia. cbn [TCPSender.byte_sent TCPSender.set_window_size synced sender].
  change (1 <? 1) with false. change (1 <? 0) with false. change (1 =? 0) with false. cbv iota.
  f_equal. etransitivity; [|apply (fill_idle 1 w); lia]. f_equal.
  unfold TCPSender.accept_ack. cbn. rewrite unwrap_wrap_near by lia. done.
Qed.

(** The end of the stream: the FIN is sent at once. *)
Lemma fill_fin w :
  0 <= w < 65536 ->
  let s := sender 1 1 w false [] in
  TCPSender.fill_window (TCPSender.set_stream (ByteStream.end_input (TCPSender.stream_in s)) s) =
  TCPSender.set_segments_out [control 1 false true] (sender 2 1 w true [control 1 false true]).
Proof.
  intros Hw s. unfold TCPSender.fill_window, TCPSender.fill_fuel.
  replace (Z.to_nat _) with (S (S (Z.to_nat w))) by (cbn; lia).
  cbn [TCPSender.fill_loop]. unfold TCPSender.fill_body at 1, TCPSender.bytes_in_flight. cbn.
  change (u64 (1 - 1)) with 0.
  change (TCPSegment.length_in_sequence_space (TCPSegment.mkTCPSegment TCPHeader.default Buffer.empty_buffer))
    with 0.
  set (win := if 0 <? w then w else 1).
  assert (Hwin : 1 <= win < 65536) by (unfold win; case_Z; lia).
  change (ByteStream.buffer_size _) with 0. change (u64 (0 + 0)) with 0.
  replace (u64 (u64 (win - 0) - 0)) with win by (rewrite !Z.sub_0_r, !u64_id; rewrite ?u64_id; lia).
  replace (win <? 0) with false by lia. replace (win <=? 0) with false by lia.
  replace (0 <? win) with true by lia. cbn.
  change (u64 (0 + TCPSegment.length_in_sequence_space _) <? win) with (0 <? win).
  replace (0 <? win) with true by lia. reflexivity.
Qed.

(** A sender that has ended its stream has nothing more to send. *)
Lemma fill_ended sent acked w q :
  0 <= w -> TCPSender.fill_window (sender sent acked w true q) = sender sent acked w true q.
Proof.
  intros Hw. unfold TCPSender.fill_window, TCPSender.fill_fuel.
  by replace (Z.to_nat _) with (S (Z.to_nat (1 + w))) by (cbn; lia).
Qed.

(** The acknowledgement of the FIN, and the repeated one of everything. *)
Lemma fin_acknowledged w :
  0 <= w < 65536 ->
  TCPSender.ack_received (wrap 2 start) w (sender 2 1 w true [control 1 false true]) =
  (true, sender 2 2 w true []).
Proof.
  intros Hw. unfold TCPSender.ack_received. cbn [TCPSender.isn TCPSender.byte_received sender].
  rewrite unwrap_wrap_near by lia. cbn [TCPSender.byte_sent TCPSender.set_window_size sender].
  change (2 <? 2) with false. change (2 <? 1) with false. change (2 =? 1) with false. cbv iota.
  f_equal. etransitivity; [|apply (fill_ended 2 2 w []); lia]. f_equal.
  unfold TCPSender.accept_ack. cbn. rewrite unwrap_wrap_near by lia. done.
Qed.

Lemma nothing_acknowledged n w e :
  0 < n < 2147483648 -> 0 <= w < 65536 ->
  TCPSender.ack_received (wrap n start) w (sender n n w e []) = (true, sender n n w e []).
Proof.
  intros Hn Hw. unfold TCPSender.ack_received. cbn [TCPSender.isn TCPSender.byte_received sender].
  rewrite unwrap_wrap_near by lia. cbn [TCPSender.byte_sent TCPSender.byte_received TCPSender.set_window_size sender].
  rewrite Z.ltb_irrefl, Z.eqb_refl. f_equal. change (TCPSender.set_window_size w (sender n n w e []))
    with (sender n n w e []). destruct e; [apply fill_ended|apply fill_idle]; lia.
Qed.

End Endpoint.

(** ** Opening *)

Section Pair.
Context (ca cb : TCPSender.TCPConfig) (ra rb : Z).
Abbreviation xs := (start ca ra).
Abbreviation ys := (start cb rb).
Context (Hxs : wi_wf xs) (Hys : wi_wf ys).
Context (Hca : 0 <= TCPSender.recv_capacity ca < 9223372036854775808)
  (Hcb : 0 <= TCPSender.recv_capacity cb < 9223372036854775808).

(** The window that an endpoint advertises. *)
Definition window (c : TCPSender.TCPConfig) : Z := u16 (TCPSender.recv_capacity c).

Lemma window_range c : 0 <= window c < 65536.
Proof. apply u16_range. Qed.

(** An acknowledgement of everything so far, without data. *)
Definition bare_ack (c : TCPSender.TCPConfig) (r n : Z) (peer : WrappingInt32) (e : bool) : TCPSegment :=
  TCPConnection.receiver_info (receiver c peer e)
    (TCPSegment.mkTCPSegment (TCPHeader.set_seqno (wrap n (start c r)) TCPHeader.default)
       Buffer.empty_buffer).

Lemma syn_arrives :
  TCPConnection.segment_received (control ca ra 0 true false) (listening cb rb) =
  Ok (syn_rcvd cb rb xs).
Proof using Hxs.
  rewrite <- (wrap_0 xs Hxs). reflexivity.
Qed.

(** The window in a header. *)
Lemma advertised c peer e :
  0 <= TCPSender.recv_capacity c < 9223372036854775808 ->
  u16 (TCPReceiver.window_size (receiver c peer e)) = window c.
Proof using.
  intros Hc. unfold TCPReceiver.window_size, ByteStream.remaining_capacity. cbn.
  by rewrite Z.sub_0_r, u64_id by lia.
Qed.

Lemma synack_arrives :
  TCPConnection.segment_received
    (TCPConnection.receiver_info (receiver cb xs false) (control cb rb 0 true false))
    (TCPConnection.set_segments_out [] (syn_sent ca ra)) =
  Ok (established ca ra ys (window cb) [bare_ack ca ra 1 ys false]).
Proof using Hys Hcb.
  unfold TCPConnection.segment_received. cbn -[TCPSender.ack_received u16 wrap TCPReceiver.window_size].
  rewrite advertised by done. change (u64 (1 + 0 + 0)) with 1.
  rewrite syn_acknowledged by apply window_range. rewrite wrap_0 by done. reflexivity.
Qed.

(** What the receiver makes of a segment without data at the start of the stream. *)
Lemma receiver_hears c peer seg :
  0 <= TCPSender.recv_capacity c < 9223372036854775808 ->
  Buffer.copy (TCPSegment.payload seg) = [] -> Buffer.buf_size (TCPSegment.payload seg) = 0 ->
  TCPHeader.seqno (TCPSegment.header seg) = wrap 1 peer -> TCPHeader.syn (TCPSegment.header seg) = false ->
  TCPReceiver.segment_received seg (receiver c peer false) =
  Ok (true, receiver c peer (TCPHeader.fin (TCPSegment.header seg))).
Proof using.
  intros Hc Hp Hz Hs Hy. unfold TCPReceiver.segment_received. rewrite Hp, Hz, Hs, Hy.
  cbn -[TCPReceiver.window_size wrap unwrap u64]. change (u64 (1 + 0 + 0)) with 1.
  rewrite !unwrap_wrap_near by lia. unfold TCPReceiver.window_size, ByteStream.remaining_capacity.
  cbn -[u64]. rewrite !Z.sub_0_r, (u64_id (TCPSender.recv_capacity c)) by lia.
  change (u64 (1 - 1)) with 0. change (u64 (1 + 1)) with 2.
  destruct (TCPHeader.fin (TCPSegment.header seg)); cbn -[u64];
    (destruct (Z.eqb_spec (TCPSender.recv_capacity c) 0); [reflexivity|]);
    rewrite u64_id by lia; by replace (1 <? 1 + TCPSender.recv_capacity c) with true by lia.
Qed.

Lemma ack_arrives :
  TCPConnection.segment_received (bare_ack ca ra 1 ys false)
    (TCPConnection.set_segments_out [] (syn_rcvd cb rb xs)) =
  Ok (established cb rb xs (window ca) []).
Proof using Hca Hcb.
  unfold TCPConnection.segment_received.
  cbn -[TCPSender.ack_received u16 wrap TCPReceiver.window_size TCPReceiver.segment_received].
  rewrite advertised by done. change (u64 (1 + 0 + 0)) with 1.
  rewrite syn_acknowledged by apply window_range.
  rewrite receiver_hears by done. reflexivity.
Qed.

(** ** Closing *)

(** An endpoint whose own stream has ended ([sent = 2]) or not ([sent = 1]), with everything
    acknowledged, and which has heard the peer's FIN or not. *)
Definition quiet (c : TCPSender.TCPConfig) (r : Z) (peer : WrappingInt32) (w : Z)
    (ended heard : bool) (q : list TCPSegment) : TCPConnection :=
  let n := if ended then 2 else 1 in
  endpoint c (receiver c peer heard) (sender c r n n w ended []) q.

(** An endpoint whose FIN is not acknowledged yet. *)
Definition fin_of (c : TCPSender.TCPConfig) (r : Z) (peer : WrappingInt32) (heard : bool) : TCPSegment :=
  TCPConnection.receiver_info (receiver c peer heard) (control c r 1 false true).
Definition closing (c : TCPSender.TCPConfig) (r : Z) (peer : WrappingInt32) (w : Z) (heard : bool)
    (q : list TCPSegment) : TCPConnection :=
  endpoint c (receiver c peer heard) (sender c r 2 1 w true [control c r 1 false true]) q.

Lemma end_input_sends_fin c r peer w heard :
  0 <= w < 65536 ->
  TCPConnection.end_input_stream (quiet c r peer w false heard []) =
  closing c r peer w heard [fin_of c r peer heard].
Proof using.
  intros Hw. unfold TCPConnection.end_input_stream. cbn [TCPConnection.sender quiet endpoint].
  rewrite fill_fin by done. reflexivity.
Qed.

(** A FIN arrives at an endpoint that has heard none. *)
Lemma fin_arrives (ended : bool) :
  TCPConnection.segment_received
    (TCPConnection.receiver_info (receiver ca ys ended) (control ca ra 1 false true))
    (quiet cb rb xs (window ca) ended false []) =
  Ok (quiet cb rb xs (window ca) ended true [bare_ack cb rb (if ended then 2 else 1) xs true]).
Proof using Hca Hcb.
  unfold TCPConnection.segment_received.
  cbn -[TCPSender.ack_received u16 wrap TCPReceiver.window_size TCPReceiver.segment_received].
  rewrite advertised by done. destruct ended.
  - change (u64 (1 + 0 + 1)) with 2.
    rewrite nothing_acknowledged by (done || apply window_range). rewrite receiver_hears by done.
    reflexivity.
  - change (u64 (1 + 0 + 0)) with 1.
    rewrite nothing_acknowledged by (done || apply window_range). rewrite receiver_hears by done.
    reflexivity.
Qed.

(** A segment without data after the end of the stream changes nothing. *)
Lemma receiver_hears_again c peer seg :
  0 <= TCPSender.recv_capacity c < 9223372036854775808 ->
  Buffer.copy (TCPSegment.payload seg) = [] -> Buffer.buf_size (TCPSegment.payload seg) = 0 ->
  TCPHeader.seqno (TCPSegment.header seg) = wrap 2 peer -> TCPHeader.syn (TCPSegment.header seg) = false ->
  TCPHeader.fin (TCPSegment.header seg) = false ->
  TCPReceiver.segment_received seg (receiver c peer true) = Ok (true, receiver c peer true).
Proof using.
  intros Hc Hp Hz Hs Hy Hf. unfold TCPReceiver.segment_received. rewrite Hp, Hz, Hs, Hy, Hf.
  cbn -[TCPReceiver.window_size wrap unwrap u64]. change (u64 (1 + 0 + 1)) with 2.
  rewrite !unwrap_wrap_near by lia. unfold TCPReceiver.window_size, ByteStream.remaining_capacity.
  cbn -[u64]. rewrite !Z.sub_0_r, (u64_id (TCPSender.recv_capacity c)) by lia.
  change (u64 (2 - 1)) with 1. change (u64 (2 + 1)) with 3. cbn -[u64].
  destruct (Z.eqb_spec (TCPSender.recv_capacity c) 0); [reflexivity|].
  rewrite u64_id by lia. by replace (2 <? 2 + TCPSender.recv_capacity c) with true by lia.
Qed.

(** The acknowledgement of the FIN. *)
Lemma fin_ack_arrives (heard : bool) :
  TCPConnection.segment_received (bare_ack ca ra (if heard then 2 else 1) ys true)
    (closing cb rb xs (window ca) heard []) =
  Ok (quiet cb rb xs (window ca) true heard []).
Proof using Hca Hcb.
  unfold TCPConnection.segment_received.
  cbn -[TCPSender.ack_received u16 wrap TCPReceiver.window_size TCPReceiver.segment_received].
  rewrite advertised by done. change (u64 (1 + 0 + 1)) with 2.
  rewrite andb_false_r. cbn [andb].
  rewrite fin_acknowledged by apply window_range.
  change (TCPConnection.receiver (TCPConnection.set_times 0 0 _)) with (receiver cb xs heard) at 1.
  destruct heard; [rewrite receiver_hears_again by done|rewrite receiver_hears by done]; reflexivity.
Qed.

(** When both streams have ended, the endpoint lingers. *)
Lemma quiet_lingers c r peer w q :
  0 < TCPSender.rt_timeout c ->
  TCPConnection.state (quiet c r peer w true true q) = TCPState.of_state TCPState.TIME_WAIT.
Proof using.
  intros Hrt. unfold TCPConnection.state, TCPState.summarize, TCPConnection.active,
    TCPConnection.time_since_last_segment_received.
  cbn -[u64 Z.leb]. change (u64 (0 - 0)) with 0.
  by replace (10 * TCPSender.rt_timeout c <=? 0) with false by lia.
Qed.

(** Waiting long enough after the last segment. *)
Lemma wait_closes c r peer w ms :
  0 <= TCPSender.rt_timeout c -> 10 * TCPSender.rt_timeout c <= ms < M64 ->
  exists x, TCPConnection.tick ms (quiet c r peer w true true []) = Ok x /\
    TCPConnection.state x = TCPState.of_state TCPState.CLOSED.
Proof using.
  intros Hrt Hms. eexists. split; [reflexivity|].
  unfold TCPConnection.state, TCPState.summarize, TCPConnection.active,
    TCPConnection.time_since_last_segment_received.
  cbn -[u64]. rewrite Z.add_0_l, Z.sub_0_r, (u64_id ms), (u64_id ms) by lia.
  by replace (10 * TCPSender.rt_timeout c <=? ms) with true by lia.
Qed.

End Pair.

(** ** The whole life *)

(** What happens next to a pair of endpoints: the segments of one are moved to the other, one
    of them ends its stream, or time passes. *)
Inductive action := Forward | Backward | EndX | EndY | Wait (ms : Z).

Definition act (a : action) (p : TCPConnection * TCPConnection)
    : result (TCPConnection * TCPConnection) :=
  let '(x, y) := p in
  match a with
  | Forward => move_segments x y false
  | Backward => '(y, x) ← move_segments y x false; Ok (x, y)
  | EndX => Ok (TCPConnection.end_input_stream x, y)
  | EndY => Ok (x, TCPConnection.end_input_stream y)
  | Wait ms => x ← TCPConnection.tick ms x; y ← TCPConnection.tick ms y; Ok (x, y)
  end.

(** The states of the two after each action. *)
Fixpoint states (l : list action) (p : TCPConnection * TCPConnection)
    : result (list (TCPState.TCPState * TCPState.TCPState)) :=
  match l with
  | [] => Ok []
  | a :: l =>
      p ← act a p;
      t ← states l p;
      Ok ((TCPConnection.state p.1, TCPConnection.state p.2) :: t)
  end.

Lemma states_cons a l p p' sx sy t :
  act a p = Ok p' -> TCPConnection.state p'.1 = sx -> TCPConnection.state p'.2 = sy ->
  states l p' = Ok t -> states (a :: l) p = Ok ((sx, sy) :: t).
Proof. intros Ea Ex Ey El. cbn [states]. rewrite Ea. cbn. rewrite El. cbn. by rewrite Ex, Ey. Qed.

(** A part of the actions gives a part of the states. *)
Lemma states_prefix l : forall l' p t, states (l ++ l') p = Ok t ->
  exists t1 t2, states l p = Ok t1 /\ t = t1 ++ t2 /\ length t1 = length l.
Proof.
  induction l as [|a l IH]; intros l' p t E; cbn [states app] in *; [by exists [], t|].
  destruct (act a p) as [p'|]; [|done]. cbn in E |- *.
  destruct (states (l ++ l') p') as [t'|] eqn:E'; [|done]. injection E as <-.
  destruct (IH _ _ _ E') as (t1 & t2 & -> & -> & Hl). eexists (_ :: t1), t2. cbn. by rewrite Hl.
Qed.

Ltac next a p := eapply (states_cons a _ _ p);
  [|first [reflexivity|by apply quiet_lingers]|first [reflexivity|by apply quiet_lingers]|].
Ltac moved eq := repeat match goal with x := _ |- _ => subst x end; cbn [act]; unfold move_segments; cbn [Benchmark.receive_all TCPConnection.segments_out
  syn_sent syn_rcvd established quiet closing endpoint]; unfold fin_of; by rewrite eq.

(** The state of an endpoint that has heard the FIN of its peer but not ended its own stream:
    [CLOSE_WAIT], except that it is still going to linger. *)
Definition lingering_close_wait : TCPState.TCPState :=
  TCPState.mkTCPState TCPState.S_SYN_ACKED TCPState.R_FIN_RECV true true.

(** C8: the life of a connection.  For all configurations, initial sequence numbers and windows:
    when one endpoint connects and the segments of each are moved to the other, both are
    established after the three segments of the handshake; when one ends its stream and then
    the other, they go through [FIN_WAIT_1], [FIN_WAIT_2] and [TIME_WAIT], and through closing;
    and after ten retransmission time-outs both are closed.  Nothing is thrown.  (The
    endpoint that closes second lingers as well, where the specification has [LAST_ACK].) *)
Theorem connection_lifecycle ca cb ra rb ms :
  wi_wf (start ca ra) -> wi_wf (start cb rb) ->
  0 <= TCPSender.recv_capacity ca < 9223372036854775808 ->
  0 <= TCPSender.recv_capacity cb < 9223372036854775808 ->
  0 < TCPSender.rt_timeout ca -> 0 < TCPSender.rt_timeout cb ->
  10 * TCPSender.rt_timeout ca <= ms < M64 -> 10 * TCPSender.rt_timeout cb <= ms ->
  let s := TCPState.of_state in
  states [Forward; Backward; Forward; EndX; Forward; Backward; EndY; Backward; Forward; Wait ms]
    (TCPConnection.connect (TCPConnection.construct ca ra), TCPConnection.construct cb rb) =
  Ok [(s TCPState.SYN_SENT, s TCPState.SYN_RCVD);
      (s TCPState.ESTABLISHED, s TCPState.SYN_RCVD);
      (s TCPState.ESTABLISHED, s TCPState.ESTABLISHED);
      (s TCPState.FIN_WAIT_1, s TCPState.ESTABLISHED);
      (s TCPState.FIN_WAIT_1, lingering_close_wait);
      (s TCPState.FIN_WAIT_2, lingering_close_wait);
      (s TCPState.FIN_WAIT_2, s TCPState.CLOSING);
      (s TCPState.TIME_WAIT, s TCPState.CLOSING);
      (s TCPState.TIME_WAIT, s TCPState.TIME_WAIT);
      (s TCPState.CLOSED, s TCPState.CLOSED)].
Proof.
  intros Hx Hy Hca Hcb Ha Hb Hma Hmb s.
  fold (listening ca ra) (listening cb rb). rewrite connect_sends_syn.
  pose proof (window_range ca) as Wa. pose proof (window_range cb) as Wb.
  pose (wa := window ca). pose (wb := window cb). pose (X := start ca ra). pose (Y := start cb rb).
  next Forward (TCPConnection.set_segments_out [] (syn_sent ca ra), syn_rcvd cb rb X).
  { moved (syn_arrives ca cb ra rb Hx). }
  next Backward (established ca ra Y wb [bare_ack ca ra 1 Y false],
                 TCPConnection.set_segments_out [] (syn_rcvd cb rb X)).
  { moved (synack_arrives ca cb ra rb Hy Hcb). }
  next Forward (quiet ca ra Y wb false false [], quiet cb rb X wa false false []).
  { moved (ack_arrives ca cb ra rb Hca Hcb). }
  next EndX (closing ca ra Y wb false [fin_of ca ra Y false], quiet cb rb X wa false false []).
  { cbn [act]. by rewrite end_input_sends_fin. }
  next Forward (closing ca ra Y wb false [], quiet cb rb X wa false true [bare_ack cb rb 1 X true]).
  { moved (fin_arrives ca cb ra rb Hca Hcb false). }
  next Backward (quiet ca ra Y wb true false [], quiet cb rb X wa false true []).
  { moved (fin_ack_arrives cb ca rb ra Hcb Hca false). }
  next EndY (quiet ca ra Y wb true false [], closing cb rb X wa true [fin_of cb rb X true]).
  { cbn [act]. by rewrite end_input_sends_fin. }
  next Backward (quiet ca ra Y wb true true [bare_ack ca ra 2 Y true], closing cb rb X wa true []).
  { moved (fin_arrives cb ca rb ra Hcb Hca true). }
  next Forward (quiet ca ra Y wb true true [], quiet cb rb X wa true true []).
  { moved (fin_ack_arrives ca cb ra rb Hca Hcb true). }
  destruct (wait_closes ca ra Y wb ms) as (x & Ex & Sx); [lia..|].
  destruct (wait_closes cb rb X wa ms) as (y & Ey & Sy); [lia..|].
  eapply (states_cons (Wait ms) _ _ (x, y)); [|done|done|done].
  cbn [act]. by rewrite Ex, Ey.
Qed.

Lemma connection_lifecycle_witness :
  exists t, states [Forward; Backward; Forward]
    (TCPConnection.connect (TCPConnection.construct TCPSender.default_config 4294967295),
     TCPConnection.construct TCPSender.default_config 7) = Ok (t ++
      [(TCPState.of_state TCPState.ESTABLISHED, TCPState.of_state TCPState.ESTABLISHED)]).
Proof.
  pose proof (connection_lifecycle TCPSender.default_config TCPSender.default_config 4294967295 7 10000
    ltac:(by vm_compute) ltac:(by vm_compute) ltac:(by vm_compute) ltac:(by vm_compute)
    ltac:(by vm_compute) ltac:(by vm_compute) ltac:(by vm_compute) ltac:(by vm_compute)) as H.
  cbv zeta in H. set (p := (_, _)) in *.
  change [Forward; Backward; Forward; EndX; Forward; Backward; EndY; Backward; Forward; Wait 10000]
    with ([Forward; Backward; Forward] ++ [EndX; Forward; Backward; EndY; Backward; Forward; Wait 10000]) in H.
  destruct (states_prefix [Forward; Backward; Forward] _ p _ H) as (t & u & -> & E & Hl).
  destruct t as [|t1 [|t2 [|t3 [|]]]]; try discriminate Hl. injection E as <- <- <- _.
  eexists [_; _]. reflexivity.
Defined.
