(* ===== verification/Address.v ===== *)
(** Socket addresses: [libsponge/util/address.hh] and [address.cc], except the
    constructors and accessors that call the system's resolver.  The raw storage
    is a byte array; a [sockaddr_in] is its 16-byte layout on a little-endian
    host: family, port, address in network byte order, padding. *)
From S2P Require Import Prelude Parser.

Definition AF_INET : Z := 2.
Definition storage_size : nat := 128.      (* sizeof(sockaddr_storage) *)
Definition sockaddr_in_size : Z := 16.     (* sizeof(sockaddr_in) *)

(** [class Address] *)
Record Address := mkAddress {
  addr_size : Z;           (* _size *)
  storage : bytes          (* _address.storage *)
}.

(** The constructor from a raw socket address of [size] bytes. *)
Definition of_sockaddr (addr : bytes) (size : Z) : result Address :=
  if Z.of_nat storage_size <? size then Throw runtime_error
  else Ok (mkAddress size
             (take (Z.to_nat size) addr ++ replicate (storage_size - Z.to_nat size) Byte.x00)).

(** [ss_family], a 16-bit integer in host byte order. *)
Definition family (s : bytes) : Z :=
  match s with x :: y :: _ => byte.unsigned x + 256 * byte.unsigned y | _ => 0 end.

(** [sockaddr_in] as bytes. *)
Definition sockaddr_in (sin_family sin_port s_addr : Z) : bytes :=
  [byte.of_Z sin_family; byte.of_Z (sin_family / 256)] ++ be_bytes 2 sin_port ++
  be_bytes 4 s_addr ++ replicate 8 Byte.x00.

Definition ipv4_numeric (a : Address) : result Z :=
  if negb (family (storage a) =? AF_INET) || negb (addr_size a =? sockaddr_in_size)
  then Throw runtime_error
  else Ok (be_value 0 (take 4 (drop 4 (storage a)))).

Definition from_ipv4_numeric (ip_address : Z) : result Address :=
  of_sockaddr (sockaddr_in AF_INET 0 ip_address) sockaddr_in_size.

(** [operator==] *)
Definition eqb (a b : Address) : bool :=
  if negb (addr_size a =? addr_size b) then false
  else bool_decide (take (Z.to_nat (addr_size a)) (storage a)
                    = take (Z.to_nat (addr_size a)) (storage b)).

(** The address object [from_ipv4_numeric] builds. *)
Definition of_ip (ip : Z) : Address :=
  mkAddress 16 (sockaddr_in AF_INET 0 ip ++ replicate 112 Byte.x00).

Lemma from_ipv4_numeric_eq ip : from_ipv4_numeric ip = Ok (of_ip ip).
Proof. done. Qed.

Lemma ipv4_numeric_of_ip ip : 0 <= ip < M32 -> ipv4_numeric (of_ip ip) = Ok ip.
Proof.
  intros Hi. unfold ipv4_numeric.
  change (family (storage (of_ip ip)) =? AF_INET) with true.
  change (addr_size (of_ip ip) =? sockaddr_in_size) with true. cbn [negb orb].
  change (take 4 (drop 4 (storage (of_ip ip)))) with (be_bytes 4 ip).
  rewrite be_value_be_bytes. f_equal. change (256 ^ Z.of_nat 4) with M32.
  rewrite Z.mul_0_l, Z.add_0_l. by apply Z.mod_small.
Qed.

(** A 32-bit IP address survives the conversion to an [Address] and back, and
    two such addresses are equal exactly when the numbers are. *)
Theorem ipv4_numeric_roundtrip x y :
  0 <= x < M32 -> 0 <= y < M32 ->
  exists a b, from_ipv4_numeric x = Ok a /\ from_ipv4_numeric y = Ok b /\
    ipv4_numeric a = Ok x /\ (eqb a b = true <-> x = y).
Proof.
  intros Hx Hy. exists (of_ip x), (of_ip y). split; [done|]. split; [done|].
  split; [by apply ipv4_numeric_of_ip|]. unfold eqb. cbn [addr_size of_ip].
  change (negb (16 =? 16)) with false. cbn iota. rewrite bool_decide_eq_true.
  split; [|by intros ->]. intros E.
  assert (Hs : be_bytes 4 x = be_bytes 4 y).
  { apply (f_equal (fun l => take 4 (drop 4 l))) in E. exact E. }
  apply (f_equal (be_value 0)) in Hs. rewrite !be_value_be_bytes in Hs.
  change (256 ^ Z.of_nat 4) with M32 in Hs. rewrite !Z.mod_small in Hs by done. lia.
Qed.

Lemma ipv4_numeric_roundtrip_witness :
  exists a b, from_ipv4_numeric 3232235777 = Ok a /\ from_ipv4_numeric 167772161 = Ok b /\
    ipv4_numeric a = Ok 3232235777 /\ (eqb a b = true <-> 3232235777 = 167772161).
Proof. apply (ipv4_numeric_roundtrip 3232235777 167772161); lia. Defined.
