(* ===== verification/NetworkInterface.v ===== *)
(** The network interface: [libsponge/network_interface.hh] and
    [network_interface.cc].  Datagrams go out in Ethernet frames once ARP has
    found the address of the next hop, and wait for it until then. *)
From S2P Require Import Prelude Parser Ethernet.
From S2P Require Buffer Address ARPMessage IPv4Header IPv4Datagram.
Import IPv4Datagram(IPv4Datagram).
Import Address(Address).

(** [struct ARP]: a request that was sent, and when. *)
Record ARP := mkARP { arp_addr : Z; time_arp : Z }.
(** [struct Ethernet]: a mapping that was learned, and when. *)
Record Mapping := mkMapping { mapped_address : EthernetAddress; time_ethernet : Z }.

(** [class NetworkInterface] *)
Record NetworkInterface := mkInterface {
  ethernet_address : EthernetAddress;
  ip_address : Address;
  frames_out : list EthernetFrame;
  unsent : list (IPv4Datagram * Z);
  arp_req : list ARP;
  ip_ethernet_map : gmap Z Mapping;
  time : Z
}.

Definition construct (ea : EthernetAddress) (ip : Address) : NetworkInterface :=
  mkInterface ea ip [] [] [] ∅ 0.

(** Assignments to single members. *)
Definition push_frame (f : EthernetFrame) (n : NetworkInterface) : NetworkInterface :=
  mkInterface (ethernet_address n) (ip_address n) (frames_out n ++ [f]) (unsent n) (arp_req n)
    (ip_ethernet_map n) (time n).
Definition set_frames_out (q : list EthernetFrame) (n : NetworkInterface) : NetworkInterface :=
  mkInterface (ethernet_address n) (ip_address n) q (unsent n) (arp_req n)
    (ip_ethernet_map n) (time n).
Definition set_unsent (l : list (IPv4Datagram * Z)) (n : NetworkInterface) : NetworkInterface :=
  mkInterface (ethernet_address n) (ip_address n) (frames_out n) l (arp_req n)
    (ip_ethernet_map n) (time n).
Definition set_arp_req (l : list ARP) (n : NetworkInterface) : NetworkInterface :=
  mkInterface (ethernet_address n) (ip_address n) (frames_out n) (unsent n) l
    (ip_ethernet_map n) (time n).
Definition learn (ip : Z) (m : Mapping) (n : NetworkInterface) : NetworkInterface :=
  mkInterface (ethernet_address n) (ip_address n) (frames_out n) (unsent n) (arp_req n)
    (<[ip := m]> (ip_ethernet_map n)) (time n).

(** A frame with the given header, and a request or reply as its payload. *)
Definition frame (dst src : EthernetAddress) (type : Z) (payload : Buffer.BufferList)
    : EthernetFrame :=
  Ethernet.mkEthernetFrame (Ethernet.mkEthernetHeader dst src type) payload.

Definition arp_message (opcode : Z) (sender_mac : EthernetAddress) (sender_ip : Z)
    (target_mac : EthernetAddress) (target_ip : Z) : ARPMessage.ARPMessage :=
  ARPMessage.mkARPMessage ARPMessage.TYPE_ETHERNET Ethernet.TYPE_IPv4 6 4 opcode
    sender_mac sender_ip target_mac target_ip.

(** The first branch of [send_datagram]: the address is unknown or expired.  When
    no request for the next hop is recorded, the search ends at [arp_req.end()]
    and the code reads [time_arp] through that iterator; [garbage] is the value
    it finds there.  (The reads of [time_ethernet] and of [arp_addr] through end
    iterators do not change the outcome.) *)
Definition resolve (garbage : Z) (dgram : IPv4Datagram) (next_hop_ip : Z)
    (n : NetworkInterface) : result NetworkInterface :=
  let n := set_unsent (unsent n ++ [(dgram, next_hop_ip)]) n in
  let arp_iter := list_find (fun r => arp_addr r = next_hop_ip) (arp_req n) in
  let seen := match arp_iter with Some (_, r) => time_arp r | None => garbage end in
  let e_frame := Ethernet.default in
  if u64 (time n - seen) <=? 5000 then
    match arp_iter with
    | Some _ => Ok n
    | None =>
        Ok (push_frame (frame (Ethernet.dst (Ethernet.header e_frame)) (ethernet_address n)
                          (Ethernet.type (Ethernet.header e_frame)) (Ethernet.payload e_frame)) n)
    end
  else
    sender_ip ← Address.ipv4_numeric (ip_address n);
    let msg := arp_message ARPMessage.OPCODE_REQUEST (ethernet_address n) sender_ip
                 ARPMessage.zero_address next_hop_ip in
    s ← ARPMessage.serialize msg;
    let n := set_arp_req (arp_req n ++ [mkARP next_hop_ip (time n)]) n in
    Ok (push_frame (frame Ethernet.ETHERNET_BROADCAST (ethernet_address n) Ethernet.TYPE_ARP
                      (Buffer.bl_of_string s)) n).

Definition send_datagram (garbage : Z) (dgram : IPv4Datagram) (next_hop : Address)
    (n : NetworkInterface) : result NetworkInterface :=
  next_hop_ip ← Address.ipv4_numeric next_hop;
  match ip_ethernet_map n !! next_hop_ip with
  | None => resolve garbage dgram next_hop_ip n
  | Some m =>
      if 30000 <? u64 (time n - time_ethernet m) then resolve garbage dgram next_hop_ip n
      else
        l ← IPv4Datagram.serialize dgram;
        Ok (push_frame (frame (mapped_address m) (ethernet_address n) Ethernet.TYPE_IPv4 l) n)
  end.

(** The loop over [unsent] when a reply has come from [ip]: the frames it sends
    to [mac] and the datagrams it keeps. *)
Fixpoint flush (ip : Z) (mac src : EthernetAddress) (l : list (IPv4Datagram * Z))
    : result (list EthernetFrame * list (IPv4Datagram * Z)) :=
  match l with
  | [] => Ok ([], [])
  | (dgram, hop) :: l' =>
      if hop =? ip then
        s ← IPv4Datagram.serialize dgram;
        '(fs, rest) ← flush ip mac src l';
        Ok (frame mac src Ethernet.TYPE_IPv4 s :: fs, rest)
      else
        '(fs, rest) ← flush ip mac src l';
        Ok (fs, (dgram, hop) :: rest)
  end.

(** The ARP part of [recv_frame]. *)
Definition recv_arp (src : EthernetAddress) (msg : ARPMessage.ARPMessage) (n : NetworkInterface)
    : result NetworkInterface :=
  let sender_ip := ARPMessage.sender_ip_address msg in
  let sender_mac := ARPMessage.sender_ethernet_address msg in
  let n := learn sender_ip (mkMapping sender_mac (time n)) n in
  isvalid_req ←
    (if ARPMessage.opcode msg =? ARPMessage.OPCODE_REQUEST then
       own ← Address.ipv4_numeric (ip_address n);
       Ok (ARPMessage.target_ip_address msg =? own)
     else Ok false);
  let isvalid_res := ARPMessage.opcode msg =? ARPMessage.OPCODE_REPLY in
  n ← (if isvalid_req : bool then
         own ← Address.ipv4_numeric (ip_address n);
         s ← ARPMessage.serialize (arp_message ARPMessage.OPCODE_REPLY (ethernet_address n) own
                                     sender_mac sender_ip);
         Ok (push_frame (frame src (ethernet_address n) Ethernet.TYPE_ARP
                           (Buffer.bl_of_string s)) n)
       else Ok n);
  if isvalid_res then
    '(fs, rest) ← flush sender_ip sender_mac (ethernet_address n) (unsent n);
    let n := set_unsent rest (set_frames_out (frames_out n ++ fs) n) in
    Ok (set_arp_req (filter (fun r => arp_addr r <> sender_ip) (arp_req n)) n)
  else Ok n.

Definition recv_frame (f : EthernetFrame) (n : NetworkInterface)
    : result (option IPv4Datagram * NetworkInterface) :=
  let header := Ethernet.header f in
  if bool_decide (Ethernet.dst header <> Ethernet.ETHERNET_BROADCAST) &&
     bool_decide (Ethernet.dst header <> ethernet_address n) then Ok (None, n)
  else if Ethernet.type header =? Ethernet.TYPE_IPv4 then
    b ← Buffer.to_buffer (Ethernet.payload f);
    '(r, datagrams) ← IPv4Datagram.parse IPv4Datagram.default b;
    Ok (if bool_decide (r = Parser.NoError) then Some datagrams else None, n)
  else if Ethernet.type header =? Ethernet.TYPE_ARP then
    b ← Buffer.to_buffer (Ethernet.payload f);
    '(r, msg) ← ARPMessage.parse ARPMessage.default b;
    if bool_decide (r <> Parser.NoError) then Ok (None, n)
    else n ← recv_arp (Ethernet.src header) msg n; Ok (None, n)
  else Ok (None, n).

Definition tick (ms_since_last_tick : Z) (n : NetworkInterface) : NetworkInterface :=
  mkInterface (ethernet_address n) (ip_address n) (frames_out n) (unsent n) (arp_req n)
    (ip_ethernet_map n) (u64 (time n + ms_since_last_tick)).

(** ** Sending *)

(** The frame that asks for the address of [ip], and the one that answers. *)
Definition request_frame (mac : EthernetAddress) (own ip : Z) (f : EthernetFrame) : Prop :=
  f = frame ETHERNET_BROADCAST mac TYPE_ARP (Buffer.bl_of_string
        (ARPMessage.wire (arp_message ARPMessage.OPCODE_REQUEST mac own ARPMessage.zero_address ip))).

Definition fresh (n : NetworkInterface) (t limit : Z) : Prop := u64 (time n - t) <= limit.

(** C27: [send_datagram] to [ip], in full.  With a mapping at most 30 seconds old,
    one frame carrying the datagram goes to the mapped address and nothing else
    changes.  Otherwise the datagram is queued; and no frame is sent if the first
    recorded request for [ip] is at most 5 seconds old, one request is broadcast
    and recorded if that request is older, or if there is none and the value read
    past the end of the list looks old; but if that value looks recent, an empty
    frame to the zero address is sent and no request is made. *)
Theorem send_datagram_outcome garbage dgram ip own n l :
  0 <= ip < M32 -> Address.ipv4_numeric (ip_address n) = Ok own ->
  IPv4Datagram.serialize dgram = Ok l ->
  let found := list_find (fun r => arp_addr r = ip) (arp_req n) in
  let seen := match found with Some (_, r) => time_arp r | None => garbage end in
  let queued := set_unsent (unsent n ++ [(dgram, ip)]) n in
  exists n', send_datagram garbage dgram (Address.of_ip ip) n = Ok n' /\
    (forall m, ip_ethernet_map n !! ip = Some m -> fresh n (time_ethernet m) 30000 ->
       n' = push_frame (frame (mapped_address m) (ethernet_address n) TYPE_IPv4 l) n) /\
    ((forall m, ip_ethernet_map n !! ip = Some m -> ~ fresh n (time_ethernet m) 30000) ->
       (fresh n seen 5000 -> found <> None -> n' = queued) /\
       (fresh n seen 5000 -> found = None ->
          n' = push_frame (frame (replicate 6 Byte.x00) (ethernet_address n) 0 []) queued) /\
       (~ fresh n seen 5000 -> exists f, request_frame (ethernet_address n) own ip f /\
          n' = push_frame f (set_arp_req (arp_req n ++ [mkARP ip (time n)]) queued))).
Proof.
  intros Hip Hown Hl found seen queued. unfold send_datagram, fresh.
  rewrite Address.ipv4_numeric_of_ip by done. cbn [mbind result_bind].
  assert (R : exists n', resolve garbage dgram ip n = Ok n' /\
    (u64 (time n - seen) <= 5000 -> found <> None -> n' = queued) /\
    (u64 (time n - seen) <= 5000 -> found = None ->
       n' = push_frame (frame (replicate 6 Byte.x00) (ethernet_address n) 0 []) queued) /\
    (~ u64 (time n - seen) <= 5000 -> exists f, request_frame (ethernet_address n) own ip f /\
       n' = push_frame f (set_arp_req (arp_req n ++ [mkARP ip (time n)]) queued))).
  { unfold resolve. cbv zeta. change (arp_req (set_unsent _ n)) with (arp_req n).
    fold found. change (time (set_unsent _ n)) with (time n). fold seen. case_Z.
    - destruct found; eexists; (split; [reflexivity|]); split_and!; try done; lia.
    - change (ip_address (set_unsent _ n)) with (ip_address n). rewrite Hown.
      cbn [mbind result_bind]. rewrite ARPMessage.arp_serialize_wire by done. cbn [mbind result_bind].
      eexists. split; [reflexivity|]. split; [lia|]. split; [lia|]. intros _.
      eexists. split; reflexivity. }
  destruct R as (n1 & R & R1 & R2 & R3).
  destruct (ip_ethernet_map n !! ip) as [m|] eqn:Em.
  - case_Z.
    + exists n1. split; [done|]. split; [intros m' [= <-]; lia|]. intros _. done.
    + rewrite Hl. cbn [mbind result_bind]. eexists. split; [reflexivity|].
      split; [by intros m' [= <-] _|]. intros Hno. destruct (Hno m eq_refl). lia.
  - exists n1. split; [done|]. split; [done|]. intros _. done.
Qed.

(** ** Receiving *)

Definition serializable (x : IPv4Datagram * Z) : Prop :=
  exists s, IPv4Datagram.serialize x.1 = Ok s.

(** [f] carries the datagram of [x] from [src] to [mac]. *)
Definition carries_to (mac src : EthernetAddress) (x : IPv4Datagram * Z) (f : EthernetFrame) : Prop :=
  exists s, IPv4Datagram.serialize x.1 = Ok s /\ f = frame mac src TYPE_IPv4 s.

Lemma flush_spec ip mac src l :
  Forall serializable l ->
  exists fs, flush ip mac src l = Ok (fs, filter (fun x => x.2 <> ip) l) /\
    Forall2 (carries_to mac src) (filter (fun x => x.2 = ip) l) fs.
Proof.
  induction l as [|[d h] l IH]; intros Hl; [by exists []|].
  apply Forall_cons in Hl as [[s Hs] Hl]. destruct (IH Hl) as (fs & E & F).
  cbn [flush]. rewrite !filter_cons. cbn [snd] in *. cbn [fst] in Hs.
  destruct (Z.eqb_spec h ip) as [->|Hne].
  - rewrite decide_False, decide_True by (cbn; intuition). rewrite Hs. cbn [mbind result_bind].
    rewrite E. cbn. eexists. split; [reflexivity|]. constructor; [|done]. by exists s.
  - rewrite decide_True, decide_False by done. rewrite E. cbn. by eexists.
Qed.

(** The message [m] arrives in a frame for this interface. *)
Definition arp_arrives (m : ARPMessage.ARPMessage) (n : NetworkInterface) (f : EthernetFrame) : Prop :=
  ARPMessage.wf m /\
  (dst (header f) = ETHERNET_BROADCAST \/ dst (header f) = ethernet_address n) /\
  type (header f) = TYPE_ARP /\
  exists b rest, payload f = [b] /\ Buffer.buf_wf b /\ Buffer.str b = ARPMessage.wire m ++ rest.

Lemma recv_arp_frame m n f :
  arp_arrives m n f ->
  recv_frame f n = (n' ← recv_arp (src (header f)) m n; Ok (None, n')).
Proof.
  intros (Hm & Hd & Ht & b & rest & Hp & Hb & Hs). unfold recv_frame. rewrite Ht, Hp.
  assert (bool_decide (dst (header f) <> ETHERNET_BROADCAST) &&
          bool_decide (dst (header f) <> ethernet_address n) = false) as ->.
  { apply andb_false_iff. rewrite !bool_decide_eq_false. destruct Hd; tauto. }
  change (TYPE_ARP =? TYPE_IPv4) with false. change (TYPE_ARP =? TYPE_ARP) with true.
  cbn [Buffer.to_buffer mbind result_bind].
  rewrite (ARPMessage.arp_parse_wire m _ rest b Hm Hb Hs). cbn [mbind result_bind]. done.
Qed.

(** An ARP reply ends the wait.  When a reply from [m]'s sender arrives, its
    address is learned with the current time and no other mapping changes; every
    datagram queued for that sender goes out to its address, each once, in the
    order they were queued; the others stay queued in their order; and exactly
    the requests for that sender are forgotten. *)
Theorem arp_reply_releases_queue m n f :
  arp_arrives m n f -> ARPMessage.opcode m = ARPMessage.OPCODE_REPLY ->
  Forall serializable (unsent n) ->
  let ip := ARPMessage.sender_ip_address m in
  let mac := ARPMessage.sender_ethernet_address m in
  exists n' fs, recv_frame f n = Ok (None, n') /\
    ip_ethernet_map n' = <[ip := mkMapping mac (time n)]> (ip_ethernet_map n) /\
    frames_out n' = frames_out n ++ fs /\
    Forall2 (carries_to mac (ethernet_address n)) (filter (fun x => x.2 = ip) (unsent n)) fs /\
    unsent n' = filter (fun x => x.2 <> ip) (unsent n) /\
    arp_req n' = filter (fun r => arp_addr r <> ip) (arp_req n).
Proof.
  intros Ha Ho Hl ip mac. rewrite (recv_arp_frame m n f Ha). unfold recv_arp. fold ip mac.
  rewrite Ho. change (ARPMessage.OPCODE_REPLY =? ARPMessage.OPCODE_REQUEST) with false.
  change (ARPMessage.OPCODE_REPLY =? ARPMessage.OPCODE_REPLY) with true.
  cbn [mbind result_bind unsent learn ethernet_address].
  destruct (flush_spec ip mac (ethernet_address n) (unsent n) Hl) as (fs & -> & HF).
  cbn [mbind result_bind]. do 2 eexists. split; [reflexivity|]. cbn. split_and!; done.
Qed.

(** An ARP request for this interface is answered, and its sender learned. *)
Lemma request_answered m n f own :
  arp_arrives m n f -> ARPMessage.opcode m = ARPMessage.OPCODE_REQUEST ->
  Address.ipv4_numeric (ip_address n) = Ok own ->
  let ip := ARPMessage.sender_ip_address m in
  let mac := ARPMessage.sender_ethernet_address m in
  recv_frame f n =
  Ok (None, (if ARPMessage.target_ip_address m =? own
             then push_frame (frame (src (header f)) (ethernet_address n) TYPE_ARP
                    (Buffer.bl_of_string (ARPMessage.wire (arp_message ARPMessage.OPCODE_REPLY
                       (ethernet_address n) own mac ip))))
             else id) (learn ip (mkMapping mac (time n)) n)).
Proof.
  intros Ha Ho Hown ip mac. rewrite (recv_arp_frame m n f Ha). unfold recv_arp. fold ip mac.
  rewrite Ho. change (ARPMessage.OPCODE_REQUEST =? ARPMessage.OPCODE_REQUEST) with true.
  change (ARPMessage.OPCODE_REQUEST =? ARPMessage.OPCODE_REPLY) with false.
  change (ip_address (learn ip (mkMapping mac (time n)) n)) with (ip_address n). rewrite Hown.
  cbn [mbind result_bind]. case_Z; [|done]. cbn [mbind result_bind].
  rewrite ?Hown. cbn [mbind result_bind]. rewrite ARPMessage.arp_serialize_wire by done. done.
Qed.

(** ** Two interfaces *)

(** What arrives when [f] is put on the wire. *)
Definition wire (f : EthernetFrame) : option EthernetFrame :=
  match Ethernet.parse Ethernet.default (Buffer.of_string (Buffer.concatenate (Ethernet.serialize f))) with
  | Ok (NoError, f') => Some f'
  | _ => None
  end.

Lemma wire_frame to from ty l :
  addr_wf to -> addr_wf from -> 0 <= ty < 65536 -> size (Buffer.concatenate l) < 100000 ->
  exists b, wire (frame to from ty l) = Some (frame to from ty [b]) /\
    Buffer.str b = Buffer.concatenate l /\ Buffer.buf_wf b.
Proof.
  intros H1 H2 H3 H4.
  destruct (Ethernet.frame_parse_serialize (frame to from ty l) Ethernet.default) as (b & E & Hb & Hw).
  - by constructor.
  - cbn. lia.
  - exists b. unfold wire. by rewrite E.
Qed.

Lemma datagram_handed_up n from x d :
  IPv4Datagram.parse IPv4Datagram.default x = Ok (NoError, d) ->
  recv_frame (frame (ethernet_address n) from TYPE_IPv4 [x]) n = Ok (Some d, n).
Proof.
  intros E. unfold recv_frame. cbn [frame header dst type payload Buffer.to_buffer mbind result_bind].
  rewrite (bool_decide_eq_false_2 (ethernet_address n <> ethernet_address n)) by tauto.
  rewrite andb_false_r. change (TYPE_IPv4 =? TYPE_IPv4) with true. by rewrite E.
Qed.

Section Exchange.
(** Two interfaces on one link, with different addresses. *)
Context (mac_a mac_b : EthernetAddress) (a b : Z).
Context (Hma : addr_wf mac_a) (Hmb : addr_wf mac_b) (Ha : 0 <= a < M32) (Hb : 0 <= b < M32).

Lemma arp_wire_crosses op from_mac from_ip to_mac to_ip hdr_dst :
  op = ARPMessage.OPCODE_REQUEST \/ op = ARPMessage.OPCODE_REPLY ->
  addr_wf from_mac -> addr_wf to_mac -> addr_wf hdr_dst ->
  0 <= from_ip < M32 -> 0 <= to_ip < M32 ->
  let m := arp_message op from_mac from_ip to_mac to_ip in
  exists f, wire (frame hdr_dst from_mac TYPE_ARP (Buffer.bl_of_string (ARPMessage.wire m))) = Some f /\
    src (header f) = from_mac /\
    forall n, hdr_dst = ETHERNET_BROADCAST \/ hdr_dst = ethernet_address n -> arp_arrives m n f.
Proof using.
  intros Hop Hf Ht Hd Hfi Hti m.
  assert (Hm : ARPMessage.wf m).
  { constructor; try done. by destruct Hop as [-> | ->]. }
  pose proof (ARPMessage.arp_wire_size m Hm) as Hsz.
  destruct (wire_frame hdr_dst from_mac TYPE_ARP (Buffer.bl_of_string (ARPMessage.wire m)) Hd Hf)
    as (x & E & Hx & Hw); [unfold TYPE_ARP; lia| |].
  { cbn [Buffer.bl_of_string Buffer.concatenate]. rewrite app_nil_r, Buffer.str_of_string; lia. }
  eexists. split; [exact E|]. split; [done|]. intros n Hn. split; [done|]. split; [done|].
  split; [done|]. exists x, []. split; [done|]. split; [done|].
  rewrite Hx. cbn [Buffer.bl_of_string Buffer.concatenate]. by rewrite Buffer.str_of_string by lia.
Qed.

(** The steps of an exchange.  [waiting f d] is the first interface once it
    has sent the request [f] for the datagram [d]. *)
Definition waiting (f : EthernetFrame) (dgram : IPv4Datagram) : NetworkInterface :=
  push_frame f (set_arp_req [mkARP b 0] (set_unsent [(dgram, b)] (construct mac_a (Address.of_ip a)))).

Lemma first_request garbage dgram :
  5000 < u64 (0 - garbage) ->
  send_datagram garbage dgram (Address.of_ip b) (construct mac_a (Address.of_ip a)) =
  Ok (waiting (frame ETHERNET_BROADCAST mac_a TYPE_ARP (Buffer.bl_of_string (ARPMessage.wire
       (arp_message ARPMessage.OPCODE_REQUEST mac_a a ARPMessage.zero_address b)))) dgram).
Proof using All.
  intros Hg. unfold send_datagram. rewrite Address.ipv4_numeric_of_ip by done.
  cbn [mbind result_bind].
  change (ip_ethernet_map (construct mac_a (Address.of_ip a)) !! b) with (@None Mapping).
  unfold resolve. cbn [list_find arp_req set_unsent construct time unsent app]. case_Z; [lia|].
  change (ip_address _) with (Address.of_ip a). rewrite Address.ipv4_numeric_of_ip by done.
  cbn [mbind result_bind]. by rewrite ARPMessage.arp_serialize_wire.
Qed.

Lemma reply_received g f dgram l :
  arp_arrives (arp_message ARPMessage.OPCODE_REPLY mac_b b mac_a a) (waiting f dgram) g ->
  IPv4Datagram.serialize dgram = Ok l ->
  recv_frame g (waiting f dgram) =
  Ok (None, set_arp_req [] (set_unsent [] (set_frames_out [f; frame mac_b mac_a TYPE_IPv4 l]
              (learn b (mkMapping mac_b 0) (waiting f dgram))))).
Proof using Ha Hb.
  intros Hr Hs. rewrite (recv_arp_frame _ _ g Hr). unfold recv_arp.
  cbn [ARPMessage.opcode arp_message ARPMessage.sender_ip_address
    ARPMessage.sender_ethernet_address].
  change (ARPMessage.OPCODE_REPLY =? ARPMessage.OPCODE_REQUEST) with false.
  change (ARPMessage.OPCODE_REPLY =? ARPMessage.OPCODE_REPLY) with true.
  cbn [mbind result_bind unsent learn waiting push_frame set_arp_req set_unsent flush].
  rewrite Z.eqb_refl, Hs. cbn [mbind result_bind]. repeat f_equal.
  cbn. by rewrite decide_False by tauto.
Qed.

(** C26: address resolution delivers the datagram.  A fresh interface is asked to
    send a datagram to a neighbour on its link that it does not know.  The
    request it broadcasts, once serialized and parsed, makes the neighbour
    answer; the answer makes the interface send the datagram; and the neighbour
    hands up that datagram: the same header but for the checksum, and the same
    payload.  (The value read past the end of the request list must not look
    recent, see [send_datagram_outcome].) *)
Theorem arp_exchange_delivers garbage dgram :
  5000 < u64 (0 - garbage) -> IPv4Datagram.wf dgram ->
  exists A1 A2 B1 f1 f2 f3 g1 g2 g3 dgram',
    send_datagram garbage dgram (Address.of_ip b)
      (construct mac_a (Address.of_ip a)) = Ok A1 /\ frames_out A1 = [f1] /\
    wire f1 = Some g1 /\
    recv_frame g1 (construct mac_b (Address.of_ip b)) = Ok (None, B1) /\ frames_out B1 = [f2] /\
    wire f2 = Some g2 /\
    recv_frame g2 A1 = Ok (None, A2) /\ frames_out A2 = [f1; f3] /\ unsent A2 = [] /\
    wire f3 = Some g3 /\
    recv_frame g3 B1 = Ok (Some dgram', B1) /\
    IPv4Datagram.header dgram' =
      IPv4Header.set_cksum (IPv4Header.cksum (IPv4Datagram.header dgram'))
        (IPv4Datagram.header dgram) /\
    Buffer.concatenate (IPv4Datagram.payload dgram')
      = Buffer.concatenate (IPv4Datagram.payload dgram).
Proof using All.
  intros Hg Hd.
  destruct (IPv4Datagram.datagram_parse_serialize dgram Hd) as (l & h' & Hs & Hh & _ & Hsz & Hparse).
  pose proof (IPv4Header.fits_len _ (IPv4Datagram.wf_fits _ Hd)) as Hlen.
  assert (Hz : addr_wf ARPMessage.zero_address) by done.
  assert (Hbc : addr_wf ETHERNET_BROADCAST) by done.
  destruct (arp_wire_crosses ARPMessage.OPCODE_REQUEST mac_a a ARPMessage.zero_address b
    ETHERNET_BROADCAST) as (g1 & W1 & S1 & R1); try done; [by left|].
  destruct (arp_wire_crosses ARPMessage.OPCODE_REPLY mac_b b mac_a a mac_a)
    as (g2 & W2 & _ & R2); try done; [by right|].
  destruct (wire_frame mac_b mac_a TYPE_IPv4 l Hmb Hma) as (x & W3 & Hx & Hxw);
    [unfold TYPE_IPv4; lia|lia|].
  destruct (Hparse IPv4Datagram.default x Hxw Hx) as (y & Ey & Hy & _).
  set (B0 := construct mac_b (Address.of_ip b)).
  assert (Ob : Address.ipv4_numeric (ip_address B0) = Ok b) by (by apply Address.ipv4_numeric_of_ip).
  set (f1 := frame ETHERNET_BROADCAST mac_a TYPE_ARP (Buffer.bl_of_string _)) in W1.
  set (f2 := frame mac_a mac_b TYPE_ARP (Buffer.bl_of_string _)) in W2.
  set (B1 := push_frame f2 (learn a (mkMapping mac_a 0) B0)).
  assert (E2 : recv_frame g1 B0 = Ok (None, B1)).
  { rewrite (request_answered _ B0 g1 b (R1 B0 (or_introl eq_refl)) eq_refl Ob).
    cbn [ARPMessage.target_ip_address arp_message]. rewrite Z.eqb_refl, S1. done. }
  do 2 eexists. exists B1, f1, f2, (frame mac_b mac_a TYPE_IPv4 l), g1, g2,
    (frame mac_b mac_a TYPE_IPv4 [x]), (IPv4Datagram.mkIPv4Datagram h' [y]).
  split; [by apply first_request|]. split; [done|]. split; [done|]. split; [done|].
  split; [done|]. split; [done|].
  split; [apply (reply_received g2 f1 dgram l); [apply R2; by right|done]|].
  split_and!; try done.
  - by apply (datagram_handed_up B1).
  - cbn. by rewrite Hy, app_nil_r.
Qed.
End Exchange.

(** A request older than 5 seconds is never replaced.  The search finds the
    oldest request for [ip] first, and a new one is only appended after it; so
    from then on every datagram for [ip] broadcasts another request, however
    recent the last one is. *)
Theorem expired_request_repeats garbage d1 d2 ip own n r rest :
  0 <= ip < M32 -> Address.ipv4_numeric (ip_address n) = Ok own ->
  ip_ethernet_map n !! ip = None ->
  arp_req n = r :: rest -> arp_addr r = ip -> ~ fresh n (time_arp r) 5000 ->
  exists n1 n2 f, send_datagram garbage d1 (Address.of_ip ip) n = Ok n1 /\
    send_datagram garbage d2 (Address.of_ip ip) n1 = Ok n2 /\
    request_frame (ethernet_address n) own ip f /\
    frames_out n2 = frames_out n ++ [f; f].
Proof.
  intros Hip Hown Hmap Hreq Hr Hold. unfold fresh in Hold.
  assert (R : forall d n0, ip_ethernet_map n0 !! ip = None -> ip_address n0 = ip_address n ->
    time n0 = time n -> (exists k, arp_req n0 = r :: k) ->
    exists f, request_frame (ethernet_address n0) own ip f /\
      send_datagram garbage d (Address.of_ip ip) n0 =
      Ok (push_frame f (set_arp_req (arp_req n0 ++ [mkARP ip (time n)])
            (set_unsent (unsent n0 ++ [(d, ip)]) n0)))).
  { intros d n0 Hm Hi Ht [k Hk]. unfold send_datagram.
    rewrite Address.ipv4_numeric_of_ip by done. cbn [mbind result_bind]. rewrite Hm.
    unfold resolve. cbn [arp_req set_unsent time ip_address]. rewrite Hk. cbn [list_find].
    rewrite decide_True by done. rewrite Ht. case_Z; [lia|]. rewrite Hi, Hown.
    cbn [mbind result_bind]. rewrite ARPMessage.arp_serialize_wire by done. cbn [mbind result_bind].
    eexists. split; reflexivity. }
  destruct (R d1 n Hmap eq_refl eq_refl (ex_intro _ rest Hreq)) as (f & Hf & E1).
  destruct (R d2 (push_frame f (set_arp_req (arp_req n ++ [mkARP ip (time n)])
    (set_unsent (unsent n ++ [(d1, ip)]) n)))) as (f' & Hf' & E2); try done.
  { eexists. cbn. by rewrite Hreq. }
  eexists _, _, f. split; [exact E1|]. split; [exact E2|]. split; [done|].
  unfold request_frame in Hf, Hf'.
  cbn in Hf' |- *. rewrite Hf, Hf'. by rewrite <- (assoc_L (++)).
Qed.

(** ** Examples *)

Definition sample_mac : EthernetAddress := replicate 6 Byte.x02.
Definition sample_mac' : EthernetAddress := replicate 6 Byte.x03.
Definition sample_interface : NetworkInterface :=
  construct sample_mac (Address.of_ip 167772161).

Lemma send_datagram_outcome_witness :
  exists n', send_datagram 0 IPv4Datagram.sample (Address.of_ip 167772162) sample_interface = Ok n' /\
    n' = push_frame (frame (replicate 6 Byte.x00) sample_mac 0 [])
           (set_unsent [(IPv4Datagram.sample, 167772162)] sample_interface).
Proof.
  destruct (IPv4Datagram.serialize IPv4Datagram.sample) as [l|e] eqn:E;
    [|vm_compute in E; discriminate E].
  destruct (send_datagram_outcome 0 IPv4Datagram.sample 167772162 167772161 sample_interface l)
    as (n' & H1 & _ & H2).
  - lia.
  - vm_compute. reflexivity.
  - exact E.
  - exists n'. split; [exact H1|]. destruct H2 as (_ & H2 & _).
    + intros m Hm. vm_compute in Hm. discriminate Hm.
    + apply H2; [vm_compute; congruence|reflexivity].
Defined.

Lemma arp_reply_releases_queue_witness :
  let n := set_unsent [(IPv4Datagram.sample, 5); (IPv4Datagram.sample, 7)] sample_interface in
  let m := arp_message ARPMessage.OPCODE_REPLY sample_mac' 7 sample_mac 167772161 in
  let f := frame sample_mac sample_mac' TYPE_ARP [Buffer.of_string (ARPMessage.wire m)] in
  exists n', recv_frame f n = Ok (None, n') /\ unsent n' = [(IPv4Datagram.sample, 5)].
Proof.
  intros n m f.
  assert (Hm : ARPMessage.wf m) by (constructor; vm_compute; intuition congruence).
  assert (Ha : arp_arrives m n f).
  { split; [exact Hm|]. split; [right; reflexivity|]. split; [reflexivity|].
    exists (Buffer.of_string (ARPMessage.wire m)), []. split; [reflexivity|].
    split; [apply Buffer.of_string_wf; vm_compute; reflexivity|].
    rewrite app_nil_r. apply Buffer.str_of_string. vm_compute. reflexivity. }
  assert (Hs : serializable (IPv4Datagram.sample, 5)).
  { eexists. vm_compute. reflexivity. }
  destruct (arp_reply_releases_queue m n f Ha eq_refl) as (n' & fs & H1 & _ & _ & _ & H2 & _).
  - apply Forall_cons. split; [exact Hs|]. apply Forall_cons. split; [exact Hs|]. apply Forall_nil.
    exact I.
  - exists n'. split; [exact H1|]. rewrite H2. vm_compute. reflexivity.
Defined.

Lemma sample_datagram_wf : IPv4Datagram.wf IPv4Datagram.sample.
Proof.
  constructor; [constructor; cbn; lia|done| |by vm_compute].
  repeat (apply Forall_cons; split; [by vm_compute|]). by apply Forall_nil.
Qed.

Lemma arp_exchange_delivers_witness :
  exists A1 f1, send_datagram 10000000 IPv4Datagram.sample (Address.of_ip 167772162)
    sample_interface = Ok A1 /\ frames_out A1 = [f1] /\
    exists B1 dgram' g3, recv_frame g3 B1 = Ok (Some dgram', B1) /\
      Buffer.concatenate (IPv4Datagram.payload dgram')
      = Buffer.concatenate (IPv4Datagram.payload IPv4Datagram.sample).
Proof.
  destruct (arp_exchange_delivers sample_mac sample_mac' 167772161 167772162 eq_refl eq_refl
    ltac:(lia) ltac:(lia) 10000000 IPv4Datagram.sample) as
    (A1 & A2 & B1 & f1 & f2 & f3 & g1 & g2 & g3 & d & H1 & H2 & _ & _ & _ & _ & _ & _ & _ & _ & H3 & _ & H4).
  - vm_compute. reflexivity.
  - exact sample_datagram_wf.
  - exists A1, f1. split; [exact H1|]. split; [exact H2|]. exists B1, d, g3.
    split; [exact H3|exact H4].
Defined.

Lemma expired_request_repeats_witness :
  exists n1 n2 f,
    send_datagram 0 IPv4Datagram.sample (Address.of_ip 7)
      (tick 6000 (set_arp_req [mkARP 7 0] sample_interface)) = Ok n1 /\
    send_datagram 0 IPv4Datagram.sample (Address.of_ip 7) n1 = Ok n2 /\
    request_frame sample_mac 167772161 7 f /\ frames_out n2 = [] ++ [f; f].
Proof.
  apply (expired_request_repeats 0 IPv4Datagram.sample IPv4Datagram.sample 7 167772161
    (tick 6000 (set_arp_req [mkARP 7 0] sample_interface)) (mkARP 7 0) []).
  - lia.
  - vm_compute. reflexivity.
  - vm_compute. reflexivity.
  - reflexivity.
  - reflexivity.
  - intros H. vm_compute in H. congruence.
Defined.
