(* ===== verification/Router.v ===== *)
(** The router: [libsponge/router.hh] and [router.cc].  It takes the datagrams its
    interfaces have received and sends each out on the interface of the route
    with the longest matching prefix. *)
From S2P Require Import Prelude.
From S2P Require Buffer Address Ethernet IPv4Header IPv4Datagram NetworkInterface.
Import IPv4Datagram(IPv4Datagram).
Import Ethernet(EthernetFrame).
Import NetworkInterface(NetworkInterface).
Import Address(Address).

(** [struct Routingtable]: one route. *)
Record Routingtable := mkRoute {
  route_prefix : Z;
  prefix_length : Z;
  next_hop : option Address;
  interface_num : Z
}.

(** [class AsyncNetworkInterface] *)
Record AsyncNetworkInterface := mkAsync {
  base : NetworkInterface;
  datagrams_out : list IPv4Datagram
}.

Definition async_of (n : NetworkInterface) : AsyncNetworkInterface := mkAsync n [].

Definition recv_frame (f : EthernetFrame) (a : AsyncNetworkInterface)
    : result AsyncNetworkInterface :=
  '(optional_dgram, n) ← NetworkInterface.recv_frame f (base a);
  Ok (match optional_dgram with
      | Some d => mkAsync n (datagrams_out a ++ [d])
      | None => mkAsync n (datagrams_out a)
      end).

(** [class Router] *)
Record Router := mkRouter {
  routing_table : list Routingtable;
  interfaces : list AsyncNetworkInterface
}.

Definition construct : Router := mkRouter [] [].

Definition add_interface (i : AsyncNetworkInterface) (r : Router) : Z * Router :=
  let r := mkRouter (routing_table r) (interfaces r ++ [i]) in
  (u64 (size (interfaces r) - 1), r).

(** [interface(N)], which is [_interfaces.at(N)]. *)
Definition interface (N : Z) (r : Router) : result AsyncNetworkInterface :=
  match interfaces r !! Z.to_nat N with Some i => Ok i | None => Throw out_of_range end.

Definition set_interface (N : Z) (i : AsyncNetworkInterface) (r : Router) : Router :=
  mkRouter (routing_table r) (<[Z.to_nat N := i]> (interfaces r)).

Definition add_route (prefix length : Z) (hop : option Address) (num : Z) (r : Router) : Router :=
  mkRouter (routing_table r ++ [mkRoute prefix length hop num]) (interfaces r).

(** The comparison of the loop of [route_one_datagram].  A prefix length above 32
    makes the shift count wrap around, and the shift is undefined. *)
Definition prefix_matches (object : Routingtable) (dst : Z) : result bool :=
  let postfix_length := u64 (32 - prefix_length object) in
  if 0 <? prefix_length object then
    if 32 <? prefix_length object then Throw undefined_behaviour
    else Ok (Z.shiftr (route_prefix object) postfix_length =? Z.shiftr dst postfix_length)
  else Ok true.

(** The loop: [i] is the index, [max] and [best] the best route so far. *)
Fixpoint search (dst : Z) (table : list Routingtable) (i : nat) (max : Z) (best : nat)
    : result (Z * nat) :=
  match table with
  | [] => Ok (max, best)
  | object :: table' =>
      m ← prefix_matches object dst;
      if (m : bool) && (max <? prefix_length object)
      then search dst table' (S i) (prefix_length object) i
      else search dst table' (S i) max best
  end.

(** [garbage] is for [NetworkInterface::send_datagram]. *)
Definition route_one_datagram (garbage : Z) (dgram : IPv4Datagram) (r : Router) : result Router :=
  let dst := IPv4Header.dst (IPv4Datagram.header dgram) in
  let ttl := IPv4Header.ttl (IPv4Datagram.header dgram) in
  '(max, longest_prefix_match) ← search dst (routing_table r) 0 (-1) 0;
  if negb (max =? -1) then
    if (ttl =? 0) || (ttl - 1 =? 0) then Ok r
    else
      match routing_table r !! longest_prefix_match with
      | None => Throw undefined_behaviour
      | Some matched_object =>
          hop ← (match next_hop matched_object with
                 | Some a => Ok a
                 | None => Address.from_ipv4_numeric (u32 dst)
                 end);
          i ← interface (interface_num matched_object) r;
          n ← NetworkInterface.send_datagram garbage dgram hop (base i);
          Ok (set_interface (interface_num matched_object) (mkAsync n (datagrams_out i)) r)
      end
  else Ok r.

(** The inner loop of [route] on the queue of interface [k]; [fuel] is at least
    the length of the queue, see [drain_spec]. *)
Fixpoint drain (garbage : Z) (fuel : nat) (k : nat) (r : Router) : result Router :=
  match fuel with
  | O => Ok r
  | S fuel' =>
      match interfaces r !! k with
      | None => Ok r
      | Some i =>
          match datagrams_out i with
          | [] => Ok r
          | d :: _ =>
              r ← route_one_datagram garbage d r;
              match interfaces r !! k with
              | None => Ok r
              | Some i =>
                  drain garbage fuel' k
                    (set_interface (Z.of_nat k) (mkAsync (base i) (tail (datagrams_out i))) r)
              end
          end
      end
  end.

Definition queue_length (k : nat) (r : Router) : nat :=
  match interfaces r !! k with Some i => length (datagrams_out i) | None => 0 end.

(** The outer loop of [route]. *)
Fixpoint route_from (garbage : Z) (ks : list nat) (r : Router) : result Router :=
  match ks with
  | [] => Ok r
  | k :: ks' => r ← drain garbage (queue_length k r) k r; route_from garbage ks' r
  end.

Definition route (garbage : Z) (r : Router) : result Router :=
  route_from garbage (seq 0 (length (interfaces r))) r.

(** ** Longest prefix match *)

(** The first [prefix_length] bits of the route and of the address agree. *)
Definition applies (e : Routingtable) (dst : Z) : Prop :=
  forall k, 32 - prefix_length e <= k < 32 -> Z.testbit (route_prefix e) k = Z.testbit dst k.

Record route_ok (e : Routingtable) : Prop := {
  ok_length : 0 <= prefix_length e <= 32;
  ok_prefix : 0 <= route_prefix e < M32
}.

Lemma testbit_high x k : 0 <= x < M32 -> 32 <= k -> Z.testbit x k = false.
Proof.
  intros Hx Hk. destruct (Z.eq_dec x 0) as [->|Hne]; [apply Z.bits_0|].
  apply Z.bits_above_log2; [lia|]. apply Z.log2_lt_pow2; [lia|].
  apply Z.lt_le_trans with (2 ^ 32); [cbn; lia|]. apply Z.pow_le_mono_r; lia.
Qed.

Lemma prefix_matches_spec e dst :
  route_ok e -> 0 <= dst < M32 ->
  exists m, prefix_matches e dst = Ok m /\ (m = true <-> applies e dst).
Proof.
  intros [Hl Hp] Hd. unfold prefix_matches, applies. case_Z.
  2:{ exists true. split; [done|]. split; [|done]. intros _ k Hk. lia. }
  case_Z; [lia|]. eexists. split; [reflexivity|]. rewrite u64_id, Z.eqb_eq by lia.
  set (s := 32 - prefix_length e). split.
  - intros E k Hk. apply (f_equal (fun z => Z.testbit z (k - s))) in E.
    rewrite !Z.shiftr_spec in E by lia. by replace (k - s + s) with k in E by lia.
  - intros Hb. apply Z.bits_inj'. intros j Hj. rewrite !Z.shiftr_spec by done.
    destruct (Z.lt_ge_cases (j + s) 32); [apply Hb; lia|]. by rewrite !testbit_high by lia.
Qed.

(** What the search has found among the routes before index [i]. *)
Definition found (table : list Routingtable) (dst : Z) (i : nat) (max : Z) (best : nat) : Prop :=
  (max = -1 /\ forall j e, (j < i)%nat -> table !! j = Some e -> ~ applies e dst) \/
  (exists e, table !! best = Some e /\ (best < i)%nat /\ applies e dst /\ max = prefix_length e /\
     forall j e', (j < i)%nat -> table !! j = Some e' -> applies e' dst ->
       prefix_length e' <= max /\ (prefix_length e' = max -> (best <= j)%nat)).

Lemma search_spec table dst : forall rest i max best,
  Forall route_ok table -> 0 <= dst < M32 -> drop i table = rest -> (i <= length table)%nat ->
  found table dst i max best ->
  exists max' best', search dst rest i max best = Ok (max', best') /\
    found table dst (length table) max' best'.
Proof.
  induction rest as [|e rest IH]; intros i max best Hok Hd Hdrop Hi Hf.
  - assert (i = length table).
    { apply (f_equal length) in Hdrop. rewrite length_drop in Hdrop. cbn in Hdrop. lia. }
    subst i. by exists max, best.
  - assert (He : table !! i = Some e).
    { rewrite <- (Nat.add_0_r i), <- lookup_drop, Hdrop. done. }
    assert (Hlt : (i < length table)%nat) by (by apply lookup_lt_is_Some_1).
    assert (Hdrop' : drop (S i) table = rest).
    { rewrite (drop_S _ _ _ He) in Hdrop. by injection Hdrop. }
    assert (Hoke : route_ok e) by (rewrite Forall_lookup in Hok; by eapply Hok).
    destruct (prefix_matches_spec e dst Hoke Hd) as (m & Hm & Hma). cbn [search]. rewrite Hm.
    cbn [mbind result_bind]. destruct Hoke as [Hl _].
    assert (Hcase : forall j e', (j < S i)%nat -> table !! j = Some e' ->
              (j < i)%nat \/ (j = i /\ e' = e)).
    { intros j e' Hj Hl'. destruct (decide (j = i)) as [->|]; [right|left; lia].
      split; [done|congruence]. }
    destruct (m && (max <? prefix_length e)) eqn:Hg; apply IH; try done; try lia.
    + apply andb_true_iff in Hg as [Hm' Hg%Z.ltb_lt]. apply Hma in Hm'. right. exists e.
      split; [done|]. split; [lia|]. split; [done|]. split; [done|].
      intros j e' Hj Hl' Ha. destruct (Hcase j e' Hj Hl') as [Hj'|[-> ->]]; [|lia].
      destruct Hf as [[-> Hn]|(e0 & _ & _ & _ & _ & Hmax)]; [by destruct (Hn j e' Hj' Hl')|].
      destruct (Hmax j e' Hj' Hl' Ha). lia.
    + assert (Hno : applies e dst -> prefix_length e <= max).
      { intros Ha%Hma. rewrite Ha in Hg. cbn in Hg. by apply Z.ltb_ge in Hg. }
      destruct Hf as [[-> Hn]|(e0 & H0 & Hb & Ha0 & Hm0 & Hmax)].
      * left. split; [done|]. intros j e' Hj Hl' Ha.
        destruct (Hcase j e' Hj Hl') as [Hj'|[-> ->]]; [by apply (Hn j e')|].
        specialize (Hno Ha). lia.
      * right. exists e0. split; [done|]. split; [lia|]. split; [done|]. split; [done|].
        intros j e' Hj Hl' Ha. destruct (Hcase j e' Hj Hl') as [Hj'|[-> ->]]; [by apply (Hmax j e')|].
        split; [by apply Hno|lia].
Qed.

(** The route at index [best] is the one longest-prefix match demands for [dst]:
    it applies, no route that applies has a longer prefix, and among those of
    the same length it is the first of the table. *)
Definition chosen (table : list Routingtable) (dst : Z) (best : nat) (e : Routingtable) : Prop :=
  table !! best = Some e /\ applies e dst /\
  forall j e', table !! j = Some e' -> applies e' dst ->
    prefix_length e' <= prefix_length e /\
    (prefix_length e' = prefix_length e -> (best <= j)%nat).

Lemma search_chooses table dst :
  Forall route_ok table -> 0 <= dst < M32 ->
  exists max best, search dst table 0 (-1) 0 = Ok (max, best) /\
    ((max = -1 /\ forall j e, table !! j = Some e -> ~ applies e dst) \/
     (exists e, chosen table dst best e /\ max = prefix_length e)).
Proof.
  intros Hok Hd. destruct (search_spec table dst table 0 (-1) 0 Hok Hd) as (max & best & E & Hf);
    [done|lia|left; split; [done|lia]|].
  exists max, best. split; [done|].
  assert (Hlt : forall j e, table !! j = Some e -> (j < length table)%nat)
    by (intros; by eapply lookup_lt_Some).
  destruct Hf as [[-> Hn]|(e & He & _ & Ha & -> & Hmax)].
  - left. split; [done|]. intros j e Hj. by apply (Hn j e (Hlt _ _ Hj)).
  - right. exists e. split; [|done]. split_and!; try done.
    intros j e' Hj. by apply (Hmax j e' (Hlt _ _ Hj)).
Qed.

Lemma chosen_unique table dst b1 e1 b2 e2 :
  chosen table dst b1 e1 -> chosen table dst b2 e2 -> b1 = b2 /\ e1 = e2.
Proof.
  intros (H1 & A1 & M1) (H2 & A2 & M2).
  destruct (M1 _ _ H2 A2), (M2 _ _ H1 A1).
  assert (b1 = b2) by lia. subst b2. split; [done|congruence].
Qed.

(** C23: the search of [route_one_datagram] is longest-prefix match.  It reports
    no route (-1) exactly when there is none whose first [prefix_length] bits
    agree with the destination's; otherwise it reports the one that does with
    the longest prefix, the first of the table among those of that length. *)
Theorem longest_prefix_match table dst :
  Forall route_ok table -> 0 <= dst < M32 ->
  exists max best, search dst table 0 (-1) 0 = Ok (max, best) /\
    (max = -1 <-> forall j e, table !! j = Some e -> ~ applies e dst) /\
    (forall j e, chosen table dst j e <-> max <> -1 /\ j = best /\ table !! best = Some e).
Proof.
  intros Hok Hd. destruct (search_chooses table dst Hok Hd) as (max & best & E & Hf).
  exists max, best. split; [done|]. destruct Hf as [[-> Hn]|(e & Hc & ->)].
  - split; [done|]. intros j e. split; [|by intros []].
    intros (He & Ha & _). by destruct (Hn j e He).
  - destruct (Hc) as (He & Ha & _). assert (0 <= prefix_length e).
    { rewrite Forall_lookup in Hok. destruct (Hok best e He). lia. }
    split; [split; [lia|]; intros Hn; by destruct (Hn best e He)|]. intros j e'. split.
    + intros Hc'. destruct (chosen_unique _ _ _ _ _ _ Hc Hc') as [-> ->]. split; [lia|done].
    + intros (_ & -> & He'). by replace e' with e by congruence.
Qed.

(** ** Forwarding one datagram *)

Definition hop_of (e : Routingtable) (dst : Z) : Address :=
  default (Address.of_ip dst) (next_hop e).

(** C24: what [route_one_datagram] does.  A datagram with no route, or whose TTL is
    0 or 1, is dropped and nothing changes.  Any other goes to the interface of the
    route that longest-prefix match chooses, with the route's next hop or, for a
    directly attached network, the destination itself as next hop; that interface
    is given the very datagram that came in, so its TTL has not been decremented;
    when there is no such interface, [out_of_range] is thrown. *)
Theorem route_one_datagram_outcome garbage dgram r :
  let dst := IPv4Header.dst (IPv4Datagram.header dgram) in
  let ttl := IPv4Header.ttl (IPv4Datagram.header dgram) in
  Forall route_ok (routing_table r) -> 0 <= dst < M32 -> 0 <= ttl ->
  ((forall e, e ∈ routing_table r -> ~ applies e dst) \/ ttl <= 1 ->
     route_one_datagram garbage dgram r = Ok r) /\
  (forall j e, chosen (routing_table r) dst j e -> 1 < ttl ->
     route_one_datagram garbage dgram r =
     match interfaces r !! Z.to_nat (interface_num e) with
     | None => Throw out_of_range
     | Some i =>
         n ← NetworkInterface.send_datagram garbage dgram (hop_of e dst) (base i);
         Ok (set_interface (interface_num e) (mkAsync n (datagrams_out i)) r)
     end).
Proof.
  intros dst ttl Hok Hd Ht. unfold route_one_datagram. fold dst ttl.
  destruct (search_chooses _ dst Hok Hd) as (max & best & -> & Hf). cbn [mbind result_bind].
  destruct Hf as [[-> Hn]|(e & Hc & ->)].
  - split; [done|]. intros j e (He & Ha & _). by destruct (Hn j e He).
  - destruct (Hc) as (He & Ha & _). assert (0 <= prefix_length e).
    { rewrite Forall_lookup in Hok. destruct (Hok best e He). lia. }
    assert (negb (prefix_length e =? -1) = true) as ->.
    { rewrite negb_true_iff, Z.eqb_neq. lia. }
    split.
    + intros [Hn|Hle].
      * exfalso. apply (Hn e); [by eapply list_elem_of_lookup_2|done].
      * assert ((ttl =? 0) || (ttl - 1 =? 0) = true) as ->; [|done].
        rewrite orb_true_iff, !Z.eqb_eq. lia.
    + intros j e' Hc' Hlt. destruct (chosen_unique _ _ _ _ _ _ Hc Hc') as [<- <-].
      assert ((ttl =? 0) || (ttl - 1 =? 0) = false) as ->.
      { rewrite orb_false_iff, !Z.eqb_neq. lia. }
      rewrite He. unfold hop_of, interface.
      rewrite u32_id by done. rewrite Address.from_ipv4_numeric_eq.
      by destruct (next_hop e), (interfaces r !! Z.to_nat (interface_num e)).
Qed.

(** ** Routing everything *)

(** A router whose interfaces and queues are [bs] and [qs]. *)
Definition router_of (t : list Routingtable) (bs : list NetworkInterface)
    (qs : list (list IPv4Datagram)) : Router :=
  mkRouter t (zip_with mkAsync bs qs).

(** [route_one_datagram], on the interfaces alone. *)
Definition forward (garbage : Z) (t : list Routingtable) (d : IPv4Datagram)
    (bs : list NetworkInterface) : result (list NetworkInterface) :=
  r ← route_one_datagram garbage d (mkRouter t (async_of <$> bs));
  Ok (base <$> interfaces r).

Fixpoint forward_all (garbage : Z) (t : list Routingtable) (ds : list IPv4Datagram)
    (bs : list NetworkInterface) : result (list NetworkInterface) :=
  match ds with
  | [] => Ok bs
  | d :: ds' => bs ← forward garbage t d bs; forward_all garbage t ds' bs
  end.

Lemma zip_insert (bs : list NetworkInterface) (qs : list (list IPv4Datagram)) k n q :
  qs !! k = Some q ->
  <[k := mkAsync n q]> (zip_with mkAsync bs qs) = zip_with mkAsync (<[k := n]> bs) qs.
Proof.
  revert qs k. induction bs as [|b bs IH]; intros [|q0 qs] [|k] H; cbn in *; try done.
  - by injection H as ->.
  - f_equal. by apply IH.
Qed.

Lemma zip_pop (bs : list NetworkInterface) (qs : list (list IPv4Datagram)) k b q :
  bs !! k = Some b ->
  <[k := mkAsync b q]> (zip_with mkAsync bs qs) = zip_with mkAsync bs (<[k := q]> qs).
Proof.
  revert qs k. induction bs as [|b0 bs IH]; intros [|q0 qs] [|k] H; cbn in *; try done.
  - by injection H as ->.
  - f_equal. by apply IH.
Qed.

(** [route_one_datagram] neither reads nor changes the queues. *)
Lemma route_one_router_of g d t bs qs :
  length bs = length qs ->
  route_one_datagram g d (router_of t bs qs) =
    (bs' ← forward g t d bs; Ok (router_of t bs' qs)) /\
  (forall bs', forward g t d bs = Ok bs' -> length bs' = length bs).
Proof.
  intros Hlen. unfold forward, route_one_datagram, router_of. cbn [routing_table].
  assert (Hsame : base <$> (async_of <$> bs) = bs).
  { rewrite <- list_fmap_compose. by apply list_fmap_id. }
  destruct (search _ t 0 (-1) 0) as [[max best]|]; cbn [mbind result_bind]; [|done].
  destruct (negb _); [|cbn [mbind result_bind interfaces]; rewrite Hsame; split; [done|by intros ? [= <-]]].
  destruct (_ || _); [cbn [mbind result_bind interfaces]; rewrite Hsame; split; [done|by intros ? [= <-]]|].
  destruct (t !! best) as [e|]; [|done]. cbn [mbind result_bind].
  destruct (match next_hop e with Some a => Ok a | None => _ end) as [hop|];
    cbn [mbind result_bind]; [|done].
  unfold interface, set_interface. cbn [interfaces routing_table].
  rewrite lookup_zip_with, list_lookup_fmap. set (k := Z.to_nat (interface_num e)).
  destruct (bs !! k) as [b|] eqn:Eb; cbn [mbind option_bind fmap option_fmap option_map result_bind];
    [|done].
  destruct (lookup_lt_is_Some_2 qs k) as [q Hq].
  { rewrite <- Hlen. by eapply lookup_lt_Some. }
  rewrite Hq. cbn [mbind option_bind result_bind base async_of datagrams_out].
  destruct (NetworkInterface.send_datagram g d hop b) as [n|]; cbn [mbind result_bind]; [|done].
  cbn [interfaces]. rewrite list_fmap_insert, Hsame. cbn [base].
  split; [by rewrite (zip_insert bs qs k n q Hq)|]. intros bs' [= <-]. by rewrite length_insert.
Qed.

Lemma drain_spec g t k : forall q bs qs,
  length bs = length qs -> qs !! k = Some q ->
  drain g (length q) k (router_of t bs qs) =
    (bs' ← forward_all g t q bs; Ok (router_of t bs' (<[k := []]> qs))) /\
  (forall bs', forward_all g t q bs = Ok bs' -> length bs' = length bs).
Proof.
  induction q as [|d q IH]; intros bs qs Hlen Hq.
  - cbn. rewrite list_insert_id by done. split; [done|by intros ? [= <-]].
  - cbn [length drain forward_all]. unfold router_of at 1. cbn [interfaces].
    destruct (lookup_lt_is_Some_2 bs k) as [b Hb]; [rewrite Hlen; by eapply lookup_lt_Some|].
    rewrite lookup_zip_with, Hb, Hq. cbn [mbind option_bind datagrams_out].
    destruct (route_one_router_of g d t bs qs Hlen) as [-> Hl].
    destruct (forward g t d bs) as [bs1|] eqn:E1; cbn [mbind result_bind]; [|done].
    specialize (Hl _ eq_refl). unfold router_of at 1. cbn [interfaces].
    destruct (lookup_lt_is_Some_2 bs1 k) as [b1 Hb1]; [rewrite Hl, Hlen; by eapply lookup_lt_Some|].
    rewrite lookup_zip_with, Hb1, Hq. cbn [mbind option_bind datagrams_out base tail].
    assert (set_interface (Z.of_nat k) (mkAsync b1 q) (router_of t bs1 qs) =
            router_of t bs1 (<[k := q]> qs)) as ->.
    { unfold set_interface, router_of. cbn [interfaces routing_table].
      by rewrite Nat2Z.id, (zip_pop bs1 qs k b1 q Hb1). }
    destruct (IH bs1 (<[k := q]> qs)) as [E2 Hl2].
    + by rewrite length_insert, Hl.
    + rewrite list_lookup_insert_eq; [done|by eapply lookup_lt_Some].
    + rewrite E2, list_insert_insert_eq. split; [done|]. intros bs' H'. by rewrite (Hl2 _ H').
Qed.

Lemma forward_all_app g t d1 d2 bs :
  forward_all g t (d1 ++ d2) bs = (bs ← forward_all g t d1 bs; forward_all g t d2 bs).
Proof.
  revert bs. induction d1 as [|d d1 IH]; intros bs; [done|].
  cbn [app forward_all]. destruct (forward g t d bs); cbn [mbind result_bind]; [apply IH|done].
Qed.

Lemma route_from_spec g t : forall rest n bs,
  length bs = (n + length rest)%nat ->
  route_from g (seq n (length rest)) (router_of t bs (replicate n [] ++ rest)) =
    (bs' ← forward_all g t (concat rest) bs; Ok (mkRouter t (async_of <$> bs'))).
Proof.
  assert (Hempty : forall n bs, length bs = n ->
    router_of t bs (replicate n []) = mkRouter t (async_of <$> bs)).
  { intros n bs <-. unfold router_of. f_equal. induction bs as [|b bs IH]; [done|]. cbn. by f_equal. }
  induction rest as [|q rest IH]; intros n bs Hlen.
  - cbn. rewrite app_nil_r, Hempty by (cbn in Hlen; lia). done.
  - cbn [length seq route_from concat].
    assert (Hq : (replicate n [] ++ q :: rest) !! n = Some q).
    { rewrite lookup_app_r; rewrite length_replicate; [by rewrite Nat.sub_diag|done]. }
    assert (queue_length n (router_of t bs (replicate n [] ++ q :: rest)) = length q) as ->.
    { unfold queue_length, router_of. cbn [interfaces].
      destruct (lookup_lt_is_Some_2 bs n) as [b Hb]; [cbn in Hlen; lia|].
      by rewrite lookup_zip_with, Hb, Hq. }
    destruct (drain_spec g t n q bs (replicate n [] ++ q :: rest)) as [-> Hl].
    { rewrite length_app, length_replicate. done. } { done. }
    rewrite forward_all_app. destruct (forward_all g t q bs) as [bs1|]; cbn [mbind result_bind]; [|done].
    rewrite insert_app_r_alt by (by rewrite length_replicate). rewrite length_replicate, Nat.sub_diag.
    replace (replicate n [] ++ <[0%nat:=[]]> (q :: rest)) with (replicate (S n) [] ++ rest).
    + apply IH. rewrite (Hl _ eq_refl). cbn in Hlen. lia.
    + rewrite replicate_S_end, <- app_assoc. done.
Qed.

(** C25: [route] empties every queue: it forwards each datagram that the interfaces
    have received exactly once, interface by interface and in the order of
    arrival within each, as [route_one_datagram] does, and leaves all queues
    empty; an exception stops it exactly when one of the forwardings throws. *)
Theorem route_forwards_everything garbage r :
  route garbage r =
  (bs ← forward_all garbage (routing_table r) (concat (datagrams_out <$> interfaces r))
          (base <$> interfaces r);
   Ok (mkRouter (routing_table r) (async_of <$> bs))).
Proof.
  unfold route. destruct r as [t ifs]. cbn [interfaces routing_table].
  rewrite <- (route_from_spec garbage t (datagrams_out <$> ifs) 0) by (by rewrite !length_fmap).
  rewrite length_fmap. cbn [replicate app]. f_equal. unfold router_of. f_equal.
  induction ifs as [|[b q] ifs IH]; [done|]. cbn. by rewrite <- IH.
Qed.

(** ** A router with two interfaces *)

(** 10.0.0.0/8 through 192.168.0.2 on interface 1, 10.1.0.0/16 directly on
    interface 0, and a default route. *)
Definition sample_routes : list Routingtable :=
  [mkRoute 0 0 (Some (Address.of_ip 3232235522)) 1;
   mkRoute 167772160 8 (Some (Address.of_ip 3232235522)) 1;
   mkRoute 167837696 16 None 0].

Definition sample_mac (b : byte) : Ethernet.EthernetAddress := replicate 5 Byte.x02 ++ [b].

(** An interface that knows the address of [ip]. *)
Definition sample_interface (own ip : Z) (b : byte) : NetworkInterface :=
  NetworkInterface.learn ip (NetworkInterface.mkMapping (sample_mac b) 0)
    (NetworkInterface.construct (sample_mac Byte.x01) (Address.of_ip own)).

Definition sample_datagram (ttl dst : Z) : IPv4Datagram :=
  IPv4Datagram.mkIPv4Datagram
    (IPv4Header.mkIPv4Header 4 5 0 21 7 true false 0 ttl 6 0 3232235777 dst)
    [Buffer.of_string [Byte.x61]].

Definition sample_router : Router :=
  mkRouter sample_routes
    [mkAsync (sample_interface 167837697 167837957 Byte.x05) [sample_datagram 64 167772170];
     mkAsync (sample_interface 3232235521 3232235522 Byte.x06)
       [sample_datagram 64 167837957; sample_datagram 1 167837957]].

Lemma sample_routes_ok : Forall route_ok sample_routes.
Proof. repeat constructor; cbn; lia. Qed.

Lemma longest_prefix_match_witness :
  exists max best, search 167837957 sample_routes 0 (-1) 0 = Ok (max, best) /\
    (max = -1 <-> forall j e, sample_routes !! j = Some e -> ~ applies e 167837957) /\
    (forall j e, chosen sample_routes 167837957 j e <->
       max <> -1 /\ j = best /\ sample_routes !! best = Some e).
Proof. apply (longest_prefix_match sample_routes 167837957); [apply sample_routes_ok|lia]. Defined.

Lemma route_one_datagram_outcome_witness :
  route_one_datagram 0 (sample_datagram 1 167837957) sample_router = Ok sample_router.
Proof.
  destruct (route_one_datagram_outcome 0 (sample_datagram 1 167837957) sample_router) as [H _];
    [apply sample_routes_ok|cbn; lia|cbn; lia|]. apply H. right. cbn. lia.
Defined.

(** Both datagrams that are due go out, each to the right neighbour, the expired
    one is dropped, and what leaves still has the TTL it came with. *)
Example sample_route_result :
  match route 0 sample_router with
  | Ok r =>
      map (fun i => (length (datagrams_out i),
             map (fun f => (Ethernet.dst (Ethernet.header f),
                    match IPv4Datagram.parse IPv4Datagram.default
                            (Buffer.of_string (Buffer.concatenate (Ethernet.payload f))) with
                    | Ok (_, d) => IPv4Header.ttl (IPv4Datagram.header d)
                    | Throw _ => 0
                    end)) (NetworkInterface.frames_out (base i)))) (interfaces r)
  | Throw _ => []
  end = [(0%nat, [(sample_mac Byte.x05, 64)]); (0%nat, [(sample_mac Byte.x06, 64)])].
Proof. vm_compute. reflexivity. Qed.

(** A prefix length above 32 is accepted by [add_route] and makes the next
    datagram shift by a count that is out of range. *)
Example long_prefix_undefined :
  route_one_datagram 0 (sample_datagram 64 167837957) (add_route 0 33 None 0 construct) =
  Throw undefined_behaviour.
Proof. vm_compute. reflexivity. Qed.
