(* ===== verification/Safety.v ===== *)
(** Parsing, ARP and routing never yield [undefined_behaviour], whatever arrives and whatever the
    end iterators of [send_datagram] yield, which are not excluded; and a frame
    that is queued stays queued.  The functions are those of [libsponge/util/parser],
    [tcp_helpers/ethernet_frame], [arp_message], [ipv4_datagram], [tcp_segment],
    [network_interface] and [router]; programs that run a router rely on this file. *)
From S2P Require Import Prelude.
From S2P Require Buffer Parser Checksum Address Ethernet ARPMessage IPv4Header IPv4Datagram.
From S2P Require TCPHeader TCPSegment NetworkInterface Router.
Import NetworkInterface(NetworkInterface, frames_out).
Import Router(Router, AsyncNetworkInterface, routing_table, interfaces).
#[local] Existing Instances Parser.P_bind Parser.P_ret.

(** [m] returns with [Q], or throws something that is not undefined behaviour. *)
Definition yields {A} (m : result A) (Q : A -> Prop) : Prop :=
  match m with Ok a => Q a | Throw e => e <> undefined_behaviour end.

Abbreviation defined m := (yields m (fun _ => True)).

Lemma bind_yields {A B} (m : result A) (f : A -> result B) Q :
  yields m (fun a => yields (f a) Q) -> yields (m ≫= f) Q.
Proof. by destruct m. Qed.

Lemma yields_mono {A} (m : result A) (Q Q' : A -> Prop) :
  yields m Q -> (forall a, Q a -> Q' a) -> yields m Q'.
Proof. destruct m; cbn; auto. Qed.

Lemma yields_then {A B} (m : result A) (f : A -> result B) Q :
  defined m -> (forall a, yields (f a) Q) -> yields (m ≫= f) Q.
Proof. intros Hm Hf. apply bind_yields. eapply yields_mono; [done|auto]. Qed.

(** ** Sizes *)

(** The size of the string that a buffer holds; [str] is a part of it. *)
Definition held (b : Buffer.Buffer) : Z :=
  match Buffer.storage b with Some s => size s | None => 0 end.

Lemma str_held b : size (Buffer.str b) <= held b.
Proof.
  unfold Buffer.str, held. destruct (Buffer.storage b) as [s|]; [|done].
  unfold substr0, substr0_rest, size. rewrite length_take, length_drop. lia.
Qed.

(** [m] returns with [Q], does not let its buffer grow, and has no undefined behaviour. *)
Definition parses {A} (m : Parser.P A) (Q : A -> Prop) : Prop := forall p,
  yields (m p) (fun '(a, p') => held (Parser.buffer p') <= held (Parser.buffer p) /\ Q a).

Abbreviation sound m := (parses m (fun _ => True)).

Lemma parses_bind {A B} (m : Parser.P A) (f : A -> Parser.P B) Q R :
  parses m Q -> (forall a, Q a -> parses (f a) R) -> parses (m ≫= f) R.
Proof.
  intros Hm Hf p. unfold mbind, Parser.P_bind. specialize (Hm p).
  destruct (m p) as [[a p1]|e]; [|done]. destruct Hm as [H1 Ha]. specialize (Hf a Ha p1).
  destruct (f a p1) as [[b p2]|e]; [|done]. destruct Hf as [H2 Hb]. split; [lia|done].
Qed.

Lemma parses_then {A B} (m : Parser.P A) (f : A -> Parser.P B) R :
  sound m -> (forall a, parses (f a) R) -> parses (m ≫= f) R.
Proof. intros Hm Hf. eapply parses_bind; [done|auto]. Qed.

Lemma parses_ret {A} (a : A) (Q : A -> Prop) : Q a -> parses (mret a) Q.
Proof. intros Ha p. by split. Qed.
Lemma sound_get : sound Parser.get.
Proof. intros p. by split. Qed.

Create HintDb safety.
#[export] Hint Resolve parses_ret sound_get : safety.

(** ** Parsing and serializing *)

Lemma remove_prefix_defined n b :
  yields (Buffer.remove_prefix n b) (fun b' => held b' <= held b).
Proof.
  unfold Buffer.remove_prefix, held. case_Z; [done|].
  destruct (Buffer.storage b) as [s|]; [case_Z; cbn; size_lia|done].
Qed.

Lemma parse_int_sound len : sound (Parser.parse_int len).
Proof.
  intros p. unfold Parser.parse_int.
  destruct (Parser.error _); [cbn; by rewrite Parser.check_size_buffer|]. apply yields_then.
  - generalize (seq 0 len), 0. intros idx. induction idx as [|i idx IH]; intros ret; [done|].
    cbn [Parser.parse_loop]. apply yields_then; [|intros x; apply IH].
    unfold Buffer.at_. by destruct (_ !! _).
  - intros ret. apply bind_yields. eapply yields_mono; [apply remove_prefix_defined|].
    intros b Hb. cbn. by rewrite Parser.check_size_buffer in Hb.
Qed.

Lemma p_remove_prefix_sound n : sound (Parser.p_remove_prefix n).
Proof.
  intros p. unfold Parser.p_remove_prefix.
  destruct (Parser.error _); [cbn; by rewrite Parser.check_size_buffer|]. apply bind_yields.
  eapply yields_mono; [apply remove_prefix_defined|]. intros b Hb. cbn.
  by rewrite Parser.check_size_buffer in Hb.
Qed.

Lemma p_u32_sound : sound Parser.p_u32.
Proof. apply parse_int_sound. Qed.
Lemma p_u16_sound : sound Parser.p_u16.
Proof. apply parse_int_sound. Qed.
Lemma p_u8_sound : sound Parser.p_u8.
Proof. apply parse_int_sound. Qed.
#[export] Hint Resolve p_u32_sound p_u16_sound p_u8_sound p_remove_prefix_sound : safety.

Lemma p_u8s_sound n : parses (Parser.p_u8s n) (fun l => length l = n).
Proof.
  induction n as [|n IH]; cbn [Parser.p_u8s]; [by apply parses_ret|].
  apply parses_then; [auto with safety|]. intros x. eapply parses_bind; [exact IH|].
  intros xs Hxs. apply parses_ret. cbn. by rewrite Hxs.
Qed.
#[export] Hint Resolve p_u8s_sound : safety.

(** Goes through the statements of a parser. *)
Ltac sound_steps :=
  repeat match goal with
  | |- parses (_ ≫= _) _ => eapply parses_bind; [solve [eauto with safety]|]
  | |- parses (if ?b then _ else _) _ => destruct b
  | |- parses (mret _) _ => apply parses_ret
  | |- parses _ _ => solve [auto with safety]
  | |- forall _, _ => intros ? ?
  end.

Lemma tcp_header_sound : sound TCPHeader.parse.
Proof.
  unfold TCPHeader.parse. sound_steps. unfold TCPHeader.skip_options. sound_steps; done.
Qed.

Lemma hlen_nibble b : Z.land b 15 <= 15.
Proof.
  change 15 with (Z.ones 4) at 1. rewrite Z.land_ones by lia.
  pose proof (Z.mod_pos_bound b (2 ^ 4)). lia.
Qed.

Lemma ip_header_sound old :
  parses (IPv4Header.parse old)
    (fun '(_, h) => IPv4Header.hlen h <= 15 \/ h = old).
Proof.
  unfold IPv4Header.parse. sound_steps; [by right|]. unfold IPv4Header.parse_checks.
  sound_steps; left; apply hlen_nibble.
Qed.

Lemma ethernet_header_sound old :
  parses (Ethernet.header_parse old) (fun '(_, h) => length (Ethernet.src h) = 6%nat \/ h = old).
Proof. unfold Ethernet.header_parse. sound_steps; [by right|by left]. Qed.

Lemma arp_fields_sound m :
  parses (ARPMessage.parse_fields m)
    (fun '(_, m') => length (ARPMessage.sender_ethernet_address m') = 6%nat \/
       ARPMessage.sender_ethernet_address m' = ARPMessage.sender_ethernet_address m).
Proof. unfold ARPMessage.parse_fields. sound_steps; [by right..|by left]. Qed.

(** What is read at once is at most a megabyte. *)
Definition LIMIT : Z := 1048576.

Definition small_datagram (d : IPv4Datagram.IPv4Datagram) : Prop :=
  IPv4Header.hlen (IPv4Datagram.header d) <= 15 /\
  size (Buffer.concatenate (IPv4Datagram.payload d)) <= LIMIT.

(** A frame as it is received, and a frame to be sent. *)
Definition small_arrival (f : Ethernet.EthernetFrame) : Prop :=
  length (Ethernet.src (Ethernet.header f)) = 6%nat /\
  Forall (fun b => held b <= LIMIT) (Ethernet.payload f).
Definition small_frame (f : Ethernet.EthernetFrame) : Prop :=
  size (Buffer.concatenate (Ethernet.serialize f)) <= 2 * LIMIT.

Lemma datagram_parse_small b :
  held b <= LIMIT ->
  yields (IPv4Datagram.parse IPv4Datagram.default b) (fun '(_, d) => small_datagram d).
Proof.
  intros Hb. unfold IPv4Datagram.parse. apply bind_yields.
  eapply yields_mono; [apply ip_header_sound|]. intros [[r h] p] [Hp Hh].
  assert (Hd : small_datagram (IPv4Datagram.mkIPv4Datagram h (Buffer.bl_of_buffer (Parser.buffer p)))).
  { split; [destruct Hh as [?| ->]; [done|by vm_compute]|]. cbn. rewrite app_nil_r.
    cbn in Hp. pose proof (str_held (Parser.buffer p)). lia. }
  by destruct (negb _).
Qed.

Lemma frame_parse_small data :
  size data <= LIMIT ->
  yields (Ethernet.parse Ethernet.default (Buffer.of_string data)) (fun '(_, f) => small_arrival f).
Proof.
  intros Hb. unfold Ethernet.parse. apply bind_yields.
  eapply yields_mono; [apply ethernet_header_sound|]. intros [[r h] p] [Hp Hh]. split.
  - by destruct Hh as [?| ->].
  - repeat constructor. cbn in Hp. lia.
Qed.

Lemma arp_parse_small b :
  yields (ARPMessage.parse ARPMessage.default b)
    (fun '(_, m) => length (ARPMessage.sender_ethernet_address m) = 6%nat).
Proof.
  unfold ARPMessage.parse. apply bind_yields. eapply yields_mono; [apply arp_fields_sound|].
  intros [[r m] p] [_ Hm]. cbn. destruct Hm as [?| ->]; done.
Qed.

Lemma segment_parse_defined old b ck : defined (TCPSegment.parse old b ck).
Proof.
  unfold TCPSegment.parse. destruct (negb _); [done|]. apply bind_yields.
  eapply yields_mono; [apply tcp_header_sound|]. by intros [[r h] p].
Qed.

Lemma datagram_parse_defined old b : defined (IPv4Datagram.parse old b).
Proof.
  unfold IPv4Datagram.parse. apply bind_yields. eapply yields_mono; [apply ip_header_sound|].
  intros [[r h] p] _. by destruct (negb _).
Qed.

Lemma to_buffer_small l :
  Forall (fun b => held b <= LIMIT) l -> yields (Buffer.to_buffer l) (fun b => held b <= LIMIT).
Proof. destruct l as [|b [|b' l]]; intros Hl; [done| |done]. by apply Forall_inv in Hl. Qed.

Lemma to_buffer_defined l : defined (Buffer.to_buffer l).
Proof. by destruct l as [|b [|b' l]]. Qed.

Lemma ipv4_numeric_defined a : defined (Address.ipv4_numeric a).
Proof. unfold Address.ipv4_numeric. by destruct (_ || _). Qed.

Lemma ip_header_serialize_size h :
  yields (IPv4Header.serialize h) (fun s => size s <= Z.max 0 (4 * IPv4Header.hlen h)).
Proof.
  unfold IPv4Header.serialize. destruct (negb _); [done|]. destruct (_ <? _); [done|]. cbn [yields].
  unfold TCPHeader.resize, size. rewrite length_app, length_take, length_replicate. lia.
Qed.

Lemma str_of_string_size s : size (Buffer.str (Buffer.of_string s)) <= size s.
Proof. apply (str_held (Buffer.of_string s)). Qed.

Lemma datagram_serialize_small d :
  small_datagram d ->
  yields (IPv4Datagram.serialize d) (fun l => size (Buffer.concatenate l) <= 60 + LIMIT).
Proof.
  intros [Hh Hp]. unfold IPv4Datagram.serialize. destruct (negb _); [done|].
  apply bind_yields. eapply yields_mono; [apply ip_header_serialize_size|]. intros s0 _.
  apply bind_yields. eapply yields_mono; [apply ip_header_serialize_size|]. intros s Hs. cbn in Hs.
  cbn [yields Buffer.append app Buffer.bl_of_string]. cbn [Buffer.concatenate]. rewrite size_app.
  pose proof (str_of_string_size s). lia.
Qed.

Lemma arp_serialize_small m :
  length (ARPMessage.sender_ethernet_address m) = 6%nat ->
  length (ARPMessage.target_ethernet_address m) = 6%nat ->
  yields (ARPMessage.serialize m) (fun s => size s = 28).
Proof.
  intros Hs Ht. destruct (ARPMessage.supported m) eqn:E.
  - rewrite ARPMessage.arp_serialize_wire by done. cbn [yields]. unfold ARPMessage.wire, size.
    rewrite !length_app, !Parser.be_bytes_length. lia.
  - unfold ARPMessage.serialize. by rewrite E.
Qed.

Lemma frame_small dst src ty l :
  length dst = 6%nat -> length src = 6%nat -> size (Buffer.concatenate l) <= 60 + LIMIT ->
  small_frame (NetworkInterface.frame dst src ty l).
Proof.
  intros Hd Hs Hl. unfold small_frame, Ethernet.serialize. cbn [Buffer.append app Buffer.bl_of_string].
  cbn [Buffer.concatenate Ethernet.payload NetworkInterface.frame]. rewrite size_app.
  pose proof (str_of_string_size (Ethernet.header_serialize (Ethernet.mkEthernetHeader dst src ty))) as Hh.
  assert (Hw : size (Ethernet.header_serialize (Ethernet.mkEthernetHeader dst src ty)) = 14).
  { rewrite Ethernet.header_serialize_wire. unfold size.
    rewrite !length_app, Parser.be_bytes_length. cbn [Ethernet.dst Ethernet.src]. lia. }
  unfold LIMIT in *. cbn [Ethernet.header NetworkInterface.frame]. lia.
Qed.

#[export] Hint Resolve datagram_parse_defined segment_parse_defined to_buffer_defined
  ipv4_numeric_defined : safety.

(** ** Interfaces *)

Record small (n : NetworkInterface) : Prop := {
  small_mac : length (NetworkInterface.ethernet_address n) = 6%nat;
  small_map : map_Forall (fun _ m => length (NetworkInterface.mapped_address m) = 6%nat)
                (NetworkInterface.ip_ethernet_map n);
  small_unsent : Forall (fun x => small_datagram x.1) (NetworkInterface.unsent n);
  small_frames : Forall small_frame (frames_out n)
}.

(** The frames queued in [n] are still the first ones in [n'], which is small. *)
Definition grows (n n' : NetworkInterface) : Prop :=
  frames_out n `prefix_of` frames_out n' /\ small n'.

Lemma grows_trans a b c : grows a b -> grows b c -> grows a c.
Proof. intros [P1 _] [P2 S2]. split; [by etrans|done]. Qed.

Lemma grows_push f n n' :
  grows n n' -> small_frame f -> grows n (NetworkInterface.push_frame f n').
Proof.
  intros [Hp [S1 S2 S3 S4]] Hf. split; [etrans; [done|by exists [f]]|]. constructor; try done.
  by apply Forall_app; split; [|constructor].
Qed.

Lemma grows_refl n : small n -> grows n n.
Proof. by split. Qed.

Lemma arp_frame_small dst n op ip mac target :
  small n -> length dst = 6%nat -> length mac = 6%nat ->
  yields (ARPMessage.serialize (NetworkInterface.arp_message op
      (NetworkInterface.ethernet_address n) ip mac target))
    (fun s => small_frame (NetworkInterface.frame dst (NetworkInterface.ethernet_address n)
                             Ethernet.TYPE_ARP (Buffer.bl_of_string s))).
Proof.
  intros Hn Hd Hm. eapply yields_mono; [apply arp_serialize_small; [apply Hn|done]|].
  intros s Hs. apply frame_small; [done|apply Hn|]. cbn [Buffer.concatenate Buffer.bl_of_string].
  rewrite app_nil_r. pose proof (str_of_string_size s) as H1. rewrite Hs in H1.
  etrans; [exact H1|]. done.
Qed.

Lemma resolve_grows g d ip n :
  small n -> small_datagram d -> yields (NetworkInterface.resolve g d ip n) (grows n).
Proof.
  intros Hn Hd. unfold NetworkInterface.resolve.
  set (n1 := NetworkInterface.set_unsent _ n).
  assert (Hn1 : grows n n1).
  { destruct Hn. split; [done|]. constructor; try done. by apply Forall_app; split; [|constructor]. }
  case_Z.
  - destruct (list_find _ _) as [[k r]|]; cbn [yields]; [done|]. apply grows_push; [done|].
    apply frame_small; [done|apply Hn1|]. by vm_compute.
  - apply yields_then; [auto with safety|]. intros own. apply bind_yields.
    eapply yields_mono; [by apply (arp_frame_small Ethernet.ETHERNET_BROADCAST); [apply Hn1|..]|].
    intros s Hs. cbn [yields]. apply grows_push; [|exact Hs].
    destruct Hn1 as [Hp []]. by split; [|constructor].
Qed.

Lemma send_datagram_grows g d hop n :
  small n -> small_datagram d -> yields (NetworkInterface.send_datagram g d hop n) (grows n).
Proof.
  intros Hn Hd. unfold NetworkInterface.send_datagram. apply yields_then; [auto with safety|].
  intros ip. destruct (_ !! ip) as [m|] eqn:Hm; [|by apply resolve_grows].
  case_Z; [by apply resolve_grows|]. apply bind_yields.
  eapply yields_mono; [by apply datagram_serialize_small|]. intros l Hl. cbn [yields].
  apply grows_push; [by apply grows_refl|]. apply frame_small; [|apply Hn|done].
  by eapply (small_map n Hn ip).
Qed.

Lemma flush_small ip mac src l :
  length mac = 6%nat -> length src = 6%nat -> Forall (fun x => small_datagram x.1) l ->
  yields (NetworkInterface.flush ip mac src l)
    (fun '(fs, rest) => Forall small_frame fs /\ Forall (fun x => small_datagram x.1) rest).
Proof.
  intros Hm Hs. induction l as [|[d hop] l IH]; intros Hl; [done|].
  apply Forall_cons in Hl as [Hd Hl]. cbn [NetworkInterface.flush]. case_Z.
  - apply bind_yields. eapply yields_mono; [by apply datagram_serialize_small|]. intros s Hz.
    apply bind_yields. eapply yields_mono; [by apply IH|]. intros [fs rest] [H1 H2]. split; [|done].
    constructor; [by apply frame_small|done].
  - apply bind_yields. eapply yields_mono; [by apply IH|]. intros [fs rest] [H1 H2]. split; [done|].
    by constructor.
Qed.

Lemma recv_arp_grows src msg n :
  small n -> length src = 6%nat -> length (ARPMessage.sender_ethernet_address msg) = 6%nat ->
  yields (NetworkInterface.recv_arp src msg n) (grows n).
Proof.
  intros Hn Hsrc Hmac. unfold NetworkInterface.recv_arp. set (n1 := NetworkInterface.learn _ _ n).
  assert (Hn1 : grows n n1).
  { destruct Hn. split; [done|]. constructor; try done. by apply map_Forall_insert_2. }
  clearbody n1. apply yields_then.
  { case_Z; [|done]. apply yields_then; [auto with safety|done]. }
  intros valid. apply bind_yields. apply yields_mono with (Q := grows n).
  { destruct valid; [|done]. apply yields_then; [auto with safety|]. intros own. apply bind_yields.
    eapply yields_mono; [by apply (arp_frame_small src); [apply Hn1|..]|]. intros s Hs.
    by apply grows_push. }
  intros n2 [Hp2 [M1 M2 M3 M4]]. case_Z; [|by split; [|constructor]].
  apply bind_yields. eapply yields_mono; [by apply flush_small|]. intros [fs rest] [Hf Hr].
  split; [etrans; [done|by exists fs]|]. constructor; try done. cbn. by apply Forall_app.
Qed.

Lemma recv_frame_grows f n :
  small n -> small_arrival f ->
  yields (NetworkInterface.recv_frame f n)
    (fun '(d, n') => grows n n' /\ forall x, d = Some x -> small_datagram x).
Proof.
  intros Hn [Hsrc Hf]. pose proof (grows_refl n Hn) as Hr. unfold NetworkInterface.recv_frame.
  destruct (_ && _); [done|]. case_Z.
  - apply bind_yields. eapply yields_mono; [by apply to_buffer_small|]. intros b Hb.
    apply bind_yields. eapply yields_mono; [by apply datagram_parse_small|]. intros [r d] Hd.
    split; [done|]. intros x Hx. destruct (bool_decide _); [|done]. by injection Hx as <-.
  - case_Z; [|done]. apply yields_then; [auto with safety|]. intros b. apply bind_yields.
    eapply yields_mono; [apply arp_parse_small|]. intros [r m] Hm.
    destruct (bool_decide _); [done|]. apply bind_yields.
    eapply yields_mono; [by apply recv_arp_grows|]. by intros n' Hn'.
Qed.

(** ** The router *)

Definition small_interface (i : AsyncNetworkInterface) : Prop :=
  small (Router.base i) /\ Forall small_datagram (Router.datagrams_out i).

(** The shifts of the table are defined, and nothing large waits. *)
Definition fit (r : Router) : Prop :=
  Forall (fun e => Router.prefix_length e <= 32) (routing_table r) /\
  Forall small_interface (interfaces r).

(** [r'] has the routes of [r], and the frames that were queued are still the first ones. *)
Definition extends (r r' : Router) : Prop :=
  fit r' /\ routing_table r' = routing_table r /\
  Forall2 (fun i i' => frames_out (Router.base i) `prefix_of` frames_out (Router.base i'))
    (interfaces r) (interfaces r').

Lemma extends_refl r : fit r -> extends r r.
Proof.
  intros Hr. split; [done|]. split; [done|]. apply Forall_Forall2_diag, Forall_true. by intros i.
Qed.

Lemma extends_trans a b c : extends a b -> extends b c -> extends a c.
Proof.
  intros (_ & E1 & F1) (Hc & E2 & F2). split; [done|]. split; [congruence|].
  revert F1 F2. generalize (interfaces a) (interfaces b) (interfaces c). intros x y z F1. revert z.
  induction F1 as [|i i' x y Hi F1 IH]; intros z F2; inversion F2; subst; constructor; [by etrans|auto].
Qed.

Lemma extends_set k i i' r :
  fit r -> interfaces r !! Z.to_nat k = Some i -> grows (Router.base i) (Router.base i') ->
  Forall small_datagram (Router.datagrams_out i') -> extends r (Router.set_interface k i' r).
Proof.
  intros [H1 H2] Hi [Hp Hs] Hd. split; [|split; [done|]].
  - split; [done|]. by apply Forall_insert.
  - apply Forall2_same_length_lookup. cbn. rewrite length_insert. split; [done|].
    intros j x y Hx Hy. destruct (decide (j = Z.to_nat k)) as [->|Hne].
    + rewrite list_lookup_insert_eq in Hy by (by eapply lookup_lt_Some). congruence.
    + rewrite list_lookup_insert_ne in Hy by done. by replace y with x by congruence.
Qed.

Lemma search_defined dst N : forall table i max best,
  Forall (fun e => Router.prefix_length e <= 32) table -> (i + length table = N)%nat ->
  max = -1 \/ (best < N)%nat ->
  yields (Router.search dst table i max best) (fun '(m, b) => m = -1 \/ (b < N)%nat).
Proof.
  induction table as [|e table IH]; intros i max best Hf HN Hb; [done|]. cbn [Router.search].
  apply Forall_cons in Hf as [He Hf]. cbn [length] in HN. apply yields_then.
  { unfold Router.prefix_matches. case_Z; [|done]. case_Z; [lia|done]. }
  intros m. destruct (_ && _); apply IH; [done|lia|right; lia|done|lia|done].
Qed.

Lemma fit_interface r k i : fit r -> interfaces r !! k = Some i -> small_interface i.
Proof. intros [_ Hr] Hi. by eapply (Forall_lookup_1 _ _ _ _ Hr). Qed.

Lemma route_one_datagram_extends g d r :
  fit r -> small_datagram d -> yields (Router.route_one_datagram g d r) (extends r).
Proof.
  intros Hr Hd. pose proof (extends_refl r Hr) as Hrefl. unfold Router.route_one_datagram.
  apply bind_yields.
  eapply yields_mono; [apply (search_defined _ (length (routing_table r))); [apply Hr|done|by left]|].
  intros [max best] Hb. destruct (Z.eqb_spec max (-1)) as [|Hm]; [done|]. cbn [negb].
  destruct (_ || _); [done|]. destruct Hb as [|Hb]; [done|].
  destruct (lookup_lt_is_Some_2 _ _ Hb) as [e ->]. apply yields_then.
  { by destruct (Router.next_hop e). }
  intros hop. apply bind_yields. unfold Router.interface.
  destruct (interfaces r !! _) as [i|] eqn:Hi; [|done]. cbn [yields]. apply bind_yields.
  destruct (fit_interface _ _ _ Hr Hi) as [Hs Hq].
  eapply yields_mono; [by apply send_datagram_grows|]. intros n Hn. cbn. by eapply extends_set.
Qed.

Lemma drain_extends g k : forall fuel r, fit r -> yields (Router.drain g fuel k r) (extends r).
Proof.
  induction fuel as [|fuel IH]; intros r Hr; pose proof (extends_refl r Hr) as Hrefl; [done|].
  cbn [Router.drain]. destruct (interfaces r !! k) as [i|] eqn:Hi; [|done].
  destruct (Router.datagrams_out i) as [|d q] eqn:Hq; [done|]. apply bind_yields.
  destruct (fit_interface _ _ _ Hr Hi) as [_ Hd]. rewrite Hq in Hd. apply Forall_inv in Hd.
  eapply yields_mono; [by apply route_one_datagram_extends|]. intros r1 H1.
  destruct (interfaces r1 !! k) as [i1|] eqn:Hi1; [|done].
  destruct (fit_interface _ _ _ (proj1 H1) Hi1) as [Hs1 Hd1].
  assert (H2 : extends r (Router.set_interface (Z.of_nat k)
    (Router.mkAsync (Router.base i1) (tail (Router.datagrams_out i1))) r1)).
  { eapply extends_trans; [done|]. apply extends_set with (i := i1); [apply H1|by rewrite Nat2Z.id| |].
    - by apply grows_refl.
    - cbn. destruct (Router.datagrams_out i1); [done|]. by apply Forall_inv_tail in Hd1. }
  eapply yields_mono; [apply IH, H2|]. intros r2 H3. by eapply extends_trans.
Qed.

(** Whatever datagrams wait, routing them is defined and takes no frame out of a queue. *)
Lemma route_extends g r : fit r -> yields (Router.route g r) (extends r).
Proof.
  intros Hr. unfold Router.route. generalize (seq 0 (length (interfaces r))). intros ks. revert r Hr.
  induction ks as [|k ks IH]; intros r Hr; [by apply extends_refl|]. cbn [Router.route_from].
  apply bind_yields. eapply yields_mono; [by apply drain_extends|]. intros r1 H1.
  eapply yields_mono; [apply IH, H1|]. intros r2 H2. by eapply extends_trans.
Qed.

(** Whatever bytes arrive at an interface and are parsed, handing them to it is defined and
    takes no frame out of a queue. *)
Lemma recv_frame_extends f side r :
  fit r -> small_arrival f ->
  yields (i ← Router.interface side r; i' ← Router.recv_frame f i; Ok (Router.set_interface side i' r))
    (extends r).
Proof.
  intros Hr Hf. unfold Router.interface.
  destruct (interfaces r !! Z.to_nat side) as [i|] eqn:Hi; [|done].
  cbn [mbind result_bind]. unfold Router.recv_frame. apply bind_yields, bind_yields.
  destruct (fit_interface _ _ _ Hr Hi) as [Hs Hq].
  eapply yields_mono; [by apply recv_frame_grows|]. intros [d n] [Hn Hd].
  destruct d as [d|]; eapply extends_set; try done.
  cbn. apply Forall_app. split; [done|]. apply Forall_singleton. auto.
Qed.
