(* ===== verification/Adapters.v ===== *)
(** The adapters that carry TCP segments over IP datagrams, UDP payloads and
    Ethernet frames: [libsponge/tcp_helpers/tcp_over_ip.cc], [fd_adapter.hh],
    [fd_adapter.cc], [lossy_fd_adapter.hh], [tuntap_adapter.hh] and
    [tuntap_adapter.cc].  A device or socket is what was read from it and the
    list of what was written to it. *)
From S2P Require Import Prelude Buffer Parser.
From S2P Require Address Ethernet IPv4Header IPv4Datagram TCPHeader TCPSegment NetworkInterface.
Import Address(Address).
Import IPv4Datagram(IPv4Datagram).
Import TCPSegment(TCPSegment).
Import NetworkInterface(NetworkInterface).

(** The numeric parts of [Address] that call the C library: the constructor from
    a dotted quad and a port ([getaddrinfo]), given here the address as a number,
    and the accessor [port] ([getnameinfo]). *)
Class Resolver := {
  make_address : Z -> Z -> result Address;
  port : Address -> result Z
}.

(** What the library documents: a numeric address and port resolve to a socket
    address that holds them. *)
Class ResolverLaws `{Resolver} : Prop := make_address_spec ip p :
  0 <= ip < M32 -> 0 <= p < 65536 ->
  exists a, make_address ip p = Ok a /\ Address.ipv4_numeric a = Ok ip /\ port a = Ok p.

(** [class FdAdapterConfig] *)
Record FdAdapterConfig := mkConfig {
  source : Address;
  destination : Address;
  loss_rate_dn : Z;
  loss_rate_up : Z
}.

(** [class FdAdapterBase] *)
Record FdAdapterBase := mkAdapter {
  config : FdAdapterConfig;
  listening : bool
}.

Definition set_listening (l : bool) (a : FdAdapterBase) : FdAdapterBase := mkAdapter (config a) l.
Definition set_config (c : FdAdapterConfig) (a : FdAdapterBase) : FdAdapterBase :=
  mkAdapter c (listening a).
Definition set_source (s : Address) (c : FdAdapterConfig) : FdAdapterConfig :=
  mkConfig s (destination c) (loss_rate_dn c) (loss_rate_up c).
Definition set_destination (d : Address) (c : FdAdapterConfig) : FdAdapterConfig :=
  mkConfig (source c) d (loss_rate_dn c) (loss_rate_up c).

Definition set_ports (s d : Z) (seg : TCPSegment) : TCPSegment :=
  TCPSegment.mkTCPSegment (TCPHeader.set_ports s d (TCPSegment.header seg)) (TCPSegment.payload seg).

(** [a and b], where [b] is evaluated only if [a] holds. *)
Definition andalso (a : bool) (b : result bool) : result bool := if a then b else Ok false.

Section Adapters.
Context `{Resolver}.

(** [TCPOverIPv4Adapter::unwrap_tcp_in_ip] *)
Definition unwrap_tcp_in_ip (ip_dgram : IPv4Datagram) (a : FdAdapterBase)
    : result (option TCPSegment * FdAdapterBase) :=
  let hdr := IPv4Datagram.header ip_dgram in
  not_for_us ← andalso (negb (listening a))
                 (own ← Address.ipv4_numeric (source (config a));
                  Ok (negb (IPv4Header.dst hdr =? own)));
  if not_for_us : bool then Ok (None, a) else
  not_from_peer ← andalso (negb (listening a))
                    (peer ← Address.ipv4_numeric (destination (config a));
                     Ok (negb (IPv4Header.src hdr =? peer)));
  if not_from_peer : bool then Ok (None, a) else
  if negb (IPv4Header.proto hdr =? IPv4Header.PROTO_TCP) then Ok (None, a) else
  b ← to_buffer (IPv4Datagram.payload ip_dgram);
  '(r, tcp_seg) ← TCPSegment.parse TCPSegment.default b (IPv4Header.pseudo_cksum hdr);
  if negb (bool_decide (r = NoError)) then Ok (None, a) else
  let th := TCPSegment.header tcp_seg in
  own_port ← port (source (config a));
  if negb (TCPHeader.dport th =? own_port) then Ok (None, a) else
  '(continue, a) ←
    (if listening a then
       if TCPHeader.syn th && negb (TCPHeader.rst th) then
         s ← make_address (IPv4Header.dst hdr) own_port;
         d ← make_address (IPv4Header.src hdr) (TCPHeader.sport th);
         Ok (true, set_listening false (set_config (set_destination d (set_source s (config a))) a))
       else Ok (false, a)
     else Ok (true, a));
  if negb continue then Ok (None, a) else
  peer_port ← port (destination (config a));
  if negb (TCPHeader.sport th =? peer_port) then Ok (None, a) else
  Ok (Some tcp_seg, a).

(** [TCPOverIPv4Adapter::wrap_tcp_in_ip]; the ports of the segment itself are set. *)
Definition wrap_tcp_in_ip (seg : TCPSegment) (a : FdAdapterBase)
    : result (IPv4Datagram * TCPSegment) :=
  sport ← port (source (config a));
  dport ← port (destination (config a));
  let seg := set_ports sport dport seg in
  src ← Address.ipv4_numeric (source (config a));
  dst ← Address.ipv4_numeric (destination (config a));
  let hdr := IPv4Header.set_addresses src dst IPv4Header.default in
  let hdr := IPv4Header.set_len
               (u16 (IPv4Header.hlen hdr * 4 + TCPHeader.doff (TCPSegment.header seg) * 4
                     + buf_size (TCPSegment.payload seg))) hdr in
  payload ← TCPSegment.serialize seg (IPv4Header.pseudo_cksum hdr);
  Ok (IPv4Datagram.mkIPv4Datagram hdr payload, seg).

(** [TCPOverIPv4OverTunFdAdapter::read], when the device gives [data]. *)
Definition tun_read (data : bytes) (a : FdAdapterBase) : result (option TCPSegment * FdAdapterBase) :=
  '(r, ip_dgram) ← IPv4Datagram.parse IPv4Datagram.default (of_string data);
  if negb (bool_decide (r = NoError)) then Ok (None, a) else unwrap_tcp_in_ip ip_dgram a.

(** [TCPOverIPv4OverTunFdAdapter::write]: what is written to the device. *)
Definition tun_write (seg : TCPSegment) (a : FdAdapterBase) : result (bytes * TCPSegment) :=
  '(d, seg) ← wrap_tcp_in_ip seg a;
  l ← IPv4Datagram.serialize d;
  Ok (concatenate l, seg).

(** [TCPOverUDPSocketAdapter::read], when the socket has received [payload] from
    [source_address]. *)
Definition udp_read (datagram : Address * bytes) (a : FdAdapterBase)
    : result (option TCPSegment * FdAdapterBase) :=
  let '(source_address, payload) := datagram in
  if negb (listening a) && negb (Address.eqb source_address (destination (config a)))
  then Ok (None, a) else
  '(r, seg) ← TCPSegment.parse TCPSegment.default (of_string payload) 0;
  if negb (bool_decide (r = NoError)) then Ok (None, a) else
  if listening a then
    if TCPHeader.syn (TCPSegment.header seg) && negb (TCPHeader.rst (TCPSegment.header seg)) then
      Ok (Some seg, set_listening false (set_config (set_destination source_address (config a)) a))
    else Ok (None, a)
  else Ok (Some seg, a).

(** [TCPOverUDPSocketAdapter::write]: the datagram that is sent. *)
Definition udp_write (seg : TCPSegment) (a : FdAdapterBase)
    : result ((Address * bytes) * TCPSegment) :=
  sport ← port (source (config a));
  dport ← port (destination (config a));
  let seg := set_ports sport dport seg in
  l ← TCPSegment.serialize seg 0;
  Ok ((destination (config a), concatenate l), seg).

(** [class TCPOverIPv4OverEthernetAdapter]; [tap_out] is what has been written to
    the device. *)
Record EthernetAdapter := mkEthernetAdapter {
  adapter : FdAdapterBase;
  interface : NetworkInterface;
  next_hop : Address;
  tap_out : list bytes
}.

Definition eth_construct (base : FdAdapterBase) (eth_address : Ethernet.EthernetAddress)
    (ip_address next_hop : Address) : EthernetAdapter :=
  let dummy_frame := Ethernet.default in
  mkEthernetAdapter base (NetworkInterface.construct eth_address ip_address) next_hop
    [concatenate (Ethernet.serialize dummy_frame)].

(** The loop of [send_pending] over the queue of frames. *)
Fixpoint write_frames (frames : list Ethernet.EthernetFrame) (out : list bytes) : list bytes :=
  match frames with
  | [] => out
  | f :: frames' => write_frames frames' (out ++ [concatenate (Ethernet.serialize f)])
  end.

Definition send_pending (e : EthernetAdapter) : EthernetAdapter :=
  mkEthernetAdapter (adapter e) (NetworkInterface.set_frames_out [] (interface e)) (next_hop e)
    (write_frames (NetworkInterface.frames_out (interface e)) (tap_out e)).

Definition set_adapter (a : FdAdapterBase) (e : EthernetAdapter) : EthernetAdapter :=
  mkEthernetAdapter a (interface e) (next_hop e) (tap_out e).
Definition set_interface (n : NetworkInterface) (e : EthernetAdapter) : EthernetAdapter :=
  mkEthernetAdapter (adapter e) n (next_hop e) (tap_out e).

Definition eth_read (data : bytes) (e : EthernetAdapter)
    : result (option TCPSegment * EthernetAdapter) :=
  '(r, frame) ← Ethernet.parse Ethernet.default (of_string data);
  if negb (bool_decide (r = NoError)) then Ok (None, e) else
  '(ip_dgram, n) ← NetworkInterface.recv_frame frame (interface e);
  let e := send_pending (set_interface n e) in
  match ip_dgram with
  | Some d => '(seg, a) ← unwrap_tcp_in_ip d (adapter e); Ok (seg, set_adapter a e)
  | None => Ok (None, e)
  end.

Definition eth_tick (ms_since_last_tick : Z) (e : EthernetAdapter) : EthernetAdapter :=
  send_pending (set_interface (NetworkInterface.tick ms_since_last_tick (interface e)) e).

(** [garbage] is for [NetworkInterface::send_datagram]. *)
Definition eth_write (garbage : Z) (seg : TCPSegment) (e : EthernetAdapter)
    : result (TCPSegment * EthernetAdapter) :=
  '(d, seg) ← wrap_tcp_in_ip seg (adapter e);
  n ← NetworkInterface.send_datagram garbage d (next_hop e) (interface e);
  Ok (seg, send_pending (set_interface n e)).

End Adapters.

(** ** Lossy adapters *)

(** What [LossyFdAdapter] needs of the adapter it wraps: [In] is what is read from
    its device and [Out] what is written to it. *)
Class FdAdapter (In Out : Type) := {
  adapter_read : In -> FdAdapterBase -> result (option TCPSegment * FdAdapterBase);
  adapter_write : TCPSegment -> FdAdapterBase -> result (Out * TCPSegment)
}.

#[export] Instance tun_adapter `{Resolver} : FdAdapter bytes bytes :=
  {| adapter_read := tun_read; adapter_write := tun_write |}.
#[export] Instance udp_adapter `{Resolver} : FdAdapter (Address * bytes) (Address * bytes) :=
  {| adapter_read := udp_read; adapter_write := udp_write |}.

Section Lossy.
Context {In Out : Type} `{FdAdapter In Out}.
(** [std::mt19937], any generator of numbers. *)
Context {G : Type} (rand : G -> Z * G).

(** [_should_drop] *)
Definition should_drop (uplink : bool) (a : FdAdapterBase) (g : G) : bool * G :=
  let loss := if uplink then loss_rate_up (config a) else loss_rate_dn (config a) in
  if negb (loss =? 0) then let '(r, g) := rand g in (u16 r <? loss, g) else (false, g).

Definition lossy_read (x : In) (a : FdAdapterBase) (g : G)
    : result (option TCPSegment * FdAdapterBase * G) :=
  '(ret, a) ← adapter_read x a;
  let '(drop, g) := should_drop false a g in
  Ok (if drop then None else ret, a, g).

Definition lossy_write (seg : TCPSegment) (a : FdAdapterBase) (g : G)
    : result (option Out * TCPSegment * G) :=
  let '(drop, g) := should_drop true a g in
  if drop then Ok (None, seg, g)
  else '(out, seg) ← adapter_write seg a; Ok (Some out, seg, g).

End Lossy.

(** ** Segments cross the network *)

(** The adapter's own address and port, and its peer's. *)
Record configured `{Resolver} (own own_port peer peer_port : Z) (a : FdAdapterBase) : Prop := {
  conf_own : Address.ipv4_numeric (source (config a)) = Ok own;
  conf_own_port : port (source (config a)) = Ok own_port;
  conf_peer : Address.ipv4_numeric (destination (config a)) = Ok peer;
  conf_peer_port : port (destination (config a)) = Ok peer_port
}.

(** A segment that fits in one datagram. *)
Record sendable (seg : TCPSegment) : Prop := {
  send_header : TCPHeader.wf (TCPSegment.header seg);
  send_payload : buf_wf (TCPSegment.payload seg);
  send_size : 4 * TCPHeader.doff (TCPSegment.header seg)
              + size (str (TCPSegment.payload seg)) <= 65515
}.

(** [seg'] is [seg] with these ports, and some checksum. *)
Definition arrived (sport dport : Z) (seg seg' : TCPSegment) : Prop :=
  TCPSegment.header seg' =
    TCPHeader.set_cksum (TCPHeader.cksum (TCPSegment.header seg'))
      (TCPHeader.set_ports sport dport (TCPSegment.header seg)) /\
  str (TCPSegment.payload seg') = str (TCPSegment.payload seg).

Lemma pseudo_cksum_bound h :
  IPv4Header.fits h -> 0 <= IPv4Header.pseudo_cksum h < 400000.
Proof.
  intros []. unfold IPv4Header.pseudo_cksum, IPv4Header.payload_length.
  assert (half : forall x, 0 <= x < M32 -> 0 <= Z.shiftr x 16 + Z.land x 65535 < 131072).
  { intros x Hx. rewrite Z.shiftr_div_pow2 by lia. change 65535 with (Z.ones 16).
    rewrite Z.land_ones by lia. Z.div_mod_to_equations. lia. }
  pose proof (half _ fits_src). pose proof (half _ fits_dst).
  pose proof (u16_range (IPv4Header.len h - 4 * IPv4Header.hlen h)).
  cbv zeta. set (x := Z.shiftr (IPv4Header.src h) 16 + _) in *.
  set (y := Z.shiftr (IPv4Header.dst h) 16 + _) in *. set (z := u16 _) in *.
  rewrite (u32_id x), (u32_id y) by lia. rewrite (u32_id (x + y)) by lia.
  rewrite (u32_id (x + y + _)) by lia. rewrite u32_id; lia.
Qed.

Section Delivery.
Context `{RL : ResolverLaws}.
Context (own own_port peer peer_port : Z).
Context (Hown : 0 <= own < M32) (Hop : 0 <= own_port < 65536)
        (Hpeer : 0 <= peer < M32) (Hpp : 0 <= peer_port < 65536).

(** The datagram for [seg], as it comes out of [IPv4Datagram.parse]. *)
Definition datagram_for (seg : TCPSegment) (d : IPv4Datagram) : Prop :=
  IPv4Header.src (IPv4Datagram.header d) = own /\ IPv4Header.dst (IPv4Datagram.header d) = peer /\
  IPv4Header.proto (IPv4Datagram.header d) = IPv4Header.PROTO_TCP /\
  exists b seg', IPv4Datagram.payload d = [b] /\
    TCPSegment.parse TCPSegment.default b (IPv4Header.pseudo_cksum (IPv4Datagram.header d))
      = Ok (NoError, seg') /\ arrived own_port peer_port seg seg'.

Lemma wrap_spec a seg :
  configured own own_port peer peer_port a -> sendable seg ->
  exists d l, wrap_tcp_in_ip seg a = Ok (d, set_ports own_port peer_port seg) /\
    IPv4Datagram.serialize d = Ok l /\ size (concatenate l) < 65536 /\
    forall b, buf_wf b -> str b = concatenate l ->
      exists d', IPv4Datagram.parse IPv4Datagram.default b = Ok (NoError, d') /\ datagram_for seg d'.
Proof using Hop Hown Hpeer Hpp.
  intros [C1 C2 C3 C4] [Hh Hb Hs]. unfold wrap_tcp_in_ip.
  rewrite C1, C2, C3, C4. cbn [mbind result_bind].
  set (seg1 := set_ports own_port peer_port seg).
  set (hdr0 := IPv4Header.set_addresses own peer IPv4Header.default).
  set (n := 4 * TCPHeader.doff (TCPSegment.header seg) + size (str (TCPSegment.payload seg))) in *.
  assert (Hn : 0 <= n) by (destruct Hh; subst n; size_lia).
  assert (Hu : u16 (IPv4Header.hlen hdr0 * 4 + TCPHeader.doff (TCPSegment.header seg1) * 4
               + buf_size (TCPSegment.payload seg1)) = 20 + n).
  { change (IPv4Header.hlen hdr0) with 5.
    change (TCPHeader.doff (TCPSegment.header seg1)) with (TCPHeader.doff (TCPSegment.header seg)).
    change (buf_size (TCPSegment.payload seg1)) with (size (str (TCPSegment.payload seg))).
    rewrite u16_id; lia. }
  rewrite Hu. set (hdr := IPv4Header.set_len (20 + n) hdr0).
  assert (Hf : IPv4Header.fits hdr).
  { constructor; cbn -[Z.mul Z.add size n]; first [lia | done]. }
  pose proof (pseudo_cksum_bound hdr Hf) as Hck.
  assert (Hw : TCPSegment.wf (IPv4Header.pseudo_cksum hdr) seg1).
  { constructor; [by destruct Hh|done|lia|].
    change (IPv4Header.pseudo_cksum hdr + 65280 * n < M32). lia. }
  destruct (TCPSegment.serialize_parse _ _ Hw) as (l & -> & Hl & Hsz & Hparse).
  change (size (concatenate l) = n) in Hsz. cbn [mbind result_bind].
  destruct (IPv4Datagram.datagram_parse_serialize (IPv4Datagram.mkIPv4Datagram hdr l))
    as (l' & h' & Hser & Hh' & _ & Hsz' & Hdp).
  { constructor; [done|done|done|]. cbn [IPv4Datagram.header IPv4Datagram.payload].
    rewrite Hsz. change (IPv4Header.hlen hdr) with 5. cbn [IPv4Header.len hdr IPv4Header.set_len]. lia. }
  cbn [IPv4Datagram.header] in Hh', Hsz'. do 2 eexists. split; [reflexivity|]. split; [exact Hser|].
  split; [rewrite Hsz'; destruct Hf; lia|]. intros b Hbw Hbs.
  destruct (Hdp IPv4Datagram.default b Hbw Hbs) as (b' & E & Hb' & Hbw').
  destruct (Hparse TCPSegment.default b' Hbw' Hb') as (seg' & Ep & Eh & Es).
  eexists. split; [exact E|]. rewrite Hh'. split_and!; try done. exists b', seg'. split_and!; done.
Qed.

Lemma tun_write_spec a seg :
  configured own own_port peer peer_port a -> sendable seg ->
  exists data d, tun_write seg a = Ok (data, set_ports own_port peer_port seg) /\
    datagram_for seg d /\ forall a', tun_read data a' = unwrap_tcp_in_ip d a'.
Proof using Hop Hown Hpeer Hpp.
  intros Ha Hs. destruct (wrap_spec a seg Ha Hs) as (d & l & Ew & Es & Hsz & Hp).
  destruct (Hp (of_string (concatenate l))) as (d' & E & Hd);
    [apply of_string_wf; lia|apply str_of_string; lia|].
  exists (concatenate l), d'. unfold tun_write, tun_read. rewrite Ew. cbn [mbind result_bind].
  rewrite Es. split; [done|]. split; [done|]. intros a'. by rewrite E.
Qed.

(** The peer that is connected to us takes the segment. *)
Lemma unwrap_connected seg d b :
  datagram_for seg d -> configured peer peer_port own own_port b -> listening b = false ->
  exists seg', unwrap_tcp_in_ip d b = Ok (Some seg', b) /\ arrived own_port peer_port seg seg'.
Proof using.
  intros (Hs & Hd & Hp & buf & seg' & Hb & E & Ha) [C1 C2 C3 C4] Hl.
  exists seg'. split; [|done]. destruct Ha as [Hh _].
  unfold unwrap_tcp_in_ip. rewrite Hl, C1. cbn [negb andalso mbind result_bind].
  rewrite Hd, Z.eqb_refl, C3. cbn [negb andalso mbind result_bind].
  rewrite Hs, Z.eqb_refl, Hp, Z.eqb_refl, Hb. cbn [negb to_buffer mbind result_bind].
  rewrite E. cbn [mbind result_bind]. rewrite bool_decide_true by done.
  rewrite C2. cbn [negb mbind result_bind]. rewrite Hh. cbn [TCPHeader.dport TCPHeader.sport
    TCPHeader.set_cksum TCPHeader.set_ports].
  rewrite Z.eqb_refl. cbn [negb mbind result_bind]. rewrite C4. cbn [mbind result_bind].
  by rewrite Z.eqb_refl.
Qed.

(** A listening one does if it is a SYN for its port, and is connected from then on. *)
Lemma unwrap_listening seg d b :
  datagram_for seg d -> port (source (config b)) = Ok peer_port -> listening b = true ->
  if TCPHeader.syn (TCPSegment.header seg) && negb (TCPHeader.rst (TCPSegment.header seg)) then
    exists seg' b', unwrap_tcp_in_ip d b = Ok (Some seg', b') /\
      arrived own_port peer_port seg seg' /\ listening b' = false /\
      configured peer peer_port own own_port b'
  else unwrap_tcp_in_ip d b = Ok (None, b).
Proof using RL Hown Hop Hpeer Hpp.
  intros (Hs & Hd & Hp & buf & seg' & Hb & E & Ha) C Hl. pose proof Ha as [Hh _].
  destruct (make_address_spec peer peer_port Hpeer Hpp) as (sa & Esa & Esn & Esp).
  destruct (make_address_spec own own_port Hown Hop) as (da & Eda & Edn & Edp).
  unfold unwrap_tcp_in_ip. rewrite Hl. cbn [negb andalso mbind result_bind].
  rewrite Hp, Z.eqb_refl, Hb. cbn [negb to_buffer mbind result_bind].
  rewrite E. cbn [mbind result_bind]. rewrite bool_decide_true by done.
  rewrite C. cbn [negb mbind result_bind].
  assert (TCPHeader.dport (TCPSegment.header seg') = peer_port /\
          TCPHeader.sport (TCPSegment.header seg') = own_port /\
          TCPHeader.syn (TCPSegment.header seg') = TCPHeader.syn (TCPSegment.header seg) /\
          TCPHeader.rst (TCPSegment.header seg') = TCPHeader.rst (TCPSegment.header seg))
    as (-> & -> & -> & ->) by (rewrite Hh; done).
  rewrite Z.eqb_refl, Hd, Hs. cbn [negb].
  destruct (_ && _); [|done]. rewrite Esa. cbn [mbind result_bind]. rewrite Eda.
  cbn [mbind result_bind negb config set_listening set_config destination set_destination set_source].
  rewrite Edp. cbn [mbind result_bind]. rewrite Z.eqb_refl. cbn [negb].
  do 2 eexists. split; [reflexivity|]. split; [done|]. split; [done|]. by constructor.
Qed.

(** C28: segments cross the IP layer.  What the TUN adapter of one endpoint writes
    for a segment, the adapter of the other endpoint reads as that segment, with
    the endpoints' ports and a checksum filled in.  The other adapter is either
    connected to the first, and then does not change; or it is listening on that
    port, and then takes exactly the segments with SYN and without RST and is
    connected to the sender of the one it has taken. *)
Theorem tun_delivers a b seg :
  configured own own_port peer peer_port a -> sendable seg ->
  exists data seg1, tun_write seg a = Ok (data, seg1) /\
    (configured peer peer_port own own_port b -> listening b = false ->
       exists seg', tun_read data b = Ok (Some seg', b) /\ arrived own_port peer_port seg seg') /\
    (port (source (config b)) = Ok peer_port -> listening b = true ->
       if TCPHeader.syn (TCPSegment.header seg) && negb (TCPHeader.rst (TCPSegment.header seg)) then
         exists seg' b', tun_read data b = Ok (Some seg', b') /\
           arrived own_port peer_port seg seg' /\ listening b' = false /\
           configured peer peer_port own own_port b'
       else tun_read data b = Ok (None, b)).
Proof using RL Hown Hop Hpeer Hpp.
  intros Ha Hs. destruct (tun_write_spec a seg Ha Hs) as (data & d & E & Hd & Hr).
  exists data, (set_ports own_port peer_port seg). split; [done|]. rewrite Hr. split.
  - intros Hb Hl. by apply unwrap_connected.
  - intros Hb Hl. by apply unwrap_listening.
Qed.

(** C29: segments cross an Ethernet link.  When the interface knows the next hop,
    [eth_write] puts exactly one frame on the device and keeps none back; the
    adapter whose interface has that address reads the segment out of it, with
    the ports and a checksum filled in, and writes nothing itself. *)
Theorem eth_delivers garbage x y seg hop m :
  configured own own_port peer peer_port (adapter x) -> sendable seg ->
  Address.ipv4_numeric (next_hop x) = Ok hop ->
  NetworkInterface.ip_ethernet_map (interface x) !! hop = Some m ->
  NetworkInterface.fresh (interface x) (NetworkInterface.time_ethernet m) 30000 ->
  NetworkInterface.mapped_address m = NetworkInterface.ethernet_address (interface y) ->
  Ethernet.addr_wf (NetworkInterface.ethernet_address (interface x)) ->
  Ethernet.addr_wf (NetworkInterface.ethernet_address (interface y)) ->
  NetworkInterface.frames_out (interface x) = [] ->
  NetworkInterface.frames_out (interface y) = [] ->
  configured peer peer_port own own_port (adapter y) -> listening (adapter y) = false ->
  exists data seg1 x' seg', eth_write garbage seg x = Ok (seg1, x') /\
    tap_out x' = tap_out x ++ [data] /\ NetworkInterface.frames_out (interface x') = [] /\
    eth_read data y = Ok (Some seg', y) /\ arrived own_port peer_port seg seg'.
Proof using Hop Hown Hpeer Hpp.
  intros Hx Hs Hhop Hm Hfresh Hmac Hwx Hwy Hqx Hqy Hy Hly.
  destruct (wrap_spec (adapter x) seg Hx Hs) as (d & l & Ew & Es & Hsz & Hp).
  destruct (Ethernet.frame_parse_serialize
    (NetworkInterface.frame (NetworkInterface.ethernet_address (interface y))
       (NetworkInterface.ethernet_address (interface x)) Ethernet.TYPE_IPv4 l) Ethernet.default)
    as (b & Ef & Hb & Hbw); [by constructor|cbn; lia|].
  destruct (Hp b Hbw Hb) as (d' & Ed & Hd).
  destruct (unwrap_connected seg d' (adapter y) Hd Hy Hly) as (seg' & Eu & Harr).
  exists (concatenate (Ethernet.serialize
    (NetworkInterface.frame (NetworkInterface.ethernet_address (interface y))
       (NetworkInterface.ethernet_address (interface x)) Ethernet.TYPE_IPv4 l))).
  do 3 eexists. split.
  { unfold eth_write. rewrite Ew. cbn [mbind result_bind]. unfold NetworkInterface.send_datagram.
    rewrite Hhop. cbn [mbind result_bind]. rewrite Hm. unfold NetworkInterface.fresh in Hfresh.
    case_Z; [lia|]. rewrite Es. cbn [mbind result_bind]. reflexivity. }
  split; [cbn; by rewrite Hqx, Hmac|]. split; [done|]. split; [|done].
  unfold eth_read. rewrite Ef. cbn [mbind result_bind]. rewrite bool_decide_true by done. cbn [negb].
  pose proof (NetworkInterface.datagram_handed_up (interface y)
    (NetworkInterface.ethernet_address (interface x)) b d' Ed) as Eh.
  unfold NetworkInterface.frame in Eh |- *. cbn [Ethernet.header]. rewrite Eh.
  cbn [mbind result_bind].
  replace (send_pending (set_interface (interface y) y)) with y.
  - rewrite Eu. cbn [mbind result_bind]. by destruct y.
  - destruct y as [ya [] yh yt]. cbn in *. by subst.
Qed.
End Delivery.

(** Goes through the guards that an accepted datagram has passed. *)
Ltac pass_guards H :=
  repeat match type of H with
  | (if ?b then Ok (None, _) else _) = _ =>
      let E := fresh "G" in destruct b eqn:E; [discriminate H|]
  | _ ≫= _ = Ok _ =>
      let x := fresh "x" in let E := fresh "E" in apply result_bind_Ok in H as (x & E & H)
  | (let '(_, _) := ?p in _) = _ => destruct p
  end.

(** What is known when a segment has come through. *)
Lemma unwrap_inv `{Resolver} d a seg a' :
  unwrap_tcp_in_ip d a = Ok (Some seg, a') ->
  exists own_port, port (source (config a)) = Ok own_port /\
    TCPHeader.dport (TCPSegment.header seg) = own_port /\
    port (destination (config a')) = Ok (TCPHeader.sport (TCPSegment.header seg)) /\
    if listening a
    then TCPHeader.syn (TCPSegment.header seg) = true /\
         TCPHeader.rst (TCPSegment.header seg) = false /\ listening a' = false
    else a' = a /\
      Address.ipv4_numeric (source (config a)) = Ok (IPv4Header.dst (IPv4Datagram.header d)) /\
      Address.ipv4_numeric (destination (config a)) = Ok (IPv4Header.src (IPv4Datagram.header d)).
Proof.
  intros E0. unfold unwrap_tcp_in_ip in E0. pass_guards E0. injection E0 as <- <-.
  apply negb_false_iff, Z.eqb_eq in G3, G5. apply negb_false_iff in G4. subst.
  eexists. split; [done|]. split; [done|]. split; [done|].
  destruct (listening a) eqn:Hl.
  - destruct (_ && _) eqn:Hf; [|discriminate]. apply andb_true_iff in Hf as [? ?%negb_true_iff].
    inv_ok. by subst.
  - cbn [negb andalso] in *. inv_ok. subst.
    rewrite negb_false_iff, Z.eqb_eq in *. by subst.
Qed.

(** The segments that come through have header fields within their widths. *)
Lemma unwrap_in_range `{Resolver} d a seg a' :
  unwrap_tcp_in_ip d a = Ok (Some seg, a') -> TCPHeader.in_range (TCPSegment.header seg).
Proof.
  intros E0. unfold unwrap_tcp_in_ip in E0. pass_guards E0. injection E0 as <- <-.
  eapply TCPSegment.parse_range; [apply TCPSegment.default_range|done].
Qed.

Lemma tun_read_range `{Resolver} data a seg a' :
  tun_read data a = Ok (Some seg, a') -> TCPHeader.in_range (TCPSegment.header seg).
Proof.
  unfold tun_read. intros E. apply result_bind_Ok in E as ([r d] & _ & E).
  destruct (negb _); [done|]. by eapply unwrap_in_range.
Qed.

Lemma udp_read_range `{Resolver} dgram a seg a' :
  udp_read dgram a = Ok (Some seg, a') -> TCPHeader.in_range (TCPSegment.header seg).
Proof.
  unfold udp_read. destruct dgram as [src payload]. destruct (_ && _); [done|]. intros E.
  apply result_bind_Ok in E as ([r s] & Ep & E). destruct (negb _); [done|].
  assert (TCPHeader.in_range (TCPSegment.header s))
    by (eapply TCPSegment.parse_range; [apply TCPSegment.default_range|done]).
  destruct (listening a); [destruct (_ && _)|]; by simplify_eq.
Qed.

Lemma eth_read_range `{Resolver} data e seg e' :
  eth_read data e = Ok (Some seg, e') -> TCPHeader.in_range (TCPSegment.header seg).
Proof.
  unfold eth_read. intros E. apply result_bind_Ok in E as ([r f] & _ & E).
  destruct (negb _); [done|]. apply result_bind_Ok in E as ([d n] & _ & E).
  destruct d; [|done]. apply result_bind_Ok in E as ([s a] & Es & E).
  injection E as -> <-. by eapply unwrap_in_range.
Qed.

(** An adapter only lets its peer's segments through.  When [unwrap_tcp_in_ip]
    returns a segment, the adapter is connected and the segment's ports are its
    own and its peer's; if it was connected before, it has not changed and the
    datagram's addresses are its own and its peer's as well; if it was listening,
    the segment is a SYN without RST. *)
Theorem unwrap_only_from_peer `{Resolver} d a seg a' :
  unwrap_tcp_in_ip d a = Ok (Some seg, a') ->
  let h := TCPSegment.header seg in
  listening a' = false /\
  port (destination (config a')) = Ok (TCPHeader.sport h) /\
  port (source (config a)) = Ok (TCPHeader.dport h) /\
  (listening a = false -> a' = a /\
     Address.ipv4_numeric (source (config a)) = Ok (IPv4Header.dst (IPv4Datagram.header d)) /\
     Address.ipv4_numeric (destination (config a)) = Ok (IPv4Header.src (IPv4Datagram.header d))) /\
  (listening a = true -> TCPHeader.syn h = true /\ TCPHeader.rst h = false).
Proof.
  intros E h. apply unwrap_inv in E as (own_port & Ho & Hd & Hs & Hcase). subst h.
  destruct (listening a) eqn:Hl.
  - destruct Hcase as (Hsyn & Hrst & Hl'). split_and!; try done. by rewrite Hd.
  - destruct Hcase as (-> & H1 & H2). split_and!; try done. by rewrite Hd.
Qed.

(** A lossy adapter loses segments and does nothing else.  Whatever the
    random numbers, [read] returns what the adapter below returned or nothing,
    leaving that adapter as its own [read] does, and [write] passes the segment
    on or does nothing; with loss rate zero nothing is lost. *)
Theorem lossy_only_loses {In Out G} `{FdAdapter In Out} (rand : G -> Z * G) x seg a g :
  (forall e, adapter_read x a = Throw e -> lossy_read rand x a g = Throw e) /\
  (forall ret a', adapter_read x a = Ok (ret, a') ->
     exists g' r, lossy_read rand x a g = Ok (r, a', g') /\ (r = ret \/ r = None) /\
       (loss_rate_dn (config a') = 0 -> r = ret)) /\
  ((exists g', lossy_write rand seg a g = Ok (None, seg, g') /\ loss_rate_up (config a) <> 0) \/
   (exists g', lossy_write rand seg a g =
      ('(out, seg') ← adapter_write seg a; Ok (Some out, seg', g')))).
Proof.
  unfold lossy_read, lossy_write, should_drop. split_and!.
  - by intros e ->.
  - intros ret a' ->. cbn [mbind result_bind]. case_Z; cbn [negb].
    + exists g, ret. auto.
    + destruct (rand g) as [z g']. exists g', (if u16 z <? loss_rate_dn (config a') then None else ret).
      split; [done|]. split; [destruct (_ <? _); auto|done].
  - case_Z; cbn [negb]; [by right; exists g|]. destruct (rand g) as [z g'].
    destruct (u16 z <? _); [left|right]; by exists g'.
Qed.

(** ** A concrete resolver *)

(** Port and address at their places in a [sockaddr_in]. *)
Definition sockaddr_address (ip p : Z) : Address :=
  Address.mkAddress 16 (Address.sockaddr_in Address.AF_INET p ip ++ replicate 112 Byte.x00).

#[export] Instance sockaddr_resolver : Resolver := {|
  make_address ip p := Ok (sockaddr_address ip p);
  port a := Ok (be_value 0 (take 2 (drop 2 (Address.storage a))))
|}.

#[export] Instance sockaddr_resolver_laws : ResolverLaws.
Proof.
  intros ip p Hip Hp. exists (sockaddr_address ip p). split; [done|]. split.
  - unfold Address.ipv4_numeric.
    change (Address.family _ =? Address.AF_INET) with true.
    change (Address.addr_size _ =? Address.sockaddr_in_size) with true. cbn [negb orb].
    change (take 4 _) with (be_bytes 4 ip). rewrite be_value_be_bytes. f_equal.
    change (256 ^ Z.of_nat 4) with M32. rewrite Z.mod_small; lia.
  - cbn [port sockaddr_resolver]. change (take 2 _) with (be_bytes 2 p).
    rewrite be_value_be_bytes. f_equal. change (256 ^ Z.of_nat 2) with 65536.
    rewrite Z.mod_small; lia.
Qed.

(** A client at 10.0.0.1:4000, a server listening on port 80, and a SYN. *)
Definition sample_client : FdAdapterBase :=
  mkAdapter (mkConfig (sockaddr_address 167772161 4000) (sockaddr_address 167772162 80) 0 0) false.
Definition sample_server : FdAdapterBase :=
  mkAdapter (mkConfig (sockaddr_address 0 80) (sockaddr_address 0 0) 0 0) true.
Definition sample_syn : TCPSegment :=
  TCPSegment.mkTCPSegment (TCPHeader.set_syn true TCPHeader.default) empty_buffer.

Lemma sample_syn_sendable : sendable sample_syn.
Proof. constructor; [constructor; vm_compute; split; congruence|vm_compute; done|vm_compute; congruence]. Qed.

Lemma tun_delivers_witness :
  exists data seg1, tun_write sample_syn sample_client = Ok (data, seg1) /\
    exists seg' b', tun_read data sample_server = Ok (Some seg', b') /\
      arrived 4000 80 sample_syn seg' /\ listening b' = false /\
      configured 167772162 80 167772161 4000 b'.
Proof.
  destruct (tun_delivers 167772161 4000 167772162 80 ltac:(lia) ltac:(lia) ltac:(lia) ltac:(lia)
    sample_client sample_server sample_syn) as (data & seg1 & E & _ & Hl).
  - constructor; vm_compute; reflexivity.
  - apply sample_syn_sendable.
  - exists data, seg1. split; [exact E|].
    apply Hl; [vm_compute; reflexivity|reflexivity].
Defined.

(** The SYN as a datagram from the client. *)
Definition sample_wire : IPv4Datagram :=
  match tun_write sample_syn sample_client with
  | Ok (data, _) =>
      match IPv4Datagram.parse IPv4Datagram.default (of_string data) with
      | Ok (_, d) => d
      | Throw _ => IPv4Datagram.default
      end
  | Throw _ => IPv4Datagram.default
  end.

Lemma unwrap_only_from_peer_witness :
  exists seg a', unwrap_tcp_in_ip sample_wire sample_server = Ok (Some seg, a') /\
    listening a' = false /\ port (destination (config a')) = Ok 4000.
Proof.
  destruct (unwrap_tcp_in_ip sample_wire sample_server) as [[[seg|] a']|] eqn:E;
    [|vm_compute in E; discriminate|vm_compute in E; discriminate].
  exists seg, a'. split; [reflexivity|].
  destruct (unwrap_only_from_peer sample_wire sample_server seg a' E) as (H1 & H2 & _).
  split; [exact H1|]. rewrite H2. vm_compute in E. injection E as <- <-. reflexivity.
Defined.

(** The client and the server, connected, each behind an Ethernet interface. *)
Definition sample_connected : FdAdapterBase :=
  mkAdapter (mkConfig (sockaddr_address 167772162 80) (sockaddr_address 167772161 4000) 0 0) false.
Definition sample_host (a : FdAdapterBase) (x : byte) (ip : Z) (hop : Z) : EthernetAdapter :=
  mkEthernetAdapter a
    (NetworkInterface.learn hop (NetworkInterface.mkMapping (replicate 6 Byte.x0b) 0)
       (NetworkInterface.construct (replicate 6 x) (Address.of_ip ip))) (Address.of_ip hop) [].

Lemma eth_delivers_witness :
  exists data seg1 x' seg',
    eth_write 0 sample_syn (sample_host sample_client Byte.x0a 167772161 167772162) = Ok (seg1, x') /\
    tap_out x' = [data] /\
    eth_read data (sample_host sample_connected Byte.x0b 167772162 0)
      = Ok (Some seg', sample_host sample_connected Byte.x0b 167772162 0) /\
    arrived 4000 80 sample_syn seg'.
Proof.
  destruct (eth_delivers 167772161 4000 167772162 80 ltac:(lia) ltac:(lia) ltac:(lia) ltac:(lia) 0
    (sample_host sample_client Byte.x0a 167772161 167772162)
    (sample_host sample_connected Byte.x0b 167772162 0) sample_syn 167772162
    (NetworkInterface.mkMapping (replicate 6 Byte.x0b) 0))
    as (data & seg1 & x' & seg' & H1 & H2 & _ & H3 & H4).
  - constructor; vm_compute; reflexivity.
  - apply sample_syn_sendable.
  - vm_compute. reflexivity.
  - vm_compute. reflexivity.
  - vm_compute. congruence.
  - reflexivity.
  - vm_compute. reflexivity.
  - vm_compute. reflexivity.
  - reflexivity.
  - reflexivity.
  - constructor; vm_compute; reflexivity.
  - reflexivity.
  - exists data, seg1, x', seg'. split; [exact H1|]. split; [exact H2|]. split; [exact H3|exact H4].
Defined.
