(* ===== verification/Show.v ===== *)
(** Textual output: the [to_string] and [summary] methods of the packet headers
    ([libsponge/tcp_helpers/tcp_header.cc], [ipv4_header.cc], [ethernet_header.cc],
    [arp_message.cc]) and [hexdump] of [util/util.cc].  A [stringstream] is the
    string it has collected. *)
From S2P Require Import Prelude.
From S2P Require WrappingIntegers TCPHeader IPv4Header Ethernet ARPMessage.
From Stdlib Require Import Ascii String.
Import TCPHeader(TCPHeader).
Import IPv4Header(IPv4Header).
Import ARPMessage(ARPMessage).
Import Ethernet(EthernetAddress, EthernetHeader).

Declare Scope show_scope.
Notation "a <+> b" := (String.append a b) (right associativity, at level 60) : show_scope.
Open Scope show_scope.
Open Scope Z_scope.

(** ** Numbers, as [operator<<] prints them *)

Definition digit (d : Z) : ascii :=
  ascii_of_N (Z.to_N (if d <? 10 then 48 + d else 87 + d)).

(** Prepends the digits of [n] in base [b], the last one first. *)
Fixpoint digits (fuel : nat) (b n : Z) (acc : string) : string :=
  match fuel with
  | O => acc
  | S fuel' =>
      let acc := String (digit (n mod b)) acc in
      if n <? b then acc else digits fuel' b (n / b) acc
  end.

Definition show (b n : Z) : string := digits (S (Z.to_nat (Z.log2 n))) b n EmptyString.
Definition hex : Z -> string := show 16.
Definition dec : Z -> string := show 10.

(** [boolalpha] *)
Definition boolalpha (b : bool) : string := if b then "true" else "false".

(** [setw(w) << setfill(c)] *)
Definition setw (w : nat) (c : ascii) (s : string) : string :=
  String.string_of_list_ascii (replicate (w - String.length s) c) <+> s.

Definition newline : string := String (ascii_of_nat 10) EmptyString.

(** [inet_ntoa({htobe32(x)})] of the C library: the dotted quad of [x]. *)
Definition inet_ntoa (x : Z) : string :=
  dec (Z.land (Z.shiftr x 24) 255) <+> "." <+> dec (Z.land (Z.shiftr x 16) 255) <+> "." <+>
  dec (Z.land (Z.shiftr x 8) 255) <+> "." <+> dec (Z.land x 255).

(** ** Headers *)

(** [TCPHeader::to_string] *)
Definition tcp_to_string (h : TCPHeader) : string :=
  "TCP source port: " <+> hex (TCPHeader.sport h) <+> newline <+>
  "TCP dest port: " <+> hex (TCPHeader.dport h) <+> newline <+>
  "TCP seqno: " <+> hex (WrappingIntegers.raw_value (TCPHeader.seqno h)) <+> newline <+>
  "TCP ackno: " <+> hex (WrappingIntegers.raw_value (TCPHeader.ackno h)) <+> newline <+>
  "TCP doff: " <+> hex (TCPHeader.doff h) <+> newline <+>
  "Flags: urg: " <+> boolalpha (TCPHeader.urg h) <+> " ack: " <+> boolalpha (TCPHeader.ack h) <+>
  " psh: " <+> boolalpha (TCPHeader.psh h) <+> " rst: " <+> boolalpha (TCPHeader.rst h) <+>
  " syn: " <+> boolalpha (TCPHeader.syn h) <+> " fin: " <+> boolalpha (TCPHeader.fin h) <+> newline <+>
  "TCP winsize: " <+> hex (TCPHeader.win h) <+> newline <+>
  "TCP cksum: " <+> hex (TCPHeader.cksum h) <+> newline <+>
  "TCP uptr: " <+> hex (TCPHeader.uptr h) <+> newline.

(** [TCPHeader::summary] *)
Definition tcp_summary (h : TCPHeader) : string :=
  "Header(flags=" <+> (if TCPHeader.syn h then "S" else "") <+> (if TCPHeader.ack h then "A" else "") <+>
  (if TCPHeader.rst h then "R" else "") <+> (if TCPHeader.fin h then "F" else "") <+>
  ",seqno=" <+> dec (WrappingIntegers.raw_value (TCPHeader.seqno h)) <+>
  ",ack=" <+> dec (WrappingIntegers.raw_value (TCPHeader.ackno h)) <+>
  ",win=" <+> dec (TCPHeader.win h) <+> ")".

(** [IPv4Header::to_string] *)
Definition ip_to_string (h : IPv4Header) : string :=
  "IP version: " <+> hex (IPv4Header.ver h) <+> newline <+>
  "IP hdr len: " <+> hex (IPv4Header.hlen h) <+> newline <+>
  "IP tos: " <+> hex (IPv4Header.tos h) <+> newline <+>
  "IP dgram len: " <+> hex (IPv4Header.len h) <+> newline <+>
  "IP id: " <+> hex (IPv4Header.id h) <+> newline <+>
  "Flags: df: " <+> boolalpha (IPv4Header.df h) <+> " mf: " <+> boolalpha (IPv4Header.mf h) <+> newline <+>
  "Offset: " <+> hex (IPv4Header.offset h) <+> newline <+>
  "TTL: " <+> hex (IPv4Header.ttl h) <+> newline <+>
  "Protocol: " <+> hex (IPv4Header.proto h) <+> newline <+>
  "Checksum: " <+> hex (IPv4Header.cksum h) <+> newline <+>
  "Src addr: " <+> hex (IPv4Header.src h) <+> newline <+>
  "Dst addr: " <+> hex (IPv4Header.dst h) <+> newline.

(** [IPv4Header::summary] *)
Definition ip_summary (h : IPv4Header) : string :=
  "IPv" <+> hex (IPv4Header.ver h) <+> ", " <+>
  "len=" <+> hex (IPv4Header.len h) <+> ", " <+>
  "protocol=" <+> hex (IPv4Header.proto h) <+> ", " <+>
  (if 10 <=? IPv4Header.ttl h then "" else "ttl=" <+> dec (IPv4Header.ttl h) <+> ", ") <+>
  "src=" <+> inet_ntoa (IPv4Header.src h) <+> ", " <+>
  "dst=" <+> inet_ntoa (IPv4Header.dst h).

(** [to_string(EthernetAddress)] *)
Fixpoint ethernet_to_string (address : EthernetAddress) : string :=
  match address with
  | [] => ""
  | [x] => setw 2 "0" (hex (byte.unsigned x))
  | x :: rest => setw 2 "0" (hex (byte.unsigned x)) <+> ":" <+> ethernet_to_string rest
  end.

(** [EthernetHeader::to_string] *)
Definition ethernet_header_to_string (h : EthernetHeader) : string :=
  "dst=" <+> ethernet_to_string (Ethernet.dst h) <+> ", src=" <+> ethernet_to_string (Ethernet.src h) <+>
  ", type=" <+>
  (if Ethernet.type h =? Ethernet.TYPE_IPv4 then "IPv4"
   else if Ethernet.type h =? Ethernet.TYPE_ARP then "ARP"
   else "[unknown type " <+> hex (Ethernet.type h) <+> "!]").

(** [ARPMessage::to_string] *)
Definition arp_to_string (m : ARPMessage) : string :=
  let opcode_str := "(unknown type)" in
  let opcode_str := if ARPMessage.opcode m =? ARPMessage.OPCODE_REQUEST then "REQUEST" else opcode_str in
  let opcode_str := if ARPMessage.opcode m =? ARPMessage.OPCODE_REPLY then "REPLY" else opcode_str in
  "opcode=" <+> opcode_str <+>
  ", sender=" <+> ethernet_to_string (ARPMessage.sender_ethernet_address m) <+> "/" <+>
  inet_ntoa (ARPMessage.sender_ip_address m) <+>
  ", target=" <+> ethernet_to_string (ARPMessage.target_ethernet_address m) <+> "/" <+>
  inet_ntoa (ARPMessage.target_ip_address m).

(** ** [hexdump] *)

Definition spaces (n : Z) : string := String.string_of_list_ascii (replicate (Z.to_nat n) " "%char).

(** [isprint] of the C locale, and what is shown for a byte. *)
Definition isprint (x : byte) : bool := (32 <=? byte.unsigned x) && (byte.unsigned x <=? 126).
Definition pchar (x : byte) : string :=
  String (if isprint x then ascii_of_byte x else "."%char) EmptyString.

(** [pchars.str()] after the characters [cs] were put: the stream is made from the
    string " " with the put position at its start, so the first character
    replaces the blank. *)
Definition pchars_str (cs : string) : string := match cs with EmptyString => " " | _ => cs end.

(** The loop of [hexdump] and what follows it, as what they put on [cout]. *)
Fixpoint dump (indent_string : string) (data : bytes) (printed : Z) (pchars : string) : string :=
  match data with
  | [] =>
      let print_rem := (16 - Z.land printed 15) mod 16 in
      spaces (2 * print_rem + print_rem / 2 + 4) <+> pchars_str pchars <+> newline <+> newline
  | x :: rest =>
      let byte_out := setw 2 "0" (hex (byte.unsigned x)) in
      if Z.land printed 15 =? 0 then
        let '(eol, pchars) :=
          if negb (printed =? 0) then ("    " <+> pchars_str pchars <+> newline, EmptyString)
          else (EmptyString, pchars) in
        eol <+> indent_string <+> setw 8 "0" (hex printed) <+> ":    " <+> byte_out <+>
        dump indent_string rest (printed + 1) (pchars <+> pchar x)
      else
        (if Z.land printed 1 =? 0 then " " else "") <+> byte_out <+>
        dump indent_string rest (printed + 1) (pchars <+> pchar x)
  end.

Definition hexdump (data : bytes) (indent : Z) : string :=
  dump (spaces indent) data 0 EmptyString.

(** ** Reading numbers back *)

Definition digit_value (c : ascii) : Z :=
  let n := Z.of_N (N_of_ascii c) in if n <? 58 then n - 48 else n - 87.

(** The numbers of a string in base [b], with [sep] between them; [cur] is the one
    being read. *)
Fixpoint scan (b : Z) (sep : ascii) (s : string) (cur : Z) : list Z :=
  match s with
  | EmptyString => [cur]
  | String c s' =>
      if Ascii.eqb c sep then cur :: scan b sep s' 0
      else scan b sep s' (cur * b + digit_value c)
  end.

Lemma digit_spec d sep :
  0 <= d < 16 -> In sep [":"%char; "."%char; "/"%char] ->
  digit_value (digit d) = d /\ digit d <> sep.
Proof.
  intros Hd Hs. assert (In d (Z.of_nat <$> seq 0 16)) as H.
  { apply list_elem_of_In, list_elem_of_fmap. exists (Z.to_nat d). rewrite elem_of_seq. lia. }
  cbn in H, Hs.
  repeat (destruct H as [<-|H]; [repeat (destruct Hs as [<-|Hs]; [by vm_compute|]); done|]). done.
Qed.

Lemma scan_digit b sep d s cur :
  0 <= d < 16 -> In sep [":"%char; "."%char; "/"%char] ->
  scan b sep (String (digit d) s) cur = scan b sep s (cur * b + d).
Proof.
  intros Hd Hs. destruct (digit_spec d sep Hd Hs) as [Hv Hne]. cbn [scan].
  rewrite (proj2 (Ascii.eqb_neq _ _) Hne). by rewrite Hv.
Qed.

Lemma scan_digits b sep f n acc :
  2 <= b <= 16 -> In sep [":"%char; "."%char; "/"%char] -> 0 <= n ->
  (Z.to_nat (Z.log2 n) < f)%nat ->
  scan b sep (digits f b n acc) 0 = scan b sep acc n.
Proof.
  intros Hb Hs. revert n acc. induction f as [|f IH]; intros n acc Hn Hf; [lia|]. cbn [digits].
  assert (Hm : 0 <= n mod b < b) by (apply Z.mod_pos_bound; lia).
  case_Z.
  - rewrite scan_digit by (done || lia). by rewrite Z.mod_small by lia.
  - rewrite IH.
    + rewrite scan_digit by (done || lia). f_equal. rewrite (Z.div_mod n b) at 3 by lia. lia.
    + apply Z.div_pos; lia.
    + assert (n / b <= n / 2) by (apply Z.div_le_compat_l; lia).
      assert (Z.log2 (n / b) <= Z.log2 (n / 2)) by (by apply Z.log2_le_mono).
      assert (0 < n / b) by (apply Z.div_str_pos; lia).
      rewrite <- Z.div2_div, Z.div2_spec, Z.log2_shiftr in H1 by lia.
      pose proof (Z.log2_nonneg n). assert (1 <= Z.log2 n) by (apply Z.log2_le_pow2; cbn; lia). lia.
Qed.

Lemma append_digits f b n a s : digits f b n a <+> s = digits f b n (a <+> s).
Proof.
  revert n a. induction f as [|f IH]; intros n a; [done|]. cbn [digits].
  destruct (n <? b); [done|]. by rewrite IH.
Qed.

(** A printed number, followed by anything, is read back. *)
Lemma scan_show b sep n s :
  2 <= b <= 16 -> In sep [":"%char; "."%char; "/"%char] -> 0 <= n ->
  scan b sep (show b n <+> s) 0 = scan b sep s n.
Proof.
  intros Hb Hs Hn. unfold show. rewrite append_digits. apply scan_digits; try done. lia.
Qed.

(** Printing a number loses nothing, in either base. *)
Lemma show_inj b n m : 2 <= b <= 16 -> 0 <= n -> 0 <= m -> show b n = show b m -> n = m.
Proof.
  intros Hb Hn Hm E. apply (f_equal (fun s => scan b "." (s <+> "") 0)) in E.
  rewrite !scan_show in E by (done || cbn; tauto). cbn in E. congruence.
Qed.

(** ** Addresses *)

Lemma scan_zeros b sep k s :
  2 <= b <= 16 -> In sep [":"%char; "."%char; "/"%char] ->
  scan b sep (String.string_of_list_ascii (replicate k "0"%char) <+> s) 0 = scan b sep s 0.
Proof.
  intros Hb Hs. induction k as [|k IH]; [done|].
  change (scan b sep (String (digit 0) (String.string_of_list_ascii (replicate k "0"%char) <+> s)) 0
          = scan b sep s 0).
  rewrite scan_digit by (done || lia). exact IH.
Qed.

Lemma append_assoc a b c : (a <+> b) <+> c = a <+> b <+> c.
Proof.
  induction a as [|x a IH]; [done|].
  change (String x ((a <+> b) <+> c) = String x (a <+> b <+> c)). by rewrite IH.
Qed.

Lemma append_nil_r a : a <+> EmptyString = a.
Proof.
  induction a as [|x a IH]; [done|]. change (String x (a <+> EmptyString) = String x a). by rewrite IH.
Qed.

Lemma scan_setw b sep w n s :
  2 <= b <= 16 -> In sep [":"%char; "."%char; "/"%char] -> 0 <= n ->
  scan b sep (setw w "0" (show b n) <+> s) 0 = scan b sep s n.
Proof. intros Hb Hs Hn. unfold setw. rewrite append_assoc, scan_zeros by done. by apply scan_show. Qed.

Lemma ethernet_scan a :
  a <> [] -> scan 16 ":" (ethernet_to_string a) 0 = byte.unsigned <$> a.
Proof.
  intros Ha. induction a as [|x a IH]; [done|]. pose proof (byte.unsigned_range x) as Hx.
  assert (Hc : In ":"%char [":"%char; "."%char; "/"%char]) by (cbn; tauto).
  destruct a as [|y a].
  - cbn [ethernet_to_string]. rewrite <- (append_nil_r (setw _ _ _)). unfold hex.
    rewrite scan_setw by (done || lia). done.
  - change (ethernet_to_string (x :: y :: a))
      with (setw 2 "0" (hex (byte.unsigned x)) <+> ":" <+> ethernet_to_string (y :: a)).
    unfold hex. rewrite scan_setw by (done || lia).
    change (scan 16 ":" (":" <+> ethernet_to_string (y :: a)) (byte.unsigned x))
      with (byte.unsigned x :: scan 16 ":" (ethernet_to_string (y :: a)) 0).
    by rewrite IH.
Qed.

Lemma inet_ntoa_scan x :
  scan 10 "." (inet_ntoa x) 0 =
  [Z.land (Z.shiftr x 24) 255; Z.land (Z.shiftr x 16) 255; Z.land (Z.shiftr x 8) 255; Z.land x 255].
Proof.
  assert (Hc : In "."%char [":"%char; "."%char; "/"%char]) by (cbn; tauto).
  assert (Hp : forall y, 0 <= Z.land y 255) by (intros; apply Z.land_nonneg; lia).
  assert (Hdot : forall s n, scan 10 "." ("." <+> s) n = n :: scan 10 "." s 0) by done.
  unfold inet_ntoa, dec. rewrite scan_show by (done || lia).
  rewrite Hdot, scan_show by (done || lia). rewrite Hdot, scan_show by (done || lia).
  rewrite Hdot, <- (append_nil_r (show 10 (Z.land x 255))), scan_show by (done || lia). done.
Qed.

(** The number whose four bytes are [q]. *)
Definition quad (q : list Z) : Z := fold_left (fun acc y => acc * 256 + y) q 0.

Lemma quad_bytes x :
  0 <= x < M32 ->
  quad [Z.land (Z.shiftr x 24) 255; Z.land (Z.shiftr x 16) 255; Z.land (Z.shiftr x 8) 255; Z.land x 255] = x.
Proof.
  intros Hx. cbn [quad fold_left]. change 255 with (Z.ones 8).
  rewrite !Z.land_ones, !Z.shiftr_div_pow2 by lia. change (2 ^ 8) with 256.
  change (2 ^ 24) with 16777216. change (2 ^ 16) with 65536.
  Z.div_mod_to_equations. lia.
Qed.

(** The printed form of an address determines it.  The dotted quad of a 32-bit
    IP address and the colon-separated form of an Ethernet address can be read
    back, number by number, so no two addresses print alike. *)
Theorem addresses_read_back ip a :
  0 <= ip < M32 -> Ethernet.addr_wf a ->
  quad (scan 10 "." (inet_ntoa ip) 0) = ip /\
  byte.of_Z <$> scan 16 ":" (ethernet_to_string a) 0 = a.
Proof.
  intros Hip Ha. rewrite inet_ntoa_scan. split; [by apply quad_bytes|].
  rewrite ethernet_scan by (intros ->; done). rewrite <- list_fmap_compose.
  rewrite <- (list_fmap_id a) at 2. apply list_fmap_ext. intros _ x _. apply byte.of_Z_unsigned.
Qed.

Lemma addresses_read_back_witness :
  quad (scan 10 "." (inet_ntoa 3232235777) 0) = 3232235777 /\
  byte.of_Z <$> scan 16 ":" (ethernet_to_string Ethernet.ETHERNET_BROADCAST) 0
    = Ethernet.ETHERNET_BROADCAST.
Proof. apply (addresses_read_back 3232235777 Ethernet.ETHERNET_BROADCAST); [lia|reflexivity]. Defined.

Example shown_addresses :
  inet_ntoa 3232235777 = "192.168.1.1" /\ ethernet_to_string Ethernet.ETHERNET_BROADCAST = "ff:ff:ff:ff:ff:ff".
Proof. vm_compute. done. Qed.

(** ** The layout of [hexdump]

    The reference: lines of sixteen bytes, each with its offset, the bytes in
    pairs, and the characters; the last two are separated so that the characters
    begin 43 columns after the first byte. *)

Fixpoint cells (j : Z) (c : bytes) : string :=
  match c with
  | [] => EmptyString
  | x :: c' =>
      (if (j =? 0) || Z.odd j then "" else " ") <+> setw 2 "0" (hex (byte.unsigned x)) <+>
      cells (j + 1) c'
  end.

Definition chars (c : bytes) : string := foldr (fun x s => pchar x <+> s) EmptyString c.

Definition line (indent_string : string) (offset : Z) (c : bytes) : string :=
  indent_string <+> setw 8 "0" (hex offset) <+> ":    " <+> cells 0 c <+>
  spaces (43 - Z.of_nat (String.length (cells 0 c))) <+> chars c <+> newline.

Fixpoint lines (n : nat) (indent_string : string) (offset : Z) (data : bytes) : string :=
  match n with
  | O => EmptyString
  | S n' => line indent_string offset (take 16 data) <+>
            match drop 16 data with
            | [] => newline
            | rest => lines n' indent_string (offset + 16) rest
            end
  end.

Lemma append_length a b : String.length (a <+> b) = (String.length a + String.length b)%nat.
Proof.
  induction a as [|x a IH]; [done|].
  change (S (String.length (a <+> b)) = S (String.length a + String.length b)). by rewrite IH.
Qed.

Lemma hex_byte_length x : String.length (setw 2 "0" (hex (byte.unsigned x))) = 2%nat.
Proof. by destruct x. Qed.

Lemma cells_length j c :
  0 < j -> Z.of_nat (String.length (cells j c)) = 2 * size c + (j + size c - 1) / 2 - (j - 1) / 2.
Proof.
  revert j. induction c as [|x c IH]; intros j Hj.
  - change (size []) with 0. cbn. replace (j + 0 - 1) with (j - 1) by lia. lia.
  - cbn [cells]. rewrite !append_length, hex_byte_length, size_cons. rewrite !Nat2Z.inj_add, IH by lia.
    replace (j + (1 + size c) - 1) with (j + 1 + size c - 1) by lia.
    replace (j =? 0) with false by (symmetry; apply Z.eqb_neq; lia). cbn [orb].
    pose proof (Zmod_odd j) as Hm.
    destruct (Z.odd j); cbn [String.length]; Z.div_mod_to_equations; lia.
Qed.

Lemma first_cells_length c :
  0 < size c -> Z.of_nat (String.length (cells 0 c)) = 2 * size c + (size c - 1) / 2.
Proof.
  intros Hc. destruct c as [|x c]; [done|]. cbn [cells]. rewrite !append_length, hex_byte_length.
  rewrite !Nat2Z.inj_add, cells_length, size_cons by lia.
  replace (0 + 1 + size c - 1) with (size c) by lia. replace (1 + size c - 1) with (size c) by lia.
  change ((0 + 1 - 1) / 2) with 0. cbn -[Z.add Z.mul Z.div]. lia.
Qed.

(** The loop inside a line. *)
Lemma dump_cells indent m j c rest ps :
  0 <= m -> 0 < j -> j + size c <= 16 ->
  dump indent (c ++ rest) (16 * m + j) ps =
  cells j c <+> dump indent rest (16 * m + j + size c) (ps <+> chars c).
Proof.
  intros Hm. revert j ps. induction c as [|x c IH]; intros j ps Hj Hb.
  - change (size []) with 0. by rewrite Z.add_0_r, append_nil_r.
  - rewrite size_cons in *. pose proof (size_nonneg c). cbn [app dump cells].
    assert (Z.land (16 * m + j) 15 = j) as ->.
    { rewrite (Z.land_ones _ 4) by lia. change (2 ^ 4) with 16.
      rewrite Z.mul_comm, Z.add_comm, Z_mod_plus_full. apply Z.mod_small. lia. }
    assert (Z.land (16 * m + j) 1 = j mod 2) as ->.
    { rewrite (Z.land_ones _ 1) by lia. change (2 ^ 1) with 2.
      replace (16 * m + j) with (j + (8 * m) * 2) by lia. apply Z_mod_plus_full. }
    replace (j =? 0) with false by (symmetry; apply Z.eqb_neq; lia). cbn [orb].
    rewrite <- Z.add_assoc, IH by lia. rewrite !append_assoc. f_equal.
    + rewrite Zmod_odd. by destruct (Z.odd j).
    + f_equal. f_equal. f_equal. lia.
Qed.

(** The first byte of a line, and the end of the line before. *)
Lemma dump_line_start indent m x data ps :
  0 <= m -> (m = 0 -> ps = EmptyString) ->
  dump indent (x :: data) (16 * m) ps =
  (if m =? 0 then EmptyString else "    " <+> pchars_str ps <+> newline) <+>
  indent <+> setw 8 "0" (hex (16 * m)) <+> ":    " <+> setw 2 "0" (hex (byte.unsigned x)) <+>
  dump indent data (16 * m + 1) (pchar x).
Proof.
  intros Hm Hps. cbn [dump]. assert (Z.land (16 * m) 15 = 0) as ->.
  { rewrite (Z.land_ones _ 4) by lia. change (2 ^ 4) with 16. rewrite Z.mul_comm. by apply Z.mod_mul. }
  cbn [Z.eqb]. destruct (Z.eqb_spec m 0) as [->|Hne].
  - by rewrite Hps.
  - by replace (16 * m =? 0) with false by (symmetry; apply Z.eqb_neq; lia).
Qed.

Lemma pchars_str_cons x c : pchars_str (pchar x <+> chars c) = chars (x :: c).
Proof. done. Qed.

Lemma dump_lines indent n : forall data m ps,
  data <> [] -> (Datatypes.length data <= 16 * n)%nat -> 0 <= m -> (m = 0 -> ps = EmptyString) ->
  dump indent data (16 * m) ps =
  (if m =? 0 then EmptyString else "    " <+> pchars_str ps <+> newline) <+>
  lines n indent (16 * m) data.
Proof.
  induction n as [|n IH]; intros data m ps Hne Hlen Hm Hps;
    (destruct data as [|x data]; [done|]); [cbn in Hlen; lia|].
  rewrite dump_line_start by done. f_equal. cbn [lines]. unfold line.
  change (take 16 (x :: data)) with (x :: take 15 data). change (drop 16 (x :: data)) with (drop 15 data).
  set (c := take 15 data). pose proof (size_nonneg c).
  assert (Hc : size c = Z.min 15 (size data)) by (unfold c, size; rewrite length_take; lia).
  rewrite <- (take_drop 15 data) at 1. fold c. rewrite dump_cells by lia.
  rewrite first_cells_length, size_cons by (rewrite size_cons; lia).
  change (cells 0 (x :: c)) with (setw 2 "0" (hex (byte.unsigned x)) <+> cells 1 c).
  rewrite !append_assoc. do 5 f_equal.
  destruct (drop 15 data) as [|y rest] eqn:Ed.
  - cbn [dump]. rewrite pchars_str_cons.
    assert (size data <= 15) by (apply (f_equal Datatypes.length) in Ed; rewrite length_drop in Ed;
      cbn in Ed; unfold size; lia).
    rewrite (Z.land_ones _ 4) by lia. change (2 ^ 4) with 16. f_equal. f_equal.
    replace (16 * m + 1 + size c) with (1 + size c + m * 16) by lia. rewrite Z_mod_plus_full.
    Z.div_mod_to_equations. lia.
  - assert (15 < size data) by (apply (f_equal Datatypes.length) in Ed; rewrite length_drop in Ed;
      cbn in Ed; unfold size; lia).
    replace (size c) with 15 by lia. replace (16 * m + 1 + 15) with (16 * (m + 1)) by lia.
    rewrite IH; [|done| |lia|lia].
    + replace (m + 1 =? 0) with false by (symmetry; apply Z.eqb_neq; lia).
      rewrite pchars_str_cons, !append_assoc. replace (16 * (m + 1)) with (16 * m + 16) by lia. done.
    + rewrite <- Ed, length_drop. cbn in Hlen. lia.
Qed.

(** [hexdump] of a non-empty buffer is the sequence of its lines: sixteen bytes
    in each but the last, every line with its offset, its bytes in pairs and its
    characters, and the characters of all lines, the last one included, in the
    same column. *)
Theorem hexdump_is_aligned data indent :
  data <> [] -> hexdump data indent = lines (Datatypes.length data) (spaces indent) 0 data.
Proof.
  intros Hne. unfold hexdump. replace 0 with (16 * 0) by lia.
  by rewrite (dump_lines _ (Datatypes.length data)) by (done || lia).
Qed.

Lemma hexdump_is_aligned_witness :
  hexdump [Byte.x61; Byte.x00; Byte.x62] 2 =
  "  00000000:    6100 62                                    a.b" <+> newline <+> newline.
Proof. rewrite (hexdump_is_aligned [Byte.x61; Byte.x00; Byte.x62] 2); [reflexivity|discriminate]. Defined.
