(* ===== verification/FileDescriptor.v ===== *)
(** File descriptors: [libsponge/util/file_descriptor.hh], [file_descriptor.cc] and
    the [SystemCall] wrapper of [util.cc].

    The operating system is the class [Kernel]: an arbitrary state and one function
    per system call.  [KernelLaws] says what the calls do to the bytes that have
    been taken from and given to each descriptor.  A [FileDescriptor] object is a
    reference to a shared, counted [FDWrapper]; the [world] holds the wrappers that
    are alive, so that duplicated descriptors share theirs. *)
From S2P Require Import Prelude.
From S2P Require Buffer.
Import Buffer(BufferViewList, bvl_size, bvl_remove_prefix, as_iovecs).

(** What a system call returns, and the [errno] that goes with it. *)
Record sysret := mkRet { return_value : Z; errno : Z }.

(** [struct pollfd] *)
Record pollfd := mkPollfd { poll_fd : Z; events : Z; revents : Z }.

(** The system calls of [read(2)], [writev(2)], [close(2)], [fcntl(2)] and
    [poll(2)]: [sys_read] also gives the bytes it stored, [sys_poll] the [revents]
    it stored. *)
Class Kernel (K : Type) := {
  sys_read : Z -> Z -> K -> sysret * bytes * K;
  sys_writev : Z -> list (bytes * Z) -> K -> sysret * K;
  sys_close : Z -> K -> sysret * K;
  sys_getfl : Z -> K -> sysret * K;
  sys_setfl : Z -> Z -> K -> sysret * K;
  sys_poll : list pollfd -> Z -> K -> sysret * list Z * K
}.

(** The most that one [read] or [writev] transfers. *)
Definition MAX_RW_COUNT : Z := 2147479552.

(** The documented effect of the calls, in terms of all the bytes [taken] from a
    descriptor and all the bytes [given] to it so far. *)
Class KernelLaws (K : Type) `{Kernel K} := {
  taken : K -> Z -> bytes;
  given : K -> Z -> bytes;
  sys_read_law fd n k : 0 <= n ->
    let '(r, data, k') := sys_read fd n k in
    (forall x, given k' x = given k x) /\ (forall x, x <> fd -> taken k' x = taken k x) /\
    (0 <= return_value r -> size data = return_value r /\ return_value r <= n /\
                            taken k' fd = taken k fd ++ data) /\
    (return_value r < 0 -> return_value r = -1 /\ errno r <> 0 /\ taken k' fd = taken k fd);
  sys_writev_law fd iov k :
    let '(r, k') := sys_writev fd iov k in
    (forall x, taken k' x = taken k x) /\ (forall x, x <> fd -> given k' x = given k x) /\
    (0 <= return_value r ->
       return_value r <= size (concat (fst <$> iov)) /\ return_value r <= MAX_RW_COUNT /\
       given k' fd = given k fd ++ take (Z.to_nat (return_value r)) (concat (fst <$> iov))) /\
    (return_value r < 0 -> return_value r = -1 /\ errno r <> 0 /\ given k' fd = given k fd);
  sys_close_law fd k x :
    taken (sys_close fd k).2 x = taken k x /\ given (sys_close fd k).2 x = given k x;
  sys_getfl_law fd k x :
    taken (sys_getfl fd k).2 x = taken k x /\ given (sys_getfl fd k).2 x = given k x;
  sys_setfl_law fd f k x :
    taken (sys_setfl fd f k).2 x = taken k x /\ given (sys_setfl fd f k).2 x = given k x;
  sys_poll_law fds t k x :
    taken (sys_poll fds t k).2 x = taken k x /\ given (sys_poll fds t k).2 x = given k x
}.

(** [SystemCall]: the return value, narrowed to an [int], is passed on when it is
    not negative or when [errno] is the one the caller accepts. *)
Definition SystemCall (r : sysret) (errno_mask : Z) : result Z :=
  let v := i32 (return_value r) in
  if (0 <=? v) || (errno r =? errno_mask) then Ok v else Throw (unix_error (errno r)).

(** [class FDWrapper] *)
Record FDWrapper := mkFDWrapper {
  fd : Z;
  eof : bool;
  closed : bool;
  read_count : Z;
  write_count : Z
}.

Definition set_eof (w : FDWrapper) : FDWrapper :=
  mkFDWrapper (fd w) true (closed w) (read_count w) (write_count w).
Definition set_closed (w : FDWrapper) : FDWrapper :=
  mkFDWrapper (fd w) true true (read_count w) (write_count w).
Definition register_read (w : FDWrapper) : FDWrapper :=
  mkFDWrapper (fd w) (eof w) (closed w) (u32 (read_count w + 1)) (write_count w).
Definition register_write (w : FDWrapper) : FDWrapper :=
  mkFDWrapper (fd w) (eof w) (closed w) (read_count w) (u32 (write_count w + 1)).

(** A [FileDescriptor] holds a [shared_ptr]: the name of a wrapper. *)
Abbreviation FileDescriptor := nat (only parsing).

(** The control block of the [shared_ptr]: the wrapper and its use count. *)
Record Shared := mkShared { wrapper : FDWrapper; use_count : nat }.

Record world (K : Type) := mkWorld {
  kernel : K;
  heap : gmap nat Shared
}.
Arguments mkWorld {K} _ _.
Arguments kernel {K} _.
Arguments heap {K} _.

(** Code that performs system calls: it threads the world and may throw. *)
Definition IO (K A : Type) : Type := world K -> result (A * world K).
#[export] Instance io_ret K : MRet (IO K) := fun A a w => Ok (a, w).
#[export] Instance io_bind K : MBind (IO K) := fun A B f m w => '(a, w) ← m w; f a w.

Definition throw {K A} (e : exn) : IO K A := fun _ => Throw e.
Definition lift {K A} (r : result A) : IO K A := fun w => a ← r; Ok (a, w).

Section FileDescriptor.
Context {K : Type} `{Kernel K}.

Definition set_kernel (k : K) (w : world K) : world K := mkWorld k (heap w).
Definition set_heap (h : gmap nat Shared) (w : world K) : world K := mkWorld (kernel w) h.

(** Runs a system call. *)
Definition syscall {A} (f : K -> A * K) : IO K A := fun w =>
  let '(a, k) := f (kernel w) in Ok (a, set_kernel k w).

(** The members of the wrapper that [h] points to. *)
Definition get (h : FileDescriptor) : IO K FDWrapper := fun w =>
  match heap w !! h with
  | Some s => Ok (wrapper s, w)
  | None => Throw undefined_behaviour
  end.

(** An assignment to members of the wrapper that [h] points to. *)
Definition modify (h : FileDescriptor) (f : FDWrapper -> FDWrapper) : IO K unit := fun w =>
  match heap w !! h with
  | Some s => Ok (tt, set_heap (<[h := mkShared (f (wrapper s)) (use_count s)]> (heap w)) w)
  | None => Throw undefined_behaviour
  end.

(** [FDWrapper::FDWrapper] *)
Definition FDWrapper_of (n : Z) : result FDWrapper :=
  if n <? 0 then Throw runtime_error else Ok (mkFDWrapper n false false 0 0).

(** [FDWrapper::close] *)
Definition close_wrapper (n : Z) : IO K unit :=
  r ← syscall (sys_close n);
  _ ← lift (SystemCall r 0);
  mret tt.

(** [FDWrapper::~FDWrapper]: whatever [close] throws is caught, so that of a close
    only the system call is left. *)
Definition destroy (wr : FDWrapper) (w : world K) : world K :=
  if closed wr then w else set_kernel (sys_close (fd wr) (kernel w)).2 w.

(** [FileDescriptor::FileDescriptor(const int)]: [make_shared]. *)
Definition construct (n : Z) : IO K FileDescriptor := fun w =>
  wr ← FDWrapper_of n;
  let h := fresh (dom (heap w)) in
  Ok (h, set_heap (<[h := mkShared wr 1]> (heap w)) w).

(** [FileDescriptor::duplicate], with the private constructor it uses. *)
Definition duplicate (h : FileDescriptor) : IO K FileDescriptor := fun w =>
  match heap w !! h with
  | Some s => Ok (h, set_heap (<[h := mkShared (wrapper s) (S (use_count s))]> (heap w)) w)
  | None => Throw undefined_behaviour
  end.

(** [FileDescriptor::~FileDescriptor]: the last reference destroys the wrapper. *)
Definition release (h : FileDescriptor) : IO K unit := fun w =>
  match heap w !! h with
  | Some s =>
      match use_count s with
      | S (S n) => Ok (tt, set_heap (<[h := mkShared (wrapper s) (S n)]> (heap w)) w)
      | _ => Ok (tt, destroy (wrapper s) (set_heap (delete h (heap w)) w))
      end
  | None => Throw undefined_behaviour
  end.

(** [FileDescriptor::close] *)
Definition close (h : FileDescriptor) : IO K unit :=
  wr ← get h;
  _ ← close_wrapper (fd wr);
  modify h set_closed.

Definition BUFFER_SIZE : Z := 1024 * 1024.

(** [FileDescriptor::read], which returns the new contents of the string: the call
    stores its bytes at the front and the string is cut to their number. *)
Definition read (limit : Z) (h : FileDescriptor) : IO K bytes :=
  let size_to_read := Z.min BUFFER_SIZE limit in
  wr ← get h;
  '(r, data) ← syscall (sys_read (fd wr) size_to_read);
  bytes_read ← lift (SystemCall r 0);
  _ ← (if (0 <? limit) && (bytes_read =? 0) then modify h set_eof else mret tt);
  if size_to_read <? bytes_read then throw runtime_error else
  if bytes_read <? 0 then throw length_error else
  _ ← modify h register_read;
  mret (take (Z.to_nat bytes_read) data).

(** The body of the loop of [FileDescriptor::write]; [bytes_written] becomes a
    [size_t] when it is passed to [remove_prefix] and added. *)
Definition write_once (buffer : BufferViewList) (h : FileDescriptor) : IO K (Z * BufferViewList) :=
  wr ← get h;
  r ← syscall (sys_writev (fd wr) (as_iovecs buffer));
  bytes_written ← lift (SystemCall r 0);
  if (bytes_written =? 0) && negb (bvl_size buffer =? 0) then throw runtime_error else
  if bvl_size buffer <? bytes_written then throw runtime_error else
  _ ← modify h register_write;
  buffer ← lift (bvl_remove_prefix (u64 bytes_written) buffer);
  mret (bytes_written, buffer).

(** The loop of [FileDescriptor::write]. *)
Fixpoint write_loop (fuel : nat) (total_bytes_written : Z) (buffer : BufferViewList)
    (write_all : bool) (h : FileDescriptor) : IO K Z :=
  match fuel with
  | O => throw undefined_behaviour
  | S fuel =>
      '(n, buffer) ← write_once buffer h;
      let total_bytes_written := u64 (total_bytes_written + n) in
      if write_all && negb (bvl_size buffer =? 0)
      then write_loop fuel total_bytes_written buffer write_all h
      else mret total_bytes_written
  end.

(** [FileDescriptor::write] *)
Definition write (buffer : BufferViewList) (write_all : bool) (h : FileDescriptor) : IO K Z :=
  write_loop (S (Z.to_nat (bvl_size buffer))) 0 buffer write_all h.

Definition O_NONBLOCK : Z := 2048.

(** [FileDescriptor::set_blocking] *)
Definition set_blocking (blocking_state : bool) (h : FileDescriptor) : IO K unit :=
  wr ← get h;
  r ← syscall (sys_getfl (fd wr));
  flags ← lift (SystemCall r 0);
  let flags := if blocking_state then Z.lxor flags (Z.land flags O_NONBLOCK)
               else Z.lor flags O_NONBLOCK in
  r ← syscall (sys_setfl (fd wr) flags);
  _ ← lift (SystemCall r 0);
  mret tt.

End FileDescriptor.

(** ** Reasoning about [IO]

    [outcome m w Q E]: from [w], [m] returns a value and a world that satisfy [Q], or
    throws an exception that satisfies [E]. *)
Definition outcome {K A} (m : IO K A) (w : world K) (Q : A -> world K -> Prop) (E : exn -> Prop)
    : Prop :=
  match m w with Ok (a, w') => Q a w' | Throw e => E e end.

Lemma outcome_bind {K A B} (m : IO K A) (f : A -> IO K B) w Q E :
  outcome m w (fun a w' => outcome (f a) w' Q E) E -> outcome (m ≫= f) w Q E.
Proof.
  unfold outcome, mbind, io_bind. by destruct (m w) as [[a w']|e].
Qed.

Lemma io_bind_Ok {K A B} (m : IO K A) (f : A -> IO K B) w b w' :
  (m ≫= f) w = Ok (b, w') <-> exists a w1, m w = Ok (a, w1) /\ f a w1 = Ok (b, w').
Proof.
  unfold mbind, io_bind. rewrite result_bind_Ok. split.
  - intros ([a w1] & E1 & E2). by exists a, w1.
  - intros (a & w1 & E1 & E2). by exists (a, w1).
Qed.

Lemma io_bind_eq {K A B} (m : IO K A) (f : A -> IO K B) w a w1 :
  m w = Ok (a, w1) -> (m ≫= f) w = f a w1.
Proof. unfold mbind, io_bind. by intros ->. Qed.

Lemma syscall_eq {K A} (f : K -> A * K) w a k :
  f (kernel w) = (a, k) -> syscall f w = Ok (a, set_kernel k w).
Proof. unfold syscall. by intros ->. Qed.

Lemma outcome_mono {K A} (m : IO K A) w (Q Q' : A -> world K -> Prop) (E E' : exn -> Prop) :
  outcome m w Q E -> (forall a w', Q a w' -> Q' a w') -> (forall e, E e -> E' e) ->
  outcome m w Q' E'.
Proof. unfold outcome. destruct (m w) as [[a w']|e]; auto. Qed.

Lemma construct_outcome {K} n (w : world K) (Q : FileDescriptor -> world K -> Prop) E :
  0 <= n ->
  (forall h, heap w !! h = None ->
     Q h (set_heap (<[h := mkShared (mkFDWrapper n false false 0 0) 1]> (heap w)) w)) ->
  outcome (construct n) w Q E.
Proof.
  intros Hn HQ. unfold outcome, construct, FDWrapper_of.
  destruct (Z.ltb_spec n 0); [lia|]. apply HQ. apply not_elem_of_dom, is_fresh.
Qed.

(** The exceptions of a failing system call. *)
Definition is_unix_error (e : exn) : Prop := exists n, e = unix_error n.
(** Those, and the ones the code throws itself. *)
Definition io_error (e : exn) : Prop := e = runtime_error \/ is_unix_error e.

Lemma SystemCall_fails r : return_value r = -1 -> errno r <> 0 ->
  SystemCall r 0 = Throw (unix_error (errno r)).
Proof.
  intros E Hn. unfold SystemCall. rewrite E. change (0 <=? i32 (-1)) with false.
  apply Z.eqb_neq in Hn. by rewrite Hn.
Qed.

Lemma SystemCall_succeeds r : 0 <= return_value r < 2147483648 ->
  SystemCall r 0 = Ok (return_value r).
Proof.
  intros Hr. unfold SystemCall, i32. unwrap_ints.
  destruct (Z.ltb_spec (return_value r) 2147483648); [|lia]. by case_Z; [|lia].
Qed.

Lemma as_iovecs_bytes b : fst <$> as_iovecs b = b.
Proof. unfold as_iovecs. rewrite <- list_fmap_compose. by apply list_fmap_id. Qed.

Lemma bvl_size_concat b : size (concat b) < M64 -> bvl_size b = size (concat b).
Proof.
  induction b as [|v b IH]; cbn; [done|]. rewrite size_app. intros Hs.
  rewrite IH by size_lia. apply u64_id. size_lia.
Qed.

Section Effects.
Context {K : Type} `{KernelLaws K}.
Implicit Types w : world K.

(** The bytes taken from and given to the descriptors: what [w'] has over [w] is
    [i] taken from [n] and [o] given to [n]. *)
Definition transferred (n : Z) (i o : bytes) (w w' : world K) : Prop :=
  (forall x, taken (kernel w') x = taken (kernel w) x ++ (if decide (x = n) then i else [])) /\
  (forall x, given (kernel w') x = given (kernel w) x ++ (if decide (x = n) then o else [])).

Lemma transferred_refl n w w' :
  (forall x, taken (kernel w') x = taken (kernel w) x) ->
  (forall x, given (kernel w') x = given (kernel w) x) -> transferred n [] [] w w'.
Proof.
  intros Ht Hg. split; intros x; [rewrite Ht|rewrite Hg]; by case_decide; rewrite app_nil_r.
Qed.

Lemma transferred_trans n i i' o o' w1 w2 w3 :
  transferred n i o w1 w2 -> transferred n i' o' w2 w3 ->
  transferred n (i ++ i') (o ++ o') w1 w3.
Proof.
  intros [T1 G1] [T2 G2]. split; intros x; [rewrite T2, T1|rewrite G2, G1];
    rewrite <- app_assoc; by case_decide.
Qed.

(** The wrapper after [k] writes. *)
Definition after_writes (k : Z) (wr : FDWrapper) : FDWrapper :=
  mkFDWrapper (fd wr) (eof wr) (closed wr) (read_count wr) (u32 (write_count wr + k)).

Lemma get_outcome h w s Q E :
  heap w !! h = Some s -> Q (wrapper s) w -> outcome (get h) w Q E.
Proof. intros Hs HQ. unfold outcome, get. by rewrite Hs. Qed.

Lemma modify_outcome h f w s Q E :
  heap w !! h = Some s ->
  Q tt (set_heap (<[h := mkShared (f (wrapper s)) (use_count s)]> (heap w)) w) ->
  outcome (modify h f) w Q E.
Proof. intros Hs HQ. unfold outcome, modify. by rewrite Hs. Qed.

(** One [writev]: some of the bytes are written, and if there are any, at least one. *)
Lemma write_once_outcome b h w s :
  heap w !! h = Some s -> size (concat b) < 2 ^ 63 ->
  outcome (write_once b h) w
    (fun '(n, b') w' =>
       0 <= n <= size (concat b) /\ (concat b <> [] -> 0 < n) /\
       concat b' = drop (Z.to_nat n) (concat b) /\
       transferred (fd (wrapper s)) [] (take (Z.to_nat n) (concat b)) w w' /\
       heap w' = <[h := mkShared (after_writes 1 (wrapper s)) (use_count s)]> (heap w))
    io_error.
Proof.
  intros Hs Hsz. unfold write_once. apply outcome_bind.
  eapply get_outcome; [done|]. apply outcome_bind. unfold outcome at 1, syscall.
  pose proof (sys_writev_law (fd (wrapper s)) (as_iovecs b) (kernel w)) as Law.
  destruct (sys_writev _ _ _) as [r k'] eqn:Er.
  rewrite as_iovecs_bytes in Law. destruct Law as (Lt & Lo & Lok & Lbad).
  apply outcome_bind. unfold outcome at 1, lift.
  rewrite !bvl_size_concat by lia.
  destruct (Z_lt_le_dec (return_value r) 0) as [Hneg|Hpos].
  { destruct (Lbad Hneg) as (E1 & E2 & _). rewrite SystemCall_fails by done.
    cbn. right. by eexists. }
  destruct (Lok Hpos) as (L1 & L2 & L3). unfold MAX_RW_COUNT in L2.
  rewrite SystemCall_succeeds by lia. cbn [mbind result_bind].
  set (n := return_value r) in *.
  destruct (Z.eqb_spec n 0) as [Hn|Hn], (Z.eqb_spec (size (concat b)) 0) as [Hb|Hb]; cbn [andb negb].
  2: { by left. }
  all: destruct (Z.ltb_spec (size (concat b)) n); [lia|].
  all: apply outcome_bind, modify_outcome with (s := s); [done|].
  all: apply outcome_bind; unfold outcome at 1, lift; rewrite u64_id by lia.
  all: pose proof (Buffer.bvl_remove_prefix_correct b n ltac:(lia)) as Hr.
  all: destruct (bvl_remove_prefix n b) as [b'|e]; [|lia]; destruct Hr as [_ Hr]; cbn.
  all: split; [lia|]; split; [|split; [done|split; [|done]]].
  all: try (intros Hne; destruct (concat b); [done|size_simpl; size_lia]).
  all: split; intros x; cbn; [rewrite Lt; by case_decide; rewrite app_nil_r|].
  all: case_decide; [by subst|rewrite app_nil_r; auto].
Qed.

Lemma after_writes_add j k wr : after_writes j (after_writes k wr) = after_writes (k + j) wr.
Proof.
  unfold after_writes. cbn. f_equal. unfold u32.
  rewrite Z.add_mod_idemp_l by lia. f_equal. lia.
Qed.

(** What [write] has done when it returns [n], after [k] system calls. *)
Definition wrote (b : BufferViewList) (write_all : bool) (h : FileDescriptor) (s : Shared)
    (w : world K) (n : Z) (w' : world K) : Prop :=
  0 <= n <= size (concat b) /\ (concat b <> [] -> 0 < n) /\
  (write_all = true -> n = size (concat b)) /\
  transferred (fd (wrapper s)) [] (take (Z.to_nat n) (concat b)) w w' /\
  exists k, 1 <= k <= 1 + size (concat b) /\ (write_all = false -> k = 1) /\
    heap w' = <[h := mkShared (after_writes k (wrapper s)) (use_count s)]> (heap w).

Lemma wrote_once b write_all h s w n b' w' :
  0 <= n <= size (concat b) -> (concat b <> [] -> 0 < n) ->
  transferred (fd (wrapper s)) [] (take (Z.to_nat n) (concat b)) w w' ->
  heap w' = <[h := mkShared (after_writes 1 (wrapper s)) (use_count s)]> (heap w) ->
  concat b' = drop (Z.to_nat n) (concat b) ->
  (write_all = true -> concat b' = []) -> wrote b write_all h s w n w'.
Proof.
  intros Hn Hp Ht Hh Hd Ha. repeat split; try done; try lia; [|apply Ht|apply Ht|].
  - intros Hw. specialize (Ha Hw). rewrite Hd in Ha.
    apply (f_equal size) in Ha. rewrite size_drop in Ha by done. size_simpl. lia.
  - exists 1. split; [size_lia|]. done.
Qed.

(** The rest of the buffer is written after its first [n] bytes. *)
Lemma wrote_more b b' h s w w1 w2 n m :
  0 < n <= size (concat b) ->
  concat b' = drop (Z.to_nat n) (concat b) ->
  transferred (fd (wrapper s)) [] (take (Z.to_nat n) (concat b)) w w1 ->
  heap w1 = <[h := mkShared (after_writes 1 (wrapper s)) (use_count s)]> (heap w) ->
  wrote b' true h (mkShared (after_writes 1 (wrapper s)) (use_count s)) w1 m w2 ->
  wrote b true h s w (n + m) w2.
Proof.
  intros Hn Hd Ht Hh (Hm & _ & Hall & Ht2 & k & Hk & _ & Hh2).
  assert (Hs : size (concat b') = size (concat b) - n) by (rewrite Hd; apply size_drop; lia).
  specialize (Hall eq_refl). split; [lia|]. split; [lia|]. split; [lia|]. split.
  - replace (take (Z.to_nat (n + m)) (concat b))
      with (take (Z.to_nat n) (concat b) ++ take (Z.to_nat m) (concat b')).
    { by apply (transferred_trans _ [] [] _ _ w w1 w2). }
    rewrite Hd, Z2Nat.inj_add by lia. by rewrite take_take_drop.
  - exists (1 + k). split; [lia|]. split; [done|].
    rewrite Hh2, Hh, insert_insert_eq. cbn [wrapper use_count]. by rewrite after_writes_add.
Qed.

Lemma write_loop_outcome fuel : forall b total write_all h w s,
  heap w !! h = Some s -> size (concat b) < 2 ^ 63 -> 0 <= total ->
  total + size (concat b) < M64 -> size (concat b) < Z.of_nat fuel ->
  outcome (write_loop fuel total b write_all h) w
    (fun n w' => total <= n /\ wrote b write_all h s w (n - total) w') io_error.
Proof.
  induction fuel as [|fuel IH]; intros b total write_all h w s Hs Hsz Ht Htb Hf; [size_lia|].
  cbn [write_loop]. apply outcome_bind.
  eapply outcome_mono; [by apply write_once_outcome| |done].
  intros [n b'] w1 (Hn & Hp & Hd & Htr & Hh).
  rewrite u64_id by lia.
  assert (Hs' : size (concat b') = size (concat b) - n) by (rewrite Hd; by apply size_drop).
  rewrite bvl_size_concat by lia.
  destruct (Z.eqb_spec (size (concat b')) 0) as [Hz|Hz]; destruct write_all; cbn [andb negb].
  1,2,4: unfold outcome; cbn; split; [lia|]; replace (total + n - total) with n by lia.
  1,2,3: eapply wrote_once; try done.
  { intros _. by apply size_0_nil. }
  assert (concat b <> []) as Hne by (intros E; rewrite E in *; size_simpl; size_lia).
  specialize (Hp Hne).
  eapply outcome_mono.
  { apply (IH b' (total + n) true h w1 (mkShared (after_writes 1 (wrapper s)) (use_count s)));
      [by rewrite Hh, lookup_insert_eq|lia..]. }
  2: { done. }
  intros m w2 [Hm Hw]. cbn beta. split; [lia|].
  replace (m - total) with (n + (m - (total + n))) by lia.
  apply (wrote_more b b' h s w w1); [lia|done..].
Qed.

Lemma write_outcome b write_all h w s :
  heap w !! h = Some s -> size (concat b) < 2 ^ 63 ->
  outcome (write b write_all h) w (wrote b write_all h s w) io_error.
Proof.
  intros Hs Hb. unfold write. rewrite bvl_size_concat by lia.
  eapply outcome_mono; [apply (write_loop_outcome _ b 0 write_all h w s); try done; size_lia| |done].
  intros n w' [_ Hw]. by rewrite Z.sub_0_r in Hw.
Qed.

(** The wrapper after a [read] that returned [data]. *)
Definition after_read (limit : Z) (data : bytes) (wr : FDWrapper) : FDWrapper :=
  mkFDWrapper (fd wr) (eof wr || ((0 <? limit) && bool_decide (data = []))) (closed wr)
    (u32 (read_count wr + 1)) (write_count wr).

Lemma read_outcome limit h w s :
  heap w !! h = Some s -> 0 <= limit ->
  outcome (read limit h) w
    (fun data w' =>
       size data <= Z.min BUFFER_SIZE limit /\
       transferred (fd (wrapper s)) data [] w w' /\
       heap w' = <[h := mkShared (after_read limit data (wrapper s)) (use_count s)]> (heap w))
    is_unix_error.
Proof.
  intros Hs Hl. unfold read. apply outcome_bind. eapply get_outcome; [done|].
  apply outcome_bind. unfold outcome at 1, syscall.
  pose proof (sys_read_law (fd (wrapper s)) (Z.min BUFFER_SIZE limit) (kernel w)
                ltac:(unfold BUFFER_SIZE; lia)) as Law.
  destruct (sys_read _ _ _) as [[r data] k'] eqn:Er. destruct Law as (Lg & Lo & Lok & Lbad).
  apply outcome_bind. unfold outcome at 1, lift.
  destruct (Z_lt_le_dec (return_value r) 0) as [Hneg|Hpos].
  { destruct (Lbad Hneg) as (E1 & E2 & _). rewrite SystemCall_fails by done. by eexists. }
  destruct (Lok Hpos) as (L1 & L2 & L3). unfold BUFFER_SIZE in *.
  rewrite SystemCall_succeeds by lia. cbn [mbind result_bind].
  assert (Htake : take (Z.to_nat (return_value r)) data = data).
  { apply take_ge. unfold size in L1. lia. }
  assert (Hz : (return_value r =? 0) = bool_decide (data = [])).
  { rewrite <- L1. case_bool_decide as Hd; [by subst|].
    apply Z.eqb_neq. intros E. by apply Hd, size_0_nil. }
  apply outcome_bind. rewrite Hz, Htake.
  destruct ((0 <? limit) && bool_decide (data = [])) eqn:Heof;
    [eapply modify_outcome; [done|]|unfold outcome at 1; cbn].
  all: destruct (Z.ltb_spec (Z.min (1024 * 1024) limit) (return_value r)); [lia|].
  all: destruct (Z.ltb_spec (return_value r) 0); [lia|].
  all: apply outcome_bind.
  1: eapply modify_outcome; [refine (lookup_insert_eq _ _ _)|].
  2: eapply modify_outcome; [exact Hs|].
  all: unfold outcome; cbn -[insert]; split; [lia|]; split.
  2: { rewrite insert_insert_eq. unfold after_read. by rewrite Heof, orb_true_r. }
  3: { unfold after_read. by rewrite Heof, orb_false_r. }
  all: split; intros x; cbn; [|by rewrite Lg; case_decide; rewrite app_nil_r].
  all: case_decide; [by subst|rewrite app_nil_r; auto].
Qed.

Lemma destroy_transferred wr w n : transferred n [] [] w (destroy wr w).
Proof.
  unfold destroy. destruct (closed wr); apply transferred_refl; intros x; try done; cbn;
    by destruct (sys_close_law (fd wr) (kernel w) x) as [? ?].
Qed.

(** Releasing a reference transfers no bytes, and leaves the other wrappers alone. *)
Lemma release_outcome h w s :
  heap w !! h = Some s ->
  outcome (release h) w
    (fun _ w' => (forall n, transferred n [] [] w w') /\
       (forall h', h' <> h -> heap w' !! h' = heap w !! h') /\
       ((1 < use_count s)%nat ->
          heap w' !! h = Some (mkShared (wrapper s) (use_count s - 1))))
    (fun _ => False).
Proof.
  intros Hs. unfold outcome, release. rewrite Hs.
  destruct (use_count s) as [|[|n]]; (split; [|split]).
  all: try (intros; apply (destroy_transferred _ (set_heap (delete h (heap w)) w))).
  all: try (intros; lia).
  all: try (intros; by apply transferred_refl).
  all: try (intros h' Hh; unfold destroy; destruct (closed (wrapper s)); cbn;
            by rewrite lookup_delete_ne).
  - intros h' Hh. cbn. by rewrite lookup_insert_ne.
  - intros _. cbn. by rewrite lookup_insert_eq.
Qed.

(** At least [f h] references to each wrapper [h] are held. *)
Definition held (f : FileDescriptor -> nat) w : Prop := forall h,
  (0 < f h)%nat -> exists s, heap w !! h = Some s /\ (f h <= use_count s)%nat.

Lemma release_held f h w :
  held f w -> (0 < f h)%nat ->
  outcome (release h) w
    (fun _ w' => held (fun x => if decide (x = h) then f x - 1 else f x)%nat w' /\
       forall n, transferred n [] [] w w') (fun _ => False).
Proof.
  intros Hf Hh. destruct (Hf h Hh) as (s & Hs & Hc).
  eapply outcome_mono; [by apply release_outcome| |done].
  intros _ w' (Ht & Hne & Heq). split; [|done]. intros h' Hh'.
  destruct (decide (h' = h)) as [->|Hn].
  - rewrite Heq by lia. eexists. split; [done|]. cbn. lia.
  - rewrite Hne by done. by apply Hf.
Qed.

(** ** References

    A history of a descriptor object: [true] duplicates a reference, [false] destroys
    one.  [live m l] is how many are left of [m]; there is none when the last was
    destroyed, and then nothing can happen any more. *)
Fixpoint live (m : nat) (l : list bool) : option nat :=
  match l, m with
  | [], _ => Some m
  | _ :: _, O => None
  | true :: l, S _ => live (S m) l
  | false :: l, S m => live m l
  end.

Fixpoint uses (l : list bool) (h : FileDescriptor) : IO K unit :=
  match l with
  | [] => mret tt
  | true :: l => _ ← duplicate h; uses l h
  | false :: l => _ ← release h; uses l h
  end.

Lemma uses_counted l : forall m wr c h w,
  heap w !! h = Some (mkShared wr m) -> (0 < m)%nat -> live m l = Some c ->
  uses l h w = Ok (tt, if decide (c = 0%nat) then destroy wr (set_heap (delete h (heap w)) w)
                       else set_heap (<[h := mkShared wr c]> (heap w)) w).
Proof.
  induction l as [|[] l IH]; intros m wr c h w Hs Hm Hl; destruct m as [|m]; try lia; cbn in Hl.
  - injection Hl as <-. rewrite decide_False by done. rewrite insert_id by done.
    by destruct w.
  - cbn [uses]. unfold mbind, io_bind, duplicate. rewrite Hs. cbn.
    rewrite (IH (S (S m)) wr c); [|cbn; by rewrite lookup_insert_eq|lia|done]. do 2 f_equal.
    unfold set_heap. cbn. by rewrite delete_insert_eq, insert_insert_eq.
  - cbn [uses]. unfold mbind, io_bind, release. rewrite Hs. cbn [use_count wrapper].
    destruct m as [|m].
    + destruct l as [|[] l]; cbn in Hl; [|done..]. by injection Hl as <-.
    + cbn. rewrite (IH (S m) wr c); [|cbn; by rewrite lookup_insert_eq|lia|done]. do 2 f_equal.
      unfold set_heap. cbn. by rewrite delete_insert_eq, insert_insert_eq.
Qed.

End Effects.

(** ** A concrete kernel

    Each descriptor has some input left and moves at most [chunk] bytes per call;
    everything is always ready. *)
Record toy := mkToy {
  input : Z -> bytes;
  toy_taken : Z -> bytes;
  toy_given : Z -> bytes;
  chunk : nat;
  closes : list Z
}.

Definition at_fd (fd : Z) (f : bytes -> bytes) (g : Z -> bytes) : Z -> bytes :=
  fun x => if x =? fd then f (g x) else g x.

#[export] Instance toy_kernel : Kernel toy := {|
  sys_read fd n k :=
    let data := take (Nat.min (chunk k) (Z.to_nat n)) (input k fd) in
    (mkRet (size data) 0, data,
     mkToy (at_fd fd (drop (length data)) (input k)) (at_fd fd (fun b => b ++ data) (toy_taken k))
       (toy_given k) (chunk k) (closes k));
  sys_writev fd iov k :=
    let data := take (Z.to_nat (Z.min (Z.of_nat (chunk k)) MAX_RW_COUNT)) (concat (fst <$> iov)) in
    (mkRet (size data) 0,
     mkToy (input k) (toy_taken k) (at_fd fd (fun b => b ++ data) (toy_given k)) (chunk k) (closes k));
  sys_close fd k :=
    (mkRet 0 0, mkToy (input k) (toy_taken k) (toy_given k) (chunk k) (closes k ++ [fd]));
  sys_getfl fd k := (mkRet 0 0, k);
  sys_setfl fd _ k := (mkRet 0 0, k);
  sys_poll fds _ k := (mkRet (size fds) 0, events <$> fds, k)
|}.

#[export] Instance toy_laws : KernelLaws toy.
Proof.
  refine {| taken := toy_taken; given := toy_given |}; try done.
  - intros fd n k Hn. cbn. split; [done|]. unfold at_fd. rewrite Z.eqb_refl.
    split; [intros x Hx; apply Z.eqb_neq in Hx; by rewrite Hx|].
    split; [|size_lia]. intros _. repeat split; try done. unfold size. rewrite length_take. lia.
  - intros fd iov k. cbn. split; [done|]. unfold at_fd. rewrite Z.eqb_refl.
    set (d := concat _). split; [intros x Hx; apply Z.eqb_neq in Hx; by rewrite Hx|].
    split; [|size_lia]. intros _. unfold size, MAX_RW_COUNT. rewrite length_take. split; [lia|].
    split; [lia|]. f_equal. rewrite Nat2Z.id. clear.
    destruct (Nat.le_gt_cases (length d) (Z.to_nat (Z.min (Z.of_nat (chunk k)) 2147479552))).
    + rewrite !take_ge by lia. done.
    + f_equal. lia.
Defined.

Definition toy_world (inp : bytes) (n : nat) : world toy :=
  mkWorld (mkToy (fun _ => inp) (fun _ => []) (fun _ => []) n [])
    {[ 0%nat := mkShared (mkFDWrapper 5 false false 0 0) 1 ]}.

(** ** What file descriptors promise *)

(** C38: [write] with [write_all] terminates and has then given every byte of the
    buffer list to the descriptor, once and in order, however the kernel cut the
    transfer into short writes; no other descriptor is touched and nothing is read.
    Otherwise it throws the error of a system call, or [runtime_error] when the
    kernel accepts no byte. *)
Theorem write_all_writes_everything `{KernelLaws K} b h (w : world K) s :
  heap w !! h = Some s -> size (concat b) < 2 ^ 63 ->
  match write b true h w with
  | Ok (n, w') =>
      n = size (concat b) /\ transferred (fd (wrapper s)) [] (concat b) w w' /\
      exists k, 1 <= k <= 1 + size (concat b) /\
        heap w' = <[h := mkShared (after_writes k (wrapper s)) (use_count s)]> (heap w)
  | Throw e => e = runtime_error \/ exists n, e = unix_error n
  end.
Proof.
  intros Hs Hb. pose proof (write_outcome b true h w s Hs Hb) as Hw. unfold outcome in Hw.
  destruct (write b true h w) as [[n w']|e]; [|done].
  destruct Hw as (Hn & _ & Hall & Ht & k & Hk & _ & Hh). specialize (Hall eq_refl).
  split; [done|]. split; [|by exists k].
  rewrite take_ge in Ht; [done|]. unfold size in *. lia.
Qed.

Lemma write_all_writes_everything_witness :
  exists w', write [[Byte.x61; Byte.x62]; [Byte.x63]] true 0%nat (toy_world [] 2) = Ok (3, w') /\
    given (kernel w') 5 = [Byte.x61; Byte.x62; Byte.x63].
Proof.
  set (b := [[Byte.x61; Byte.x62]; [Byte.x63]]).
  pose proof (write_all_writes_everything b 0%nat (toy_world [] 2) _ eq_refl eq_refl) as Hw.
  assert (E : fst <$> write b true 0%nat (toy_world [] 2) = Ok 3) by (vm_compute; reflexivity).
  destruct (write b true 0%nat (toy_world [] 2)) as [[n w']|e]; [|done].
  injection E as ->. exists w'. split; [done|].
  destruct Hw as (_ & [_ Hg] & _). rewrite Hg. reflexivity.
Defined.

(** [read] takes at most [limit] bytes, and at most the size of its buffer, and
    returns exactly the bytes that the kernel took from the descriptor; the end of
    the input is recorded exactly when at least one byte was asked for and none
    came. *)
Theorem read_returns_input `{KernelLaws K} limit h (w : world K) s :
  heap w !! h = Some s -> 0 <= limit ->
  match read limit h w with
  | Ok (data, w') =>
      size data <= Z.min BUFFER_SIZE limit /\ transferred (fd (wrapper s)) data [] w w' /\
      heap w' = <[h := mkShared (after_read limit data (wrapper s)) (use_count s)]> (heap w)
  | Throw e => exists n, e = unix_error n
  end.
Proof. apply read_outcome. Qed.

Lemma read_returns_input_witness :
  exists w', read 2 0%nat (toy_world [Byte.x61; Byte.x62; Byte.x63] 7) = Ok ([Byte.x61; Byte.x62], w') /\
    taken (kernel w') 5 = [Byte.x61; Byte.x62].
Proof.
  set (w := toy_world [Byte.x61; Byte.x62; Byte.x63] 7).
  pose proof (read_returns_input 2 0%nat w _ eq_refl ltac:(lia)) as Hr.
  assert (E : fst <$> read 2 0%nat w = Ok [Byte.x61; Byte.x62]) by (vm_compute; reflexivity).
  destruct (read 2 0%nat w) as [[data w']|e]; [|done].
  injection E as ->. exists w'. split; [done|].
  destruct Hr as (_ & [Ht _] & _). rewrite Ht. reflexivity.
Defined.

(** The descriptor is closed exactly once, when the last of the objects that
    share it is destroyed, whatever the order in which they are duplicated and
    destroyed: as long as one is left, there has been no call to [close], and after
    the last one the wrapper is gone and [close] was called once, unless the owner
    had closed the descriptor already. *)
Theorem closed_with_last_reference `{Kernel K} l m wr c h (w : world K) :
  heap w !! h = Some (mkShared wr m) -> (0 < m)%nat -> live m l = Some c ->
  exists w', uses l h w = Ok (tt, w') /\
    if decide (c = 0%nat) then
      heap w' = delete h (heap w) /\
      kernel w' = if closed wr then kernel w else (sys_close (fd wr) (kernel w)).2
    else heap w' = <[h := mkShared wr c]> (heap w) /\ kernel w' = kernel w.
Proof.
  intros Hs Hm Hl. eexists. split; [by eapply uses_counted|].
  case_decide; [|done]. unfold destroy. by destruct (closed wr).
Qed.

Lemma closed_with_last_reference_witness :
  exists w', uses [true; false; true; false; false] 0%nat (toy_world [] 1) = Ok (tt, w') /\
    closes (kernel w') = [5].
Proof.
  destruct (closed_with_last_reference [true; false; true; false; false] 1 _ 0 0%nat
              (toy_world [] 1) eq_refl ltac:(lia) eq_refl) as (w' & E & _ & Hk).
  exists w'. split; [exact E|]. rewrite Hk. reflexivity.
Defined.

(** [set_blocking] changes no other flag than [O_NONBLOCK]. *)
Lemma nonblock_bit flags i : 0 <= i ->
  Z.testbit (Z.lxor flags (Z.land flags O_NONBLOCK)) i = Z.testbit flags i && negb (i =? 11) /\
  Z.testbit (Z.lor flags O_NONBLOCK) i = Z.testbit flags i || (i =? 11).
Proof.
  intros Hi. change O_NONBLOCK with (2 ^ 11).
  rewrite Z.lxor_spec, Z.land_spec, Z.lor_spec, Z.pow2_bits_eqb by lia.
  rewrite (Z.eqb_sym 11 i). by destruct (Z.testbit flags i), (i =? 11).
Qed.
