(* ===== verification/EventLoop.v ===== *)
(** The event loop: [libsponge/util/eventloop.hh] and [eventloop.cc].

    The callbacks of the rules are closures over the variables of the program that
    owns the loop: [L] is the type of these variables, and a callback takes them and
    the world of file descriptors to new ones. *)
From S2P Require Import Prelude.
From S2P Require FileDescriptor.
Import FileDescriptor.

(** [enum class Direction] with the values of [POLLIN] and [POLLOUT]. *)
Inductive Direction := In | Out.
#[export] Instance Direction_eq_dec : EqDecision Direction.
Proof. solve_decision. Defined.

Definition POLLIN : Z := 1.
Definition POLLOUT : Z := 4.
Definition POLLERR : Z := 8.
Definition POLLHUP : Z := 16.
Definition POLLNVAL : Z := 32.
Definition EINTR : Z := 4.

Definition event_of (d : Direction) : Z := match d with In => POLLIN | Out => POLLOUT end.

(** [enum class Result] *)
Inductive Result := Success | Timeout | Exit.

(** [class Rule] *)
Record Rule (K L : Type) := mkRule {
  rule_fd : FileDescriptor;
  direction : Direction;
  callback : L -> IO K L;
  interest : L -> world K -> bool;
  cancel : L -> IO K L
}.
Arguments mkRule {K L} _ _ _ _ _.
Arguments rule_fd {K L} _.
Arguments direction {K L} _.
Arguments callback {K L} _ _ _.
Arguments interest {K L} _ _ _.
Arguments cancel {K L} _ _ _.

Section EventLoop.
Context {K L : Type} `{Kernel K}.

(** [Rule::service_count] *)
Definition service_count (r : Rule K L) : IO K Z :=
  wr ← get (rule_fd r);
  mret (match direction r with In => read_count wr | Out => write_count wr end).

(** [EventLoop::add_rule]: the rule owns a reference of its own. *)
Definition add_rule (h : FileDescriptor) (d : Direction) (cb : L -> IO K L)
    (int : L -> world K -> bool) (can : L -> IO K L) (rules : list (Rule K L))
    : IO K (list (Rule K L)) :=
  h' ← duplicate h;
  mret (rules ++ [mkRule h' d cb int can]).

(** Cancels a rule: its [cancel] is called and its element is erased from the list,
    which destroys the rule's reference. *)
Definition erase (r : Rule K L) (l : L) : IO K L :=
  l ← cancel r l;
  _ ← release (rule_fd r);
  mret l.

Definition interested (r : Rule K L) (l : L) : IO K bool := fun w => Ok (interest r l w, w).

(** The first loop of [wait_next_event]: the rules that are left, their [pollfd]s, and
    whether there is something to poll. *)
Fixpoint set_up (rules : list (Rule K L)) (l : L)
    : IO K (list (Rule K L) * list pollfd * bool * L) :=
  match rules with
  | [] => mret ([], [], false, l)
  | this_rule :: rules =>
      wr ← get (rule_fd this_rule);
      if bool_decide (direction this_rule = In) && eof wr then
        l ← erase this_rule l; set_up rules l
      else if closed wr then
        l ← erase this_rule l; set_up rules l
      else
        i ← interested this_rule l;
        let p := mkPollfd (fd wr) (if i : bool then event_of (direction this_rule) else 0) 0 in
        '(rules, pollfds, something_to_poll, l) ← set_up rules l;
        mret (this_rule :: rules, p :: pollfds, i || something_to_poll, l)
  end.

(** The [revents] that [poll] has stored. *)
Fixpoint set_revents (fds : list pollfd) (rs : list Z) : list pollfd :=
  match fds, rs with
  | p :: fds, r :: rs => mkPollfd (poll_fd p) (events p) r :: set_revents fds rs
  | _, _ => fds
  end.

(** The tests of the second loop. *)
Definition poll_error (p : pollfd) : bool := negb (Z.land (revents p) (Z.lor POLLERR POLLNVAL) =? 0).
Definition poll_ready (p : pollfd) : bool := negb (Z.land (revents p) (events p) =? 0).
Definition poll_hup (p : pollfd) : bool := negb (Z.land (revents p) POLLHUP =? 0).
(** The condition to cancel a rule whose descriptor is defunct. *)
Definition defunct (p : pollfd) : bool := poll_hup p && negb (events p =? 0) && negb (poll_ready p).

(** The callback of a ready rule, and the check that it did something. *)
Definition serve (this_rule : Rule K L) (l : L) : IO K L :=
  count_before ← service_count this_rule;
  l ← callback this_rule l;
  count_after ← service_count this_rule;
  i ← interested this_rule l;
  if (count_before =? count_after) && (i : bool) then throw runtime_error else mret l.

(** The second loop of [wait_next_event]; [idx] is the index of the [pollfd] that
    belongs to the first of [rules]. *)
Fixpoint dispatch (pollfds : list pollfd) (idx : nat) (rules : list (Rule K L)) (l : L)
    : IO K (list (Rule K L) * L) :=
  match rules with
  | [] => mret ([], l)
  | this_rule :: rules =>
      match pollfds !! idx with
      | None => throw undefined_behaviour
      | Some this_pollfd =>
          if poll_error this_pollfd then throw runtime_error else
          if defunct this_pollfd then
            l ← erase this_rule l; dispatch pollfds (S idx) rules l
          else
            l ← (if poll_ready this_pollfd then serve this_rule l else mret l);
            '(rules, l) ← dispatch pollfds (S idx) rules l;
            mret (this_rule :: rules, l)
      end
  end.

(** The call of [poll]: [Some] result ends [wait_next_event].  A [unix_error] other
    than [EINTR] is caught and the function goes on. *)
Definition polled (r : sysret) : option Result :=
  match SystemCall r 0 with
  | Ok n => if n =? 0 then Some Timeout else None
  | Throw (unix_error e) => if e =? EINTR then Some Exit else None
  | Throw _ => None
  end.

(** [EventLoop::wait_next_event] *)
Definition wait_next_event (timeout_ms : Z) (rules : list (Rule K L)) (l : L)
    : IO K (Result * list (Rule K L) * L) :=
  '(rules, pollfds, something_to_poll, l) ← set_up rules l;
  if negb something_to_poll then mret (Exit, rules, l) else
  '(r, rs) ← syscall (sys_poll pollfds timeout_ms);
  match polled r with
  | Some result => mret (result, rules, l)
  | None =>
      '(rules, l) ← dispatch (set_revents pollfds rs) 0 rules l;
      mret (Success, rules, l)
  end.

End EventLoop.

(** ** Ownership

    The program holds [own h] references to the wrapper [h], and every rule one. *)
Definition refs {K L} (rules : list (Rule K L)) (h : FileDescriptor) : nat :=
  length (filter (fun r => rule_fd r = h) rules).

Definition owns {K L} (own : FileDescriptor -> nat) (rules : list (Rule K L)) (w : world K) : Prop :=
  forall h, (0 < own h)%nat ->
    exists s, heap w !! h = Some s /\ (own h + refs rules h <= use_count s)%nat.

(** The descriptors that the program holds. *)
Definition alive {K} (own : FileDescriptor -> nat) (w : world K) : Prop :=
  forall h, (0 < own h)%nat -> is_Some (heap w !! h).

(** No reference is lost on the way from [w] to [w']. *)
Definition refs_kept {K} (w w' : world K) : Prop :=
  forall h s, heap w !! h = Some s ->
    exists s', heap w' !! h = Some s' /\ (use_count s <= use_count s')%nat.

(** The two worlds differ in use counts only. *)
Definition same_wrappers {K} (w w' : world K) : Prop :=
  kernel w' = kernel w /\ forall h, wrapper <$> heap w' !! h = wrapper <$> heap w !! h.

Lemma refs_cons {K L} (r : Rule K L) rules h :
  refs (r :: rules) h = ((if decide (rule_fd r = h) then 1 else 0) + refs rules h)%nat.
Proof. unfold refs. rewrite filter_cons. by case_decide. Qed.

Lemma refs_app {K L} (rules rules' : list (Rule K L)) h :
  refs (rules ++ rules') h = (refs rules h + refs rules' h)%nat.
Proof. unfold refs. by rewrite filter_app, length_app. Qed.

Lemma owns_alive {K L} own (rules : list (Rule K L)) (w : world K) : owns own rules w -> alive own w.
Proof. intros Ho h Hh. destruct (Ho h Hh) as (s & Hs & _). by eexists. Qed.

Lemma owns_kept {K L} own (rules : list (Rule K L)) (w w' : world K) :
  owns own rules w -> refs_kept w w' -> owns own rules w'.
Proof.
  intros Ho Hk h Hh. destruct (Ho h Hh) as (s & Hs & Hc).
  destruct (Hk h s Hs) as (s' & Hs' & Hc'). exists s'. split; [done|lia].
Qed.

Lemma refs_kept_refl {K} (w : world K) : refs_kept w w.
Proof. intros h s Hs. by exists s. Qed.

Lemma refs_kept_trans {K} (w1 w2 w3 : world K) :
  refs_kept w1 w2 -> refs_kept w2 w3 -> refs_kept w1 w3.
Proof.
  intros H1 H2 h s Hs. destruct (H1 h s Hs) as (s2 & Hs2 & ?).
  destruct (H2 h s2 Hs2) as (s3 & Hs3 & ?). exists s3. split; [done|lia].
Qed.

(** Assigning to the members of a wrapper keeps the references. *)
Lemma refs_kept_insert {K} (w w' : world K) h s wr :
  heap w !! h = Some s -> heap w' = <[h := mkShared wr (use_count s)]> (heap w) -> refs_kept w w'.
Proof.
  intros Hs Hw h' s' Hs'. rewrite Hw. destruct (decide (h' = h)) as [->|Hne].
  - rewrite lookup_insert_eq. eexists. split; [done|]. rewrite Hs in Hs'. by injection Hs' as ->.
  - rewrite lookup_insert_ne by done. by exists s'.
Qed.

Section Touched.
Context {K : Type}.
Implicit Types w : world K.

(** After a wrapper's members have been assigned to. *)
Definition touched (h : FileDescriptor) (s : Shared) w w' : Prop :=
  exists wr, fd wr = fd (wrapper s) /\ heap w' = <[h := mkShared wr (use_count s)]> (heap w).

Lemma touched_kept h s w w' : heap w !! h = Some s -> touched h s w w' -> refs_kept w w'.
Proof. intros Hs (wr & _ & Hh). by eapply refs_kept_insert. Qed.

Lemma touched_trans h s w1 w2 w3 wr :
  fd wr = fd (wrapper s) -> heap w2 = <[h := mkShared wr (use_count s)]> (heap w1) ->
  touched h (mkShared wr (use_count s)) w2 w3 -> touched h s w1 w3.
Proof.
  intros Hf H2 (wr' & Hf' & H3). exists wr'. split; [cbn in Hf'; congruence|].
  rewrite H3, H2. cbn. by rewrite insert_insert_eq.
Qed.

(** Whatever descriptors are in [w'] were in [w], with the same numbers. *)
Definition same_fds w w' : Prop := forall h s', heap w' !! h = Some s' ->
  exists s, heap w !! h = Some s /\ fd (wrapper s) = fd (wrapper s').

Lemma same_fds_touched h s w w' : heap w !! h = Some s -> touched h s w w' -> same_fds w w'.
Proof.
  intros Hs (wr & Hf & Hh) h' s' Hs'. rewrite Hh in Hs'.
  destruct (decide (h' = h)) as [->|Hne].
  - rewrite lookup_insert_eq in Hs'. injection Hs' as <-. by exists s.
  - rewrite lookup_insert_ne in Hs' by done. by exists s'.
Qed.

Lemma same_fds_wrappers w w' : same_wrappers w w' -> same_fds w w'.
Proof.
  intros [_ Hw] h s' Hs'. specialize (Hw h). rewrite Hs' in Hw.
  destruct (heap w !! h) as [s|]; [|done]. exists s. split; [done|]. cbn in Hw. congruence.
Qed.

(** [h] has the number [n], as long as it is there. *)
Definition numbered w (h : FileDescriptor) (n : Z) : Prop :=
  forall s, heap w !! h = Some s -> fd (wrapper s) = n.

Lemma numbered_same w w' h n : numbered w h n -> same_fds w w' -> numbered w' h n.
Proof.
  intros Hn Hs s' Hs'. destruct (Hs h s' Hs') as (s & Hh & <-). by apply Hn.
Qed.

Lemma same_fds_refl w : same_fds w w.
Proof. intros h s Hs. by exists s. Qed.

End Touched.

(** The reference of a rule is never the last one. *)
Lemma release_owned `{Kernel K} {L} own (r : Rule K L) rules (w : world K) :
  owns own (r :: rules) w -> (0 < own (rule_fd r))%nat ->
  outcome (release (rule_fd r)) w
    (fun _ w' => owns own rules w' /\ same_wrappers w w') (fun _ => False).
Proof.
  intros Ho Hr. destruct (Ho _ Hr) as (s & Hs & Hc).
  rewrite refs_cons, decide_True in Hc by done.
  unfold outcome, release. rewrite Hs. destruct (use_count s) as [|[|n]] eqn:Hn; [lia..|].
  split.
  - intros h Hh. cbn. destruct (decide (h = rule_fd r)) as [->|Hne].
    + rewrite lookup_insert_eq. eexists. split; [done|]. cbn. lia.
    + rewrite lookup_insert_ne by done. destruct (Ho h Hh) as (s' & Hs' & Hc').
      rewrite refs_cons, decide_False in Hc' by done. by exists s'.
  - split; [done|]. intros h. unfold set_heap. cbn [heap]. destruct (decide (h = rule_fd r)) as [->|Hne].
    + by rewrite lookup_insert_eq, Hs.
    + by rewrite lookup_insert_ne.
Qed.

(** A new rule gets a reference of its own. *)
Lemma add_rule_outcome `{Kernel K} {L} own h d cb int can (rules : list (Rule K L)) (w : world K) E :
  owns own rules w -> (0 < own h)%nat ->
  outcome (add_rule h d cb int can rules) w
    (fun rules' w' => rules' = rules ++ [mkRule h d cb int can] /\ owns own rules' w' /\
       same_wrappers w w') E.
Proof.
  intros Ho Hh. destruct (Ho h Hh) as (s & Hs & Hc).
  assert (Hd : duplicate h w
    = Ok (h, set_heap (<[h := mkShared (wrapper s) (S (use_count s))]> (heap w)) w))
    by (unfold duplicate; by rewrite Hs).
  unfold outcome, add_rule. rewrite (io_bind_eq _ _ _ _ _ Hd). cbn [mret io_ret].
  split; [done|]. unfold same_wrappers, owns, set_heap. cbn [heap kernel].
  split; [|split; [done|]]; intros h'; destruct (decide (h' = h)) as [->|Hne].
  - intros _. rewrite lookup_insert_eq. eexists. split; [done|].
    rewrite refs_app. unfold refs at 2. cbn. rewrite decide_True by done. cbn. lia.
  - intros Hh'. rewrite lookup_insert_ne by done. destruct (Ho h' Hh') as (s' & Hs' & Hc').
    exists s'. split; [done|]. rewrite refs_app. unfold refs at 2. cbn.
    rewrite decide_False by done. cbn. lia.
  - by rewrite lookup_insert_eq, Hs.
  - by rewrite lookup_insert_ne.
Qed.

(** The descriptor of the rule is open, and has more to give if it is read. *)
Definition usable {K L} (w : world K) (r : Rule K L) : Prop :=
  exists s, heap w !! rule_fd r = Some s /\ closed (wrapper s) = false /\
    (direction r = In -> eof (wrapper s) = false).

(** Every two elements, in their order in the list, are related. *)
Lemma ordered_pairs_app {A} (R : A -> A -> Prop) l k :
  ForallOrdPairs R (l ++ k) <->
  ForallOrdPairs R l /\ ForallOrdPairs R k /\ Forall (fun x => Forall (R x) k) l.
Proof.
  induction l as [|x l IH]; cbn.
  - split; [intros Hk; split; [constructor|by split]|by intros (_ & Hk & _)].
  - split.
    + intros HF. inversion HF as [|? ? Hx HF']; subst. apply Forall_app in Hx as [Hx1 Hx2].
      apply IH in HF' as (H1 & H2 & H3). split; [by constructor|]. split; [done|].
      by apply Forall_cons.
    + intros (H1 & H2 & H3). inversion H1 as [|? ? Hx HF']; subst.
      apply Forall_cons in H3 as [H3 H4]. constructor; [by apply Forall_app|].
      apply IH. done.
Qed.

Lemma ordered_pairs_sublist {A} (R : A -> A -> Prop) l k :
  sublist l k -> ForallOrdPairs R k -> ForallOrdPairs R l.
Proof.
  induction 1 as [|x l k Hs IH|x l k Hs IH]; intros HF; [constructor| |];
    inversion HF as [|? ? Hx HF']; subst; [|by apply IH].
  constructor; [by eapply Forall_sublist|by apply IH].
Qed.

(** ** Invariants of a program that runs an event loop

    [Inv] relates the program's variables and the world; [Pre r] is what the callback
    of [r] relies on beyond it: that the rule was interested, and its descriptor
    usable, when the call began; [E] are the exceptions the callbacks may throw. *)
Section Invariant.
Context {K L : Type} `{Kernel K}.
Variable own : FileDescriptor -> nat.
Variable Inv : L -> world K -> Prop.
Variable Pre : Rule K L -> L -> world K -> Prop.
Variable E : exn -> Prop.
Implicit Types (r : Rule K L) (rules kept : list (Rule K L)) (w : world K) (l : L).

(** [m] takes [P] to [Q] and loses no references. *)
Definition takes (m : L -> IO K L) (P Q : L -> world K -> Prop) : Prop := forall l w,
  P l w -> alive own w -> outcome (m l) w (fun l' w' => Q l' w' /\ refs_kept w w') E.

Definition rule_ok r : Prop :=
  (0 < own (rule_fd r))%nat /\
  (forall l w, Inv l w -> interest r l w = true -> usable w r -> Pre r l w) /\
  takes (callback r) (fun l w => Inv l w /\ Pre r l w) Inv /\
  takes (cancel r) Inv Inv.

(** [r], which comes before [r'], does not spoil what the callback of [r'] relies on;
    and cancelling [r'] does not spoil what [r] relies on. *)
Definition respects r r' : Prop :=
  takes (callback r) (fun l w => Inv l w /\ Pre r l w /\ Pre r' l w) (Pre r') /\
  takes (cancel r) (fun l w => Inv l w /\ Pre r' l w) (Pre r') /\
  takes (cancel r') (fun l w => Inv l w /\ Pre r l w) (Pre r).

Definition rules_ok rules : Prop := Forall rule_ok rules /\ ForallOrdPairs respects rules.

Definition failure (e : exn) : Prop := E e \/ e = runtime_error.

(** The rules that are polled for an event can rely on their precondition. *)
Definition armed rules (fds : list pollfd) l w : Prop :=
  Forall2 (fun r p => events p <> 0 -> Pre r l w) rules fds.

Hypothesis Inv_same : forall l w w', Inv l w -> same_wrappers w w' -> Inv l w'.
Hypothesis Pre_same : forall r l w w', Pre r l w -> same_wrappers w w' -> Pre r l w'.
Hypothesis Inv_poll : forall l w fds t,
  Inv l w -> Inv l (set_kernel (sys_poll fds t (kernel w)).2 w).
Hypothesis Pre_poll : forall r l w fds t,
  Pre r l w -> Pre r l (set_kernel (sys_poll fds t (kernel w)).2 w).

Lemma rules_ok_sublist rules rules' : sublist rules' rules -> rules_ok rules -> rules_ok rules'.
Proof using Type.
  intros Hs [H1 H2]. split; [by eapply Forall_sublist|by eapply ordered_pairs_sublist].
Qed.

Lemma rules_ok_cons r rules :
  rules_ok (r :: rules) <-> rule_ok r /\ Forall (respects r) rules /\ rules_ok rules.
Proof using Type.
  unfold rules_ok. rewrite Forall_cons. split.
  - intros [[H1 H2] H3]. by inversion H3.
  - intros (H1 & H2 & H3 & H4). by split; [|constructor].
Qed.

(** A step of one rule keeps the preconditions of the others, [rules]. *)
Lemma takes_armed m (P : L -> world K -> Prop) rules fds kept l w :
  takes m P Inv -> P l w -> owns own kept w ->
  (forall r', r' ∈ rules -> takes m (fun l w => P l w /\ Pre r' l w) (Pre r')) ->
  armed rules fds l w ->
  outcome (m l) w
    (fun l' w' => Inv l' w' /\ owns own kept w' /\ armed rules fds l' w') failure.
Proof using Type.
  intros Hm HP Ho Hr Ha. pose proof (owns_alive _ _ _ Ho) as Hal.
  specialize (Hm l w HP Hal). unfold outcome in *.
  destruct (m l w) as [[l' w']|e] eqn:Em; [|by left]. destruct Hm as [Hi Hk].
  split; [done|]. split; [by eapply owns_kept|].
  revert Hr. induction Ha as [|r' p rules fds Hp Ha IH]; intros Hr; constructor.
  - intros He. specialize (Hr r' ltac:(left) l w (conj HP (Hp He)) Hal). unfold outcome in Hr.
    rewrite Em in Hr. apply Hr.
  - apply IH. intros r2 Hr2. apply Hr. by right.
Qed.

Lemma armed_same rules fds l w w' :
  armed rules fds l w -> same_wrappers w w' -> armed rules fds l w'.
Proof using Pre_same. intros Ha Hs. eapply Forall2_impl; [done|]. eauto. Qed.

Lemma erase_outcome r rules kept fds l w :
  rule_ok r -> Inv l w -> owns own (r :: rules) w -> armed kept fds l w ->
  (forall r', r' ∈ kept -> takes (cancel r) (fun l w => Inv l w /\ Pre r' l w) (Pre r')) ->
  outcome (erase r l) w
    (fun l' w' => Inv l' w' /\ owns own rules w' /\ armed kept fds l' w') failure.
Proof using Inv_same Pre_same.
  intros (Hr & _ & _ & Hc) Hi Ho Ha Hk. apply outcome_bind.
  eapply outcome_mono; [by apply (takes_armed _ Inv kept fds (r :: rules))| |done].
  intros l' w' (Hi' & Ho' & Ha'). apply outcome_bind.
  eapply outcome_mono; [by apply (release_owned own r rules)| |done].
  intros u w2 [Ho2 Hs]. split; [by eapply Inv_same|]. split; [done|by eapply armed_same].
Qed.

Lemma owns_perm kept r rules w : owns own (kept ++ r :: rules) w -> owns own (r :: kept ++ rules) w.
Proof using Type.
  intros Ho h Hh. destruct (Ho h Hh) as (s & Hs & Hc). exists s. split; [done|].
  rewrite refs_cons, !refs_app in *. rewrite refs_cons in Hc. lia.
Qed.

(** [kept] are the rules before those that are still to be visited. *)
Lemma set_up_outcome rules : forall kept kfds l w,
  rules_ok (kept ++ rules) -> Inv l w -> owns own (kept ++ rules) w -> armed kept kfds l w ->
  outcome (set_up rules l) w
    (fun '(rules', fds, _, l') w' =>
       sublist rules' rules /\ Inv l' w' /\ owns own (kept ++ rules') w' /\
       armed (kept ++ rules') (kfds ++ fds) l' w') failure.
Proof using Inv_same Pre_same.
  induction rules as [|r rules IH]; intros kept kfds l w Hok Hi Ho Ha.
  { unfold outcome. cbn. rewrite !app_nil_r in *. by split; [constructor|]. }
  pose proof Hok as [Hall Hord]. apply Forall_app in Hall as [Hkok Hall].
  apply Forall_cons in Hall as [Hr Hall]. apply ordered_pairs_app in Hord as (_ & _ & Hkr).
  assert (Herase : outcome (l ← erase r l; set_up rules l) w
    (fun '(rules', fds, _, l') w' => sublist rules' (r :: rules) /\
       Inv l' w' /\ owns own (kept ++ rules') w' /\
       armed (kept ++ rules') (kfds ++ fds) l' w') failure).
  { apply outcome_bind.
    eapply outcome_mono; [apply (erase_outcome r (kept ++ rules) kept kfds); try done| |done].
    - by apply owns_perm.
    - intros r' Hr'. pose proof (proj1 (Forall_forall _ _) Hkr r' Hr') as Hx. cbn in Hx.
      apply Forall_cons in Hx as [Hx _]. apply Hx.
    - intros l' w' (Hi' & Ho' & Ha').
      eapply outcome_mono; [apply (IH kept kfds); try done| |done].
      + eapply rules_ok_sublist; [|done]. by apply sublist_app; [|constructor].
      + intros [[[rules' fds] b] l2] w2 (Hs & Hrest). split; [by constructor|done]. }
  cbn [set_up]. apply outcome_bind. destruct (Ho (rule_fd r)) as (s & Hs & _); [apply Hr|].
  apply get_outcome with (s := s); [done|].
  destruct (bool_decide (direction r = In) && eof (wrapper s)) eqn:Heof; [done|].
  destruct (closed (wrapper s)) eqn:Hcl; [done|].
  apply outcome_bind. unfold outcome at 1, interested. apply outcome_bind.
  set (p := mkPollfd _ _ _).
  assert (Ha' : armed (kept ++ [r]) (kfds ++ [p]) l w).
  { apply Forall2_app; [done|]. apply Forall2_cons; split; [|by apply Forall2_nil].
    intros He. apply Hr; [done| |].
    - unfold p in He. cbn in He. by destruct (interest r l w).
    - exists s. split; [done|]. split; [done|]. intros Hd.
      rewrite bool_decide_true in Heof by done. done. }
  eapply outcome_mono; [apply (IH (kept ++ [r]) (kfds ++ [p]));
    [by rewrite <- app_assoc|done|by rewrite <- app_assoc|done]| |done].
  intros [[[rules' fds] b] l2] w2 (Hsub & Hi2 & Ho2 & Ha2). unfold outcome. cbn.
  rewrite <- !app_assoc in *. split; [by constructor|]. done.
Qed.

Lemma serve_outcome r rules kept fds l w :
  rule_ok r -> Inv l w -> Pre r l w -> owns own kept w -> armed rules fds l w ->
  Forall (respects r) rules ->
  outcome (serve r l) w
    (fun l' w' => Inv l' w' /\ owns own kept w' /\ armed rules fds l' w') failure.
Proof using Type.
  intros (Hr & _ & Hc & _) Hi Hp Ho Ha Hres. unfold serve, service_count.
  apply outcome_bind, outcome_bind. destruct (Ho (rule_fd r) Hr) as (s & Hs & _).
  apply get_outcome with (s := s); [done|].
  unfold outcome at 1. cbn [mret io_ret]. apply outcome_bind.
  eapply outcome_mono;
    [apply (takes_armed _ (fun l w => Inv l w /\ Pre r l w) rules fds kept); try done| |done].
  - intros r' Hr' l1 w1 [[Hi1 Hp1] Hp1'] Hal.
    destruct (proj1 (Forall_forall _ _) Hres r' Hr') as [Hcb _]. by apply Hcb.
  - intros l' w' (Hi' & Ho' & Ha'). apply outcome_bind, outcome_bind.
    destruct (Ho' (rule_fd r) Hr) as (s' & Hs' & _). apply get_outcome with (s := s'); [done|].
    unfold outcome at 1. cbn [mret io_ret].
    apply outcome_bind. unfold outcome at 1, interested.
    destruct (_ && _); unfold outcome; cbn; [by right|done].
Qed.

Lemma poll_ready_events p : poll_ready p = true -> events p <> 0.
Proof using Type. unfold poll_ready. intros Hp E0. by rewrite E0, Z.land_0_r in Hp. Qed.

Lemma dispatch_outcome fds rules : forall idx kept l w,
  rules_ok rules -> Inv l w -> owns own (kept ++ rules) w -> armed rules (drop idx fds) l w ->
  outcome (dispatch fds idx rules l) w
    (fun '(rules', l') w' => sublist rules' rules /\ Inv l' w' /\ owns own (kept ++ rules') w')
    failure.
Proof using Inv_same Pre_same.
  induction rules as [|r rules IH]; intros idx kept l w Hok Hi Ho Ha.
  { unfold outcome. cbn. by split; [constructor|]. }
  apply rules_ok_cons in Hok as (Hr & Hres & Hok). cbn [dispatch].
  destruct (fds !! idx) as [p|] eqn:Hp.
  2: { apply lookup_ge_None_1 in Hp. rewrite drop_ge in Ha by done. inversion Ha. }
  rewrite (drop_S fds p idx Hp) in Ha. apply Forall2_cons in Ha as [Hpre Ha].
  destruct (poll_error p); [by right|]. destruct (defunct p).
  - apply outcome_bind.
    eapply outcome_mono; [apply (erase_outcome r (kept ++ rules) rules (drop (S idx) fds)); try done| |done].
    + by apply owns_perm.
    + intros r' Hr'. destruct (proj1 (Forall_forall _ _) Hres r' Hr') as (_ & Hx & _). apply Hx.
    + intros l' w' (Hi' & Ho' & Ha'). eapply outcome_mono; [by apply (IH (S idx) kept)| |done].
      intros [rules' l2] w2 (Hs & Hrest). split; [by constructor|done].
  - apply outcome_bind. apply outcome_mono with
      (Q := fun l' w' => Inv l' w' /\ owns own (kept ++ r :: rules) w' /\
                         armed rules (drop (S idx) fds) l' w') (E := failure).
    2: { intros l' w' (Hi' & Ho' & Ha'). apply outcome_bind.
         eapply outcome_mono; [apply (IH (S idx) (kept ++ [r])); try done| |done].
         - by rewrite <- app_assoc.
         - intros [rules' l2] w2 (Hs & Hi2 & Ho2). unfold outcome. cbn.
           rewrite <- app_assoc in Ho2. split; [by constructor|done]. }
    + destruct (poll_ready p) eqn:Hrdy; [|done].
      by apply serve_outcome; [| |apply Hpre, poll_ready_events|..].
    + done.
Qed.

Lemma armed_set_revents rules l w : forall fds rs,
  armed rules fds l w -> armed rules (set_revents fds rs) l w.
Proof using Type.
  intros fds rs Ha. revert rs.
  induction Ha as [|r p rules fds Hp Ha IH]; intros [|z rs]; cbn; try by constructor.
  constructor; [done|apply IH].
Qed.

Lemma wait_next_event_outcome t rules l w :
  rules_ok rules -> Inv l w -> owns own rules w ->
  outcome (wait_next_event t rules l) w
    (fun '(_, rules', l') w' => sublist rules' rules /\ Inv l' w' /\ owns own rules' w') failure.
Proof using Inv_same Pre_same Inv_poll Pre_poll.
  intros Hok Hi Ho. unfold wait_next_event. apply outcome_bind.
  eapply outcome_mono; [apply (set_up_outcome rules [] []); [done|done|done|constructor]| |done].
  intros [[[rules' fds] b] l'] w' (Hs & Hi' & Ho' & Ha'). cbn [app] in Ho', Ha'.
  destruct (negb b); [done|]. apply outcome_bind. unfold outcome at 1, syscall.
  pose proof (Inv_poll l' w' fds t Hi') as Hi2.
  assert (Ha2 : armed rules' fds l' (set_kernel (sys_poll fds t (kernel w')).2 w')).
  { eapply Forall2_impl; [exact Ha'|]. eauto. }
  destruct (sys_poll fds t (kernel w')) as [[r rs] k] eqn:Ep. cbn in Hi2, Ha2.
  destruct (polled r); [done|]. apply outcome_bind.
  eapply outcome_mono; [apply (dispatch_outcome _ rules' 0 [])| |done].
  - by eapply rules_ok_sublist.
  - done.
  - done.
  - rewrite drop_0. by apply armed_set_revents.
  - intros [rules2 l2] w2 (Hs2 & Hi3 & Ho3). split; [by etrans|done].
Qed.

End Invariant.

(** Callbacks that rely on the invariant only. *)
Lemma rules_ok_plain `{Kernel K} {L} own Inv E (rules : list (Rule K L)) :
  Forall (rule_ok own Inv (fun _ _ _ => True) E) rules ->
  rules_ok own Inv (fun _ _ _ => True) E rules.
Proof.
  intros Hall. split; [done|].
  assert (Hweak : forall m P, takes own E m P Inv -> takes own E m P (fun _ _ => True)).
  { intros m P Hm l w HP Ha. eapply outcome_mono; [by apply Hm| |done]. by intros l' w' [_ Hk]. }
  induction Hall as [|r rules (Hr & _ & Hcb & Hc) Hall IH]; constructor; [|done].
  eapply Forall_impl; [exact Hall|]. intros r' (_ & _ & _ & Hc'). split; [|split].
  - intros l w (Hi & Hp & _). by apply (Hweak _ _ Hcb).
  - intros l w (Hi & _). by apply (Hweak _ _ Hc).
  - intros l w (Hi & _). by apply (Hweak _ _ Hc').
Qed.

Lemma length_set_revents fds : forall rs, length (set_revents fds rs) = length fds.
Proof. induction fds as [|p fds IH]; intros [|r rs]; cbn; auto. Qed.

(** ** What a call does

    [dispatched fds rules l w n rules' l' w']: each rule is treated according to its
    own [pollfd], in order; [n] counts those that were cancelled or served. *)
Section Dispatch.
Context {K L : Type} `{Kernel K}.
Implicit Types (r : Rule K L) (rules : list (Rule K L)) (w : world K) (l : L).

(** The callback ran, and it used the descriptor or gave up its interest. *)
Definition served (r : Rule K L) l w l' w' : Prop :=
  exists c c', service_count r w = Ok (c, w) /\ callback r l w = Ok (l', w') /\
    service_count r w' = Ok (c', w') /\ (c <> c' \/ interest r l' w' = false).

Inductive dispatched : list pollfd -> list (Rule K L) -> L -> world K -> nat ->
    list (Rule K L) -> L -> world K -> Prop :=
  | dispatched_nil fds l w : dispatched fds [] l w 0 [] l w
  | dispatched_cancel p fds r rules l w l1 w1 n rules' l' w' :
      poll_error p = false -> defunct p = true -> erase r l w = Ok (l1, w1) ->
      dispatched fds rules l1 w1 n rules' l' w' ->
      dispatched (p :: fds) (r :: rules) l w (S n) rules' l' w'
  | dispatched_serve p fds r rules l w l1 w1 n rules' l' w' :
      poll_error p = false -> poll_ready p = true -> served r l w l1 w1 ->
      dispatched fds rules l1 w1 n rules' l' w' ->
      dispatched (p :: fds) (r :: rules) l w (S n) (r :: rules') l' w'
  | dispatched_idle p fds r rules l w n rules' l' w' :
      poll_error p = false -> defunct p = false -> poll_ready p = false ->
      dispatched fds rules l w n rules' l' w' ->
      dispatched (p :: fds) (r :: rules) l w n (r :: rules') l' w'.

Lemma service_count_pure r w c w' : service_count r w = Ok (c, w') -> w' = w.
Proof using Type.
  unfold service_count. rewrite io_bind_Ok. intros (wr & w1 & Hg & [= _ <-]).
  unfold get in Hg. by destruct (heap w !! rule_fd r); simplify_eq.
Qed.

Lemma serve_served r l w l' w' : serve r l w = Ok (l', w') -> served r l w l' w'.
Proof using Type.
  unfold serve. rewrite io_bind_Ok. intros (c & w1 & Hc & Hs).
  assert (w1 = w) as -> by by eapply service_count_pure.
  apply io_bind_Ok in Hs as (l1 & w2 & Hcb & Hs).
  apply io_bind_Ok in Hs as (c' & w3 & Hc' & Hs).
  assert (w3 = w2) as -> by by eapply service_count_pure.
  apply io_bind_Ok in Hs as (i & w4 & [= <- <-] & Hs).
  destruct ((c =? c') && interest r l1 w2) eqn:Hb; [done|]. injection Hs as <- <-.
  exists c, c'. repeat split; try done.
  apply andb_false_iff in Hb as [Hb|Hb]; [left; by apply Z.eqb_neq|by right].
Qed.

Lemma dispatch_dispatched fds rules : forall idx l w rules' l' w',
  dispatch fds idx rules l w = Ok ((rules', l'), w') ->
  exists n, dispatched (drop idx fds) rules l w n rules' l' w'.
Proof using Type.
  induction rules as [|r rules IH]; intros idx l w rules' l' w' Hd; cbn [dispatch] in Hd.
  { injection Hd as <- <- <-. exists 0%nat. constructor. }
  destruct (fds !! idx) as [p|] eqn:Hp; [|done]. rewrite (drop_S fds p idx Hp).
  destruct (poll_error p) eqn:He; [done|]. destruct (defunct p) eqn:Hdef.
  - apply io_bind_Ok in Hd as (l1 & w1 & Herase & Hd). apply IH in Hd as [n Hd].
    exists (S n). by eapply dispatched_cancel.
  - apply io_bind_Ok in Hd as (l1 & w1 & Hs & Hd).
    apply io_bind_Ok in Hd as ([rules2 l2] & w2 & Hd & [= <- <- <-]).
    apply IH in Hd as [n Hd]. destruct (poll_ready p) eqn:Hr.
    + exists (S n). eapply dispatched_serve; try done. by apply serve_served.
    + injection Hs as <- <-. exists n. by eapply dispatched_idle.
Qed.

(** When nothing was cancelled or served, there was nothing to do. *)
Lemma dispatched_nothing fds rules l w rules' l' w' :
  dispatched fds rules l w 0 rules' l' w' ->
  rules' = rules /\ l' = l /\ w' = w /\
  Forall (fun p => poll_ready p = false /\ defunct p = false) (take (length rules) fds).
Proof using Type.
  remember 0%nat as n eqn:Hn. induction 1; simplify_eq; cbn.
  - by rewrite take_0.
  - destruct IHdispatched as (-> & -> & -> & HF); [done|]. repeat split; try done.
    by apply Forall_cons.
Qed.

(** The [pollfd] of a rule. *)
Definition pollfd_of l w (r : Rule K L) : pollfd :=
  mkPollfd (match heap w !! rule_fd r with Some s => fd (wrapper s) | None => -1 end)
    (if interest r l w then event_of (direction r) else 0) 0.

Lemma set_up_usable rules l w :
  Forall (usable w) rules ->
  set_up rules l w
  = Ok ((rules, pollfd_of l w <$> rules, existsb (fun r => interest r l w) rules, l), w).
Proof using Type.
  induction 1 as [|r rules (s & Hs & Hc & He) _ IH]; [done|].
  assert (Hg : get (rule_fd r) w = Ok (wrapper s, w)) by (unfold get; by rewrite Hs).
  cbn [set_up]. rewrite (io_bind_eq _ _ _ _ _ Hg).
  rewrite Hc. replace (bool_decide (direction r = In) && eof (wrapper s)) with false.
  2: { case_bool_decide; [|done]. by rewrite He. }
  unfold mbind, io_bind, interested. cbn [result_bind mbind]. rewrite IH. cbn.
  unfold pollfd_of at 2. by rewrite Hs.
Qed.

End Dispatch.

(** A kernel that answers every [poll] in the same way. *)
Record still := mkStill { answer : sysret; answer_revents : list Z }.

#[export] Instance still_kernel : Kernel still := {|
  sys_read _ _ k := (mkRet 0 0, [], k);
  sys_writev _ _ k := (mkRet 0 0, k);
  sys_close _ k := (mkRet 0 0, k);
  sys_getfl _ k := (mkRet 0 0, k);
  sys_setfl _ _ k := (mkRet 0 0, k);
  sys_poll _ _ k := (answer k, answer_revents k, k)
|}.

Definition still_world (a : sysret) (rs : list Z) : world still :=
  mkWorld (mkStill a rs) {[ 0%nat := mkShared (mkFDWrapper 5 false false 0 0) 3 ]}.

(** A rule that reads one byte at a time and counts them. *)
Definition counting_rule (int : bool) `{Kernel K} : Rule K Z :=
  mkRule 0%nat In
    (fun n => data ← read 1 0%nat; mret (n + size data)) (fun _ _ => int) mret.

(** What a call of the event loop does while the descriptors of its rules are
    usable.  If no rule is interested, it returns [Exit] and does not even poll.
    Otherwise it polls once, each rule with its own descriptor and the event it
    is interested in.  A time-out and a signal end the call with the rules
    unchanged.  In all other cases the rules are visited in order, each with the answer to its own
    [pollfd], although cancelled rules disappear from the list on the way: the
    ready ones are served, and their callbacks have then used the descriptor or
    lost interest; the defunct ones are cancelled; the others are left alone.  If
    nothing was served or cancelled, then nothing was ready. *)
Theorem event_loop_serves_ready `{Kernel K} {L} t (rules : list (Rule K L)) l (w : world K) :
  Forall (usable w) rules ->
  let fds := pollfd_of l w <$> rules in
  if existsb (fun r => interest r l w) rules then
    let '(r, rs, k) := sys_poll fds t (kernel w) in
    match polled r, wait_next_event t rules l w with
    | Some result, o => o = Ok ((result, rules, l), set_kernel k w)
    | None, Ok ((result, rules', l'), w') => result = Success /\
        exists n, dispatched (set_revents fds rs) rules l (set_kernel k w) n rules' l' w' /\
          (n = 0%nat -> rules' = rules /\ l' = l /\ w' = set_kernel k w /\
             Forall (fun p => poll_ready p = false /\ defunct p = false) (set_revents fds rs))
    | None, Throw e => dispatch (set_revents fds rs) 0 rules l (set_kernel k w) = Throw e
    end
  else wait_next_event t rules l w = Ok ((Exit, rules, l), w).
Proof.
  intros Hu fds. unfold wait_next_event.
  rewrite (io_bind_eq _ _ _ _ _ (set_up_usable rules l w Hu)). fold fds.
  destruct (existsb _ rules); cbn [negb]; [|done].
  destruct (sys_poll fds t (kernel w)) as [[r rs] k] eqn:Ep.
  rewrite (io_bind_eq _ _ _ _ _ (syscall_eq _ _ _ _ Ep)).
  destruct (polled r) as [res|]; [done|]. unfold mbind, io_bind.
  destruct (dispatch _ _ _ _ _) as [[[rules' l'] w']|e] eqn:Hd; cbn; [|done].
  split; [done|]. apply dispatch_dispatched in Hd as [n Hd]. exists n. split; [done|].
  intros ->. apply dispatched_nothing in Hd as (-> & -> & -> & HF). repeat split; try done.
  rewrite drop_0, take_ge in HF; [done|]. rewrite length_set_revents. unfold fds.
  by rewrite length_fmap.
Qed.

Lemma event_loop_serves_ready_witness :
  exists rules' w', wait_next_event 10 [counting_rule true] 0 (toy_world [Byte.x61] 9)
    = Ok ((Success, rules', 1), w').
Proof.
  set (rules := [counting_rule (K := toy) true]). set (w := toy_world [Byte.x61] 9).
  assert (Hu : Forall (usable w) rules).
  { apply Forall_cons. split; [|apply Forall_nil; exact I].
    eexists. split; [reflexivity|]. split; reflexivity. }
  pose proof (event_loop_serves_ready 10 rules 0 w Hu) as Ho.
  assert (E : (fun '((_, _, l), _) => l) <$> wait_next_event 10 rules 0 w = Ok 1)
    by (vm_compute; reflexivity).
  destruct (wait_next_event 10 rules 0 w) as [[[[res rules'] l'] w']|e]; [|discriminate E].
  injection E as ->. exists rules', w'. hnf in Ho.
  destruct Ho as [-> _]. reflexivity.
Defined.

(** C37: the event loop manages its references correctly.  Let the program hold at
    least one reference to each descriptor that has a rule, and let the callbacks
    keep references and stay clear of undefined behaviour.  Then [wait_next_event]
    reads no dangling reference and indexes no vector out of range; the rules left
    are some of the old ones, in their order, and every one of them, like the
    program, still holds its reference. *)
Theorem event_loop_references `{Kernel K} {L} own t (rules : list (Rule K L)) l (w : world K) :
  Forall (rule_ok own (fun _ _ => True) (fun _ _ _ => True) (fun e => e <> undefined_behaviour))
    rules ->
  owns own rules w ->
  match wait_next_event t rules l w with
  | Ok ((_, rules', _), w') => sublist rules' rules /\ owns own rules' w'
  | Throw e => e <> undefined_behaviour
  end.
Proof.
  intros Hok Ho.
  pose proof (wait_next_event_outcome own (fun _ _ => True) (fun _ _ _ => True) _
                ltac:(done) ltac:(done) ltac:(done) ltac:(done)
                t rules l w (rules_ok_plain _ _ _ _ Hok) I Ho) as Hw.
  unfold outcome in Hw. destruct (wait_next_event t rules l w) as [[[[res rules'] l'] w']|e].
  - destruct Hw as (? & _ & ?). done.
  - by destruct Hw as [Hw| ->].
Qed.

Lemma counting_rule_ok i :
  rule_ok (K := toy) (fun h => if decide (h = 0%nat) then 1%nat else 0%nat) (fun _ _ => True)
    (fun _ _ _ => True) (fun e => e <> undefined_behaviour) (counting_rule i).
Proof.
  split; [apply Nat.lt_0_1|]. split; [done|]. split.
  - intros n w _ Ha. destruct (Ha 0%nat Nat.lt_0_1) as [s Hs]. apply outcome_bind.
    eapply outcome_mono; [by eapply (read_outcome 1 0%nat w s)| |].
    + intros data w' (_ & _ & Hh). unfold outcome. cbn. split; [done|].
      by eapply refs_kept_insert.
    + by intros e [n' ->].
  - intros n w _ _. unfold outcome. cbn. split; [done|]. apply refs_kept_refl.
Qed.

Lemma event_loop_references_witness :
  let own := fun h => if decide (h = 0%nat) then 1%nat else 0%nat in
  let w := mkWorld (kernel (toy_world [] 1)) {[ 0%nat := mkShared (mkFDWrapper 5 true false 0 0) 2 ]} in
  match wait_next_event 10 [counting_rule true] 0 w with
  | Ok ((_, rules', _), w') => sublist rules' [counting_rule true] /\ owns own rules' w'
  | Throw e => e <> undefined_behaviour
  end.
Proof.
  intros own w. apply (event_loop_references own 10 [counting_rule true] 0 w).
  - apply Forall_cons. split; [apply counting_rule_ok|apply Forall_nil; exact I].
  - intros h Hh. unfold own in *. destruct (decide (h = 0%nat)) as [->|]; [|lia].
    eexists. split; [reflexivity|]. apply Nat.le_refl.
Defined.

(** [Success] does not mean that a rule was triggered.  When [poll] fails for
    another reason than a signal, the exception is caught and dropped; and when the
    only answer is a hang-up on a descriptor whose rule is not interested at the
    moment, no branch applies.  In both cases the call returns [Success] and has
    changed nothing, so that a loop around it spins. *)
Theorem success_without_event `{Kernel K} {L} t (rules : list (Rule K L)) l (w : world K) r rs k :
  Forall (usable w) rules -> existsb (fun r => interest r l w) rules = true ->
  sys_poll (pollfd_of l w <$> rules) t (kernel w) = (r, rs, k) -> polled r = None ->
  Forall (fun p => revents p = 0 \/ events p = 0 /\ revents p = POLLHUP)
    (set_revents (pollfd_of l w <$> rules) rs) ->
  wait_next_event t rules l w = Ok ((Success, rules, l), set_kernel k w).
Proof.
  intros Hu Hint Hpoll Hr HF. unfold wait_next_event.
  rewrite (io_bind_eq _ _ _ _ _ (set_up_usable rules l w Hu)), Hint. cbn [negb].
  rewrite (io_bind_eq _ _ _ _ _ (syscall_eq _ _ _ _ Hpoll)), Hr.
  set (fds := set_revents _ rs) in *. set (w' := set_kernel k w).
  assert (Hlen : length fds = length rules) by (unfold fds; by rewrite length_set_revents, length_fmap).
  assert (Hd : forall rules' idx, (idx + length rules' = length fds)%nat ->
    dispatch fds idx rules' l w' = Ok ((rules', l), w')).
  { induction rules' as [|r' rules' IH]; intros idx Hi; [done|]. cbn [dispatch length] in *.
    destruct (lookup_lt_is_Some_2 fds idx) as [p Hp]; [lia|]. rewrite Hp.
    assert (poll_error p = false /\ defunct p = false /\ poll_ready p = false) as (-> & -> & ->).
    { unfold poll_error, defunct, poll_hup, poll_ready.
      by destruct (Forall_lookup_1 _ _ _ _ HF Hp) as [->|[-> ->]]. }
    rewrite (io_bind_eq (mret l) _ w' l w' eq_refl).
    by rewrite (io_bind_eq _ _ _ _ _ (IH (S idx) ltac:(lia))). }
  by rewrite (io_bind_eq _ _ _ _ _ (Hd rules 0%nat ltac:(lia))).
Qed.

Lemma success_without_event_witness :
  wait_next_event 10 [counting_rule true] 0 (still_world (mkRet (-1) 22) [])
    = Ok ((Success, [counting_rule true], 0), still_world (mkRet (-1) 22) []) /\
  wait_next_event 10 [counting_rule true; counting_rule false] 0 (still_world (mkRet 1 0) [0; POLLHUP])
    = Ok ((Success, [counting_rule true; counting_rule false], 0), still_world (mkRet 1 0) [0; POLLHUP]).
Proof.
  assert (Hu : forall a rs i, usable (still_world a rs) (counting_rule i)).
  { intros a rs i. eexists. split; [reflexivity|]. split; reflexivity. }
  split.
  - apply (success_without_event 10 [counting_rule true] 0 (still_world (mkRet (-1) 22) [])
             (mkRet (-1) 22) [] (mkStill (mkRet (-1) 22) [])); try reflexivity.
    + apply Forall_cons. split; [apply Hu|apply Forall_nil; exact I].
    + apply Forall_cons. split; [left; reflexivity|apply Forall_nil; exact I].
  - apply (success_without_event 10 [counting_rule true; counting_rule false] 0
             (still_world (mkRet 1 0) [0; POLLHUP])
             (mkRet 1 0) [0; POLLHUP] (mkStill (mkRet 1 0) [0; POLLHUP])); try reflexivity.
    + apply Forall_cons. split; [apply Hu|]. apply Forall_cons.
      split; [apply Hu|apply Forall_nil; exact I].
    + apply Forall_cons. split; [left; reflexivity|]. apply Forall_cons.
      split; [right; split; reflexivity|apply Forall_nil; exact I].
Defined.
