(* ===== verification/Socket.v ===== *)
(** Sockets and TUN/TAP devices: [libsponge/util/socket.hh], [socket.cc], [tun.hh] and
    [tun.cc].  The system calls are the class [NetKernel], over [Kernel]. *)
From S2P Require Import Prelude.
From S2P Require Buffer Address FileDescriptor.
Import Address(Address, addr_size, storage, of_sockaddr).
Import Buffer(BufferViewList, bvl_size, as_iovecs).
Import FileDescriptor.

(** [sys_getsockopt] also gives the value and its length, [sys_getsockname] and
    [sys_getpeername] the address and its length, [sys_socketpair] the two descriptors; [sys_recvfrom] gives the bytes it
    stored, and the sender's address and its length. *)
Class NetKernel (K : Type) `{Kernel K} := {
  sys_socket : Z -> Z -> K -> sysret * K;
  sys_socketpair : Z -> Z -> K -> sysret * (Z * Z) * K;
  sys_getsockopt : Z -> Z -> Z -> K -> sysret * (Z * Z) * K;
  sys_setsockopt : Z -> Z -> Z -> Z -> K -> sysret * K;
  sys_getsockname : Z -> K -> sysret * (bytes * Z) * K;
  sys_getpeername : Z -> K -> sysret * (bytes * Z) * K;
  sys_bind : Z -> bytes -> Z -> K -> sysret * K;
  sys_connect : Z -> bytes -> Z -> K -> sysret * K;
  sys_shutdown : Z -> Z -> K -> sysret * K;
  sys_recvfrom : Z -> Z -> Z -> K -> sysret * (bytes * (bytes * Z)) * K;
  sys_sendmsg : Z -> option (bytes * Z) -> list (bytes * Z) -> K -> sysret * K;
  sys_listen : Z -> Z -> K -> sysret * K;
  sys_accept : Z -> K -> sysret * K;
  sys_open : string -> Z -> K -> sysret * K;
  sys_tunsetiff : Z -> list Ascii.ascii -> Z -> K -> sysret * K
}.

Definition AF_UNIX : Z := 1.
Definition AF_INET : Z := 2.
Definition SOCK_STREAM : Z := 1.
Definition SOCK_DGRAM : Z := 2.
Definition SOL_SOCKET : Z := 1.
Definition SO_REUSEADDR : Z := 2.
Definition SO_TYPE : Z := 3.
Definition SO_DOMAIN : Z := 39.
Definition SHUT_RD : Z := 0.
Definition SHUT_WR : Z := 1.
Definition SHUT_RDWR : Z := 2.
Definition MSG_TRUNC : Z := 32.
Definition O_RDWR : Z := 2.
Definition IFF_TUN : Z := 1.
Definition IFF_TAP : Z := 2.
Definition IFF_NO_PI : Z := 4096.
Definition IFNAMSIZ : nat := 16.

Section Socket.
Context {K : Type} `{NetKernel K}.

(** A system call on the descriptor [h] whose result matters only if it fails. *)
Definition call_on (f : Z -> K -> sysret * K) (h : FileDescriptor) : IO K Z :=
  wr ← get h;
  r ← syscall (f (fd wr));
  lift (SystemCall r 0).

(** [Socket::Socket(domain, type)] *)
Definition Socket_new (domain type : Z) : IO K FileDescriptor :=
  r ← syscall (sys_socket domain type);
  n ← lift (SystemCall r 0);
  construct n.

(** One of the two checks of the constructor from a descriptor. *)
Definition verify (option expected : Z) (h : FileDescriptor) : IO K unit :=
  wr ← get h;
  '(r, (actual_value, len)) ← syscall (sys_getsockopt (fd wr) SOL_SOCKET option);
  _ ← lift (SystemCall r 0);
  if negb (len =? 4) || negb (actual_value =? expected) then throw runtime_error else mret tt.

(** [Socket::Socket(FileDescriptor &&, domain, type)] *)
Definition Socket_of (h : FileDescriptor) (domain type : Z) : IO K FileDescriptor :=
  _ ← verify SO_DOMAIN domain h;
  _ ← verify SO_TYPE type h;
  mret h.

(** [Socket::get_address] *)
Definition get_address (function : Z -> K -> sysret * (bytes * Z) * K) (h : FileDescriptor)
    : IO K Address :=
  wr ← get h;
  '(r, (address, size)) ← syscall (function (fd wr));
  _ ← lift (SystemCall r 0);
  lift (of_sockaddr address size).

Definition local_address (h : FileDescriptor) : IO K Address := get_address sys_getsockname h.
Definition peer_address (h : FileDescriptor) : IO K Address := get_address sys_getpeername h.

Definition bind (address : Address) (h : FileDescriptor) : IO K unit :=
  _ ← call_on (fun n => sys_bind n (storage address) (addr_size address)) h;
  mret tt.
Definition connect (address : Address) (h : FileDescriptor) : IO K unit :=
  _ ← call_on (fun n => sys_connect n (storage address) (addr_size address)) h;
  mret tt.

(** [Socket::shutdown] *)
Definition shutdown (how : Z) (h : FileDescriptor) : IO K unit :=
  _ ← call_on (fun n => sys_shutdown n how) h;
  if how =? SHUT_RD then modify h register_read else
  if how =? SHUT_WR then modify h register_write else
  if how =? SHUT_RDWR then
    _ ← modify h register_read; modify h register_write
  else throw runtime_error.

(** [Socket::setsockopt], for an [int] *)
Definition setsockopt (level option option_value : Z) (h : FileDescriptor) : IO K unit :=
  _ ← call_on (fun n => sys_setsockopt n level option option_value) h;
  mret tt.
Definition set_reuseaddr (h : FileDescriptor) : IO K unit := setsockopt SOL_SOCKET SO_REUSEADDR 1 h.

(** [struct received_datagram] *)
Record received_datagram := mkReceived { source_address : Address; payload : bytes }.

(** [UDPSocket::recv]: with [MSG_TRUNC], the call returns the length of the datagram
    even when it stored less. *)
Definition recv (mtu : Z) (h : FileDescriptor) : IO K received_datagram :=
  wr ← get h;
  '(r, (data, (address, fromlen))) ← syscall (sys_recvfrom (fd wr) mtu MSG_TRUNC);
  recv_len ← lift (SystemCall r 0);
  if mtu <? recv_len then throw runtime_error else
  _ ← modify h register_read;
  source ← lift (of_sockaddr address fromlen);
  if recv_len <? 0 then throw length_error else
  mret (mkReceived source (take (Z.to_nat recv_len) data)).

(** [sendmsg_helper] *)
Definition sendmsg_helper (destination : option (bytes * Z)) (payload : BufferViewList)
    (h : FileDescriptor) : IO K unit :=
  wr ← get h;
  r ← syscall (sys_sendmsg (fd wr) destination (as_iovecs payload));
  bytes_sent ← lift (SystemCall r 0);
  if negb (u64 bytes_sent =? bvl_size payload) then throw runtime_error else mret tt.

Definition sendto (destination : Address) (payload : BufferViewList) (h : FileDescriptor)
    : IO K unit :=
  _ ← sendmsg_helper (Some (storage destination, addr_size destination)) payload h;
  modify h register_write.
Definition send (payload : BufferViewList) (h : FileDescriptor) : IO K unit :=
  _ ← sendmsg_helper None payload h;
  modify h register_write.

(** The constructors of the subclasses. *)
Definition UDPSocket_new : IO K FileDescriptor := Socket_new AF_INET SOCK_DGRAM.
Definition UDPSocket_of (h : FileDescriptor) : IO K FileDescriptor := Socket_of h AF_INET SOCK_DGRAM.
Definition TCPSocket_new : IO K FileDescriptor := Socket_new AF_INET SOCK_STREAM.
Definition TCPSocket_of (h : FileDescriptor) : IO K FileDescriptor := Socket_of h AF_INET SOCK_STREAM.
Definition LocalStreamSocket_of (h : FileDescriptor) : IO K FileDescriptor :=
  Socket_of h AF_UNIX SOCK_STREAM.

Definition listen (backlog : Z) (h : FileDescriptor) : IO K unit :=
  _ ← call_on (fun n => sys_listen n backlog) h;
  mret tt.

(** [TCPSocket::accept] *)
Definition accept (h : FileDescriptor) : IO K FileDescriptor :=
  _ ← modify h register_read;
  n ← call_on sys_accept h;
  h' ← construct n;
  TCPSocket_of h'.

(** [strncpy] of at most [n] characters into a zeroed array, up to the first null. *)
Fixpoint strncpy (n : nat) (s : list Ascii.ascii) : list Ascii.ascii :=
  match n, s with
  | S n, c :: s => if Ascii.eqb c Ascii.zero then replicate (S n) Ascii.zero else c :: strncpy n s
  | n, _ => replicate n Ascii.zero
  end.

(** [TunTapFD::TunTapFD] *)
Definition TunTapFD (devname : list Ascii.ascii) (is_tun : bool) : IO K FileDescriptor :=
  r ← syscall (sys_open "/dev/net/tun" O_RDWR);
  n ← lift (SystemCall r 0);
  h ← construct n;
  let ifr_flags := Z.lor (if is_tun then IFF_TUN else IFF_TAP) IFF_NO_PI in
  let ifr_name := strncpy (IFNAMSIZ - 1) devname ++ [Ascii.zero] in
  _ ← call_on (fun n => sys_tunsetiff n ifr_name ifr_flags) h;
  mret h.

Definition TunFD (devname : list Ascii.ascii) : IO K FileDescriptor := TunTapFD devname true.
Definition TapFD (devname : list Ascii.ascii) : IO K FileDescriptor := TunTapFD devname false.

End Socket.

(** The documented effect of the calls, in terms of the datagrams that were
    [received] from and [sent] to each socket so far.  A datagram has at most
    65535 bytes. *)
Class NetLaws (K : Type) `{NetKernel K} `{!KernelLaws K} := {
  received : K -> Z -> list bytes;
  sent : K -> Z -> list (option (bytes * Z) * bytes);
  sys_recvfrom_law fd n k : 0 <= n ->
    let '(r, (data, _), k') := sys_recvfrom fd n MSG_TRUNC k in
    (forall x, taken k' x = taken k x /\ given k' x = given k x) /\
    (0 <= return_value r ->
       exists d, return_value r = size d /\ size d <= 65535 /\ data = take (Z.to_nat n) d /\
         received k' fd = received k fd ++ [d]) /\
    (return_value r < 0 -> return_value r = -1 /\ errno r <> 0);
  sys_sendmsg_law fd dest iov k :
    let '(r, k') := sys_sendmsg fd dest iov k in
    (forall x, taken k' x = taken k x /\ given k' x = given k x) /\
    (0 <= return_value r ->
       return_value r <= 65535 /\ return_value r <= size (concat (fst <$> iov)) /\
       sent k' fd = sent k fd ++ [(dest, take (Z.to_nat (return_value r)) (concat (fst <$> iov)))]) /\
    (return_value r < 0 -> return_value r = -1 /\ errno r <> 0);
  sys_shutdown_law fd how k :
    let '(r, k') := sys_shutdown fd how k in
    (forall x, taken k' x = taken k x /\ given k' x = given k x) /\
    (return_value r = 0 \/ return_value r = -1 /\ errno r <> 0)
}.

Section Datagrams.
Context {K : Type} `{NetLaws K}.
Implicit Types w : world K.

(** A datagram is received whole or not at all: when [recv] returns, its payload is
    the datagram that the kernel has taken off the socket, and one that does not fit
    into [mtu] bytes is reported by an exception. *)
Theorem recv_whole_datagram mtu h w s :
  heap w !! h = Some s -> 0 <= mtu ->
  outcome (recv mtu h) w
    (fun d w' => received (kernel w') (fd (wrapper s))
                 = received (kernel w) (fd (wrapper s)) ++ [payload d] /\ size (payload d) <= mtu /\
       (forall n, transferred n [] [] w w') /\
       heap w' = <[h := mkShared (register_read (wrapper s)) (use_count s)]> (heap w))
    io_error.
Proof.
  intros Hs Hm. unfold recv. apply outcome_bind. eapply get_outcome; [done|].
  apply outcome_bind. unfold outcome at 1, syscall.
  pose proof (sys_recvfrom_law (fd (wrapper s)) mtu (kernel w) Hm) as Law.
  destruct (sys_recvfrom _ _ _ _) as [[r [data [a n]]] k'] eqn:Er. destruct Law as (Lx & Lok & Lbad).
  apply outcome_bind. unfold outcome at 1, lift.
  destruct (Z_lt_le_dec (return_value r) 0) as [Hneg|Hpos].
  { destruct (Lbad Hneg) as [E1 E2]. rewrite SystemCall_fails by done. right. by eexists. }
  destruct (Lok Hpos) as (d & L1 & L2 & L3 & L4).
  rewrite SystemCall_succeeds by lia. cbn [mbind result_bind].
  destruct (Z.ltb_spec mtu (return_value r)) as [|Hle]; [by left|].
  apply outcome_bind. apply modify_outcome with (s := s); [exact Hs|]. apply outcome_bind.
  unfold outcome at 1, of_sockaddr, lift. destruct (_ <? n); [by left|]. cbn [mbind result_bind].
  destruct (Z.ltb_spec (return_value r) 0); [lia|]. unfold outcome. cbn.
  assert (Hd : take (Z.to_nat (return_value r)) data = d).
  { subst data. rewrite take_take. apply take_ge. unfold size in *. lia. }
  rewrite Hd. split; [done|]. split; [lia|]. split; [|done].
  intros m. apply transferred_refl; intros x; apply Lx.
Qed.

(** A datagram is sent whole: when [sendto] or [send] returns, the kernel has
    accepted the whole payload as one datagram for the given destination. *)
Lemma sendmsg_whole dest b h w s :
  heap w !! h = Some s -> size (concat b) < M64 ->
  outcome (sendmsg_helper dest b h) w
    (fun _ w' => heap w' = heap w /\ (forall n, transferred n [] [] w w') /\
       sent (kernel w') (fd (wrapper s)) = sent (kernel w) (fd (wrapper s)) ++ [(dest, concat b)])
    io_error.
Proof.
  intros Hs Hb. unfold sendmsg_helper. apply outcome_bind. eapply get_outcome; [done|].
  apply outcome_bind. unfold outcome at 1, syscall.
  pose proof (sys_sendmsg_law (fd (wrapper s)) dest (as_iovecs b) (kernel w)) as Law.
  destruct (sys_sendmsg _ _ _ _) as [r k'] eqn:Er. destruct Law as (Lx & Lok & Lbad).
  rewrite as_iovecs_bytes in Lok. apply outcome_bind. unfold outcome at 1, lift.
  destruct (Z_lt_le_dec (return_value r) 0) as [Hneg|Hpos].
  { destruct (Lbad Hneg) as [E1 E2]. rewrite SystemCall_fails by done. right. by eexists. }
  destruct (Lok Hpos) as (L1 & L2 & L3). rewrite SystemCall_succeeds by lia.
  cbn [mbind result_bind]. rewrite u64_id, bvl_size_concat by lia.
  destruct (Z.eqb_spec (return_value r) (size (concat b))) as [E|]; [|by left].
  unfold outcome. cbn. split; [done|].
  split; [intros m; apply transferred_refl; intros x; apply Lx|].
  rewrite L3, take_ge; [done|]. unfold size in *. lia.
Qed.

Theorem sendto_whole_datagram a b h w s :
  heap w !! h = Some s -> size (concat b) < M64 ->
  outcome (sendto a b h) w
    (fun _ w' => sent (kernel w') (fd (wrapper s))
       = sent (kernel w) (fd (wrapper s)) ++ [(Some (storage a, addr_size a), concat b)] /\
       (forall n, transferred n [] [] w w') /\
       heap w' = <[h := mkShared (register_write (wrapper s)) (use_count s)]> (heap w))
    io_error.
Proof.
  intros Hs Hb. apply outcome_bind.
  eapply outcome_mono; [by apply sendmsg_whole| |done]. intros _ w' (Hh & Ht & Hg).
  apply modify_outcome with (s := s); [by rewrite Hh|]. split; [exact Hg|].
  split; [exact Ht|]. cbn. by rewrite Hh.
Qed.

(** [shutdown] transfers nothing. *)
Lemma shutdown_wr_outcome h w s :
  heap w !! h = Some s ->
  outcome (shutdown SHUT_WR h) w
    (fun _ w' => (forall n, transferred n [] [] w w') /\
       heap w' = <[h := mkShared (register_write (wrapper s)) (use_count s)]> (heap w))
    is_unix_error.
Proof.
  intros Hs. unfold shutdown, call_on. apply outcome_bind, outcome_bind.
  eapply get_outcome; [done|]. apply outcome_bind. unfold outcome at 1, syscall.
  pose proof (sys_shutdown_law (fd (wrapper s)) SHUT_WR (kernel w)) as Law.
  destruct (sys_shutdown _ _ _) as [r k'] eqn:Er. destruct Law as [Lx Lr].
  unfold outcome at 1, lift. destruct Lr as [L0|[L1 L2]].
  2: { rewrite SystemCall_fails by done. by eexists. }
  rewrite SystemCall_succeeds by lia. cbn -[SHUT_WR].
  apply modify_outcome with (s := s); [exact Hs|]. split; [|done].
  intros n. apply transferred_refl; intros x; apply Lx.
Qed.

End Datagrams.

(** A socket layer for the kernel of [FileDescriptor.toy_kernel]: [shutdown] works,
    and there are no datagrams. *)
#[export] Instance toy_net : NetKernel toy := {|
  sys_socket _ _ k := (mkRet 7 0, k);
  sys_socketpair _ _ k := (mkRet 0 0, (10, 11), k);
  sys_getsockopt _ _ _ k := (mkRet 0 0, (1, 4), k);
  sys_setsockopt _ _ _ _ k := (mkRet 0 0, k);
  sys_getsockname _ k := (mkRet 0 0, ([], 0), k);
  sys_getpeername _ k := (mkRet 0 0, ([], 0), k);
  sys_bind _ _ _ k := (mkRet 0 0, k);
  sys_connect _ _ _ k := (mkRet 0 0, k);
  sys_shutdown _ _ k := (mkRet 0 0, k);
  sys_recvfrom _ _ _ k := (mkRet (-1) 38, ([], ([], 0)), k);
  sys_sendmsg _ _ _ k := (mkRet (-1) 38, k);
  sys_listen _ _ k := (mkRet 0 0, k);
  sys_accept _ k := (mkRet 8 0, k);
  sys_open _ _ k := (mkRet 9 0, k);
  sys_tunsetiff _ _ _ k := (mkRet 0 0, k)
|}.

#[export] Instance toy_net_laws : NetLaws toy.
Proof.
  refine {| received _ _ := []; sent _ _ := [] |}; cbn.
  - intros fd n k _. split; [done|]. split; [lia|done].
  - intros fd dest iov k. split; [done|]. split; [lia|done].
  - intros fd how k. split; [done|by left].
Defined.

(** ** A kernel with datagrams *)

(** The other calls send no datagrams, and [sendmsg] none from other sockets. *)
Class SentLaws (K : Type) `{NetLaws K} : Prop := {
  recvfrom_quiet fd n k x : sent (sys_recvfrom fd n MSG_TRUNC k).2 x = sent k x;
  getsockname_quiet fd k x : sent (sys_getsockname fd k).2 x = sent k x;
  sendmsg_quiet fd dest iov k x : x <> fd -> sent (sys_sendmsg fd dest iov k).2 x = sent k x;
  read_quiet fd n k x : sent (sys_read fd n k).2 x = sent k x;
  writev_quiet fd iov k x : sent (sys_writev fd iov k).2 x = sent k x;
  poll_quiet fds t k x : sent (sys_poll fds t k).2 x = sent k x;
  close_quiet fd k x : sent (sys_close fd k).2 x = sent k x
}.

Section Silent.
Context {K : Type} `{SL : SentLaws K}.
Implicit Types w : world K.

(** [m] sends nothing. *)
Definition silent {A} (m : IO K A) : Prop := forall w a w',
  m w = Ok (a, w') -> forall x, sent (kernel w') x = sent (kernel w) x.

Lemma silent_bind {A B} (m : IO K A) (f : A -> IO K B) :
  silent m -> (forall a, silent (f a)) -> silent (m ≫= f).
Proof.
  intros Hm Hf w b w' E x. apply io_bind_Ok in E as (a & w1 & E1 & E2).
  by rewrite (Hf a _ _ _ E2), (Hm _ _ _ E1).
Qed.

Lemma silent_ret {A} (a : A) : silent (mret a).
Proof. intros w b w' E x. by injection E as _ <-. Qed.
Lemma silent_throw {A} e : silent (throw e : IO K A).
Proof. by intros w b w' E. Qed.
Lemma silent_lift {A} (r : result A) : silent (lift r).
Proof. intros w b w' E x. unfold lift in E. destruct r; [|done]. by injection E as _ <-. Qed.
Lemma silent_get h : silent (get h).
Proof. intros w b w' E x. unfold get in E. destruct (heap w !! h); [|done]. by injection E as _ <-. Qed.
Lemma silent_modify h f : silent (modify h f).
Proof. intros w b w' E x. unfold modify in E. destruct (heap w !! h); [|done]. by injection E as _ <-. Qed.
Lemma silent_syscall {A} (f : K -> A * K) :
  (forall k x, sent (f k).2 x = sent k x) -> silent (syscall f).
Proof.
  intros Hf w b w' E x. unfold syscall in E. specialize (Hf (kernel w) x).
  destruct (f (kernel w)) as [a k]. by injection E as _ <-.
Qed.

(** Goes through the statements of a program. *)
Ltac silent_steps :=
  repeat match goal with
  | |- silent (_ ≫= _) => apply silent_bind
  | |- forall _, _ => intros ?
  | |- silent (let '(_, _) := ?p in _) => destruct p
  | |- silent (if ?b then _ else _) => destruct b
  | |- silent (mret _) => apply silent_ret
  | |- silent (throw _) => apply silent_throw
  | |- silent (lift _) => apply silent_lift
  | |- silent (get _) => apply silent_get
  | |- silent (modify _ _) => apply silent_modify
  | |- silent (syscall _) => apply silent_syscall
  end.

Lemma recv_silent mtu h : silent (recv mtu h).
Proof using SL. unfold recv. silent_steps. apply recvfrom_quiet. Qed.

Lemma local_address_silent h : silent (local_address h).
Proof using SL. unfold local_address, get_address. silent_steps. apply getsockname_quiet. Qed.

Lemma read_silent limit h : silent (read limit h).
Proof using SL. unfold read. silent_steps. apply read_quiet. Qed.

Lemma write_silent b all h : silent (write b all h).
Proof using SL.
  unfold write. generalize (S (Z.to_nat (bvl_size b))), 0. intros fuel. revert b.
  induction fuel as [|fuel IH]; intros b total; cbn [write_loop]; [apply silent_throw|].
  silent_steps; [|apply IH]. unfold write_once. silent_steps. apply writev_quiet.
Qed.

(** [sendto] concerns one descriptor. *)
Lemma sendto_quiet a b h w s w1 u :
  heap w !! h = Some s -> sendto a b h w = Ok (u, w1) ->
  forall x, x <> fd (wrapper s) -> sent (kernel w1) x = sent (kernel w) x.
Proof using SL.
  intros Hs E x Hx. unfold sendto, sendmsg_helper in E.
  apply io_bind_Ok in E as (u1 & w2 & E & Em). apply io_bind_Ok in E as (wr & w3 & Eg & E).
  unfold get in Eg. rewrite Hs in Eg. injection Eg as <- <-.
  apply io_bind_Ok in E as (r & w4 & Es & E). unfold syscall in Es.
  pose proof (sendmsg_quiet (fd (wrapper s)) (Some (storage a, addr_size a))
    (as_iovecs b) (kernel w) x) as Hq. specialize (Hq Hx).
  destruct (sys_sendmsg _ _ _ _) as [res k]. injection Es as -> <-. cbn in Hq. rewrite <- Hq.
  apply io_bind_Ok in E as (len & w5 & El & E). unfold lift in El.
  destruct (SystemCall r 0); [|done]. injection El as -> <-. destruct (negb _); [done|].
  injection E as _ <-. unfold modify in Em. destruct (heap _ !! h); [|done]. by injection Em as _ <-.
Qed.

End Silent.

(** The datagrams that wait at each descriptor, with their senders, and what was read,
    written, received and sent. *)
Record mail := mkMail {
  waiting : Z -> list (bytes * (bytes * Z));
  mail_taken : Z -> bytes;
  mail_given : Z -> bytes;
  mail_received : Z -> list bytes;
  mail_sent : Z -> list (option (bytes * Z) * bytes)
}.

(** [f], changed by [g] at the descriptor [n]. *)
Definition change {A} (n : Z) (g : A -> A) (f : Z -> A) (x : Z) : A := if x =? n then g (f x) else f x.

Lemma change_eq {A} n (g : A -> A) f : change n g f n = g (f n).
Proof. unfold change. by rewrite Z.eqb_refl. Qed.
Lemma change_ne {A} n (g : A -> A) f x : x <> n -> change n g f x = f x.
Proof. unfold change. intros Hx. apply Z.eqb_neq in Hx. by rewrite Hx. Qed.

(** A read takes a datagram, as much of it as fits; a descriptor is ready to be read when
    a datagram waits, and always ready to be written. *)
Definition mail_ready (k : mail) (p : pollfd) : Z :=
  if Z.land (events p) 1 =? 0 then events p
  else match waiting k (poll_fd p) with [] => 0 | _ => 1 end.

#[export] Instance mail_kernel : Kernel mail := {|
  sys_read fd n k :=
    match waiting k fd with
    | (d, _) :: _ =>
        let d := take (Z.to_nat n) d in
        (mkRet (size d) 0, d,
         mkMail (change fd tail (waiting k)) (change fd (fun b => b ++ d) (mail_taken k))
           (mail_given k) (mail_received k) (mail_sent k))
    | [] => (mkRet (-1) 11, [], k)
    end;
  sys_writev fd iov k :=
    let d := concat (fst <$> iov) in
    let d := take (Z.to_nat (Z.min (size d) MAX_RW_COUNT)) d in
    (mkRet (size d) 0,
     mkMail (waiting k) (mail_taken k) (change fd (fun b => b ++ d) (mail_given k))
       (mail_received k) (mail_sent k));
  sys_close _ k := (mkRet 0 0, k);
  sys_getfl _ k := (mkRet 0 0, k);
  sys_setfl _ _ k := (mkRet 0 0, k);
  sys_poll fds _ k :=
    let rs := mail_ready k <$> fds in
    (mkRet (size (List.filter (fun r => negb (r =? 0)) rs)) 0, rs, k)
|}.

(** The part of a buffer that was transferred is as long as was reported. *)
Lemma take_cut (l : bytes) n : take (Z.to_nat (size (take n l))) l = take n l.
Proof.
  unfold size. rewrite Nat2Z.id, length_take. destruct (Nat.le_gt_cases (length l) n).
  - rewrite !take_ge by lia. done.
  - f_equal. lia.
Qed.

#[export] Instance mail_laws : KernelLaws mail.
Proof.
  refine {| taken := mail_taken; given := mail_given |}; try done.
  - intros fd n k Hn. cbn. destruct (waiting k fd) as [|[d a] rest]; cbn.
    { split; [done|]. split; [done|]. split; [lia|done]. }
    split; [done|]. split; [intros x Hx; by apply change_ne|]. split; [|size_lia].
    intros _. split; [done|]. rewrite change_eq. split; [|done]. unfold size. rewrite length_take. lia.
  - intros fd iov k. cbn. set (l := concat _). split; [done|].
    split; [intros x Hx; by apply change_ne|]. split; [|size_lia]. intros _.
    rewrite change_eq, take_cut. unfold size, MAX_RW_COUNT. rewrite length_take.
    split; [lia|]. split; [lia|done].
Defined.

#[export] Instance mail_net : NetKernel mail := {|
  sys_socket _ _ k := (mkRet 7 0, k);
  sys_socketpair _ _ k := (mkRet 0 0, (10, 11), k);
  sys_getsockopt _ _ _ k := (mkRet 0 0, (1, 4), k);
  sys_setsockopt _ _ _ _ k := (mkRet 0 0, k);
  sys_getsockname _ k := (mkRet 0 0, ([], 0), k);
  sys_getpeername _ k := (mkRet 0 0, ([], 0), k);
  sys_bind _ _ _ k := (mkRet 0 0, k);
  sys_connect _ _ _ k := (mkRet 0 0, k);
  sys_shutdown _ _ k := (mkRet 0 0, k);
  sys_recvfrom fd n _ k :=
    match waiting k fd with
    | (d, a) :: _ =>
        let d := take (Z.to_nat 65535) d in
        (mkRet (size d) 0, (take (Z.to_nat n) d, a),
         mkMail (change fd tail (waiting k)) (mail_taken k) (mail_given k)
           (change fd (fun l => l ++ [d]) (mail_received k)) (mail_sent k))
    | [] => (mkRet (-1) 11, ([], ([], 0)), k)
    end;
  sys_sendmsg fd dest iov k :=
    let d := take (Z.to_nat 65535) (concat (fst <$> iov)) in
    (mkRet (size d) 0,
     mkMail (waiting k) (mail_taken k) (mail_given k) (mail_received k)
       (change fd (fun l => l ++ [(dest, d)]) (mail_sent k)));
  sys_listen _ _ k := (mkRet 0 0, k);
  sys_accept _ k := (mkRet 8 0, k);
  sys_open _ _ k := (mkRet 9 0, k);
  sys_tunsetiff _ _ _ k := (mkRet 0 0, k)
|}.

#[export] Instance mail_net_laws : NetLaws mail.
Proof.
  refine {| received := mail_received; sent := mail_sent |}; cbn.
  - intros fd n k _. destruct (waiting k fd) as [|[d [a z]] rest]; cbn.
    { split; [done|]. split; [lia|done]. }
    split; [done|]. split; [|size_lia]. intros _. exists (take (Z.to_nat 65535) d).
    split; [done|]. rewrite change_eq. split; [unfold size; rewrite length_take; lia|done].
  - intros fd dest iov k. split; [done|]. split; [|size_lia]. intros _.
    rewrite change_eq, take_cut. unfold size. rewrite length_take. split; [lia|]. split; [lia|done].
  - intros fd how k. split; [done|by left].
Defined.

#[export] Instance mail_sent_laws : SentLaws mail.
Proof.
  constructor; try done.
  - intros fd n k x. cbn. by destruct (waiting k fd) as [|[d [a z]] rest].
  - intros fd dest iov k x Hx. by apply change_ne.
  - intros fd n k x. cbn. by destruct (waiting k fd) as [|[d a] rest].
Qed.
