(* ===== verification/BidirectionalCopy.v ===== *)
(** Copying between a socket and the standard streams:
    [apps/bidirectional_stream_copy.cc].  Four rules of an event loop move bytes from
    standard input through a byte stream to the socket, and from the socket through
    another one to standard output. *)
From S2P Require Import Prelude.
From S2P Require Buffer ByteStream FileDescriptor Socket EventLoop.
Import ByteStream(ByteStream, content).
Import FileDescriptor EventLoop.
Import Socket(NetKernel, NetLaws).

(** The local variables that the callbacks capture. *)
Record Locals := mkLocals {
  outbound : ByteStream;
  inbound : ByteStream;
  outbound_shutdown : bool;
  inbound_shutdown : bool
}.

Definition set_outbound (b : ByteStream) (l : Locals) : Locals :=
  mkLocals b (inbound l) (outbound_shutdown l) (inbound_shutdown l).
Definition set_inbound (b : ByteStream) (l : Locals) : Locals :=
  mkLocals (outbound l) b (outbound_shutdown l) (inbound_shutdown l).

Definition max_copy_length : Z := 65536.
Definition stream_capacity : Z := 1048576.   (* [buffer_size] *)
Definition STDIN_FILENO : Z := 0.
Definition STDOUT_FILENO : Z := 1.

Section Copy.
Context {K : Type} `{NetKernel K}.

(** The common part of rules 1 and 3: read what fits into the stream. *)
Definition read_into (h : FileDescriptor) (b : ByteStream) : IO K ByteStream :=
  data ← read (ByteStream.remaining_capacity b) h;
  let b := snd (ByteStream.write data b) in
  wr ← get h;
  mret (if eof wr then ByteStream.end_input b else b).

(** The common part of rules 2 and 4: write what the descriptor takes. *)
Definition write_from (h : FileDescriptor) (b : ByteStream) : IO K ByteStream :=
  let bytes_to_write := Z.min max_copy_length (ByteStream.buffer_size b) in
  bytes_written ← write (Buffer.bvl_of_view (ByteStream.peek_output bytes_to_write b)) false h;
  mret (ByteStream.pop_output bytes_written b).

(** The callbacks of the four rules. *)
Definition callback1 (input : FileDescriptor) (l : Locals) : IO K Locals :=
  b ← read_into input (outbound l);
  mret (set_outbound b l).

Definition callback2 (socket : FileDescriptor) (l : Locals) : IO K Locals :=
  b ← write_from socket (outbound l);
  if ByteStream.eof b then
    _ ← Socket.shutdown Socket.SHUT_WR socket;
    mret (mkLocals b (inbound l) true (inbound_shutdown l))
  else mret (set_outbound b l).

Definition callback3 (socket : FileDescriptor) (l : Locals) : IO K Locals :=
  b ← read_into socket (inbound l);
  mret (set_inbound b l).

Definition callback4 (output : FileDescriptor) (l : Locals) : IO K Locals :=
  b ← write_from output (inbound l);
  if ByteStream.eof b then
    _ ← close output;
    mret (mkLocals (outbound l) b (outbound_shutdown l) true)
  else mret (set_inbound b l).

(** Their conditions. *)
Definition interest1 (l : Locals) (_ : world K) : bool :=
  negb (ByteStream.error (outbound l)) && (0 <? ByteStream.remaining_capacity (outbound l))
  && negb (ByteStream.error (inbound l)).
Definition interest2 (l : Locals) (_ : world K) : bool :=
  negb (ByteStream.buffer_empty (outbound l))
  || (ByteStream.eof (outbound l) && negb (outbound_shutdown l)).
Definition interest3 (l : Locals) (_ : world K) : bool :=
  negb (ByteStream.error (inbound l)) && (0 <? ByteStream.remaining_capacity (inbound l))
  && negb (ByteStream.error (outbound l)).
Definition interest4 (l : Locals) (_ : world K) : bool :=
  negb (ByteStream.buffer_empty (inbound l))
  || (ByteStream.eof (inbound l) && negb (inbound_shutdown l)).

Definition end_outbound (l : Locals) : IO K Locals :=
  mret (set_outbound (ByteStream.end_input (outbound l)) l).
Definition end_inbound (l : Locals) : IO K Locals :=
  mret (set_inbound (ByteStream.end_input (inbound l)) l).

(** The four calls of [add_rule]. *)
Definition add_rules (input output socket : FileDescriptor) : IO K (list (Rule K Locals)) :=
  rules ← add_rule input In (callback1 input) interest1 end_outbound [];
  rules ← add_rule socket Out (callback2 socket) interest2 end_outbound rules;
  rules ← add_rule socket In (callback3 socket) interest3 end_inbound rules;
  add_rule output Out (callback4 output) interest4 end_inbound rules.

(** At most [fuel] rounds of the loop; the flag says whether it has ended. *)
Fixpoint copy_loop (fuel : nat) (rules : list (Rule K Locals)) (l : Locals)
    : IO K (bool * list (Rule K Locals) * Locals) :=
  match fuel with
  | O => mret (false, rules, l)
  | S fuel =>
      '(r, rules, l) ← wait_next_event (-1) rules l;
      match r with
      | Exit => mret (true, rules, l)
      | _ => copy_loop fuel rules l
      end
  end.

(** The destructors of the rules. *)
Fixpoint release_all (rules : list (Rule K Locals)) : IO K unit :=
  match rules with
  | [] => mret tt
  | r :: rules => _ ← release (rule_fd r); release_all rules
  end.

(** [bidirectional_stream_copy], for [fuel] rounds; when the loop has ended, the
    local variables are destroyed in reverse order. *)
Definition bidirectional_stream_copy (fuel : nat) (socket : FileDescriptor) : IO K (bool * Locals) :=
  input ← construct STDIN_FILENO;
  output ← construct STDOUT_FILENO;
  let l := mkLocals (ByteStream.construct stream_capacity) (ByteStream.construct stream_capacity)
             false false in
  _ ← set_blocking false socket;
  _ ← set_blocking false input;
  _ ← set_blocking false output;
  rules ← add_rules input output socket;
  '(ended, rules, l) ← copy_loop fuel rules l;
  if ended : bool then
    _ ← release output;
    _ ← release input;
    _ ← release_all rules;
    mret (true, l)
  else mret (false, l).

End Copy.

(** ** The streams are copied faithfully *)
Section Relay.
Context {K : Type} `{NetLaws K}.
Implicit Types (w : world K) (b : ByteStream).

(** Since [w0], everything taken from [src] has been given to [dst], except for what
    is still in [b]. *)
Definition relay b (src dst : Z) (w0 w : world K) : Prop :=
  exists o, given (kernel w) dst = given (kernel w0) dst ++ o /\
    taken (kernel w) src = taken (kernel w0) src ++ o ++ content b.

Lemma relay_read b b' src dst w0 w w' data :
  relay b src dst w0 w -> transferred src data [] w w' -> content b' = content b ++ data ->
  relay b' src dst w0 w'.
Proof.
  intros (o & Ho & Hi) [Ht Hg] Hb. exists o. rewrite Hg, Ht, Hb, Ho, Hi.
  rewrite (decide_True (P := src = src)) by done. split; [case_decide; by rewrite app_nil_r|].
  by rewrite <- !app_assoc.
Qed.

Lemma relay_write b b' src dst w0 w w' data :
  relay b src dst w0 w -> transferred dst [] data w w' -> content b = data ++ content b' ->
  relay b' src dst w0 w'.
Proof.
  intros (o & Ho & Hi) [Ht Hg] Hb. exists (o ++ data). rewrite Hg, Ht, Ho, Hi, Hb.
  rewrite (decide_True (P := dst = dst)) by done.
  split; [by rewrite app_assoc|]. case_decide; rewrite app_nil_r; by rewrite <- !app_assoc.
Qed.

Lemma relay_other b b' src dst w0 w w' n i o :
  relay b src dst w0 w -> transferred n i o w w' -> content b' = content b ->
  (n = src -> i = []) -> (n = dst -> o = []) -> relay b' src dst w0 w'.
Proof.
  intros (o' & Ho & Hi) [Ht Hg] Hb Hsrc Hdst. exists o'. rewrite Hg, Ht, Ho, Hi, Hb.
  split; (case_decide; [rewrite ?Hdst, ?Hsrc by done|]; by rewrite app_nil_r).
Qed.

Lemma read_into_outcome h b w s :
  heap w !! h = Some s -> ByteStream.wf b ->
  outcome (read_into h b) w
    (fun b' w' => ByteStream.wf b' /\ ByteStream.bs_max b' = ByteStream.bs_max b /\
       touched h s w w' /\
       exists data, transferred (fd (wrapper s)) data [] w w' /\ content b' = content b ++ data)
    io_error.
Proof.
  intros Hs Hwf. unfold read_into. apply outcome_bind.
  eapply outcome_mono; [apply read_outcome; [done|apply u64_range]| |by right].
  intros data w' (Hd & Ht & Hh). apply outcome_bind.
  apply get_outcome with (s := mkShared (after_read (ByteStream.remaining_capacity b) data
    (wrapper s)) (use_count s)); [by rewrite Hh, lookup_insert_eq|].
  assert (Hall : content (snd (ByteStream.write data b)) = content b ++ data).
  { rewrite ByteStream.write_content by done. f_equal.
    apply substr0_all. rewrite ByteStream.write_accepts by done.
    rewrite ByteStream.remaining_capacity_eq in Hd by done. lia. }
  pose proof (ByteStream.write_wf data b Hwf) as Hwf'.
  unfold outcome. cbn -[ByteStream.write]. split; [|split; [|split]].
  - destruct (eof _ || _); [destruct Hwf'; by constructor|done].
  - by destruct (eof _ || _).
  - eexists. by split; [|exact Hh].
  - exists data. split; [done|]. by destruct (eof _ || _).
Qed.

Lemma write_from_outcome h b w s :
  heap w !! h = Some s -> ByteStream.wf b -> ByteStream.bs_max b < 2 ^ 63 ->
  outcome (write_from h b) w
    (fun b' w' => ByteStream.wf b' /\ ByteStream.bs_max b' = ByteStream.bs_max b /\
       touched h s w w' /\
       exists data, transferred (fd (wrapper s)) [] data w w' /\ content b = data ++ content b')
    io_error.
Proof.
  intros Hs Hwf Hmax. unfold write_from. apply outcome_bind.
  set (m := Z.min max_copy_length (ByteStream.buffer_size b)).
  assert (Hm : 0 <= m <= size (content b)).
  { unfold m, max_copy_length, ByteStream.buffer_size. size_lia. }
  assert (Hp : ByteStream.peek_output m b = take (Z.to_nat m) (content b)).
  { unfold ByteStream.peek_output, ByteStream.buffer_size, substr0.
    destruct (Z.leb_spec m (size (content b))); [|lia]. by rewrite Z.min_l by lia. }
  rewrite Hp. unfold Buffer.bvl_of_view.
  assert (Hsz : size (take (Z.to_nat m) (content b)) = m) by by apply size_take.
  pose proof (ByteStream.wf_capacity _ Hwf) as Hcap.
  eapply outcome_mono; [apply (write_outcome _ _ _ _ _ Hs); cbn; rewrite app_nil_r, Hsz; lia| |done].
  intros n w' (Hn & _ & _ & Ht & k & _ & _ & Hh). cbn in Hn, Ht. rewrite app_nil_r in Hn, Ht.
  rewrite Hsz in Hn. rewrite take_take, Nat.min_l in Ht by lia.
  unfold outcome. cbn [mret io_ret]. split; [by apply ByteStream.pop_wf; [lia|]|]. split; [done|].
  split; [eexists; by split; [|exact Hh]|]. exists (take (Z.to_nat n) (content b)).
  split; [done|]. unfold ByteStream.pop_output, ByteStream.buffer_size, substr0_rest. cbn.
  destruct (Z.leb_spec n (size (content b))); [|lia]. rewrite Z.min_l by lia.
  by rewrite take_drop.
Qed.

Lemma SystemCall_cases r : exists v, SystemCall r 0 = Ok v \/ SystemCall r 0 = Throw (unix_error v).
Proof. unfold SystemCall. destruct (_ || _); eexists; [by left|by right]. Qed.

Lemma close_outcome h w s :
  heap w !! h = Some s ->
  outcome (close h) w (fun _ w' => (forall n, transferred n [] [] w w') /\ touched h s w w') io_error.
Proof.
  intros Hs. unfold close, close_wrapper. apply outcome_bind. eapply get_outcome; [done|].
  apply outcome_bind, outcome_bind. unfold outcome at 1, syscall.
  pose proof (sys_close_law (fd (wrapper s)) (kernel w)) as Law.
  destruct (sys_close _ _) as [r k'] eqn:Er. cbn in Law.
  apply outcome_bind. unfold outcome at 1, lift.
  destruct (SystemCall_cases r) as [v [-> | ->]]; cbn; [|right; by eexists].
  apply modify_outcome with (s := s); [exact Hs|]. split; [|by exists (set_closed (wrapper s))].
  intros n. apply transferred_refl; intros x; apply Law.
Qed.

Lemma set_blocking_outcome i h w s :
  heap w !! h = Some s ->
  outcome (set_blocking i h) w
    (fun _ w' => (forall n, transferred n [] [] w w') /\ heap w' = heap w) io_error.
Proof.
  intros Hs. unfold set_blocking. apply outcome_bind. eapply get_outcome; [done|].
  apply outcome_bind. unfold outcome at 1, syscall.
  pose proof (sys_getfl_law (fd (wrapper s)) (kernel w)) as Law.
  destruct (sys_getfl _ _) as [r k'] eqn:Er. cbn in Law.
  apply outcome_bind. unfold outcome at 1, lift.
  destruct (SystemCall_cases r) as [v [-> | ->]]; cbn [mbind result_bind]; [|right; by eexists].
  apply outcome_bind. unfold outcome at 1, syscall. set (flags := if i then _ else _).
  pose proof (sys_setfl_law (fd (wrapper s)) flags k') as Law'. cbn [set_kernel kernel].
  destruct (sys_setfl _ _ _) as [r' k2] eqn:Er'. cbn in Law'.
  apply outcome_bind. unfold outcome at 1, lift.
  destruct (SystemCall_cases r') as [v' [-> | ->]]; cbn; [|right; by eexists].
  split; [|done]. intros n. apply transferred_refl; intros x; cbn.
  - destruct (Law x), (Law' x). congruence.
  - destruct (Law x), (Law' x). congruence.
Qed.

End Relay.

(** ** The invariant of the program *)
Section Program.
Context {K : Type} `{Laws : NetLaws K}.
Variables (input output socket : FileDescriptor) (number : Z) (w0 : world K).
Hypothesis Hnumber : number <> STDIN_FILENO /\ number <> STDOUT_FILENO.
Implicit Types (w : world K) (b : ByteStream) (l : Locals).

Definition good b : Prop := ByteStream.wf b /\ ByteStream.bs_max b = stream_capacity.

Record copied l w : Prop := {
  copied_good_out : good (outbound l);
  copied_good_in : good (inbound l);
  copied_out : relay (outbound l) STDIN_FILENO number w0 w;
  copied_in : relay (inbound l) number STDOUT_FILENO w0 w;
  copied_input : numbered w input STDIN_FILENO;
  copied_output : numbered w output STDOUT_FILENO;
  copied_socket : numbered w socket number
}.

(** The program has one reference to each of the three descriptors. *)
Definition own (h : FileDescriptor) : nat :=
  if bool_decide (h ∈ [input; output; socket]) then 1 else 0.

Lemma own_all : (0 < own input /\ 0 < own output /\ 0 < own socket)%nat.
Proof using Type.
  unfold own. rewrite !bool_decide_true by (rewrite !elem_of_cons; auto). lia.
Qed.

(** Steps that move no bytes. *)
Lemma copied_still l l' w w' n :
  copied l w -> transferred n [] [] w w' -> same_fds w w' ->
  content (outbound l') = content (outbound l) -> content (inbound l') = content (inbound l) ->
  good (outbound l') -> good (inbound l') -> copied l' w'.
Proof using Type.
  intros [G1 G2 R1 R2 N1 N2 N3] Ht Hf E1 E2 G1' G2'. constructor; try done.
  - by eapply relay_other.
  - by eapply relay_other.
  - by eapply numbered_same.
  - by eapply numbered_same.
  - by eapply numbered_same.
Qed.

Lemma copied_same l w w' : copied l w -> same_wrappers w w' -> copied l w'.
Proof using Type.
  intros Hc Hs. apply (copied_still l l w w' 0); try done; [|by apply same_fds_wrappers|apply Hc..].
  destruct Hs as [E _]. apply transferred_refl; intros x; by rewrite E.
Qed.

Lemma copied_poll l w fds t : copied l w -> copied l (set_kernel (sys_poll fds t (kernel w)).2 w).
Proof using Type.
  intros Hc. apply (copied_still l l w _ 0); try done; [| |apply Hc..].
  - apply transferred_refl; intros x; apply sys_poll_law.
  - intros h s Hs. by exists s.
Qed.

Lemma good_end b : good b -> good (ByteStream.end_input b).
Proof using Type. intros [[] Hm]. split; [by constructor|done]. Qed.

Lemma copied_end m l w : copied l w -> (m = end_outbound \/ m = end_inbound) ->
  outcome (m l) w (fun l' w' => copied l' w' /\ refs_kept w w') io_error.
Proof using Type.
  intros Hc Hm. pose proof (good_end _ (copied_good_out _ _ Hc)).
  pose proof (good_end _ (copied_good_in _ _ Hc)).
  destruct Hm as [-> | ->]; (split; [|apply refs_kept_refl]).
  all: apply (copied_still l _ w w 0); try done; try apply Hc; [|apply same_fds_refl].
  all: by apply transferred_refl.
Qed.

(** Reading into one stream and writing from the other. *)
Lemma callback1_ok : takes own io_error (callback1 input) copied copied.
Proof using Hnumber.
  intros l w Hc Ha. destruct (Ha input) as [s Hs]; [apply own_all|].
  destruct Hc as [[G1 M1] G2 R1 R2 N1 N2 N3]. unfold callback1. apply outcome_bind.
  eapply outcome_mono; [by apply read_into_outcome| |done].
  intros b w' (Hwf & Hm & Ht & data & Hd & Hb). rewrite (N1 s Hs) in Hd. split; cbn.
  - pose proof (same_fds_touched _ _ _ _ Hs Ht).
    constructor; cbn; try done; try by eapply numbered_same.
    + split; [done|congruence].
    + by eapply relay_read.
    + eapply relay_other; [done|done|done|intros E|done]. by destruct Hnumber.
  - by eapply touched_kept.
Qed.

Lemma callback3_ok : takes own io_error (callback3 socket) copied copied.
Proof using Hnumber.
  intros l w Hc Ha. destruct (Ha socket) as [s Hs]; [apply own_all|].
  destruct Hc as [G1 [G2 M2] R1 R2 N1 N2 N3]. unfold callback3. apply outcome_bind.
  eapply outcome_mono; [by apply read_into_outcome| |done].
  intros b w' (Hwf & Hm & Ht & data & Hd & Hb). rewrite (N3 s Hs) in Hd. split; cbn.
  - pose proof (same_fds_touched _ _ _ _ Hs Ht).
    constructor; cbn; try done; try by eapply numbered_same.
    + split; [done|congruence].
    + eapply relay_other; [done|done|done|intros E|done]. by destruct Hnumber.
    + by eapply relay_read.
  - by eapply touched_kept.
Qed.

(** What a write from a stream leaves, with the descriptor still there. *)
Lemma write_step h b w s :
  heap w !! h = Some s -> good b ->
  outcome (write_from h b) w
    (fun b' w' => good b' /\ same_fds w w' /\ refs_kept w w' /\ (exists s', heap w' !! h = Some s') /\
       exists data, transferred (fd (wrapper s)) [] data w w' /\ content b = data ++ content b')
    io_error.
Proof using Type.
  intros Hs [Hwf Hm].
  eapply outcome_mono; [apply write_from_outcome; [done|done|unfold stream_capacity in *; lia]| |done].
  intros b' w' (Hwf' & Hm' & Ht & Hd). split; [split; [done|congruence]|].
  split; [by eapply same_fds_touched|]. split; [by eapply touched_kept|]. split; [|done].
  destruct Ht as (wr & _ & ->). rewrite lookup_insert_eq. by eexists.
Qed.

Lemma callback2_ok : takes own io_error (callback2 socket) copied copied.
Proof using Laws Hnumber.
  intros l w Hc Ha. destruct (Ha socket) as [s Hs]; [apply own_all|].
  destruct Hc as [G1 G2 R1 R2 N1 N2 N3]. unfold callback2. apply outcome_bind.
  eapply outcome_mono; [by apply write_step| |done].
  intros b w' (G1' & Hf & Hk & [s' Hs'] & data & Hd & Hb). rewrite (N3 s Hs) in Hd.
  assert (Hc : copied (set_outbound b l) w').
  { constructor; cbn; try done; try by eapply numbered_same.
    - by eapply relay_write.
    - eapply relay_other; [done|done|done|done|intros E]. by destruct Hnumber. }
  destruct (ByteStream.eof b); [|done]. apply outcome_bind.
  eapply outcome_mono; [by apply Socket.shutdown_wr_outcome| |by right].
  intros _ w2 [Ht Hh].
  assert (touched socket s' w' w2) as Htouch by by exists (register_write (wrapper s')).
  split; [|eapply refs_kept_trans; [done|by eapply touched_kept]].
  apply (copied_still (set_outbound b l) _ w' w2 0); try done; [|apply Hc..].
  by eapply same_fds_touched.
Qed.

Lemma callback4_ok : takes own io_error (callback4 output) copied copied.
Proof using Laws Hnumber.
  intros l w Hc Ha. destruct (Ha output) as [s Hs]; [apply own_all|].
  destruct Hc as [G1 G2 R1 R2 N1 N2 N3]. unfold callback4. apply outcome_bind.
  eapply outcome_mono; [by apply write_step| |done].
  intros b w' (G2' & Hf & Hk & [s' Hs'] & data & Hd & Hb). rewrite (N2 s Hs) in Hd.
  assert (Hc : copied (set_inbound b l) w').
  { constructor; cbn; try done; try by eapply numbered_same.
    - eapply relay_other; [done|done|done|done|intros E]. by destruct Hnumber.
    - by eapply relay_write. }
  destruct (ByteStream.eof b); [|done]. apply outcome_bind.
  eapply outcome_mono; [by apply close_outcome| |done].
  intros _ w2 [Ht Htouch].
  split; [|eapply refs_kept_trans; [done|by eapply touched_kept]].
  apply (copied_still (set_inbound b l) _ w' w2 0); try done; [|apply Hc..].
  by eapply same_fds_touched.
Qed.

Definition the_rules : list (Rule K Locals) :=
  [mkRule input In (callback1 input) interest1 end_outbound;
   mkRule socket Out (callback2 socket) interest2 end_outbound;
   mkRule socket In (callback3 socket) interest3 end_inbound;
   mkRule output Out (callback4 output) interest4 end_inbound].

Lemma the_rules_ok : Forall (rule_ok own copied (fun _ _ _ => True) io_error) the_rules.
Proof using Laws Hnumber.
  repeat (apply Forall_cons; split; [split; [apply own_all|split; [done|split]]|]); try done.
  all: try (intros l w Hc _; apply copied_end; [done|by auto]).
  all: intros l w [Hc _] Ha.
  - by apply callback1_ok.
  - by apply callback2_ok.
  - by apply callback3_ok.
  - by apply callback4_ok.
Qed.

Lemma copy_loop_outcome fuel : forall rules l w,
  Forall (rule_ok own copied (fun _ _ _ => True) io_error) rules -> copied l w -> owns own rules w ->
  outcome (copy_loop fuel rules l) w
    (fun '(_, rules', l') w' => copied l' w' /\ owns own rules' w' /\
       Forall (rule_ok own copied (fun _ _ _ => True) io_error) rules') io_error.
Proof using Type.
  induction fuel as [|fuel IH]; intros rules l w Hok Hc Ho; [done|]. cbn [copy_loop].
  apply outcome_bind.
  eapply outcome_mono; [apply (wait_next_event_outcome own copied (fun _ _ _ => True) io_error
    copied_same ltac:(done) copied_poll ltac:(done)); [by apply rules_ok_plain|done..]| |].
  - intros [[r rules'] l'] w' (Hs & Hc' & Ho'). pose proof (Forall_sublist _ _ _ Hs Hok).
    destruct r; [by apply IH..|done].
  - intros e [He| ->]; [done|by left].
Qed.

(** The destructors at the end. *)
Lemma release_all_outcome rules : forall f w,
  held f w -> (forall h, (refs rules h <= f h)%nat) ->
  outcome (release_all rules) w (fun _ w' => forall n, transferred n [] [] w w') (fun _ => False).
Proof using Type.
  induction rules as [|r rules IH]; intros f w Hf Hr.
  { unfold outcome. cbn. intros n. by apply transferred_refl. }
  cbn [release_all]. apply outcome_bind.
  pose proof (Hr (rule_fd r)) as Hr1. rewrite refs_cons, decide_True in Hr1 by done.
  eapply outcome_mono; [apply (release_held f); [done|lia]| |done].
  intros _ w' [Hf' Ht]. eapply outcome_mono; [apply (IH _ w' Hf')| |done].
  - intros h. specialize (Hr h). rewrite refs_cons in Hr.
    destruct (decide (rule_fd r = h)), (decide (h = rule_fd r)); subst; try done; lia.
  - intros u w2 Ht2 n. by apply (transferred_trans n [] [] [] [] w w' w2).
Qed.

Lemma copied_still_world l w w' n :
  relay (outbound l) STDIN_FILENO number w0 w /\ relay (inbound l) number STDOUT_FILENO w0 w ->
  transferred n [] [] w w' ->
  relay (outbound l) STDIN_FILENO number w0 w' /\ relay (inbound l) number STDOUT_FILENO w0 w'.
Proof using Type. intros [R1 R2] Ht. split; by eapply relay_other. Qed.

(** What holds of the two streams when the program stops. *)
Definition faithful l w : Prop :=
  good (outbound l) /\ good (inbound l) /\
  relay (outbound l) STDIN_FILENO number w0 w /\ relay (inbound l) number STDOUT_FILENO w0 w.

Lemma copied_faithful l w w' n : copied l w -> transferred n [] [] w w' -> faithful l w'.
Proof using Type.
  intros [G1 G2 R1 R2 _ _ _] Ht. split; [done|]. split; [done|].
  by eapply copied_still_world.
Qed.

Lemma refs_own rules h :
  Forall (rule_ok own copied (fun _ _ _ => True) io_error) rules -> own h = 0%nat -> refs rules h = 0%nat.
Proof using Type.
  intros Hok Hh. induction Hok as [|r rules [Hr _] _ IH]; [done|].
  rewrite refs_cons, IH. case_decide as E; [|done]. rewrite E in Hr. lia.
Qed.

Lemma finish_outcome rules l w :
  copied l w -> owns own rules w -> Forall (rule_ok own copied (fun _ _ _ => True) io_error) rules -> input <> output ->
  outcome (_ ← release output; _ ← release input; _ ← release_all rules; mret (true, l)) w
    (fun '(_, l') w' => faithful l' w') io_error.
Proof using Type.
  intros Hc Ho Hok Hne. destruct own_all as (O1 & O2 & O3).
  assert (Hf : held (fun h => own h + refs rules h)%nat w).
  { intros h Hh. destruct (decide (own h = 0%nat)) as [E|E]; [|apply Ho; lia].
    rewrite (refs_own rules h Hok E) in Hh. lia. }
  apply outcome_bind. eapply outcome_mono; [apply (release_held _ output w Hf); lia| |done].
  intros u1 w1 [Hf1 Ht1]. apply outcome_bind.
  eapply outcome_mono; [apply (release_held _ input w1 Hf1); rewrite decide_False by done; lia| |done].
  intros u2 w2 [Hf2 Ht2]. apply outcome_bind.
  eapply outcome_mono; [apply (release_all_outcome rules _ w2 Hf2)| |done].
  - intros h. destruct (decide (h = input)) as [->|]; [rewrite decide_False by done; lia|].
    destruct (decide (h = output)) as [->|]; lia.
  - intros u3 w3 Ht3. apply (copied_faithful l w w3 0 Hc).
    apply (transferred_trans 0 [] [] [] [] w w1 w3); [done|].
    by apply (transferred_trans 0 [] [] [] [] w1 w2 w3).
Qed.

(** The four calls of [add_rule]. *)
Lemma add_rules_outcome w :
  owns own ([] : list (Rule K Locals)) w ->
  outcome (add_rules input output socket) w
    (fun rules w' => rules = the_rules /\ owns own rules w' /\ same_wrappers w w') io_error.
Proof using Type.
  intros Ho. destruct own_all as (O1 & O2 & O3). unfold add_rules, same_wrappers.
  apply outcome_bind. eapply outcome_mono; [by apply (add_rule_outcome own)| |done].
  intros r1 w1 (-> & Ho1 & E1 & S1).
  apply outcome_bind. eapply outcome_mono; [by apply (add_rule_outcome own)| |done].
  intros r2 w2 (-> & Ho2 & E2 & S2).
  apply outcome_bind. eapply outcome_mono; [by apply (add_rule_outcome own)| |done].
  intros r3 w3 (-> & Ho3 & E3 & S3).
  eapply outcome_mono; [by apply (add_rule_outcome own)| |done].
  intros r4 w4 (-> & Ho4 & E4 & S4). split; [done|]. split; [done|].
  split; [congruence|]. intros h. by rewrite S4, S3, S2, S1.
Qed.

(** The program, from the point where the descriptors are there. *)
Lemma run_outcome fuel w :
  copied (mkLocals (ByteStream.construct stream_capacity) (ByteStream.construct stream_capacity)
            false false) w ->
  owns own ([] : list (Rule K Locals)) w -> input <> output ->
  outcome (rules ← add_rules input output socket;
           '(ended, rules, l) ← copy_loop fuel rules
             (mkLocals (ByteStream.construct stream_capacity) (ByteStream.construct stream_capacity)
                false false);
           if ended : bool then
             _ ← release output; _ ← release input; _ ← release_all rules; mret (true, l)
           else mret (false, l)) w
    (fun '(_, l) w' => faithful l w') io_error.
Proof using Laws Hnumber.
  intros Hc Ho Hne. apply outcome_bind.
  eapply outcome_mono; [by apply add_rules_outcome| |done].
  intros rules w1 (-> & Ho1 & Hs). apply outcome_bind.
  eapply outcome_mono; [apply copy_loop_outcome; [apply the_rules_ok|by eapply copied_same|done]| |done].
  intros [[ended rules] l] w2 (Hc2 & Ho2 & Hok). destruct ended; [by apply finish_outcome|].
  apply (copied_faithful l w2 w2 0 Hc2). by apply transferred_refl.
Qed.

Lemma started w :
  (forall n, transferred n [] [] w0 w) ->
  numbered w input STDIN_FILENO -> numbered w output STDOUT_FILENO -> numbered w socket number ->
  copied (mkLocals (ByteStream.construct stream_capacity) (ByteStream.construct stream_capacity)
            false false) w.
Proof using Type.
  intros T N1 N2 N3.
  assert (good (ByteStream.construct stream_capacity))
    by (split; [by apply ByteStream.construct_wf|done]).
  assert (Hr : forall src dst, relay (ByteStream.construct stream_capacity) src dst w0 w).
  { intros src dst. destruct (T 0) as [Tt Tg]. exists []. rewrite Tt, Tg.
    split; case_decide; by rewrite ?app_nil_r. }
  by constructor.
Qed.

End Program.

Lemma copy_outcome `{NetLaws K} fuel socket s (w : world K) :
  heap w !! socket = Some s -> (0 < use_count s)%nat ->
  fd (wrapper s) <> STDIN_FILENO -> fd (wrapper s) <> STDOUT_FILENO ->
  outcome (bidirectional_stream_copy fuel socket) w
    (fun '(_, l) w' => faithful (fd (wrapper s)) w l w') io_error.
Proof.
  intros Hs Hu N1 N2.
  set (l0 := mkLocals (ByteStream.construct stream_capacity) (ByteStream.construct stream_capacity)
               false false).
  unfold bidirectional_stream_copy. apply outcome_bind, construct_outcome; [done|].
  intros input Hi. apply outcome_bind, construct_outcome; [done|]. intros output Ho.
  assert (Hne : output <> input).
  { intros ->. cbn in Ho. by rewrite lookup_insert_eq in Ho. }
  cbn in Ho. rewrite lookup_insert_ne in Ho by done.
  assert (input <> socket /\ output <> socket) as [Hsi Hso] by (split; intros ->; congruence).
  set (w1 := set_heap _ (set_heap _ w)).
  assert (L1 : heap w1 !! socket = Some s).
  { unfold w1. cbn. by rewrite !lookup_insert_ne by done. }
  assert (L2 : heap w1 !! input = Some (mkShared (mkFDWrapper STDIN_FILENO false false 0 0) 1)).
  { unfold w1. cbn. rewrite lookup_insert_ne by done. by rewrite lookup_insert_eq. }
  assert (L3 : heap w1 !! output = Some (mkShared (mkFDWrapper STDOUT_FILENO false false 0 0) 1)).
  { unfold w1. cbn. by rewrite lookup_insert_eq. }
  apply outcome_bind. eapply outcome_mono; [by eapply set_blocking_outcome| |done].
  intros _ w2 [T2 E2]. apply outcome_bind.
  eapply outcome_mono; [eapply set_blocking_outcome; rewrite E2; exact L2| |done].
  intros _ w3 [T3 E3]. apply outcome_bind.
  eapply outcome_mono; [eapply set_blocking_outcome; rewrite E3, E2; exact L3| |done].
  intros _ w4 [T4 E4]. assert (Eh : heap w4 = heap w1) by congruence.
  assert (T : forall n, transferred n [] [] w w4).
  { intros n. apply (transferred_trans n [] [] [] [] w w2 w4).
    - apply (transferred_trans n [] [] [] [] w w1 w2); [by apply transferred_refl|done].
    - by apply (transferred_trans n [] [] [] [] w2 w3 w4). }
  apply (run_outcome input output socket); [done|..|done].
  - apply started; [done|intros s' Hs'; rewrite Eh in Hs'..].
    + rewrite L2 in Hs'. by injection Hs' as <-.
    + rewrite L3 in Hs'. by injection Hs' as <-.
    + rewrite L1 in Hs'. by injection Hs' as <-.
  - intros h Hh. unfold own in *. rewrite Eh. case_bool_decide as Hin; [|lia].
    rewrite !elem_of_cons, elem_of_nil in Hin.
    destruct Hin as [->|[->|[->|[]]]]; eexists; (split; [done|cbn; lia]).
Qed.

(** C36: the program copies faithfully in both directions.  For any number of rounds
    of its loop and any kernel, what has been given to the socket followed by what is
    still in the outbound stream is exactly what has been taken from standard input,
    in order, and in the same way from the socket to standard output; at most
    [stream_capacity] bytes are held back in each direction.  The only exceptions
    are those of failing system calls and of the event loop; in particular no
    descriptor is used after its last reference is gone. *)
Theorem copy_is_faithful `{NetLaws K} fuel socket s (w : world K) :
  heap w !! socket = Some s -> (0 < use_count s)%nat ->
  fd (wrapper s) <> STDIN_FILENO -> fd (wrapper s) <> STDOUT_FILENO ->
  match bidirectional_stream_copy fuel socket w with
  | Ok ((_, l), w') =>
      relay (outbound l) STDIN_FILENO (fd (wrapper s)) w w' /\
      relay (inbound l) (fd (wrapper s)) STDOUT_FILENO w w' /\
      size (content (outbound l)) <= stream_capacity /\ size (content (inbound l)) <= stream_capacity
  | Throw e => e = runtime_error \/ exists n, e = unix_error n
  end.
Proof.
  intros Hs Hu N1 N2. pose proof (copy_outcome fuel socket s w Hs Hu N1 N2) as C. unfold outcome in C.
  destruct (bidirectional_stream_copy _ _ _) as [[[? l] w']|e]; [|done].
  destruct C as ([G1 M1] & [G2 M2] & R1 & R2). split; [done|]. split; [done|].
  pose proof (ByteStream.wf_capacity _ G1). pose proof (ByteStream.wf_capacity _ G2). lia.
Qed.

#[local] Existing Instance Socket.toy_net.
#[local] Existing Instance Socket.toy_net_laws.

Lemma copy_is_faithful_witness :
  exists l w', bidirectional_stream_copy 8 0%nat (toy_world [Byte.x61; Byte.x62; Byte.x63] 2)
      = Ok ((true, l), w') /\
    given (kernel w') 5 = [Byte.x61; Byte.x62; Byte.x63] /\
    given (kernel w') 1 = [Byte.x61; Byte.x62; Byte.x63].
Proof.
  set (w := toy_world [Byte.x61; Byte.x62; Byte.x63] 2).
  pose proof (copy_is_faithful 8 0%nat _ w eq_refl ltac:(cbn; lia) ltac:(done) ltac:(done)) as Hc.
  assert (E : (fun '((e, l), w') => (e, content (outbound l), content (inbound l),
                 taken (kernel w') 0, taken (kernel w') 5)) <$> bidirectional_stream_copy 8 0%nat w
    = Ok (true, [], [], [Byte.x61; Byte.x62; Byte.x63], [Byte.x61; Byte.x62; Byte.x63]))
    by (vm_compute; reflexivity).
  destruct (bidirectional_stream_copy 8 0%nat w) as [[[e l] w']|]; [|discriminate E].
  cbn in E. injection E as -> Eo Ei Et0 Et5.
  destruct Hc as ((o & Hg & Ht) & (i & Hg' & Ht') & _). exists l, w'. split; [reflexivity|].
  rewrite Eo, app_nil_r in Ht. rewrite Ei, app_nil_r in Ht'.
  split; [transitivity o; [exact Hg|]; rewrite <- Et0; symmetry; exact Ht|].
  transitivity i; [exact Hg'|]. rewrite <- Et5. symmetry. exact Ht'.
Defined.
