(* ===== verification/Bouncer.v ===== *)
(** The bouncer: [apps/bouncer.cc].  UDP sockets on pairs of neighbouring ports; what
    arrives at one socket of a pair is sent on from the other one, to the address that
    was last heard from there. *)
From S2P Require Import Prelude.
From S2P Require Buffer Address Adapters FileDescriptor Socket EventLoop.
Import Address(Address).
Import Adapters(Resolver).
Import FileDescriptor EventLoop.
Import Socket(NetKernel, NetLaws, SentLaws, sent, mail, mkMail, mail_sent).
#[local] Existing Instances Socket.mail_kernel Socket.mail_laws Socket.mail_net Socket.mail_net_laws Socket.mail_sent_laws.

(** The variable [peers], which the callbacks capture. *)
Abbreviation Peers := (list (option Address)).

Section Bouncer.
Context {K : Type} `{NetKernel K} `{Resolver}.

(** [Address::to_string], for the messages; it may throw. *)
Variable to_string : Address -> result string.

(** The callback of the socket [x], whose peer is [peers[i]]; [y] and [peers[j]] are the
    other half of the pair.  The callback of [y] is the same with the two exchanged. *)
Definition bounce (x y : FileDescriptor) (i j : nat) (peers : Peers) : IO K Peers :=
  rec ← Socket.recv 65536 x;
  let known := match peers !! i with
               | Some (Some p) => Address.eqb p (Socket.source_address rec)
               | _ => false
               end in
  peers ← (if known then mret peers else
           local ← Socket.local_address x;
           _ ← lift (to_string local);
           _ ← lift (to_string (Socket.source_address rec));
           mret (<[i := Some (Socket.source_address rec)]> peers));
  match peers !! j with
  | Some (Some p) =>
      if bool_decide (Socket.payload rec = []) then mret peers
      else _ ← Socket.sendto p [Socket.payload rec] y; mret peers
  | _ => mret peers
  end.

(** The state of the loop that sets the pairs up. *)
Definition Setup : Type := list FileDescriptor * Peers * list (Rule K Peers).

(** One iteration of the loop over the ports.  [reserve] has made room for all sockets
    and peers, so that the references which the callbacks capture stay valid. *)
Definition add_pair (lower_port : Z) (s : Setup) : IO K Setup :=
  let '(sockets, peers, rules) := s in
  x ← Socket.UDPSocket_new;
  y ← Socket.UDPSocket_new;
  let i := length peers in
  let peers := peers ++ [None; None] in
  ax ← lift (Adapters.make_address 0 lower_port);
  _ ← Socket.bind ax x;
  ay ← lift (Adapters.make_address 0 (u16 (lower_port + 1)));
  _ ← Socket.bind ay y;
  rules ← add_rule x In (bounce x y i (S i)) (fun _ _ => true) mret rules;
  rules ← add_rule y In (bounce y x (S i) i) (fun _ _ => true) mret rules;
  mret (sockets ++ [x; y], peers, rules).

(** The loop over the ports, with its 16-bit counter. *)
Fixpoint add_pairs (fuel : nat) (lower_port : Z) (s : Setup) : IO K Setup :=
  match fuel with
  | O => throw undefined_behaviour
  | S fuel =>
      if lower_port <=? 64000 then
        s ← add_pair lower_port s;
        add_pairs fuel (u16 (lower_port + 2)) s
      else mret s
  end.
Definition setup_fuel : nat := Z.to_nat 31490.

(** The loop at the end; it takes a number of rounds. *)
Fixpoint serve_pairs (rounds : nat) (rules : list (Rule K Peers)) (peers : Peers)
    : IO K (bool * list (Rule K Peers) * Peers) :=
  match rounds with
  | O => mret (false, rules, peers)
  | S rounds =>
      '(ret, rules, peers) ← wait_next_event (-1) rules peers;
      match ret with
      | Exit => mret (true, rules, peers)
      | _ => serve_pairs rounds rules peers
      end
  end.

(** [program_body] *)
Definition program_body (rounds : nat) : IO K (bool * list (Rule K Peers) * Peers) :=
  '(_, peers, rules) ← add_pairs setup_fuel 1024 ([], [], []);
  serve_pairs rounds rules peers.

End Bouncer.

(** ** The loop over the ports *)

(** The ports for which [add_pair] is called. *)
Fixpoint ports (fuel : nat) (lower_port : Z) : option (list Z) :=
  match fuel with
  | O => None
  | S fuel =>
      if lower_port <=? 64000 then cons lower_port <$> ports fuel (u16 (lower_port + 2)) else Some []
  end.

Fixpoint for_each {K S} (f : Z -> S -> IO K S) (l : list Z) (s : S) : IO K S :=
  match l with [] => mret s | p :: l => s ← f p s; for_each f l s end.

Lemma add_pairs_ports {K} `{NetKernel K} `{Resolver} to_string fuel p l s (w : world K) :
  ports fuel p = Some l ->
  add_pairs to_string fuel p s w = for_each (add_pair to_string) l s w.
Proof.
  revert p l s w. induction fuel as [|fuel IH]; intros p l s w Hl; [done|]. cbn [ports add_pairs] in *.
  destruct (p <=? 64000); [|by injection Hl as <-].
  destruct (ports fuel (u16 (p + 2))) as [l'|] eqn:E; [|done]. injection Hl as <-.
  cbn [for_each]. unfold mbind, io_bind. destruct (add_pair to_string p s w) as [[s' w']|]; [|done].
  cbn [mbind result_bind]. by apply IH.
Qed.

Lemma ports_closed fuel n p :
  Z.of_nat n < Z.of_nat fuel -> 0 <= p -> p + 2 * Z.of_nat n <= 64002 -> 64000 < p + 2 * Z.of_nat n ->
  ports fuel p = Some ((fun k => p + 2 * Z.of_nat k) <$> seq 0 n).
Proof.
  revert n p. induction fuel as [|fuel IH]; intros n p Hn Hp H1 H2; [lia|]. cbn [ports].
  destruct n as [|n].
  - destruct (Z.leb_spec p 64000); [lia|done].
  - destruct (Z.leb_spec p 64000); [|lia]. rewrite u16_id by lia.
    rewrite (IH n) by lia. cbn. f_equal. f_equal; [lia|].
    rewrite <- (fmap_S_seq 0 n), <- list_fmap_compose. apply list_fmap_ext. intros k x _. cbn. lia.
Qed.

(** The counter does not wrap around before the loop ends: the 31489 pairs of ports
    1024, 1026, ..., 64000 are set up in turn, and their sockets fit into what was
    reserved. *)
Theorem setup_covers_ports {K} `{NetKernel K} `{Resolver} to_string s (w : world K) :
  add_pairs to_string setup_fuel 1024 s w =
  for_each (add_pair to_string) ((fun k => 1024 + 2 * Z.of_nat k) <$> seq 0 (Z.to_nat 31489)) s w
  /\ 2 * 31489 <= 66000.
Proof.
  split; [|lia]. apply add_pairs_ports, ports_closed; unfold setup_fuel; lia.
Qed.

(** ** Bouncing *)

Section Bounce.
Context {K : Type} `{QL : SentLaws K}.
Variable to_string : Address -> result string.
Implicit Types w : world K.

(** What the pair knows of the peer of [i] after a datagram from [src]. *)
Definition heard (i : nat) (src : Address) (peers peers' : Peers) : Prop :=
  (exists p, peers' !! i = Some (Some p) /\ Address.eqb p src = true) /\
  forall k, k <> i -> peers' !! k = peers !! k.

(** What is sent on for a datagram with the payload [d]. *)
Definition forwarded (peer : option (option Address)) (d : bytes) : list (option (bytes * Z) * bytes) :=
  match peer with
  | Some (Some q) =>
      if bool_decide (d = []) then [] else [(Some (Address.storage q, Address.addr_size q), d)]
  | _ => []
  end.

Lemma eqb_refl a : Address.eqb a a = true.
Proof. unfold Address.eqb. rewrite Z.eqb_refl. cbn. by apply bool_decide_eq_true. Qed.

(** Nothing is sent, and the wrappers are as before. *)
Definition quiet w w' : Prop :=
  (forall x, sent (kernel w') x = sent (kernel w) x) /\ heap w' = heap w.

Lemma local_address_outcome h w s :
  heap w !! h = Some s -> outcome (Socket.local_address h) w (fun _ w' => quiet w w') io_error.
Proof using QL.
  intros Hs. unfold Socket.local_address, Socket.get_address. apply outcome_bind.
  eapply get_outcome; [done|]. apply outcome_bind. unfold outcome at 1, syscall.
  pose proof (Socket.getsockname_quiet (fd (wrapper s)) (kernel w)) as Hq.
  destruct (Socket.sys_getsockname _ _) as [[r [a n]] k']. cbn in Hq. apply outcome_bind.
  unfold outcome at 1, lift, SystemCall. destruct (_ || _); [|right; by eexists].
  cbn [mbind result_bind]. unfold outcome, Address.of_sockaddr. destruct (_ <? n); [by left|]. by split.
Qed.

(** What the callback may throw: the error of a system call, or that of [to_string]. *)
Definition bounce_error (e : exn) : Prop := io_error e \/ exists a, to_string a = Throw e.

(** The first half of the callback: the peer is learned. *)
Lemma learn_outcome x i peers src w s :
  heap w !! x = Some s -> (i < length peers)%nat ->
  outcome (if match peers !! i with Some (Some p) => Address.eqb p src | _ => false end
           then mret peers else
           local ← Socket.local_address x;
           _ ← lift (to_string local);
           _ ← lift (to_string src);
           mret (<[i := Some src]> peers)) w
    (fun peers' w' => heard i src peers peers' /\ quiet w w') bounce_error.
Proof using QL.
  intros Hs Hi. destruct (match peers !! i with Some (Some p) => _ | _ => _ end) eqn:E.
  { split; [|done]. split; [|done]. destruct (peers !! i) as [[p|]|]; [|done..]. eauto. }
  apply outcome_bind. eapply outcome_mono; [eapply local_address_outcome; exact Hs| |by left].
  intros a w1 Hq. unfold outcome, mbind, io_bind, lift.
  destruct (to_string a) eqn:Ea; [|right; by eexists]. cbn [mbind result_bind].
  destruct (to_string src) eqn:Es; [|right; by eexists]. cbn.
  split; [|done]. split.
  - exists src. split; [by apply list_lookup_insert_eq|apply eqb_refl].
  - intros k Hk. by apply list_lookup_insert_ne.
Qed.

(** A datagram that arrives at [x] is bounced.  Afterwards the peer of [x] is the
    sender of the datagram and the other peers are as before.  If a peer of [y] is
    known, a datagram that is not empty has been sent to it from [y], once and
    unchanged; nothing else has been sent from any socket.  The callback throws only what
    a system call or [to_string] throws. *)
Theorem bounce_forwards x y i j peers w sx sy :
  heap w !! x = Some sx -> heap w !! y = Some sy -> fd (wrapper sx) <> fd (wrapper sy) ->
  i <> j -> (i < length peers)%nat ->
  outcome (bounce to_string x y i j peers) w
    (fun peers' w' => exists rec w1, Socket.recv 65536 x w = Ok (rec, w1) /\
       heard i (Socket.source_address rec) peers peers' /\
       sent (kernel w') (fd (wrapper sy))
         = sent (kernel w) (fd (wrapper sy)) ++ forwarded (peers !! j) (Socket.payload rec) /\
       forall n, n <> fd (wrapper sy) -> sent (kernel w') n = sent (kernel w) n)
    bounce_error.
Proof using QL.
  intros Hx Hy Hne Hij Hi. apply outcome_bind. unfold outcome at 1.
  pose proof (Socket.recv_whole_datagram 65536 x w sx Hx ltac:(lia)) as Hr. unfold outcome in Hr.
  destruct (Socket.recv 65536 x w) as [[rec w1]|] eqn:Er; [|by left].
  destruct Hr as (_ & Hsz & _ & Hh). pose proof (Socket.recv_silent _ _ _ _ _ Er) as Hq.
  assert (Hx1 : heap w1 !! x = Some (mkShared (register_read (wrapper sx)) (use_count sx)))
    by (rewrite Hh; apply lookup_insert_eq).
  assert (Hy1 : heap w1 !! y = Some sy).
  { rewrite Hh, lookup_insert_ne; [done|]. congruence. }
  apply outcome_bind. eapply outcome_mono; [by eapply learn_outcome| |done].
  intros peers' w2 [Hp [Hs2 Hh2]].
  assert (Hj : peers' !! j = peers !! j) by (apply Hp; congruence). rewrite Hj.
  assert (Hnone : forall n, sent (kernel w2) n = sent (kernel w) n) by (intros n; by rewrite Hs2).
  destruct (peers !! j) as [[q|]|]; cbn [forwarded];
    [|exists rec, w1; by rewrite app_nil_r..].
  destruct (decide (Socket.payload rec = [])) as [Ed|Ed];
    [rewrite bool_decide_true by done; exists rec, w1;
     rewrite bool_decide_true by done; by rewrite app_nil_r|].
  rewrite bool_decide_false by done.
  rewrite <- Hh2 in Hy1. apply outcome_bind. unfold outcome at 1.
  pose proof (Socket.sendto_whole_datagram q [Socket.payload rec] y w2 sy Hy1) as Hw.
  cbn [concat] in Hw. rewrite app_nil_r in Hw. specialize (Hw ltac:(lia)). unfold outcome in Hw.
  destruct (Socket.sendto q _ y w2) as [[u w3]|] eqn:Ew; [|by left]. destruct Hw as [Hw _].
  exists rec, w1. rewrite bool_decide_false by done. split; [done|]. split; [done|].
  split; [by rewrite Hw, Hnone|].
  intros n Hn. by rewrite (Socket.sendto_quiet _ _ _ _ _ _ _ Hy1 Ew n Hn).
Qed.

End Bounce.

(** Two sockets, 5 and 6; the peer of the second is known, and three bytes wait at the
    first. *)
Definition sample_world : world mail :=
  mkWorld (mkMail (fun x => if x =? 5 then [([Byte.x61; Byte.x62; Byte.x63],
                                             (Address.sockaddr_in 2 4000 167772161, 16))] else [])
             (fun _ => []) (fun _ => []) (fun _ => []) (fun _ => []))
    (<[0%nat := mkShared (mkFDWrapper 5 false false 0 0) 1]>
       {[ 1%nat := mkShared (mkFDWrapper 6 false false 0 0) 1 ]}).
Definition sample_peers : Peers := [None; Some (Address.of_ip 167772162)].

(** The datagram is sent on, and the peer of the first socket is learned. *)
Lemma bounce_forwards_witness :
  exists peers' w', bounce (fun _ => Ok EmptyString) 0%nat 1%nat 0 1 sample_peers sample_world
      = Ok (peers', w') /\
    mail_sent (kernel w') 6
      = [(Some (Address.storage (Address.of_ip 167772162), 16), [Byte.x61; Byte.x62; Byte.x63])] /\
    mail_sent (kernel w') 5 = [].
Proof.
  pose proof (bounce_forwards (fun _ => Ok EmptyString) 0%nat 1%nat 0 1 sample_peers sample_world
    (mkShared (mkFDWrapper 5 false false 0 0) 1) (mkShared (mkFDWrapper 6 false false 0 0) 1)
    eq_refl eq_refl ltac:(discriminate) ltac:(discriminate) ltac:(cbn; lia)) as Hb.
  unfold outcome in Hb.
  destruct (bounce _ _ _ _ _ _ sample_world) as [[peers' w']|] eqn:E; [|discriminate E].
  destruct Hb as (rec & w1 & Er & _ & Hs & Ho). exists peers', w'. split; [done|].
  split; [|exact (Ho 5 ltac:(discriminate))].
  assert (Ep : Socket.payload rec = [Byte.x61; Byte.x62; Byte.x63]).
  { vm_compute in Er. injection Er as <- _. reflexivity. }
  rewrite Ep in Hs. exact Hs.
Defined.
