(* ===== verification/SpongeSocket.v ===== *)
(** The socket that runs a TCP connection: [libsponge/tcp_helpers/tcp_sponge_socket.hh]
    and [tcp_sponge_socket.cc].

    The owner of the socket talks to one end of a pair of local sockets.  The thread
    of the connection owns the other end, the connection and the adapter to the
    network, and moves data between them in the four rules of an event loop.  The
    template parameter [AdaptT] is the class [DatagramAdapter]; its instances put the
    adapters of [Adapters] on top of file descriptors and sockets. *)
From S2P Require Import Prelude.
From S2P Require Buffer ByteStream TCPHeader TCPSegment TCPState TCPReceiver TCPSender.
From S2P Require TCPConnection Address Ethernet Adapters FileDescriptor Socket EventLoop.
Import TCPSegment(TCPSegment).
Import Address(Address).
Import TCPConnection(TCPConnection).
Import Adapters(Resolver, FdAdapterConfig, FdAdapterBase, EthernetAdapter).
Import FileDescriptor EventLoop.
Import Socket(NetKernel, NetLaws).

(** ** Adapters over descriptors *)

(** What [TCPSpongeSocket] needs of [AdaptT]. *)
Class DatagramAdapter (K A : Type) := {
  ad_fd : A -> FileDescriptor;                        (* the conversion to a descriptor *)
  ad_set_config : FdAdapterConfig -> A -> A;          (* [config_mut() = ...] *)
  ad_set_listening : bool -> A -> A;
  ad_read : A -> IO K (option TCPSegment * A);
  ad_write : TCPSegment -> A -> IO K A;
  ad_tick : Z -> A -> IO K A
}.

(** An adapter with its socket, TUN or TAP device. *)
Record Device (B : Type) := mkDevice { base : B; device : FileDescriptor }.
Arguments mkDevice {B} _ _.
Arguments base {B} _.
Arguments device {B} _.

Section Instances.
Context {K : Type} `{NetKernel K} `{Resolver}.

Definition with_config (c : FdAdapterConfig) (d : Device FdAdapterBase) : Device FdAdapterBase :=
  mkDevice (Adapters.set_config c (base d)) (device d).
Definition with_listening (l : bool) (d : Device FdAdapterBase) : Device FdAdapterBase :=
  mkDevice (Adapters.set_listening l (base d)) (device d).

(** [TCPOverUDPSocketAdapter] *)
Definition udp_device_read (d : Device FdAdapterBase) : IO K (option TCPSegment * Device FdAdapterBase) :=
  datagram ← Socket.recv 65536 (device d);
  '(seg, a) ← lift (Adapters.udp_read (Socket.source_address datagram, Socket.payload datagram) (base d));
  mret (seg, mkDevice a (device d)).
Definition udp_device_write (seg : TCPSegment) (d : Device FdAdapterBase) : IO K (Device FdAdapterBase) :=
  '((destination, payload), _) ← lift (Adapters.udp_write seg (base d));
  _ ← Socket.sendto destination [payload] (device d);
  mret d.
Definition udp_device : DatagramAdapter K (Device FdAdapterBase) :=
  {| ad_fd := device; ad_set_config := with_config; ad_set_listening := with_listening;
     ad_read := udp_device_read; ad_write := udp_device_write; ad_tick := fun _ d => mret d |}.

(** [TCPOverIPv4OverTunFdAdapter] *)
Definition tun_device_read (d : Device FdAdapterBase) : IO K (option TCPSegment * Device FdAdapterBase) :=
  data ← read npos (device d);
  '(seg, a) ← lift (Adapters.tun_read data (base d));
  mret (seg, mkDevice a (device d)).
Definition tun_device_write (seg : TCPSegment) (d : Device FdAdapterBase) : IO K (Device FdAdapterBase) :=
  '(data, _) ← lift (Adapters.tun_write seg (base d));
  _ ← write [data] true (device d);
  mret d.
Definition tun_device : DatagramAdapter K (Device FdAdapterBase) :=
  {| ad_fd := device; ad_set_config := with_config; ad_set_listening := with_listening;
     ad_read := tun_device_read; ad_write := tun_device_write; ad_tick := fun _ d => mret d |}.

(** [TCPOverIPv4OverEthernetAdapter]: the frames that the adapter has queued for the
    device are written to it. *)
Fixpoint tap_flush (frames : list bytes) (h : FileDescriptor) : IO K unit :=
  match frames with
  | [] => mret tt
  | f :: frames => _ ← write [f] true h; tap_flush frames h
  end.
Definition tap_sent (e : EthernetAdapter) (h : FileDescriptor) : IO K (Device EthernetAdapter) :=
  _ ← tap_flush (Adapters.tap_out e) h;
  mret (mkDevice (Adapters.mkEthernetAdapter (Adapters.adapter e) (Adapters.interface e)
                    (Adapters.next_hop e) []) h).

Definition eth_device_new (tap : FileDescriptor) (base : FdAdapterBase)
    (eth_address : Ethernet.EthernetAddress) (ip_address next_hop : Address)
    : IO K (Device EthernetAdapter) :=
  tap_sent (Adapters.eth_construct base eth_address ip_address next_hop) tap.
Definition eth_device_read (d : Device EthernetAdapter) : IO K (option TCPSegment * Device EthernetAdapter) :=
  data ← read npos (device d);
  '(seg, e) ← lift (Adapters.eth_read data (base d));
  d ← tap_sent e (device d);
  mret (seg, d).
Definition eth_device_write (garbage : Z) (seg : TCPSegment) (d : Device EthernetAdapter)
    : IO K (Device EthernetAdapter) :=
  '(_, e) ← lift (Adapters.eth_write garbage seg (base d));
  tap_sent e (device d).
Definition eth_device_tick (ms : Z) (d : Device EthernetAdapter) : IO K (Device EthernetAdapter) :=
  tap_sent (Adapters.eth_tick ms (base d)) (device d).
Definition eth_device (garbage : Z) : DatagramAdapter K (Device EthernetAdapter) :=
  {| ad_fd := device;
     ad_set_config := fun c d => mkDevice (Adapters.set_adapter
       (Adapters.set_config c (Adapters.adapter (base d))) (base d)) (device d);
     ad_set_listening := fun l d => mkDevice (Adapters.set_adapter
       (Adapters.set_listening l (Adapters.adapter (base d))) (base d)) (device d);
     ad_read := eth_device_read; ad_write := eth_device_write garbage; ad_tick := eth_device_tick |}.

End Instances.

(** ** The socket *)

(** The members of [class TCPSpongeSocket] that the rules use. *)
Record Thread (A : Type) := mkThread {
  tcp : option TCPConnection;
  datagram_adapter : A;
  inbound_shutdown : bool;
  outbound_shutdown : bool;
  fully_acked : bool
}.
Arguments mkThread {A} _ _ _ _ _.
Arguments tcp {A} _.
Arguments datagram_adapter {A} _.
Arguments inbound_shutdown {A} _.
Arguments outbound_shutdown {A} _.
Arguments fully_acked {A} _.

Section Rules.
Context {K A : Type} `{NetKernel K} `{Ad : DatagramAdapter K A}.

Definition set_tcp (c : TCPConnection) (t : Thread A) : Thread A :=
  mkThread (Some c) (datagram_adapter t) (inbound_shutdown t) (outbound_shutdown t) (fully_acked t).
Definition set_adapter (a : A) (t : Thread A) : Thread A :=
  mkThread (tcp t) a (inbound_shutdown t) (outbound_shutdown t) (fully_acked t).
Definition set_outbound_shutdown (t : Thread A) : Thread A :=
  mkThread (tcp t) (datagram_adapter t) (inbound_shutdown t) true (fully_acked t).
Definition set_inbound_shutdown (t : Thread A) : Thread A :=
  mkThread (tcp t) (datagram_adapter t) true (outbound_shutdown t) (fully_acked t).
Definition set_fully_acked (t : Thread A) : Thread A :=
  mkThread (tcp t) (datagram_adapter t) (inbound_shutdown t) (outbound_shutdown t) true.

(** [*_tcp] *)
Definition the_tcp (t : Thread A) : IO K TCPConnection :=
  match tcp t with Some c => mret c | None => throw undefined_behaviour end.

(** Rule 1: a datagram from the network. *)
Definition rule1 (thread_data : FileDescriptor) (t : Thread A) : IO K (Thread A) :=
  '(seg, a) ← ad_read (datagram_adapter t);
  let t := set_adapter a t in
  c ← the_tcp t;
  c ← match seg with Some seg => lift (TCPConnection.segment_received seg c) | None => mret c end;
  let t := set_tcp c t in
  wr ← get thread_data;
  mret (if eof wr && (TCPConnection.bytes_in_flight c =? 0) && negb (fully_acked t)
        then set_fully_acked t else t).

(** Rule 2: bytes from the owner. *)
Definition rule2 (thread_data : FileDescriptor) (t : Thread A) : IO K (Thread A) :=
  c ← the_tcp t;
  data ← read (TCPConnection.remaining_outbound_capacity c) thread_data;
  let len := size data in
  let '(amount_written, c) := TCPConnection.write data c in
  if negb (amount_written =? len) then throw runtime_error else
  wr ← get thread_data;
  mret (if eof wr then set_outbound_shutdown (set_tcp (TCPConnection.end_input_stream c) t)
        else set_tcp c t).

Definition rule2_cancel (t : Thread A) : IO K (Thread A) :=
  c ← the_tcp t;
  mret (set_outbound_shutdown (set_tcp (TCPConnection.end_input_stream c) t)).

(** [pop_output] on [inbound_stream()]. *)
Definition pop_inbound (n : Z) (c : TCPConnection) : TCPConnection :=
  TCPConnection.set_receiver (TCPReceiver.set_stream_out
    (ByteStream.pop_output n (TCPConnection.inbound_stream c)) (TCPConnection.receiver c)) c.

(** Rule 3: bytes for the owner. *)
Definition rule3 (thread_data : FileDescriptor) (t : Thread A) : IO K (Thread A) :=
  c ← the_tcp t;
  let inbound := TCPConnection.inbound_stream c in
  let amount_to_write := Z.min 65536 (ByteStream.buffer_size inbound) in
  let buffer := ByteStream.peek_output amount_to_write inbound in
  bytes_written ← write (Buffer.bvl_of_view buffer) false thread_data;
  let c := pop_inbound bytes_written c in
  let t := set_tcp c t in
  let inbound := TCPConnection.inbound_stream c in
  if ByteStream.eof inbound || ByteStream.error inbound then
    _ ← Socket.shutdown Socket.SHUT_WR thread_data;
    mret (set_inbound_shutdown t)
  else mret t.

(** Rule 4: segments for the network. *)
Fixpoint write_segments (q : list TCPSegment) (a : A) : IO K A :=
  match q with
  | [] => mret a
  | seg :: q => a ← ad_write seg a; write_segments q a
  end.

Definition rule4 (t : Thread A) : IO K (Thread A) :=
  c ← the_tcp t;
  a ← write_segments (TCPConnection.segments_out c) (datagram_adapter t);
  mret (set_adapter a (set_tcp (TCPConnection.set_segments_out [] c) t)).

(** The conditions of the rules; [*_tcp] of an empty optional is never reached there
    in the states of the thread, and is given the value [false]. *)
Definition when_tcp (f : TCPConnection -> bool) (t : Thread A) : bool :=
  match tcp t with Some c => f c | None => false end.
Definition interest1 (t : Thread A) (_ : world K) : bool := when_tcp TCPConnection.active t.
Definition interest2 (t : Thread A) (_ : world K) : bool :=
  when_tcp (fun c => TCPConnection.active c && negb (outbound_shutdown t)
                     && (0 <? TCPConnection.remaining_outbound_capacity c)) t.
Definition interest3 (t : Thread A) (_ : world K) : bool :=
  when_tcp (fun c => negb (ByteStream.buffer_empty (TCPConnection.inbound_stream c))
    || ((ByteStream.eof (TCPConnection.inbound_stream c) ||
         ByteStream.error (TCPConnection.inbound_stream c)) && negb (inbound_shutdown t))) t.
Definition interest4 (t : Thread A) (_ : world K) : bool :=
  when_tcp (fun c => negb (size (TCPConnection.segments_out c) =? 0)) t.

(** [_initialize_TCP]; [random] is the random number for the initial sequence number. *)
Definition initialize_TCP (config : TCPSender.TCPConfig) (random : Z) (thread_data : FileDescriptor)
    (t : Thread A) (rules : list (Rule K (Thread A))) : IO K (list (Rule K (Thread A)) * Thread A) :=
  let t := set_tcp (TCPConnection.construct config random) t in
  let adapter_fd := ad_fd (datagram_adapter t) in
  rules ← add_rule adapter_fd In (rule1 thread_data) interest1 mret rules;
  rules ← add_rule thread_data In (rule2 thread_data) interest2 rule2_cancel rules;
  rules ← add_rule thread_data Out (rule3 thread_data) interest3 mret rules;
  rules ← add_rule adapter_fd Out rule4 interest4 mret rules;
  mret (rules, t).

Definition TCP_TICK_MS : Z := 10.

(** The end of the body of [_tcp_loop]: time passes. *)
Definition elapse (ms : Z) (t : Thread A) : IO K (Thread A) :=
  c ← match tcp t with Some c => mret c | None => throw bad_optional_access end;
  if TCPConnection.active c then
    c ← lift (TCPConnection.tick ms c);
    let t := set_tcp c t in
    a ← ad_tick ms (datagram_adapter t);
    mret (set_adapter a t)
  else mret t.

(** [_tcp_loop].  Each element of [env] is for one round: whether [_abort] is set when
    it is read, and the time that [timestamp_ms] gives.  The flag of the result says
    that the loop has ended; it has not when there are no more elements. *)
Fixpoint tcp_loop (condition : Thread A -> bool) (base_time : Z) (env : list (bool * Z))
    (rules : list (Rule K (Thread A))) (t : Thread A)
    : IO K (bool * list (Rule K (Thread A)) * Thread A) :=
  if negb (condition t) then mret (true, rules, t) else
  match env with
  | [] => mret (false, rules, t)
  | (abort, next_time) :: env =>
      '(ret, rules, t) ← wait_next_event TCP_TICK_MS rules t;
      match ret with
      | Exit => mret (true, rules, t)
      | _ =>
          if abort : bool then mret (true, rules, t) else
          let active := when_tcp TCPConnection.active t in
          t ← elapse (u64 (next_time - base_time)) t;
          tcp_loop condition (if active then next_time else base_time) env rules t
      end
  end.

(** [class TCPSpongeSocket]: [data_socket] is the owner's end, the base class; [joinable]
    is [_tcp_thread.joinable()]. *)
Record TCPSpongeSocket := mkSocket {
  data_socket : FileDescriptor;
  thread_data : FileDescriptor;
  thread : Thread A;
  eventloop : list (Rule K (Thread A));
  joinable : bool;
  abort : bool
}.

Definition set_thread (rules : list (Rule K (Thread A))) (t : Thread A) (s : TCPSpongeSocket)
    : TCPSpongeSocket :=
  mkSocket (data_socket s) (thread_data s) t rules (joinable s) (abort s).
Definition set_joinable (j : bool) (s : TCPSpongeSocket) : TCPSpongeSocket :=
  mkSocket (data_socket s) (thread_data s) (thread s) (eventloop s) j (abort s).
Definition set_abort (s : TCPSpongeSocket) : TCPSpongeSocket :=
  mkSocket (data_socket s) (thread_data s) (thread s) (eventloop s) (joinable s) true.

(** [socket_pair_helper] *)
Definition socket_pair_helper (type : Z) : IO K (FileDescriptor * FileDescriptor) :=
  '(r, (fd0, fd1)) ← syscall (Socket.sys_socketpair Socket.AF_UNIX type);
  _ ← lift (SystemCall r 0);
  h0 ← construct fd0;
  h1 ← construct fd1;
  mret (h0, h1).

(** The two constructors. *)
Definition of_pair (data_socket_pair : FileDescriptor * FileDescriptor) (datagram_interface : A)
    : IO K TCPSpongeSocket :=
  own ← Socket.LocalStreamSocket_of (fst data_socket_pair);
  thread_data ← Socket.LocalStreamSocket_of (snd data_socket_pair);
  _ ← set_blocking false thread_data;
  mret (mkSocket own thread_data (mkThread None datagram_interface false false false) [] false false).
Definition sponge_socket (datagram_interface : A) : IO K TCPSpongeSocket :=
  p ← socket_pair_helper Socket.SOCK_STREAM;
  of_pair p datagram_interface.

(** The states in which [connect] and [listen_and_accept] keep waiting. *)
Definition in_state (states : list TCPState.State) (t : Thread A) : bool :=
  when_tcp (fun c => existsb (fun s => TCPState.eqb (TCPConnection.state c) (TCPState.of_state s))
                       states) t.

(** [TCPSpongeSocket::connect] *)
Definition connect (c_tcp : TCPSender.TCPConfig) (c_ad : FdAdapterConfig) (random base_time : Z)
    (env : list (bool * Z)) (s : TCPSpongeSocket) : IO K (bool * TCPSpongeSocket) :=
  match tcp (thread s) with
  | Some _ => throw runtime_error
  | None =>
      '(rules, t) ← initialize_TCP c_tcp random (thread_data s) (thread s) (eventloop s);
      let t := set_adapter (ad_set_config c_ad (datagram_adapter t)) t in
      c ← the_tcp t;
      let t := set_tcp (TCPConnection.connect c) t in
      if negb (in_state [TCPState.SYN_SENT] t) then throw runtime_error else
      '(ended, rules, t) ← tcp_loop (in_state [TCPState.SYN_SENT]) base_time env rules t;
      let s := set_thread rules t s in
      mret (ended, if ended : bool then set_joinable true s else s)
  end.

(** [TCPSpongeSocket::listen_and_accept] *)
Definition listen_and_accept (c_tcp : TCPSender.TCPConfig) (c_ad : FdAdapterConfig)
    (random base_time : Z) (env : list (bool * Z)) (s : TCPSpongeSocket)
    : IO K (bool * TCPSpongeSocket) :=
  match tcp (thread s) with
  | Some _ => throw runtime_error
  | None =>
      '(rules, t) ← initialize_TCP c_tcp random (thread_data s) (thread s) (eventloop s);
      let t := set_adapter (ad_set_listening true (ad_set_config c_ad (datagram_adapter t))) t in
      '(ended, rules, t) ←
        tcp_loop (in_state [TCPState.LISTEN; TCPState.SYN_RCVD; TCPState.SYN_SENT])
          base_time env rules t;
      let s := set_thread rules t s in
      mret (ended, if ended : bool then set_joinable true s else s)
  end.

(** [_tcp_main], the body of the thread. *)
Definition tcp_main (base_time : Z) (env : list (bool * Z)) (s : TCPSpongeSocket)
    : IO K (bool * TCPSpongeSocket) :=
  match tcp (thread s) with
  | None => throw runtime_error
  | Some _ =>
      '(ended, rules, t) ← tcp_loop (fun _ => true) base_time env (eventloop s) (thread s);
      if ended : bool then
        _ ← Socket.shutdown Socket.SHUT_RDWR (data_socket s);
        mret (true, set_thread rules (mkThread None (datagram_adapter t) (inbound_shutdown t)
                                        (outbound_shutdown t) (fully_acked t)) s)
      else mret (false, set_thread rules t s)
  end.

(** [wait_until_closed] and the destructor, for the owner; joining the thread has no
    other effect on the owner's side than that it is not joinable any more. *)
Definition wait_until_closed (s : TCPSpongeSocket) : IO K TCPSpongeSocket :=
  _ ← Socket.shutdown Socket.SHUT_RDWR (data_socket s);
  mret (set_joinable false s).
Definition destruct_socket (s : TCPSpongeSocket) : TCPSpongeSocket :=
  if joinable s then set_joinable false (set_abort s) else s.

End Rules.

(** ** The ready-made sockets *)
Section Ready.
Context {K : Type} `{NetKernel K} `{Resolver}.

(** 169.254.144.9, 169.254.10.9 and 169.254.10.1 *)
Definition CS144_ADDRESS : Z := 2852032521.
Definition LOCAL_TAP_IP_ADDRESS : Z := 2851998217.
Definition LOCAL_TAP_NEXT_HOP_ADDRESS : Z := 2851998209.

(** [FdAdapterBase] with the default configuration. *)
Definition default_base : result FdAdapterBase :=
  zero ← Adapters.make_address 0 0;
  Ok (Adapters.mkAdapter (Adapters.mkConfig zero zero 0 0) false).

(** The configurations of both: a retransmission time-out of 100 ms, and a random
    source port. *)
Definition quick_config : TCPSender.TCPConfig :=
  TCPSender.mkTCPConfig 100 TCPSender.DEFAULT_CAPACITY TCPSender.DEFAULT_CAPACITY None.
Definition multiplexer_config (source_ip random_port : Z) (address : Address)
    : result FdAdapterConfig :=
  source ← Adapters.make_address source_ip (u16 random_port);
  Ok (Adapters.mkConfig source address 0 0).

Definition CS144TCPSocket : IO K (TCPSpongeSocket (K := K) (A := Device FdAdapterBase)) :=
  tun ← Socket.TunFD (String.list_ascii_of_string "tun144");
  b ← lift default_base;
  sponge_socket (mkDevice b tun).

Definition CS144TCPSocket_connect (address : Address) (random_port random base_time : Z)
    (env : list (bool * Z)) (s : TCPSpongeSocket (K := K) (A := Device FdAdapterBase))
    : IO K (bool * TCPSpongeSocket) :=
  c_ad ← lift (multiplexer_config CS144_ADDRESS random_port address);
  connect (Ad := tun_device) quick_config c_ad random base_time env s.

(** [random_private_ethernet_address], from six random bytes. *)
Definition random_private_ethernet_address (random : list byte) : Ethernet.EthernetAddress :=
  match random with
  | b :: rest => byte.of_Z (Z.land (Z.lor (byte.unsigned b) 2) 254) :: rest
  | [] => []
  end.

Definition FullStackSocket (random : list byte)
    : IO K (TCPSpongeSocket (K := K) (A := Device EthernetAdapter)) :=
  tap ← Socket.TapFD (String.list_ascii_of_string "tap10");
  b ← lift default_base;
  own ← lift (Adapters.make_address LOCAL_TAP_IP_ADDRESS 0);
  next_hop ← lift (Adapters.make_address LOCAL_TAP_NEXT_HOP_ADDRESS 0);
  d ← eth_device_new tap b (random_private_ethernet_address random) own next_hop;
  sponge_socket d.

Definition FullStackSocket_connect (garbage : Z) (address : Address) (random_port random base_time : Z)
    (env : list (bool * Z)) (s : TCPSpongeSocket (K := K) (A := Device EthernetAdapter))
    : IO K (bool * TCPSpongeSocket) :=
  c_ad ← lift (multiplexer_config LOCAL_TAP_IP_ADDRESS random_port address);
  connect (Ad := eth_device garbage) quick_config c_ad random base_time env s.

End Ready.

(** ** What the operations of a connection leave alone *)

(** The input of the outgoing stream is not ended, and the count of retransmissions
    stays or is reset. *)
Definition calm (s s' : TCPSender.TCPSender) : Prop :=
  ByteStream.bs_end (TCPSender.stream s') = ByteStream.bs_end (TCPSender.stream s) /\
  (TCPSender.consecutive_retrans_v s' = TCPSender.consecutive_retrans_v s \/
   TCPSender.consecutive_retrans_v s' = 0).

#[local] Instance calm_preorder : PreOrder calm.
Proof.
  split.
  - intros s. split; [done|by left].
  - intros s1 s2 s3 [E1 R1] [E2 R2]. split; [congruence|].
    destruct R1, R2; first [right; congruence|left; congruence].
Qed.

Lemma fill_body_calm s : calm s (fst (TCPSender.fill_body s)).
Proof.
  assert (Hq : forall seg b e, ByteStream.bs_end b = ByteStream.bs_end (TCPSender.stream s) ->
    calm s (TCPSender.enqueue seg b e s)).
  { intros seg b e Hb. unfold TCPSender.enqueue. destruct (negb _); (split; [done|by left]). }
  unfold TCPSender.fill_body. destruct (TCPSender.eof s); [done|].
  destruct (_ || _); [done|]. cbv zeta. destruct (_ && _); [done|].
  match goal with |- context [ByteStream.read ?n (TCPSender.stream s)] => generalize n end.
  intros n. destruct (ByteStream.read n (TCPSender.stream s)) as [data b] eqn:Er.
  assert (ByteStream.bs_end b = ByteStream.bs_end (TCPSender.stream s)) by by injection Er as _ <-.
  destruct (_ <? _); by apply Hq.
Qed.

Lemma fill_window_calm s : calm s (TCPSender.fill_window s).
Proof.
  unfold TCPSender.fill_window. generalize (TCPSender.fill_fuel s). intros fuel. revert s.
  induction fuel as [|fuel IH]; intros s; [done|]. cbn [TCPSender.fill_loop].
  pose proof (fill_body_calm s) as Hb. destruct (TCPSender.fill_body s) as [s' []]; [|done].
  by etrans; [exact Hb|apply IH].
Qed.

Lemma ack_received_calm a n s : calm s (snd (TCPSender.ack_received a n s)).
Proof.
  unfold TCPSender.ack_received. destruct (_ <? _); [by split; [|left]|].
  destruct (_ <? _); [by split; [|left]|].
  destruct (_ =? _); (etrans; [|apply fill_window_calm]); [by split; [|left]|].
  unfold TCPSender.accept_ack. destruct (negb _); (split; [done|by right]).
Qed.

Lemma segment_received_calm seg c c' :
  TCPConnection.segment_received seg c = Ok c' ->
  calm (TCPConnection.sender c) (TCPConnection.sender c').
Proof.
  unfold TCPConnection.segment_received. destruct (TCPHeader.rst _).
  { intros [= <-]. by split; [|left]. }
  destruct (negb _ && _); [by intros [= <-]|].
  set (c1 := if _ && _ then TCPConnection.set_linger false _ else _).
  assert (E1 : TCPConnection.sender c1 = TCPConnection.sender c)
    by (subst c1; by destruct (_ && _)).
  clearbody c1. set (x := if TCPHeader.ack _ then _ else _).
  assert (Hx : calm (TCPConnection.sender c) (snd x)).
  { subst x. rewrite E1. destruct (TCPHeader.ack _); [apply ack_received_calm|apply fill_window_calm]. }
  destruct x as [ok s]. cbn [snd] in Hx. intros E.
  apply result_bind_Ok in E as ([pc r] & _ & E).
  destruct (_ && _ && ok); [by injection E as <-|]. injection E as <-.
  destruct Hx as [Hx1 Hx2]. destruct (_ && _); (split; [exact Hx1|exact Hx2]).
Qed.

(** The connection was never reset, or it may still be sent to. *)
Definition patient (c : TCPConnection) : Prop :=
  TCPConnection.rst c = false -> 0 <= TCPSender.consecutive_retrans_v (TCPConnection.sender c) <= 8.

Definition quiet_op (o : TCPConnection.op) : Prop :=
  match o with TCPConnection.EndInput | TCPConnection.Tick _ => False | _ => True end.

Lemma quiet_op_calm o c c' :
  quiet_op o -> TCPConnection.apply_op o c = Ok c' ->
  calm (TCPConnection.sender c) (TCPConnection.sender c').
Proof.
  destruct o; cbn [quiet_op TCPConnection.apply_op]; intros Hq E; try done; try injection E as <-.
  - unfold TCPConnection.connect. etrans; [apply fill_window_calm|]. by split; [|left].
  - match goal with |- context [TCPSender.fill_window ?s] => pose proof (fill_window_calm s) as [H1 H2] end.
    split; [exact H1|exact H2].
  - by eapply segment_received_calm.
  - unfold TCPConnection.read. by destruct (ByteStream.read len (TCPConnection.inbound_stream c)).
  - done.
Qed.

Lemma op_rst_kept o c c' :
  TCPConnection.apply_op o c = Ok c' -> TCPConnection.rst c' = false -> TCPConnection.rst c = false.
Proof.
  intros E Hr. destruct (TCPConnection.rst c) eqn:Hc; [|done].
  by rewrite (TCPConnection.rst_kept o c c' E Hc) in Hr.
Qed.

Lemma calm_patient o c c' :
  TCPConnection.apply_op o c = Ok c' -> calm (TCPConnection.sender c) (TCPConnection.sender c') ->
  patient c -> patient c'.
Proof.
  intros E [_ Hc] Hp Hr. specialize (Hp (op_rst_kept o c c' E Hr)). lia.
Qed.

Lemma end_input_patient c : patient c -> patient (TCPConnection.end_input_stream c).
Proof.
  intros Hp Hr. specialize (Hp Hr). unfold TCPConnection.end_input_stream. cbn.
  destruct (fill_window_calm (TCPSender.set_stream (ByteStream.end_input
    (TCPSender.stream_in (TCPConnection.sender c))) (TCPConnection.sender c))) as [_ Hc].
  cbn in Hc. lia.
Qed.

Lemma tick_calm ms s s' :
  TCPSender.tick ms s = Ok s' -> 0 <= TCPSender.consecutive_retrans_v s <= 8 ->
  ByteStream.bs_end (TCPSender.stream s') = ByteStream.bs_end (TCPSender.stream s) /\
  0 <= TCPSender.consecutive_retrans_v s' <= 9.
Proof.
  unfold TCPSender.tick. cbv zeta. intros E Hk.
  destruct (TCPSender.active _); [|injection E as <-; cbn; by split; [|lia]].
  destruct (TCPSender.timeout _); [|injection E as <-; cbn; by split; [|lia]].
  destruct (TCPSender.unacked _); [done|]. injection E as <-. cbn. split; [done|].
  rewrite u32_id; lia.
Qed.

Lemma connection_tick_patient ms c c' :
  TCPConnection.tick ms c = Ok c' -> TCPConnection.rst c = false -> patient c ->
  patient c' /\ ByteStream.bs_end (TCPSender.stream (TCPConnection.sender c'))
                = ByteStream.bs_end (TCPSender.stream (TCPConnection.sender c)).
Proof.
  intros E Hr Hp. specialize (Hp Hr). unfold TCPConnection.tick in E.
  apply result_bind_Ok in E as (s & Es & E). cbv zeta in E.
  destruct (tick_calm ms _ s Es Hp) as [Hend Hk].
  apply result_bind_Ok in E as (c2 & E2 & E). injection E as <-. revert E2. unfold TCPSender.MAX_RETX_ATTEMPTS.
  unfold TCPSender.consecutive_retransmissions. cbn [TCPConnection.sender TCPConnection.set_sender TCPConnection.set_times].
  case_Z.
  - intros E2. pose proof (TCPConnection.rst_segment_ok (TCPConnection.kill (TCPConnection.set_times
      (u64 (TCPConnection.time (TCPConnection.set_sender s c) + ms))
      (TCPConnection.last_segment_time (TCPConnection.set_sender s c)) (TCPConnection.set_sender s c))))
      as (c3 & E3 & _ & Hr3).
    rewrite E3 in E2. injection E2 as ->. split.
    + intros Hx. cbn in Hx. rewrite Hr3 in Hx. done.
    + unfold TCPConnection.rst_segment in E3. cbn -[size] in E3.
      destruct (TCPSender.segments_out _) eqn:Eq; [done|]. injection E3 as <-. cbn.
      by destruct (size _ =? 0).
  - intros [= <-]. cbn. split; [intros _; cbn; lia|done].
Qed.

(** ** What adapters promise *)

Section Confined.
Context {K : Type} `{Laws : NetLaws K}.
Implicit Types (w : world K) (s : Shared).

(** All that has happened is that the descriptor [d] was used. *)
Definition confined (d : FileDescriptor) s w w' : Prop :=
  touched d s w w' /\
  forall x, x <> fd (wrapper s) ->
    taken (kernel w') x = taken (kernel w) x /\ given (kernel w') x = given (kernel w) x.

Definition any (_ : exn) : Prop := True.

Lemma confined_refl d s w : heap w !! d = Some s -> confined d s w w.
Proof using Type.
  intros Hs. split; [|done]. exists (wrapper s). split; [done|].
  symmetry. apply insert_id. by destruct s.
Qed.

Lemma confined_touch d s w w' i o wr :
  transferred (fd (wrapper s)) i o w w' ->
  heap w' = <[d := mkShared wr (use_count s)]> (heap w) -> fd wr = fd (wrapper s) ->
  confined d s w w'.
Proof using Type.
  intros [Ht Hg] Hh Hf. split; [by exists wr|]. intros x Hx.
  rewrite Ht, Hg, !decide_False by done. by rewrite !app_nil_r.
Qed.

(** A step of a device is followed by another one. *)
Lemma confined_bind {X Y} d s w (m : IO K X) (f : X -> IO K Y) Q :
  outcome m w (fun x w' => confined d s w w' /\
    forall s', heap w' !! d = Some s' -> outcome (f x) w' (fun y w2 => confined d s' w' w2 /\ Q y) any)
    any ->
  outcome (m ≫= f) w (fun y w2 => confined d s w w2 /\ Q y) any.
Proof using Type.
  intros Hm. apply outcome_bind. eapply outcome_mono; [exact Hm| |done].
  intros x w' [[(wr & Hf & Hh) Hx] Hk]. specialize (Hk (mkShared wr (use_count s))).
  rewrite Hh, lookup_insert_eq in Hk. eapply outcome_mono; [by apply Hk| |done].
  intros y w2 [[Ht2 Hx2] HQ]. split; [|done]. split; [by apply (touched_trans d s w w' w2 wr)|].
  intros z Hz. cbn in Hx2. rewrite Hf in Hx2. destruct (Hx z Hz), (Hx2 z Hz). split; congruence.
Qed.

Lemma confined_ret {X} d s w (x : X) (Q : X -> Prop) :
  heap w !! d = Some s -> Q x -> outcome (mret x) w (fun y w' => confined d s w w' /\ Q y) any.
Proof using Type. intros Hs HQ. split; [by apply confined_refl|done]. Qed.

Lemma confined_lift {X} d s w (r : result X) (Q : X -> Prop) :
  heap w !! d = Some s -> (forall x, r = Ok x -> Q x) ->
  outcome (lift r) w (fun y w' => confined d s w w' /\ Q y) any.
Proof using Type.
  intros Hs HQ. unfold outcome, lift. destruct r as [x|e]; [|done]. cbn.
  split; [by apply confined_refl|by apply HQ].
Qed.

Lemma read_confined limit h w s :
  heap w !! h = Some s -> 0 <= limit ->
  outcome (read limit h) w (fun _ w' => confined h s w w') any.
Proof using Type.
  intros Hs Hl. eapply outcome_mono; [by apply read_outcome| |done].
  intros data w' (_ & Ht & Hh). by eapply confined_touch.
Qed.

Lemma write_once_confined b h w s :
  heap w !! h = Some s ->
  outcome (write_once b h) w (fun _ w' => confined h s w w') any.
Proof using Type.
  intros Hs. unfold write_once. apply outcome_bind. eapply get_outcome; [done|].
  apply outcome_bind. unfold outcome at 1, syscall.
  pose proof (sys_writev_law (fd (wrapper s)) (Buffer.as_iovecs b) (kernel w)) as Law.
  destruct (sys_writev _ _ _) as [r k']. destruct Law as (Lt & Lo & _).
  apply outcome_bind. unfold outcome at 1, lift. destruct (SystemCall r 0) as [n|]; [|done].
  cbn [mbind result_bind]. destruct (_ && _); [done|]. destruct (_ <? _); [done|].
  apply outcome_bind. apply modify_outcome with (s := s); [exact Hs|].
  apply outcome_bind. unfold outcome at 1, lift. destruct (Buffer.bvl_remove_prefix _ _); [|done].
  unfold outcome. cbn. split; [by exists (register_write (wrapper s))|].
  intros x Hx. cbn. split; [apply Lt|by apply Lo].
Qed.

Lemma write_confined b all h w s :
  heap w !! h = Some s -> outcome (write b all h) w (fun _ w' => confined h s w w') any.
Proof using Type.
  unfold write. generalize (S (Z.to_nat (Buffer.bvl_size b))), 0. intros fuel. revert b w s.
  induction fuel as [|fuel IH]; intros b w s total Hs; [done|]. cbn [write_loop].
  eapply outcome_mono; [apply (confined_bind h s w _ _ (fun _ => True))| |done].
  2: { by intros y w2 [Hc _]. }
  eapply outcome_mono; [by apply write_once_confined| |done].
  intros [n b'] w' Hc. split; [done|]. intros s' Hs'.
  destruct (_ && _); [|by apply confined_ret].
  eapply outcome_mono; [by apply IH| |done]. done.
Qed.

Lemma recv_confined mtu h w s :
  heap w !! h = Some s -> 0 <= mtu ->
  outcome (Socket.recv mtu h) w (fun _ w' => confined h s w w') any.
Proof using Laws.
  intros Hs Hm. eapply outcome_mono; [by apply Socket.recv_whole_datagram| |done].
  intros d w' (_ & _ & Ht & Hh). by eapply confined_touch.
Qed.

Lemma sendto_confined a b h w s :
  heap w !! h = Some s -> outcome (Socket.sendto a b h) w (fun _ w' => confined h s w w') any.
Proof using Laws.
  intros Hs. unfold Socket.sendto, Socket.sendmsg_helper. apply outcome_bind, outcome_bind.
  eapply get_outcome; [done|]. apply outcome_bind. unfold outcome at 1, syscall.
  pose proof (Socket.sys_sendmsg_law (fd (wrapper s))
    (Some (Address.storage a, Address.addr_size a)) (Buffer.as_iovecs b) (kernel w)) as Law.
  destruct (Socket.sys_sendmsg _ _ _ _) as [r k']. destruct Law as (Lx & _).
  apply outcome_bind. unfold outcome at 1, lift. destruct (SystemCall r 0) as [n|]; [|done].
  cbn [mbind result_bind]. destruct (negb _); [done|]. unfold outcome at 1. cbn [mret io_ret].
  apply modify_outcome with (s := s); [exact Hs|].
  split; [by exists (register_write (wrapper s))|]. intros x _. apply Lx.
Qed.

End Confined.

(** The calls of an adapter use its own descriptor and nothing else, and the segments
    it reads have a 16-bit window. *)
Class AdapterLaws (K A : Type) `{NetLaws K} `{Ad : DatagramAdapter K A} : Prop := {
  ad_read_law (a : A) (w : world K) s : heap w !! ad_fd a = Some s ->
    outcome (ad_read a) w (fun '(seg, a') w' => confined (ad_fd a) s w w' /\ ad_fd a' = ad_fd a /\
      forall g, seg = Some g -> TCPHeader.in_range (TCPSegment.header g)) any;
  ad_write_law g (a : A) (w : world K) s : heap w !! ad_fd a = Some s ->
    outcome (ad_write g a) w (fun a' w' => confined (ad_fd a) s w w' /\ ad_fd a' = ad_fd a) any;
  ad_tick_law ms (a : A) (w : world K) s : heap w !! ad_fd a = Some s ->
    outcome (ad_tick ms a) w (fun a' w' => confined (ad_fd a) s w w' /\ ad_fd a' = ad_fd a) any;
  ad_config_law c (a : A) : ad_fd (ad_set_config c a) = ad_fd a;
  ad_listening_law l (a : A) : ad_fd (ad_set_listening l a) = ad_fd a
}.

Section AdapterInstances.
Context {K : Type} `{Laws : NetLaws K} `{Resolver}.

#[export] Instance udp_device_laws : AdapterLaws (Ad := udp_device) K (Device FdAdapterBase).
Proof using Laws.
  constructor; try done.
  - intros a w s Hs. cbn [ad_read ad_fd udp_device] in *. unfold udp_device_read.
    eapply outcome_mono; [apply (confined_bind (device a) s w _ _ (fun '(seg, a') => device a' = device a /\
      forall g, seg = Some g -> TCPHeader.in_range (TCPSegment.header g)))| |done].
    2: { by intros [seg a'] w2 [Hc [Hd Hg]]. }
    eapply outcome_mono; [by apply recv_confined| |done]. intros d w' Hc. split; [done|].
    intros s' Hs'. apply confined_bind.
    eapply outcome_mono; [apply (confined_lift (device a) s' w' _ (fun '(seg, _) =>
      forall g, seg = Some g -> TCPHeader.in_range (TCPSegment.header g))); [done|]| |done].
    + intros [seg b] E g ->. by eapply Adapters.udp_read_range.
    + intros [seg b] w2 [Hc2 Hg]. split; [done|]. intros s2 Hs2. by apply confined_ret.
  - intros g a w s Hs. cbn [ad_write ad_fd udp_device] in *. unfold udp_device_write.
    apply (confined_bind (device a) s w _ _ (fun a' => device a' = device a)).
    eapply outcome_mono; [by apply (confined_lift (device a) s w _ (fun _ => True))| |done].
    intros [[dst payload] seg] w' [Hc _]. split; [done|]. intros s' Hs'. apply confined_bind.
    eapply outcome_mono; [by apply sendto_confined| |done]. intros u w2 Hc2. split; [done|].
    intros s2 Hs2. by apply confined_ret.
  - intros ms a w s Hs. cbn in *. by apply confined_ret.
Qed.

#[export] Instance tun_device_laws : AdapterLaws (Ad := tun_device) K (Device FdAdapterBase).
Proof using Laws.
  constructor; try done.
  - intros a w s Hs. cbn [ad_read ad_fd tun_device] in *. unfold tun_device_read.
    eapply outcome_mono; [apply (confined_bind (device a) s w _ _ (fun '(seg, a') => device a' = device a /\
      forall g, seg = Some g -> TCPHeader.in_range (TCPSegment.header g)))| |done].
    2: { by intros [seg a'] w2 [Hc [Hd Hg]]. }
    eapply outcome_mono; [by apply read_confined| |done]. intros d w' Hc. split; [done|].
    intros s' Hs'. apply confined_bind.
    eapply outcome_mono; [apply (confined_lift (device a) s' w' _ (fun '(seg, _) =>
      forall g, seg = Some g -> TCPHeader.in_range (TCPSegment.header g))); [done|]| |done].
    + intros [seg b] E g ->. by eapply Adapters.tun_read_range.
    + intros [seg b] w2 [Hc2 Hg]. split; [done|]. intros s2 Hs2. by apply confined_ret.
  - intros g a w s Hs. cbn [ad_write ad_fd tun_device] in *. unfold tun_device_write.
    apply (confined_bind (device a) s w _ _ (fun a' => device a' = device a)).
    eapply outcome_mono; [by apply (confined_lift (device a) s w _ (fun _ => True))| |done].
    intros [data seg] w' [Hc _]. split; [done|]. intros s' Hs'. apply confined_bind.
    eapply outcome_mono; [by apply write_confined| |done]. intros u w2 Hc2. split; [done|].
    intros s2 Hs2. by apply confined_ret.
  - intros ms a w s Hs. cbn in *. by apply confined_ret.
Qed.

Lemma tap_sent_confined e h w s :
  heap w !! h = Some s ->
  outcome (tap_sent e h) w (fun d w' => confined h s w w' /\ device d = h) any.
Proof using Laws.
  intros Hs. unfold tap_sent. apply confined_bind.
  generalize (Adapters.tap_out e). intros frames. revert w s Hs.
  assert (Hf : forall w s, heap w !! h = Some s ->
    outcome (tap_flush frames h) w (fun _ w' => confined h s w w' /\ True) any).
  { induction frames as [|f frames IH]; intros w s Hs; [by apply confined_ret|].
    cbn [tap_flush]. apply confined_bind.
    eapply outcome_mono; [by apply write_confined| |done]. intros u w' Hc. split; [done|]. auto. }
  intros w s Hs. eapply outcome_mono; [by apply Hf| |done]. intros u w' [Hc _]. split; [done|].
  intros s' Hs'. by apply confined_ret.
Qed.

#[export] Instance eth_device_laws garbage :
  AdapterLaws (Ad := eth_device garbage) K (Device EthernetAdapter).
Proof using Laws.
  constructor; try done.
  - intros a w s Hs. cbn [ad_read ad_fd eth_device] in *. unfold eth_device_read.
    eapply outcome_mono; [apply (confined_bind (device a) s w _ _ (fun '(seg, a') => device a' = device a /\
      forall g, seg = Some g -> TCPHeader.in_range (TCPSegment.header g)))| |done].
    2: { by intros [seg a'] w2 [Hc [Hd Hg]]. }
    eapply outcome_mono; [by apply read_confined| |done]. intros d w' Hc. split; [done|].
    intros s' Hs'. apply confined_bind.
    eapply outcome_mono; [apply (confined_lift (device a) s' w' _ (fun '(seg, _) =>
      forall g, seg = Some g -> TCPHeader.in_range (TCPSegment.header g))); [done|]| |done].
    + intros [seg e] E g ->. by eapply Adapters.eth_read_range.
    + intros [seg e] w2 [Hc2 Hg]. split; [done|]. intros s2 Hs2. apply confined_bind.
      eapply outcome_mono; [by apply tap_sent_confined| |done].
      intros d' w3 [Hc3 Hd3]. split; [done|]. intros s3 Hs3. by apply confined_ret.
  - intros g a w s Hs. cbn [ad_write ad_fd eth_device] in *. unfold eth_device_write.
    apply (confined_bind (device a) s w _ _ (fun a' => device a' = device a)).
    eapply outcome_mono; [by apply (confined_lift (device a) s w _ (fun _ => True))| |done].
    intros [seg e] w' [Hc _]. split; [done|]. intros s' Hs'. by apply tap_sent_confined.
  - intros ms a w s Hs. by apply tap_sent_confined.
Qed.

End AdapterInstances.

(** ** The thread runs the connection for its owner *)

(** The operation by which an application takes bytes from the incoming stream. *)
Definition reads (o : TCPConnection.op) : bool :=
  match o with TCPConnection.Read _ => true | _ => false end.

(** A run of a connection by an application: [W] is all that it has written and [R] all
    that it has read so far.  Nothing leaves the incoming stream without being added to [R]. *)
Inductive thread_step : bytes * bytes * TCPConnection -> bytes * bytes * TCPConnection -> Prop :=
  | thread_op W R c o c' :
      reads o = false -> TCPConnection.op_ok o W c -> TCPConnection.apply_op o c = Ok c' ->
      thread_step (W, R, c) (TCPConnection.written o W c, R, c')
  | thread_read W R c len :
      thread_step (W, R, c)
        (W, R ++ fst (TCPConnection.read len c), snd (TCPConnection.read len c)).

Lemma thread_run_steps x y :
  rtc thread_step x y -> rtc TCPConnection.step (x.1.1, x.2) (y.1.1, y.2).
Proof.
  apply (rtc_congruence (fun x => (x.1.1, x.2))). intros a b Hs. destruct Hs; cbn.
  - by constructor.
  - by apply (TCPConnection.step_op W c (TCPConnection.Read len)).
Qed.

Section Refinement.
Context {K A : Type} `{AL : AdapterLaws K A}.
Variables (h d : FileDescriptor) (n : Z) (k : TCPSender.TCPConfig) (random : Z) (w0 : world K).
Implicit Types (w : world K) (t : Thread A) (c : TCPConnection).

(** The thread has run its connection as an application would that writes what comes
    from the owner and hands what it reads to the owner. *)
Definition relays t w : Prop := exists c W R,
  tcp t = Some c /\ rtc thread_step ([], [], TCPConnection.construct k random) (W, R, c) /\
  taken (kernel w) n = taken (kernel w0) n ++ W /\ given (kernel w) n = given (kernel w0) n ++ R /\
  patient c /\
  (outbound_shutdown t = false ->
     ByteStream.bs_end (TCPSender.stream (TCPConnection.sender c)) = false).

(** The theory of the sender is for streams of less than 2^62 bytes. *)
Record thread_inv t w : Prop := {
  inv_fd : ad_fd (datagram_adapter t) = d;
  inv_number : numbered w h n;
  inv_other : forall s, heap w !! d = Some s -> fd (wrapper s) <> n;
  inv_relays : size (taken (kernel w) n) < 4611686018427387904 -> relays t w
}.

Definition thread_own (x : FileDescriptor) : nat := if bool_decide (x = h \/ x = d) then 1 else 0.

Lemma thread_own_all : (0 < thread_own h /\ 0 < thread_own d)%nat.
Proof using Type. unfold thread_own. rewrite !bool_decide_true by auto. lia. Qed.

(** A step of the adapter does not touch the owner's side. *)
Lemma confined_frame s t t' w w' :
  heap w !! d = Some s -> thread_inv t w -> confined d s w w' -> ad_fd (datagram_adapter t') = d ->
  (relays t w -> relays t' w') -> thread_inv t' w' /\ refs_kept w w'.
Proof using Type.
  intros Hs [I1 I2 I3 I4] [Ht Hx] Hd Hr. pose proof (same_fds_touched _ _ _ _ Hs Ht) as Hf.
  destruct (Hx n) as [Et _]; [intros E; by apply (I3 s Hs)|].
  split; [|by eapply touched_kept]. constructor; [done|by eapply numbered_same| |].
  - intros s' Hs'. destruct (Hf d s' Hs') as (s2 & Hs2 & <-). by apply I3.
  - rewrite Et. auto.
Qed.

Lemma confined_histories s t w w' :
  heap w !! d = Some s -> thread_inv t w -> confined d s w w' ->
  taken (kernel w') n = taken (kernel w) n /\ given (kernel w') n = given (kernel w) n.
Proof using Type. intros Hs Hi [_ Hx]. apply Hx. intros E. by apply (inv_other _ _ Hi s Hs). Qed.

(** Operations by which the application neither writes nor reads. *)
Lemma relays_op t t' w w' c c' o :
  relays t w -> tcp t = Some c -> quiet_op o -> reads o = false ->
  (forall W, TCPConnection.op_ok o W c) -> (forall W, TCPConnection.written o W c = W) ->
  TCPConnection.apply_op o c = Ok c' ->
  taken (kernel w') n = taken (kernel w) n -> given (kernel w') n = given (kernel w) n ->
  tcp t' = Some c' -> outbound_shutdown t' = outbound_shutdown t -> relays t' w'.
Proof using Type.
  intros (c1 & W & R & Et & Hrun & HW & HR & Hp & He) Et' Hq Hrd Hok Hw E Ht Hg Hc' Ho.
  assert (c1 = c) as -> by congruence. pose proof (quiet_op_calm _ _ _ Hq E) as Hcalm.
  exists c', W, R. split; [done|]. split.
  - eapply rtc_r; [exact Hrun|]. rewrite <- (Hw W) at 2. by apply thread_op.
  - split; [congruence|]. split; [congruence|]. split; [by eapply calm_patient|].
    rewrite Ho. intros Hf. destruct Hcalm as [-> _]. auto.
Qed.

Lemma relays_same t t' w w' :
  relays t w -> tcp t' = tcp t -> outbound_shutdown t' = outbound_shutdown t ->
  taken (kernel w') n = taken (kernel w) n -> given (kernel w') n = given (kernel w) n ->
  relays t' w'.
Proof using Type.
  intros (c & W & R & Et & Hrest) E1 E2 E3 E4. exists c, W, R. rewrite E1, E2, E3, E4. done.
Qed.

Lemma rule1_ok o : takes thread_own any (rule1 h)
  (fun t w => thread_inv t w /\ outbound_shutdown t = o)
  (fun t w => thread_inv t w /\ outbound_shutdown t = o).
Proof using AL.
  intros t w [Hi Ho] Ha. destruct (Ha d) as [s Hs]; [apply thread_own_all|].
  pose proof (inv_fd _ _ Hi) as Hd. unfold rule1. apply outcome_bind.
  eapply outcome_mono; [apply ad_read_law; rewrite Hd; exact Hs| |done].
  intros [seg a] w' (Hc & Hfd & Hrange). rewrite Hd in Hc, Hfd. apply outcome_bind.
  unfold the_tcp. cbn [tcp set_adapter]. destruct (tcp t) as [c|] eqn:Et; [|done].
  unfold outcome at 1. cbn [mret io_ret]. apply outcome_bind.
  assert (Hpost : forall c' b, (relays t w -> relays (set_tcp c' t) w') ->
    outcome (wr ← get h; mret (if eof wr && b && negb (fully_acked t)
               then set_fully_acked (set_tcp c' (set_adapter a t))
               else set_tcp c' (set_adapter a t))) w'
      (fun t' w2 => (thread_inv t' w2 /\ outbound_shutdown t' = o) /\ refs_kept w w2) any).
  { intros c' b Hrel. apply outcome_bind. unfold outcome at 1, get.
    destruct (heap w' !! h); [|done]. unfold outcome. cbn [mret io_ret].
    assert (Hi' : forall t', ad_fd (datagram_adapter t') = d -> tcp t' = Some c' ->
      outbound_shutdown t' = o -> (thread_inv t' w' /\ outbound_shutdown t' = o) /\ refs_kept w w').
    { intros t' Hd' Hc' Ho'. destruct (confined_frame s t t' w w') as [? ?]; try done.
      intros Hr. apply Hrel in Hr. apply (relays_same _ _ w' w' Hr); [exact Hc'|by rewrite Ho', <- Ho|done|done]. }
    destruct (_ && _ && _); by apply Hi'. }
  destruct (confined_histories s t w w' Hs Hi Hc) as [Ht Hg].
  destruct seg as [g|]; [unfold outcome at 1, lift|].
  - destruct (TCPConnection.segment_received g c) as [c'|e] eqn:Es; [|done]. cbn [mbind result_bind].
    apply Hpost. intros Hr. eapply (relays_op t _ w w' c c' (TCPConnection.Segment g)); try done.
    intros W. apply TCPHeader.range_win. auto.
  - unfold outcome at 1. cbn [mret io_ret]. apply Hpost. intros Hr.
    by apply (relays_same t _ w w').
Qed.

(** A step on the owner's side does not touch the adapter. *)
Lemma owner_frame s t t' w w' :
  heap w !! h = Some s -> thread_inv t w -> touched h s w w' ->
  ad_fd (datagram_adapter t') = ad_fd (datagram_adapter t) ->
  (size (taken (kernel w') n) < 4611686018427387904 -> relays t' w') ->
  thread_inv t' w' /\ refs_kept w w'.
Proof using Type.
  intros Hs [I1 I2 I3 I4] Ht Hd Hr. pose proof (same_fds_touched _ _ _ _ Hs Ht) as Hf.
  split; [|by eapply touched_kept]. constructor; [congruence|by eapply numbered_same| |done].
  intros s' Hs'. destruct (Hf d s' Hs') as (s2 & Hs2 & <-). by apply I3.
Qed.

Lemma relays_end t w w' c :
  relays t w -> tcp t = Some c ->
  taken (kernel w') n = taken (kernel w) n -> given (kernel w') n = given (kernel w) n ->
  relays (set_outbound_shutdown (set_tcp (TCPConnection.end_input_stream c) t)) w'.
Proof using Type.
  intros (c1 & W & R & Et & Hrun & HW & HR & Hp & He) Et' Ht Hg.
  assert (c1 = c) as -> by congruence.
  exists (TCPConnection.end_input_stream c), W, R. split; [done|]. split.
  - eapply rtc_r; [exact Hrun|]. by apply (thread_op W R c TCPConnection.EndInput).
  - split; [congruence|]. split; [congruence|]. split; [by apply end_input_patient|done].
Qed.

Lemma rule2_ok : takes thread_own any (rule2 h)
  (fun t w => thread_inv t w /\ outbound_shutdown t = false) thread_inv.
Proof using AL.
  intros t w [Hi Ho] Ha. destruct (Ha h) as [s Hs]; [apply thread_own_all|].
  unfold rule2, the_tcp. apply outcome_bind. destruct (tcp t) as [c|] eqn:Et; [|done].
  unfold outcome at 1. cbn [mret io_ret]. apply outcome_bind.
  eapply outcome_mono; [apply read_outcome; [exact Hs|apply u64_range]| |done].
  intros data w' (_ & Htr & Hh). rewrite (inv_number _ _ Hi s Hs) in Htr.
  destruct (TCPConnection.write data c) as [amount c'] eqn:Ew.
  destruct (Z.eqb_spec amount (size data)) as [->|]; cbn [negb]; [|done].
  assert (Htouch : touched h s w w') by (eexists; split; [|exact Hh]; done).
  destruct Htr as [Ht Hg]. specialize (Ht n). specialize (Hg n).
  rewrite decide_True in Ht, Hg by done. rewrite app_nil_r in Hg.
  assert (Hrel : size (taken (kernel w') n) < 4611686018427387904 -> relays (set_tcp c' t) w').
  { intros Hb. rewrite Ht, size_app in Hb.
    destruct (inv_relays _ _ Hi) as (c1 & W & R & Et1 & Hrun & HW & HR & Hp & He); [size_lia|].
    assert (c1 = c) as -> by congruence.
    assert (Hop : TCPConnection.op_ok (TCPConnection.Write data) W c).
    { split; [auto|]. rewrite HW, size_app in Hb. size_lia. }
    assert (Happ : TCPConnection.apply_op (TCPConnection.Write data) c = Ok c').
    { cbn [TCPConnection.apply_op]. by rewrite Ew. }
    exists c', (W ++ data), R. split; [done|]. split.
    - eapply rtc_r; [exact Hrun|].
      pose proof (thread_op W R c (TCPConnection.Write data) c' eq_refl Hop Happ) as Hs1. cbn [TCPConnection.written] in Hs1.
      rewrite Ew in Hs1. cbn [fst] in Hs1. by rewrite substr0_all in Hs1.
    - split; [by rewrite Ht, HW, app_assoc|]. split; [congruence|].
      pose proof (quiet_op_calm (TCPConnection.Write data) _ _ I Happ) as Hcalm. split; [by eapply calm_patient|].
      intros _. destruct Hcalm as [-> _]. auto. }
  apply outcome_bind. unfold outcome at 1, get. rewrite Hh, lookup_insert_eq.
  unfold outcome. cbn [mret io_ret]. destruct (eof _);
    apply (owner_frame s t); try done.
  intros Hb. by apply (relays_end (set_tcp c' t) w' w' c' (Hrel Hb)).
Qed.

Lemma rule2_cancel_ok : takes thread_own any rule2_cancel thread_inv thread_inv.
Proof using Type.
  intros t w Hi Ha. unfold rule2_cancel, the_tcp. apply outcome_bind.
  destruct (tcp t) as [c|] eqn:Et; [|done]. unfold outcome. cbn [mret io_ret].
  split; [|apply refs_kept_refl]. destruct Hi as [I1 I2 I3 I4]. constructor; try done.
  intros Hb. by apply (relays_end t w w c (I4 Hb)).
Qed.

(** Bytes of the incoming stream are handed over. *)
Lemma relays_read t w w' c m :
  relays t w -> tcp t = Some c ->
  0 <= m <= ByteStream.buffer_size (TCPConnection.inbound_stream c) ->
  taken (kernel w') n = taken (kernel w) n ->
  given (kernel w') n = given (kernel w) n
    ++ take (Z.to_nat m) (ByteStream.content (TCPConnection.inbound_stream c)) ->
  relays (set_tcp (pop_inbound m c) t) w'.
Proof using Type.
  intros (c1 & W & R & Et & Hrun & HW & HR & Hp & He) Et' Hm Ht Hg.
  assert (c1 = c) as -> by congruence.
  assert (Hread : TCPConnection.read m c
    = (take (Z.to_nat m) (ByteStream.content (TCPConnection.inbound_stream c)), pop_inbound m c)).
  { unfold TCPConnection.read. rewrite ByteStream.read_peek_pop by lia. unfold pop_inbound. f_equal.
    unfold ByteStream.peek_output, substr0. case_Z; [|lia].
    unfold ByteStream.buffer_size in *. by rewrite Z.min_l by lia. }
  exists (pop_inbound m c), W, (R ++ fst (TCPConnection.read m c)). split; [done|]. split.
  - eapply rtc_r; [exact Hrun|]. pose proof (thread_read W R c m) as Hs.
    rewrite Hread in Hs |- *. exact Hs.
  - rewrite Hread. cbn [fst]. split; [congruence|].
    split; [by rewrite Hg, HR, app_assoc|]. done.
Qed.

Lemma rule3_ok : takes thread_own any (rule3 h) thread_inv thread_inv.
Proof using AL.
  intros t w Hi Ha. destruct (Ha h) as [s Hs]; [apply thread_own_all|].
  unfold rule3, the_tcp. apply outcome_bind. destruct (tcp t) as [c|] eqn:Et; [|done].
  unfold outcome at 1. cbn [mret io_ret]. cbv zeta.
  set (b := TCPConnection.inbound_stream c).
  set (amount := Z.min 65536 (ByteStream.buffer_size b)).
  assert (Hamount : 0 <= amount <= size (ByteStream.content b)).
  { unfold amount, ByteStream.buffer_size. size_lia. }
  assert (Hp : ByteStream.peek_output amount b = take (Z.to_nat amount) (ByteStream.content b)).
  { unfold ByteStream.peek_output, ByteStream.buffer_size, substr0.
    destruct (Z.leb_spec amount (size (ByteStream.content b))); [|lia]. by rewrite Z.min_l by lia. }
  rewrite Hp. unfold Buffer.bvl_of_view. apply outcome_bind.
  assert (Hsz : size (take (Z.to_nat amount) (ByteStream.content b)) = amount) by by apply size_take.
  eapply outcome_mono; [apply (write_outcome _ _ _ _ _ Hs); cbn; rewrite app_nil_r, Hsz; lia| |done].
  intros m w' (Hm & _ & _ & [Ht Hg] & j & _ & _ & Hh). cbn in Hm, Hg. rewrite app_nil_r in Hm, Hg.
  rewrite Hsz in Hm. rewrite take_take, Nat.min_l in Hg by lia.
  specialize (Ht n). specialize (Hg n). rewrite (inv_number _ _ Hi s Hs) in Ht, Hg.
  rewrite decide_True in Ht, Hg by done. rewrite app_nil_r in Ht.
  assert (Htouch : touched h s w w') by (eexists; split; [|exact Hh]; done).
  destruct (owner_frame s t (set_tcp (pop_inbound m c) t) w w' Hs Hi Htouch eq_refl) as [Hi' Hk].
  { intros Hb. rewrite Ht in Hb. apply (relays_read t w w' c m (inv_relays _ _ Hi Hb) Et); try done.
    unfold ByteStream.buffer_size. fold b. lia. }
  destruct (_ || _); [|done]. apply outcome_bind.
  set (s' := mkShared (after_writes j (wrapper s)) (use_count s)).
  assert (Hs' : heap w' !! h = Some s') by (rewrite Hh; apply lookup_insert_eq).
  eapply outcome_mono; [by apply Socket.shutdown_wr_outcome| |done].
  intros u w2 [Ht2 Hh2]. unfold outcome. cbn [mret io_ret].
  assert (Htouch2 : touched h s' w' w2) by (eexists; split; [|exact Hh2]; done).
  destruct (Ht2 n) as [Htt Hgg]. specialize (Htt n). specialize (Hgg n).
  rewrite decide_True in Htt, Hgg by done. rewrite app_nil_r in Htt, Hgg.
  destruct (owner_frame s' _ (set_inbound_shutdown (set_tcp (pop_inbound m c) t)) w' w2 Hs' Hi' Htouch2 eq_refl)
    as [Hi2 Hk2].
  { rewrite Htt. intros Hb. by apply (relays_same _ _ w' w2 (inv_relays _ _ Hi' Hb)). }
  split; [done|]. by eapply refs_kept_trans.
Qed.

Lemma write_segments_law q : forall (a : A) w s, heap w !! ad_fd a = Some s ->
  outcome (write_segments q a) w (fun a' w' => confined (ad_fd a) s w w' /\ ad_fd a' = ad_fd a) any.
Proof using AL.
  induction q as [|g q IH]; intros a w s Hs; [by apply confined_ret|].
  cbn [write_segments]. apply (confined_bind _ _ _ _ _ (fun a' => ad_fd a' = ad_fd a)).
  eapply outcome_mono; [by apply ad_write_law| |done]. intros a' w' [Hc Hd]. split; [done|].
  intros s' Hs'. rewrite <- Hd. by apply IH; rewrite Hd.
Qed.

Lemma rule4_ok : takes thread_own any rule4 thread_inv thread_inv.
Proof using AL.
  intros t w Hi Ha. destruct (Ha d) as [s Hs]; [apply thread_own_all|].
  pose proof (inv_fd _ _ Hi) as Hd. unfold rule4, the_tcp. apply outcome_bind.
  destruct (tcp t) as [c|] eqn:Et; [|done]. unfold outcome at 1. cbn [mret io_ret].
  apply outcome_bind.
  eapply outcome_mono; [apply write_segments_law; rewrite Hd; exact Hs| |done].
  intros a w' [Hc Hfd]. rewrite Hd in Hc, Hfd. unfold outcome. cbn [mret io_ret].
  destruct (confined_histories s t w w' Hs Hi Hc) as [Ht Hg].
  apply (confined_frame s t); [done..|]. intros Hr.
  eapply (relays_op t _ w w' c _ TCPConnection.Take); by try done.
Qed.

Lemma elapse_ok ms : takes thread_own any (elapse ms) thread_inv thread_inv.
Proof using AL.
  intros t w Hi Ha. unfold elapse. apply outcome_bind.
  destruct (tcp t) as [c|] eqn:Et; [|done]. unfold outcome at 1. cbn [mret io_ret].
  destruct (TCPConnection.active c) eqn:Hact; [|by split; [|apply refs_kept_refl]].
  apply outcome_bind. unfold outcome at 1, lift.
  destruct (TCPConnection.tick ms c) as [c'|e] eqn:Etick; [|done]. cbn [mbind result_bind].
  assert (Hi' : thread_inv (set_tcp c' t) w).
  { destruct Hi as [I1 I2 I3 I4]. constructor; try done. intros Hb.
    destruct (I4 Hb) as (c1 & W & R & Et1 & Hrun & HW & HR & Hp & He).
    assert (c1 = c) as -> by congruence.
    assert (Hr : TCPConnection.rst c = false).
    { unfold TCPConnection.active in Hact. by destruct (TCPConnection.rst c). }
    destruct (connection_tick_patient _ _ _ Etick Hr Hp) as [Hp' He'].
    exists c', W, R. split; [done|]. split.
    - eapply rtc_r; [exact Hrun|]. apply (thread_op W R c (TCPConnection.Tick ms)); [done| |done].
      specialize (Hp Hr). cbn. lia.
    - do 3 (split; [done|]). rewrite He'. auto. }
  destruct (Ha d) as [s Hs]; [apply thread_own_all|]. apply outcome_bind.
  pose proof (inv_fd _ _ Hi') as Hd.
  eapply outcome_mono; [apply ad_tick_law; rewrite Hd; exact Hs| |done].
  intros a w' [Hc Hfd]. rewrite Hd in Hc, Hfd. unfold outcome. cbn [mret io_ret].
  destruct (confined_histories s _ w w' Hs Hi' Hc) as [Ht Hg].
  apply (confined_frame s (set_tcp c' t)); [done..|]. intros Hr. by apply (relays_same _ _ w w' Hr).
Qed.

(** The rules, and what the second one relies on: the input has not ended. *)
Definition thread_rules : list (Rule K (Thread A)) :=
  [mkRule d In (rule1 h) interest1 mret;
   mkRule h In (rule2 h) interest2 rule2_cancel;
   mkRule h Out (rule3 h) interest3 mret;
   mkRule d Out rule4 interest4 mret].

Definition thread_pre (r : Rule K (Thread A)) t w : Prop :=
  rule_fd r = h -> direction r = In -> outbound_shutdown t = false.

Lemma takes_weaken own (E : exn -> Prop) (m : Thread A -> IO K (Thread A)) (P P' Q Q' : Thread A -> world K -> Prop) :
  takes own E m P Q -> (forall t w, P' t w -> P t w) -> (forall t w, Q t w -> Q' t w) ->
  takes own E m P' Q'.
Proof using Type.
  intros Hm HP HQ t w H' Ha. eapply outcome_mono; [by apply Hm; [apply HP|]| |done].
  intros t' w' [? ?]. auto.
Qed.

Lemma takes_mret own (E : exn -> Prop) (P : Thread A -> world K -> Prop) :
  takes own E mret P P.
Proof using Type. intros t w HP _. split; [done|apply refs_kept_refl]. Qed.

Definition the_rule2 : Rule K (Thread A) := mkRule h In (rule2 h) interest2 rule2_cancel.

(** Only the second rule relies on something. *)
Lemma thread_pre_other r t w :
  d <> h -> rule_fd r = d \/ direction r = Out -> thread_pre r t w.
Proof using Type. intros Hdh Hr E1 E2. destruct Hr; congruence. Qed.

Lemma rule_ok_other h' dir cb i :
  d <> h -> h' = d \/ h' = h /\ dir = Out -> takes thread_own any cb thread_inv thread_inv ->
  rule_ok thread_own thread_inv thread_pre any (mkRule h' dir cb i mret).
Proof using Type.
  intros Hdh Hh Hcb. destruct thread_own_all as [Oh Od].
  split; [by destruct Hh as [->|[-> _]]|].
  split; [intros; apply thread_pre_other; [done|]; destruct Hh as [|[_ ?]]; [by left|by right]|].
  split; [|apply takes_mret]. eapply takes_weaken; [exact Hcb|by intros t w [? _]|done].
Qed.

Lemma rule2_rule_ok : rule_ok thread_own thread_inv thread_pre any the_rule2.
Proof using AL.
  split; [apply thread_own_all|]. split; [|split].
  - intros t w _ Hint _ _ _. unfold interest, the_rule2, interest2, when_tcp in Hint.
    destruct (tcp t); [|done]. apply andb_true_iff in Hint as [[_ Hn]%andb_true_iff _].
    by apply negb_true_iff.
  - eapply takes_weaken; [apply rule2_ok| |done]. intros t w [Hi Hp]. split; [done|by apply Hp].
  - apply rule2_cancel_ok.
Qed.

Lemma respects_other r r' :
  d <> h -> takes thread_own any (callback r) thread_inv thread_inv ->
  takes thread_own any (cancel r) thread_inv thread_inv ->
  takes thread_own any (cancel r') thread_inv thread_inv ->
  rule_fd r = d \/ direction r = Out -> rule_fd r' = d \/ direction r' = Out ->
  respects thread_own thread_inv thread_pre any r r'.
Proof using Type.
  intros Hdh H1' H2' H3' Hr Hr'.
  split; [|split]; (eapply takes_weaken; [eassumption|by intros t w [? _]|]);
    intros; by apply thread_pre_other.
Qed.

Lemma rule1_respects_rule2 i :
  d <> h -> respects thread_own thread_inv thread_pre any (mkRule d In (rule1 h) i mret) the_rule2.
Proof using AL.
  intros Hdh. split; [|split].
  - eapply takes_weaken; [apply (rule1_ok false)| |by intros t w [_ ?] _ _].
    intros t w (Hi & _ & Hp). split; [done|by apply Hp].
  - eapply takes_weaken; [apply takes_mret|by intros t w [_ ?]|done].
  - eapply takes_weaken; [apply rule2_cancel_ok|by intros t w [? _]|].
    intros; apply thread_pre_other; [done|by left].
Qed.

Lemma rule2_respects h' dir cb i :
  d <> h -> h' = d \/ dir = Out ->
  respects thread_own thread_inv thread_pre any the_rule2 (mkRule h' dir cb i mret).
Proof using AL.
  intros Hdh Hr. split; [|split].
  - eapply takes_weaken; [apply rule2_rule_ok|by intros t w (? & ? & _)|].
    intros; by apply thread_pre_other.
  - eapply takes_weaken; [apply rule2_cancel_ok|by intros t w [? _]|].
    intros; by apply thread_pre_other.
  - eapply takes_weaken; [apply takes_mret|by intros t w [_ ?]|done].
Qed.

Lemma thread_rules_ok : d <> h -> rules_ok thread_own thread_inv thread_pre any thread_rules.
Proof using AL.
  intros Hdh.
  assert (R1 : takes thread_own any (rule1 h) thread_inv thread_inv).
  { intros t w Hi Ha. eapply outcome_mono; [by apply (rule1_ok (outbound_shutdown t))| |done].
    by intros t' w' [[? _] ?]. }
  pose proof rule3_ok as R3. pose proof rule4_ok as R4.
  assert (Hm : takes thread_own any mret thread_inv thread_inv) by apply takes_mret.
  apply rules_ok_cons. split; [apply rule_ok_other; auto|]. split.
  { apply Forall_cons. split; [by apply rule1_respects_rule2|].
    repeat (apply Forall_cons; split; [apply respects_other; auto|]). by apply Forall_nil. }
  apply rules_ok_cons. split; [apply rule2_rule_ok|]. split.
  { repeat (apply Forall_cons; split; [apply rule2_respects; auto|]). by apply Forall_nil. }
  apply rules_ok_cons. split; [apply rule_ok_other; auto|]. split.
  { apply Forall_cons. split; [apply respects_other; auto|by apply Forall_nil]. }
  apply rules_ok_cons. split; [apply rule_ok_other; auto|]. split; [by apply Forall_nil|].
  split; [by apply Forall_nil|constructor].
Qed.

Lemma thread_inv_same t w w' : thread_inv t w -> same_wrappers w w' -> thread_inv t w'.
Proof using Type.
  intros [I1 I2 I3 I4] Hs. pose proof (same_fds_wrappers w w' Hs) as Hf. destruct Hs as [Ek _].
  constructor; [done|by eapply numbered_same| |].
  - intros s' Hs'. destruct (Hf d s' Hs') as (s & Hs & <-). by apply I3.
  - rewrite Ek. intros Hb. apply (relays_same t t w w' (I4 Hb)); by rewrite ?Ek.
Qed.

Lemma thread_inv_poll t w fds ms :
  thread_inv t w -> thread_inv t (set_kernel (sys_poll fds ms (kernel w)).2 w).
Proof using Type.
  intros [I1 I2 I3 I4]. destruct (sys_poll_law fds ms (kernel w) n) as [Et Eg].
  constructor; try done. cbn [kernel set_kernel]. rewrite Et. intros Hb.
  by apply (relays_same t t w _ (I4 Hb)).
Qed.

Lemma tcp_loop_outcome condition env : forall base_time rules t w,
  rules_ok thread_own thread_inv thread_pre any rules -> thread_inv t w -> owns thread_own rules w ->
  outcome (tcp_loop condition base_time env rules t) w
    (fun '(_, rules', t') w' => rules_ok thread_own thread_inv thread_pre any rules' /\
       thread_inv t' w' /\ owns thread_own rules' w') any.
Proof using AL.
  induction env as [|[abort next_time] env IH]; intros base_time rules t w Hok Hi Ho;
    cbn [tcp_loop]; (destruct (negb (condition t)); [done|]); [done|].
  apply outcome_bind.
  eapply outcome_mono; [apply (wait_next_event_outcome thread_own thread_inv thread_pre any
    thread_inv_same ltac:(done) thread_inv_poll ltac:(done)); done| |done].
  intros [[ret rules'] t'] w' (Hs & Hi' & Ho'). pose proof (rules_ok_sublist _ _ _ _ _ _ Hs Hok).
  destruct ret; [| |done]; (destruct abort; [done|]).
  all: apply outcome_bind.
  all: eapply outcome_mono; [apply elapse_ok; [done|by eapply owns_alive]| |done].
  all: intros t2 w2 [Hi2 Hk]; by apply IH; [| |eapply owns_kept].
Qed.

Lemma initialize_outcome t w :
  w0 = w -> d <> h -> owns thread_own ([] : list (Rule K (Thread A))) w ->
  ad_fd (datagram_adapter t) = d -> outbound_shutdown t = false ->
  numbered w h n -> (forall s, heap w !! d = Some s -> fd (wrapper s) <> n) ->
  outcome (initialize_TCP k random h t []) w
    (fun '(rules, t') w' => rules = thread_rules /\ thread_inv t' w' /\ owns thread_own rules w') any.
Proof using Type.
  intros Ew Hdh Ho Hd Hout Hn Hdn. destruct thread_own_all as [Oh Od].
  unfold initialize_TCP. cbn [datagram_adapter set_tcp]. rewrite Hd.
  assert (Hi : thread_inv (set_tcp (TCPConnection.construct k random) t) w).
  { constructor; try done. intros _. exists (TCPConnection.construct k random), [], [].
    split; [done|]. split; [apply rtc_refl|]. rewrite !app_nil_r, Ew.
    split; [done|]. split; [done|]. split; [|done]. intros _. cbn. lia. }
  apply outcome_bind. eapply outcome_mono; [by apply (add_rule_outcome thread_own _ _ _ _ _ _ _ any)| |done].
  intros r1 w1 (-> & Ho1 & S1).
  apply outcome_bind. eapply outcome_mono; [by apply (add_rule_outcome thread_own _ _ _ _ _ _ _ any)| |done].
  intros r2 w2 (-> & Ho2 & S2).
  apply outcome_bind. eapply outcome_mono; [by apply (add_rule_outcome thread_own _ _ _ _ _ _ _ any)| |done].
  intros r3 w3 (-> & Ho3 & S3).
  apply outcome_bind. eapply outcome_mono; [by apply (add_rule_outcome thread_own _ _ _ _ _ _ _ any)| |done].
  intros r4 w4 (-> & Ho4 & S4). unfold outcome. cbn [mret io_ret]. split; [done|]. split; [|done].
  eapply thread_inv_same; [|exact S4]. eapply thread_inv_same; [|exact S3].
  eapply thread_inv_same; [|exact S2]. by eapply thread_inv_same.
Qed.

Lemma thread_inv_adapter t w a : thread_inv t w -> ad_fd a = d -> thread_inv (set_adapter a t) w.
Proof using Type.
  intros [I1 I2 I3 I4] Hd. by constructor.
Qed.

End Refinement.

(** A connection from its opening, by [connect] or by [listen_and_accept], through
    the loop of its thread. *)
Definition session {K A} `{NetKernel K} `{DatagramAdapter K A} (active_open : bool)
    (c_tcp : TCPSender.TCPConfig) (c_ad : FdAdapterConfig) (random : Z)
    (base1 : Z) (env1 : list (bool * Z)) (base2 : Z) (env2 : list (bool * Z))
    (s : TCPSpongeSocket (K := K) (A := A)) : IO K (TCPSpongeSocket (K := K) (A := A)) :=
  '(ended, s) ← (if active_open then connect c_tcp c_ad random base1 env1 s
                 else listen_and_accept c_tcp c_ad random base1 env1 s);
  if ended : bool then
    '(_, rules, t) ← tcp_loop (fun _ => true) base2 env2 (eventloop s) (thread s);
    mret (set_thread rules t s)
  else mret s.

Section Session.
Context {K A : Type} `{AL : AdapterLaws K A}.
Variables (c_tcp : TCPSender.TCPConfig) (c_ad : FdAdapterConfig) (random : Z).
Variables (s : TCPSpongeSocket (K := K) (A := A)) (w : world K) (sh sd : Shared).
Let h := thread_data s.
Let d := ad_fd (datagram_adapter (thread s)).
Let n := fd (wrapper sh).
Hypothesis Hnew : tcp (thread s) = None.
Hypothesis Hloop : eventloop s = [].
Hypothesis Hout : outbound_shutdown (thread s) = false.
Hypothesis Hh : heap w !! thread_data s = Some sh.
Hypothesis Hd : heap w !! ad_fd (datagram_adapter (thread s)) = Some sd.
Hypothesis Husesh : (0 < use_count sh)%nat.
Hypothesis Husesd : (0 < use_count sd)%nat.
Hypothesis Hne : fd (wrapper sd) <> fd (wrapper sh).

Abbreviation ok rules t w' :=
  (rules_ok (thread_own h d) (thread_inv h d n c_tcp random w) (thread_pre h) any rules /\
   thread_inv h d n c_tcp random w t w' /\ owns (thread_own h d) rules w').

Lemma session_initialized :
  outcome (initialize_TCP c_tcp random (thread_data s) (thread s) (eventloop s)) w
    (fun '(rules, t) w' => ok rules t w') any.
Proof using All.
  assert (Hdh : d <> h) by (unfold d, h; congruence). rewrite Hloop.
  eapply outcome_mono; [apply (initialize_outcome h d n c_tcp random w); try done| |done].
  - intros x Hx. unfold thread_own in *. case_bool_decide as Hin; [|lia].
    destruct Hin as [-> | ->]; eexists; (split; [eassumption|cbn; lia]).
  - intros s' Hs'. unfold h in Hs'. by replace s' with sh by congruence.
  - intros s' Hs'. unfold d in Hs'. by replace s' with sd by congruence.
  - intros [rules t] w' (-> & Hi & Ho). split; [by apply thread_rules_ok|done].
Qed.

Lemma opened_loop condition base env rules t w1 :
  ok rules t w1 ->
  outcome ('(ended, rules, t) ← tcp_loop condition base env rules t;
           let s := set_thread rules t s in
           mret (ended, if ended : bool then set_joinable true s else s)) w1
    (fun '(_, s') w2 => ok (eventloop s') (thread s') w2) any.
Proof using AL.
  intros (Hok & Hi & Ho). apply outcome_bind.
  eapply outcome_mono; [by apply tcp_loop_outcome| |done].
  intros [[ended rules'] t'] w2 (Hok' & Hi' & Ho'). unfold outcome. cbn [mret io_ret].
  by destruct ended.
Qed.

Lemma session_opened active_open base env :
  outcome (if active_open : bool then connect c_tcp c_ad random base env s
           else listen_and_accept c_tcp c_ad random base env s) w
    (fun '(_, s') w' => ok (eventloop s') (thread s') w') any.
Proof using All.
  destruct active_open; unfold connect, listen_and_accept; rewrite Hnew; apply outcome_bind;
    (eapply outcome_mono; [apply session_initialized| |done]); intros [rules t] w1 (Hok & Hi & Ho).
  - set (t1 := set_adapter _ t).
    assert (Hi1 : thread_inv h d n c_tcp random w t1 w1).
    { apply thread_inv_adapter; [done|]. rewrite ad_config_law. apply Hi. }
    apply outcome_bind. unfold the_tcp. destruct (tcp t1) as [c|] eqn:Et; [|done].
    unfold outcome at 1. cbn [mret io_ret]. destruct (negb _); [done|].
    apply opened_loop. split; [done|]. split; [|done].
    destruct Hi1 as [I1 I2 I3 I4]. constructor; try done. intros Hb.
    by apply (relays_op n c_tcp random w t1 _ w1 w1 c (TCPConnection.connect c)
      TCPConnection.Connect (I4 Hb)).
  - apply opened_loop. split; [done|]. split; [|done].
    apply thread_inv_adapter; [done|]. rewrite ad_listening_law, ad_config_law. apply Hi.
Qed.

Lemma session_outcome active_open base1 env1 base2 env2 :
  outcome (session active_open c_tcp c_ad random base1 env1 base2 env2 s) w
    (fun s' w' => thread_inv h d n c_tcp random w (thread s') w') any.
Proof using All.
  unfold session. apply outcome_bind.
  eapply outcome_mono; [apply session_opened| |done].
  intros [ended s1] w1 (Hok & Hi & Ho). destruct ended; [|done]. apply outcome_bind.
  eapply outcome_mono; [by apply tcp_loop_outcome| |done].
  by intros [[ended rules'] t'] w2 (_ & Hi' & _).
Qed.

End Session.

(** C5: the thread of a socket runs the connection faithfully for its owner.  Open a
    new socket, actively or passively, over any adapter that keeps to its own
    descriptor, and let the thread run for any number of rounds with any clock and
    any kernel.  Then the connection is in a state that an application reaches which
    has written to it exactly the bytes taken from the owner's pipe, in order, and
    has read from it exactly the bytes given to the owner's pipe; and every segment
    queued for the network is empty or an excerpt of what the owner wrote.  (The
    stream is to stay below 2^62 bytes.) *)
Theorem socket_runs_connection {K A} `{AL : AdapterLaws K A} active_open c_tcp c_ad random
    base1 env1 base2 env2 (s : TCPSpongeSocket (K := K) (A := A)) (w : world K) sh sd :
  tcp (thread s) = None -> eventloop s = [] -> outbound_shutdown (thread s) = false ->
  heap w !! thread_data s = Some sh -> heap w !! ad_fd (datagram_adapter (thread s)) = Some sd ->
  (0 < use_count sh)%nat -> (0 < use_count sd)%nat -> fd (wrapper sd) <> fd (wrapper sh) ->
  0 <= TCPSender.send_capacity c_tcp < M64 -> 0 <= TCPSender.rt_timeout c_tcp < 65536 ->
  match session active_open c_tcp c_ad random base1 env1 base2 env2 s w with
  | Ok (s', w') =>
      size (taken (kernel w') (fd (wrapper sh))) < 2 ^ 62 ->
      exists c W R, tcp (thread s') = Some c /\
        rtc thread_step ([], [], TCPConnection.construct c_tcp random) (W, R, c) /\
        taken (kernel w') (fd (wrapper sh)) = taken (kernel w) (fd (wrapper sh)) ++ W /\
        given (kernel w') (fd (wrapper sh)) = given (kernel w) (fd (wrapper sh)) ++ R /\
        Forall (fun g => TCPSegment.length_in_sequence_space g = 0 \/
          exists a, TCPSender.carries W (TCPSender.isn (TCPConnection.sender c)) a g)
          (TCPConnection.segments_out c)
  | Throw _ => True
  end.
Proof.
  intros Hnew Hloop Hout Hh Hd Hu1 Hu2 Hne Hcap Hrt.
  pose proof (session_outcome c_tcp c_ad random s w sh sd Hnew Hloop Hout Hh Hd Hu1 Hu2 Hne
                active_open base1 env1 base2 env2) as Ho.
  unfold outcome in Ho. destruct (session _ _ _ _ _ _ _ _ _ _) as [[s' w']|e]; [|done]. intros Hb.
  destruct (inv_relays _ _ _ _ _ _ _ _ Ho Hb) as (c & W & R & Et & Hrun & HW & HR & _).
  exists c, W, R. do 4 (split; [done|]).
  destruct (TCPConnection.reaches_sender c_tcp random Hcap Hrt W c (thread_run_steps _ _ Hrun))
    as (log & [_ Hl] & Hq).
  eapply Forall_impl; [exact Hq|]. intros g (g0 & Hg & Hc). rewrite Forall_forall in Hl.
  rewrite <- (TCPConnection.same_content_len g0 g Hc).
  destruct (Hl _ Hg) as [(a & Ha & _)|[Hz _]]; [right; exists a|by left].
  by eapply TCPConnection.same_content_carries.
Qed.

#[local] Existing Instance Socket.toy_net.
#[local] Existing Instance Socket.toy_net_laws.

(** A socket whose owner has written three bytes, over a TUN device on which nothing
    arrives. *)
Definition sample_world : world toy :=
  mkWorld (mkToy (fun x => if x =? 5 then [Byte.x61; Byte.x62; Byte.x63] else [])
             (fun _ => []) (fun _ => []) 100 [])
    (<[0%nat := mkShared (mkFDWrapper 5 false false 0 0) 1]>
       {[ 1%nat := mkShared (mkFDWrapper 6 false false 0 0) 1 ]}).
Definition sample_socket : TCPSpongeSocket (K := toy) (A := Device FdAdapterBase) :=
  mkSocket 2%nat 0%nat (mkThread None (mkDevice Adapters.sample_client 1%nat) false false false)
    [] false false.

#[local] Existing Instance Adapters.sockaddr_resolver.

Lemma socket_runs_connection_witness :
  exists c R, rtc thread_step ([], [], TCPConnection.construct TCPSender.default_config 0)
    ([Byte.x61; Byte.x62; Byte.x63], R, c).
Proof.
  pose proof (socket_runs_connection (Ad := tun_device) true TCPSender.default_config
    (Adapters.config Adapters.sample_client) 0 0 [(false, 10); (false, 20)] 0 []
    sample_socket sample_world (mkShared (mkFDWrapper 5 false false 0 0) 1)
    (mkShared (mkFDWrapper 6 false false 0 0) 1) eq_refl eq_refl eq_refl eq_refl eq_refl
    Nat.lt_0_1 Nat.lt_0_1 ltac:(discriminate) ltac:(split; [discriminate|reflexivity])
    ltac:(split; [discriminate|reflexivity])) as Hs.
  assert (E : (fun '(s', w') => taken (kernel w') 5) <$>
    session (H1 := tun_device) true TCPSender.default_config (Adapters.config Adapters.sample_client)
      0 0 [(false, 10); (false, 20)] 0 [] sample_socket sample_world
    = Ok [Byte.x61; Byte.x62; Byte.x63]) by (vm_compute; reflexivity).
  destruct (session _ _ _ _ _ _ _ _ _ _) as [[s' w']|e]; [|discriminate E]. cbn in E.
  injection E as E. change (fd _) with 5 in Hs. cbn in Hs. rewrite E in Hs.
  destruct (Hs ltac:(reflexivity)) as (c & W & R & _ & Hrun & HW & _). cbn in HW. subst W.
  exists c, R. exact Hrun.
Defined.
