(* ===== verification/NetworkSimulator.v ===== *)
(** The network simulator: [apps/network_simulator.cc].  Six hosts on five links around
    one router; each test sends a datagram and checks what the hosts received. *)
From S2P Require Import Prelude.
From S2P Require Buffer Parser Address Ethernet ARPMessage IPv4Header IPv4Datagram.
From S2P Require NetworkInterface Router Show.
From Stdlib Require Import Ascii String.
Import Address(Address).
Import Ethernet(EthernetAddress, EthernetFrame).
Import IPv4Datagram(IPv4Datagram).
Import Router(AsyncNetworkInterface, Router).
Import Show.
#[local] Existing Instance Parser.ParseResult_eq_dec.
Open Scope Z_scope.

(** [random_host_ethernet_address] and [random_router_ethernet_address], from six random
    bytes. *)
Definition random_host_ethernet_address (rd : bytes) : EthernetAddress :=
  match rd with
  | b :: rest => byte.of_Z (Z.land (Z.lor (byte.unsigned b) 2) 254) :: rest
  | [] => []
  end.
Definition random_router_ethernet_address (rd : bytes) : EthernetAddress :=
  [Byte.x02; Byte.x00; Byte.x00] ++ drop 3 rd.

(** [clear]: as many elements are popped from the second queue as the first has. *)
Definition clear {A} (queue1 queue2 : list A) : list A := drop (Datatypes.length queue1) queue2.

(** A byte string as a [std::string], between double quotes. *)
Definition quote : string := String.String (Ascii.ascii_of_nat 34) EmptyString.
Definition quoted (b : bytes) : string := quote <+> String.string_of_list_byte b <+> quote.

(** [summary] of a frame *)
Definition summary (frame : EthernetFrame) : result string :=
  let ret := ethernet_header_to_string (Ethernet.header frame) in
  let type := Ethernet.type (Ethernet.header frame) in
  if type =? Ethernet.TYPE_IPv4 then
    b ← Buffer.to_buffer (Ethernet.payload frame);
    '(r, dgram) ← IPv4Datagram.parse IPv4Datagram.default b;
    Ok (if bool_decide (r = Parser.NoError) then
          ret <+> " " <+> ip_summary (IPv4Datagram.header dgram) <+> " payload="
          <+> quoted (Buffer.concatenate (IPv4Datagram.payload dgram))
        else ret <+> " (bad IPv4)")
  else if type =? Ethernet.TYPE_ARP then
    b ← Buffer.to_buffer (Ethernet.payload frame);
    '(r, arp) ← ARPMessage.parse ARPMessage.default b;
    Ok (if bool_decide (r = Parser.NoError) then ret <+> " " <+> arp_to_string arp
        else ret <+> " (bad ARP)")
  else Ok ret.

(** ** Hosts *)

(** [class Host] *)
Record Host := mkHost {
  name : string;
  my_address : Address;
  host_interface : AsyncNetworkInterface;
  next_hop : Address;
  expecting_to_receive : list IPv4Datagram
}.

Definition set_host_interface (i : AsyncNetworkInterface) (h : Host) : Host :=
  mkHost (name h) (my_address h) i (next_hop h) (expecting_to_receive h).
Definition set_expecting (l : list IPv4Datagram) (h : Host) : Host :=
  mkHost (name h) (my_address h) (host_interface h) (next_hop h) l.
Definition set_base (n : NetworkInterface.NetworkInterface) (i : AsyncNetworkInterface)
    : AsyncNetworkInterface := Router.mkAsync n (Router.datagrams_out i).

Definition Host_new (rd : bytes) (name : string) (my_address next_hop : Address) : Host :=
  mkHost name my_address
    (Router.async_of (NetworkInterface.construct (random_host_ethernet_address rd) my_address))
    next_hop [].

(** [x.serialize().concatenate()] *)
Definition flat (x : IPv4Datagram) : result bytes :=
  l ← IPv4Datagram.serialize x;
  Ok (Buffer.concatenate l).

(** The loop of [expecting]; both datagrams are serialised for every comparison. *)
Fixpoint expecting (l : list IPv4Datagram) (expected : IPv4Datagram) : result bool :=
  match l with
  | [] => Ok false
  | x :: l =>
      a ← flat x;
      b ← flat expected;
      if bool_decide (a = b) then Ok true else expecting l expected
  end.

(** The loop of [remove_expectation] *)
Fixpoint remove_expectation (l : list IPv4Datagram) (expected : IPv4Datagram)
    : result (list IPv4Datagram) :=
  match l with
  | [] => Ok []
  | x :: l =>
      a ← flat x;
      b ← flat expected;
      if bool_decide (a = b) then Ok l else l ← remove_expectation l expected; Ok (x :: l)
  end.

(** [Host::send_to]; [random] is the number in the payload. *)
Definition send_to (garbage random : Z) (destination : Address) (ttl : Z) (h : Host)
    : result (IPv4Datagram * Host) :=
  src ← Address.ipv4_numeric (my_address h);
  dst ← Address.ipv4_numeric destination;
  let payload := Buffer.bl_of_string
                   (String.list_byte_of_string ("random payload: {" <+> dec random <+> "}")) in
  let header := IPv4Header.set_addresses src dst IPv4Header.default in
  let header := IPv4Header.set_len (u16 (IPv4Header.hlen header * 4 + Buffer.bl_size payload)) header in
  let header := IPv4Header.mkIPv4Header (IPv4Header.ver header) (IPv4Header.hlen header)
    (IPv4Header.tos header) (IPv4Header.len header) (IPv4Header.id header) (IPv4Header.df header)
    (IPv4Header.mf header) (IPv4Header.offset header) ttl (IPv4Header.proto header)
    (IPv4Header.cksum header) (IPv4Header.src header) (IPv4Header.dst header) in
  let dgram := IPv4Datagram.mkIPv4Datagram header payload in
  n ← NetworkInterface.send_datagram garbage dgram (next_hop h) (Router.base (host_interface h));
  Ok (dgram, set_host_interface (set_base n (host_interface h)) h).

Definition expect (expected : IPv4Datagram) (h : Host) : Host :=
  set_expecting (expecting_to_receive h ++ [expected]) h.

(** The loop of [Host::check] over the datagrams received: what is left of the
    expectations. *)
Fixpoint check_received (received expected : list IPv4Datagram) : result (list IPv4Datagram) :=
  match received with
  | [] => Ok expected
  | dgram_received :: received =>
      e ← expecting expected dgram_received;
      if negb e then Throw runtime_error else
      expected ← remove_expectation expected dgram_received;
      check_received received expected
  end.

(** [Host::check] *)
Definition check (h : Host) : result Host :=
  left ← check_received (Router.datagrams_out (host_interface h)) (expecting_to_receive h);
  match left with
  | [] => Ok (mkHost (name h) (my_address h) (Router.mkAsync (Router.base (host_interface h)) [])
                (next_hop h) [])
  | _ => Throw runtime_error
  end.

(** ** The network *)

(** [Network::deliver]: every frame is flattened, logged and received. *)
Fixpoint deliver (src : list EthernetFrame) (dst : AsyncNetworkInterface)
    : result AsyncNetworkInterface :=
  match src with
  | [] => Ok dst
  | f :: src =>
      let f := Ethernet.mkEthernetFrame (Ethernet.header f)
                 (Buffer.bl_of_string (Buffer.concatenate (Ethernet.payload f))) in
      _ ← summary f;
      dst ← Router.recv_frame f dst;
      deliver src dst
  end.

Definition frames (i : AsyncNetworkInterface) : list EthernetFrame :=
  NetworkInterface.frames_out (Router.base i).
Definition cleared (sent : list EthernetFrame) (i : AsyncNetworkInterface) : AsyncNetworkInterface :=
  set_base (NetworkInterface.set_frames_out (clear sent (frames i)) (Router.base i)) i.

(** The two versions of [Network::exchange_frames]. *)
Definition exchange_frames (x y : AsyncNetworkInterface)
    : result (AsyncNetworkInterface * AsyncNetworkInterface) :=
  let x_frames := frames x in
  let y_frames := frames y in
  y ← deliver x_frames y;
  x ← deliver y_frames x;
  Ok (cleared x_frames x, cleared y_frames y).

Definition exchange_frames3 (x y z : AsyncNetworkInterface)
    : result (AsyncNetworkInterface * AsyncNetworkInterface * AsyncNetworkInterface) :=
  let x_frames := frames x in
  let y_frames := frames y in
  let z_frames := frames z in
  y ← deliver x_frames y;
  z ← deliver x_frames z;
  x ← deliver y_frames x;
  z ← deliver y_frames z;
  x ← deliver z_frames x;
  y ← deliver z_frames y;
  Ok (cleared x_frames x, cleared y_frames y, cleared z_frames z).

(** [class Network]: the router, the numbers of its interfaces and the hosts.  The
    order of the hosts is that in which the [unordered_map] is traversed; it decides
    only which failing host is reported. *)
Record Network := mkNetwork {
  router : Router;
  default_id : Z; eth0_id : Z; eth1_id : Z; eth2_id : Z; uun3_id : Z; hs4_id : Z; mit5_id : Z;
  hosts : list (string * Host)
}.

Definition set_router (r : Router) (n : Network) : Network :=
  mkNetwork r (default_id n) (eth0_id n) (eth1_id n) (eth2_id n) (uun3_id n) (hs4_id n) (mit5_id n)
    (hosts n).
Definition set_hosts (hs : list (string * Host)) (n : Network) : Network :=
  mkNetwork (router n) (default_id n) (eth0_id n) (eth1_id n) (eth2_id n) (uun3_id n) (hs4_id n)
    (mit5_id n) hs.

Fixpoint find_host (x : string) (hs : list (string * Host)) : option Host :=
  match hs with
  | [] => None
  | (y, h) :: hs => if String.eqb x y then Some h else find_host x hs
  end.

(** [Network::host] *)
Definition host (x : string) (n : Network) : result Host :=
  match find_host x (hosts n) with
  | None => Throw runtime_error
  | Some h => if negb (String.eqb (name h) x) then Throw runtime_error else Ok h
  end.

(** Assignment through the reference that [host] returns. *)
Definition set_host (x : string) (h : Host) (n : Network) : Network :=
  set_hosts ((fun '(y, h') => (y, if String.eqb x y then h else h')) <$> hosts n) n.

(** One call of [exchange_frames] in [simulate_physical_connections]. *)
Definition connect (id : Z) (x : string) (n : Network) : result Network :=
  i ← Router.interface id (router n);
  h ← host x n;
  '(i, j) ← exchange_frames i (host_interface h);
  Ok (set_host x (set_host_interface j h) (set_router (Router.set_interface id i (router n)) n)).
Definition connect3 (id : Z) (x y : string) (n : Network) : result Network :=
  i ← Router.interface id (router n);
  h ← host x n;
  h' ← host y n;
  '(i, j, j') ← exchange_frames3 i (host_interface h) (host_interface h');
  Ok (set_host y (set_host_interface j' h') (set_host x (set_host_interface j h)
        (set_router (Router.set_interface id i (router n)) n))).

Definition simulate_physical_connections (n : Network) : result Network :=
  n ← connect (default_id n) "default_router" n;
  n ← connect (eth0_id n) "applesauce" n;
  n ← connect (eth2_id n) "cherrypie" n;
  n ← connect (hs4_id n) "hs_router" n;
  connect3 (uun3_id n) "dm42" "dm43" n.

(** The two loops of [Network::simulate]. *)
Fixpoint rounds (garbage : Z) (k : nat) (n : Network) : result Network :=
  match k with
  | O => Ok n
  | S k =>
      r ← Router.route garbage (router n);
      n ← simulate_physical_connections (set_router r n);
      rounds garbage k n
  end.

Fixpoint check_all (hs : list (string * Host)) : result (list (string * Host)) :=
  match hs with
  | [] => Ok []
  | (x, h) :: hs => h ← check h; hs ← check_all hs; Ok ((x, h) :: hs)
  end.

Definition simulate (garbage : Z) (n : Network) : result Network :=
  n ← rounds garbage 256 n;
  hs ← check_all (hosts n);
  Ok (set_hosts hs n).

Section Simulator.
(** [Address] of a dotted quad, through the resolver of the C library; the random bytes
    of the addresses; the random numbers in the payloads. *)
Context (numeric : Z -> Address) (rd : nat -> bytes) (random : nat -> Z) (garbage : Z).

Definition quad4 (a b c d : Z) : Z := ((a * 256 + b) * 256 + c) * 256 + d.
Definition addr (a b c d : Z) : Address := numeric (quad4 a b c d).

Definition router_interface (k : nat) (a : Address) : AsyncNetworkInterface :=
  Router.async_of (NetworkInterface.construct (random_router_ethernet_address (rd k)) a).

(** [Network::Network] *)
Definition Network_new : result Network :=
  let r := Router.construct in
  let '(default_id, r) := Router.add_interface (router_interface 0 (addr 171 67 76 46)) r in
  let '(eth0_id, r) := Router.add_interface (router_interface 1 (addr 10 0 0 1)) r in
  let '(eth1_id, r) := Router.add_interface (router_interface 2 (addr 172 16 0 1)) r in
  let '(eth2_id, r) := Router.add_interface (router_interface 3 (addr 192 168 0 1)) r in
  let '(uun3_id, r) := Router.add_interface (router_interface 4 (addr 198 178 229 1)) r in
  let '(hs4_id, r) := Router.add_interface (router_interface 5 (addr 143 195 0 2)) r in
  let '(mit5_id, r) := Router.add_interface (router_interface 6 (addr 128 30 76 255)) r in
  let zero := numeric 0 in
  let hs :=
    [("applesauce", Host_new (rd 7%nat) "applesauce" (addr 10 0 0 2) (addr 10 0 0 1));
     ("default_router", Host_new (rd 8%nat) "default_router" (addr 171 67 76 1) zero);
     ("cherrypie", Host_new (rd 9%nat) "cherrypie" (addr 192 168 0 2) (addr 192 168 0 1));
     ("hs_router", Host_new (rd 10%nat) "hs_router" (addr 143 195 0 1) zero);
     ("dm42", Host_new (rd 11%nat) "dm42" (addr 198 178 229 42) (addr 198 178 229 1));
     ("dm43", Host_new (rd 12%nat) "dm43" (addr 198 178 229 43) (addr 198 178 229 1))]%string in
  let n := mkNetwork r default_id eth0_id eth1_id eth2_id uun3_id hs4_id mit5_id hs in
  default_router ← host "default_router" n;
  hs_router ← host "hs_router" n;
  let r := Router.add_route (quad4 0 0 0 0) 0 (Some (my_address default_router)) default_id r in
  let r := Router.add_route (quad4 10 0 0 0) 8 None eth0_id r in
  let r := Router.add_route (quad4 172 16 0 0) 16 None eth1_id r in
  let r := Router.add_route (quad4 192 168 0 0) 24 None eth2_id r in
  let r := Router.add_route (quad4 198 178 229 0) 24 None uun3_id r in
  let r := Router.add_route (quad4 143 195 0 0) 17 (Some (my_address hs_router)) hs4_id r in
  let r := Router.add_route (quad4 143 195 128 0) 18 (Some (my_address hs_router)) hs4_id r in
  let r := Router.add_route (quad4 143 195 192 0) 19 (Some (my_address hs_router)) hs4_id r in
  let r := Router.add_route (quad4 128 30 76 255) 16 (Some (addr 128 30 0 1)) mit5_id r in
  Ok (set_router r n).

(** [dgram_sent.header().ttl--] *)
Definition ttl_minus (d : IPv4Datagram) : IPv4Datagram :=
  let h := IPv4Datagram.header d in
  IPv4Datagram.mkIPv4Datagram
    (IPv4Header.mkIPv4Header (IPv4Header.ver h) (IPv4Header.hlen h) (IPv4Header.tos h)
       (IPv4Header.len h) (IPv4Header.id h) (IPv4Header.df h) (IPv4Header.mf h) (IPv4Header.offset h)
       (u8 (IPv4Header.ttl h - 1)) (IPv4Header.proto h) (IPv4Header.cksum h) (IPv4Header.src h)
       (IPv4Header.dst h)) (IPv4Datagram.payload d).

(** One test: [from] sends to [destination], and [to] is to receive it. *)
Definition test (k : nat) (from : string) (destination : Address) (to : string) (n : Network)
    : result Network :=
  h ← host from n;
  '(dgram_sent, h) ← send_to garbage (random k) destination 64 h;
  let n := set_host from h n in
  h ← host to n;
  simulate garbage (set_host to (expect (ttl_minus dgram_sent) h) n).

(** One test of the expiration of the TTL: nothing is to be received. *)
Definition test_expired (k : nat) (ttl : Z) (n : Network) : result Network :=
  h ← host "applesauce" n;
  '(_, h) ← send_to garbage (random k) (addr 1 2 3 4) ttl h;
  simulate garbage (set_host "applesauce" h n).

(** The function [network_simulator] *)
Definition network_simulator : result Network :=
  n ← Network_new;
  cherrypie ← host "cherrypie" n;
  n ← test 0 "applesauce" (my_address cherrypie) "cherrypie" n;
  applesauce ← host "applesauce" n;
  n ← test 1 "cherrypie" (my_address applesauce) "applesauce" n;
  n ← test 2 "applesauce" (addr 1 2 3 4) "default_router" n;
  n ← test 3 "applesauce" (addr 143 195 131 17) "hs_router" n;
  n ← test 4 "cherrypie" (addr 143 195 193 52) "hs_router" n;
  n ← test 5 "cherrypie" (addr 143 195 223 255) "hs_router" n;
  n ← test 6 "cherrypie" (addr 143 195 224 0) "default_router" n;
  dm43 ← host "dm43" n;
  n ← test 7 "dm42" (my_address dm43) "dm43" n;
  n ← test_expired 8 1 n;
  test_expired 9 0 n.

End Simulator.

(** [main]: whether it returns [EXIT_SUCCESS]. *)
Definition main (numeric : Z -> Address) (rd : nat -> bytes) (random : nat -> Z) (garbage : Z) : bool :=
  match network_simulator numeric rd random garbage with Ok _ => true | Throw _ => false end.

(** ** A link carries every frame exactly once *)

(** The interface [i] with [q] in front of its outbound queue. *)
Definition behind (q : list EthernetFrame) (i : AsyncNetworkInterface) : AsyncNetworkInterface :=
  set_base (NetworkInterface.set_frames_out (q ++ frames i) (Router.base i)) i.
Definition emptied (i : AsyncNetworkInterface) : AsyncNetworkInterface :=
  set_base (NetworkInterface.set_frames_out [] (Router.base i)) i.

Lemma behind_emptied i : behind (frames i) (emptied i) = i.
Proof. destruct i as [[] ?]. unfold behind, emptied, set_base, frames. cbn. by rewrite app_nil_r. Qed.

Lemma cleared_behind q i : cleared q (behind q i) = i.
Proof.
  destruct i as [[] ?]. unfold cleared, behind, clear, frames, set_base. cbn.
  by rewrite drop_app_length.
Qed.

Ltac reduce := cbn -[insert ARPMessage.serialize Address.ipv4_numeric NetworkInterface.flush].

(** Receiving only appends to the outbound queue. *)
Lemma recv_arp_behind src msg q n :
  NetworkInterface.recv_arp src msg
    (NetworkInterface.set_frames_out (q ++ NetworkInterface.frames_out n) n) =
  (fun n => NetworkInterface.set_frames_out (q ++ NetworkInterface.frames_out n) n)
    <$> NetworkInterface.recv_arp src msg n.
Proof.
  destruct n as [m ip fs un ar mp t]. unfold NetworkInterface.recv_arp. reduce.
  destruct (if ARPMessage.opcode msg =? ARPMessage.OPCODE_REQUEST then _ else _) as [v|];
    reduce; [|done].
  destruct v; reduce.
  - destruct (Address.ipv4_numeric ip); reduce; [|done].
    destruct (ARPMessage.serialize _); reduce; [|done].
    destruct (_ =? ARPMessage.OPCODE_REPLY); [|reduce; by rewrite (assoc_L _)].
    destruct (NetworkInterface.flush _ _ _ _) as [[? ?]|]; reduce; [|done].
    by rewrite !(assoc_L (++)).
  - destruct (_ =? ARPMessage.OPCODE_REPLY); [|done].
    destruct (NetworkInterface.flush _ _ _ _) as [[? ?]|]; reduce; [|done].
    by rewrite !(assoc_L (++)).
Qed.

Lemma recv_frame_behind f q i :
  Router.recv_frame f (behind q i) = behind q <$> Router.recv_frame f i.
Proof.
  destruct i as [n ds]. unfold Router.recv_frame, behind, set_base, frames.
  cbn [Router.base Router.datagrams_out]. unfold NetworkInterface.recv_frame.
  change (NetworkInterface.ethernet_address (NetworkInterface.set_frames_out _ n))
    with (NetworkInterface.ethernet_address n).
  destruct (_ && _); [done|]. destruct (_ =? Ethernet.TYPE_IPv4).
  { destruct (Buffer.to_buffer _); [|done]. cbn.
    destruct (IPv4Datagram.parse _ _) as [[r d]|]; [|done]. cbn. by destruct (bool_decide _). }
  destruct (_ =? Ethernet.TYPE_ARP); [|done].
  destruct (Buffer.to_buffer _); [|done]. cbn.
  destruct (ARPMessage.parse _ _) as [[r d]|]; [|done]. cbn.
  destruct (bool_decide _); [done|]. rewrite recv_arp_behind.
  by destruct (NetworkInterface.recv_arp _ _ _).
Qed.

Lemma deliver_behind src q i : deliver src (behind q i) = behind q <$> deliver src i.
Proof.
  revert i. induction src as [|f src IH]; intros i; [done|]. cbn.
  destruct (summary _); [|done]. cbn. rewrite recv_frame_behind.
  destruct (Router.recv_frame _ i); [|done]. apply IH.
Qed.

Lemma deliver_emptied src i : deliver src i = behind (frames i) <$> deliver src (emptied i).
Proof. rewrite <- deliver_behind. by rewrite behind_emptied. Qed.

(** An exchange on a link of the simulated network hands every queued frame of each
    end to the other end exactly once: the result is that of emptying both outbound
    queues first and then delivering their old contents, so that only the frames
    produced by receiving remain queued, and [clear] never pops an empty queue. *)
Theorem exchange_delivers_once x y :
  exchange_frames x y =
  y' ← deliver (frames x) (emptied y);
  x' ← deliver (frames y) (emptied x);
  Ok (x', y').
Proof.
  unfold exchange_frames. rewrite (deliver_emptied _ y), (deliver_emptied _ x).
  destruct (deliver _ (emptied y)); [|done]. cbn.
  destruct (deliver _ (emptied x)); [|done]. cbn. by rewrite !cleared_behind.
Qed.

(** The same on a link with three stations: every frame reaches both others. *)
Lemma exchange3_delivers_once x y z :
  exchange_frames3 x y z =
  y' ← deliver (frames x) (emptied y);
  z' ← deliver (frames x) (emptied z);
  x' ← deliver (frames y) (emptied x);
  z' ← deliver (frames y) z';
  x' ← deliver (frames z) x';
  y' ← deliver (frames z) y';
  Ok (x', y', z').
Proof.
  unfold exchange_frames3.
  rewrite (deliver_emptied _ y), (deliver_emptied _ x), (deliver_emptied _ z).
  destruct (deliver _ (emptied y)) as [y'|]; [|done]. cbn.
  destruct (deliver _ (emptied z)) as [z'|]; [|done]. cbn.
  destruct (deliver _ (emptied x)) as [x'|]; [|done]. cbn. rewrite !deliver_behind.
  destruct (deliver _ z'); [|done]. cbn. destruct (deliver _ x'); [|done]. cbn.
  destruct (deliver _ y'); [|done]. cbn. by rewrite !cleared_behind.
Qed.

(** ** The check of a host *)

Definition flats : list IPv4Datagram -> list bytes -> Prop := Forall2 (fun d b => flat d = Ok b).

Lemma expecting_eq l bs d b :
  flats l bs -> flat d = Ok b -> expecting l d = Ok (bool_decide (b ∈ bs)).
Proof.
  intros Hl Hd. induction Hl as [|x c l bs Hx _ IH]; cbn.
  - by rewrite bool_decide_false by apply not_elem_of_nil.
  - rewrite Hx, Hd. cbn. destruct (decide (c = b)) as [->|E].
    + rewrite !bool_decide_true; [done..|apply list_elem_of_here|done].
    + rewrite (bool_decide_false (c = b)), IH by done. f_equal. apply bool_decide_ext. rewrite elem_of_cons. split; [auto|]. by intros [->|].
Qed.

Lemma remove_expectation_eq l bs d b :
  flats l bs -> flat d = Ok b -> b ∈ bs ->
  exists l' bs', remove_expectation l d = Ok l' /\ flats l' bs' /\ bs ≡ₚ b :: bs'.
Proof.
  intros Hl Hd. induction Hl as [|x c l bs Hx Hl IH]; cbn; intros Hb.
  - by apply not_elem_of_nil in Hb.
  - rewrite Hx, Hd. cbn. case_bool_decide as E.
    + exists l, bs. by subst c.
    + apply elem_of_cons in Hb as [|Hb]; [congruence|].
      destruct (IH Hb) as (l' & bs' & -> & Hl' & Hp). exists (x :: l'), (c :: bs').
      split; [done|]. split; [by constructor|]. rewrite Hp. constructor.
Qed.

Lemma check_received_eq received rs expected es :
  flats received rs -> flats expected es ->
  (exists left bs, check_received received expected = Ok left /\ flats left bs /\ es ≡ₚ rs ++ bs) \/
  (check_received received expected = Throw runtime_error /\ ~ exists bs, es ≡ₚ rs ++ bs).
Proof.
  intros Hr. revert expected es. induction Hr as [|d b received rs Hd Hr IH]; intros expected es He.
  - left. by exists expected, es.
  - cbn. rewrite (expecting_eq _ es _ b) by done. cbn. case_bool_decide as Hb; cbn.
    + destruct (remove_expectation_eq _ _ _ _ He Hd Hb) as (l' & es' & -> & He' & Hp). cbn.
      destruct (IH l' es' He') as [(left & bs & ? & ? & Hq)|[? Hn]].
      * left. exists left, bs. split_and!; [done..|]. by rewrite Hp, Hq.
      * right. split; [done|]. intros [bs Hq]. apply Hn. exists bs.
        rewrite Hp in Hq. by apply (Permutation_cons_inv (a := b)).
    + right. split; [done|]. intros [bs Hq]. apply Hb. rewrite Hq. apply list_elem_of_here.
Qed.

(** [Host::check] is an exact test: when the datagrams received and expected can be
    serialised, it returns, with both lists empty, if what the host received is a
    permutation of what it expected, and throws [runtime_error] otherwise. *)
Theorem check_is_exact h rs es :
  flats (Router.datagrams_out (host_interface h)) rs ->
  flats (expecting_to_receive h) es ->
  check h = if decide (es ≡ₚ rs)
            then Ok (set_expecting [] (set_host_interface
                       (Router.mkAsync (Router.base (host_interface h)) []) h))
            else Throw runtime_error.
Proof.
  intros Hr He. unfold check.
  destruct (check_received_eq _ _ _ _ Hr He) as [(left & bs & -> & Hl & Hp)|[-> Hn]]; cbn.
  - destruct Hl; [by rewrite app_nil_r in Hp; rewrite decide_True|].
    rewrite decide_False; [done|]. intros Hq. rewrite Hq in Hp.
    apply Permutation_length in Hp. rewrite length_app in Hp. cbn in Hp. lia.
  - rewrite decide_False; [done|]. intros Hq. apply Hn. exists []. by rewrite app_nil_r.
Qed.

(** Two datagrams received in the other order than they are expected in. *)
Definition sample_host : Host :=
  let d1 := Router.sample_datagram 64 1 in
  let d2 := Router.sample_datagram 64 2 in
  expect d2 (expect d1 (set_host_interface
    (Router.mkAsync (Router.sample_interface 0 1 Byte.x01) [d2; d1])
    (Host_new (replicate 6 Byte.x04) "cherrypie" (Address.of_ip 1) (Address.of_ip 2)))).

Lemma check_is_exact_witness :
  exists h, check sample_host = Ok h /\ expecting_to_receive h = [].
Proof.
  assert (Hd : forall k, k = 1 \/ k = 2 ->
      exists b, flat (Router.sample_datagram 64 k) = Ok b).
  { intros k [-> | ->]; eexists; vm_compute; reflexivity. }
  destruct (Hd 1) as [b1 H1]; [by left|]. destruct (Hd 2) as [b2 H2]; [by right|].
  rewrite (check_is_exact sample_host [b2; b1] [b1; b2]) by by repeat constructor.
  rewrite decide_True by constructor. by eexists.
Defined.

(** A simulation with fixed random values. *)
Definition sample_rd (k : nat) : bytes := replicate 5 Byte.x40 ++ [byte.of_Z (Z.of_nat k)].

(** The first test of the simulator, with [expected] applied to the datagram that was
    sent to get the one that is expected. *)
Definition first_test (expected : IPv4Datagram -> IPv4Datagram) : result Network :=
  n ← Network_new Address.of_ip sample_rd;
  cherrypie ← host "cherrypie" n;
  h ← host "applesauce" n;
  '(dgram_sent, h) ← send_to 1 77 (my_address cherrypie) 64 h;
  let n := set_host "applesauce" h n in
  h ← host "cherrypie" n;
  simulate 1 (set_host "cherrypie" (expect (expected dgram_sent) h) n).

(** With the router of the repository the simulator reports an error: its first
    test, in which [applesauce] sends to [cherrypie], expects a datagram whose TTL the
    router has decremented, and the router forwards it with its TTL unchanged.  The
    same run succeeds when the datagram is expected as it was sent. *)
Theorem simulator_fails :
  network_simulator Address.of_ip sample_rd (fun _ => 77) 1 = Throw runtime_error /\
  first_test ttl_minus = Throw runtime_error /\
  (Datatypes.length ∘ hosts) <$> first_test (fun d => d) = Ok 6%nat.
Proof. split_and!; vm_compute; reflexivity. Qed.
