(* ===== verification/Lab7.v ===== *)
(** The program of the last lab: [apps/lab7.cc].  A TCP socket on a host of its own
    Ethernet segment, and a router between that segment and the Internet, which is a UDP
    socket to a bouncer.  Two of these programs, a client and a server, talk through it. *)
From S2P Require Import Prelude.
From S2P Require Buffer Parser Address Ethernet ARPMessage IPv4Header IPv4Datagram.
From S2P Require TCPHeader TCPSegment TCPSender NetworkInterface Router Adapters Show.
From S2P Require FileDescriptor Socket EventLoop SpongeSocket Safety.
From Stdlib Require Import Ascii String.
Import Address(Address).
Import Ethernet(EthernetAddress, EthernetFrame).
Import TCPSegment(TCPSegment).
Import NetworkInterface(NetworkInterface).
Import Router(Router, AsyncNetworkInterface).
Import Adapters(Resolver, FdAdapterConfig, FdAdapterBase).
Import FileDescriptor EventLoop Show.
Import Socket(NetKernel, NetLaws, SentLaws, sent).
Import SpongeSocket(DatagramAdapter, AdapterLaws, ad_fd, TCPSpongeSocket).
Import Safety.
#[local] Existing Instance Parser.ParseResult_eq_dec.
Open Scope Z_scope.

(** [random_host_ethernet_address] and [random_router_ethernet_address], from six random
    bytes. *)
Definition random_host_ethernet_address (rd : bytes) : EthernetAddress :=
  match rd with
  | b :: rest => byte.of_Z (Z.land (Z.lor (byte.unsigned b) 2) 254) :: rest
  | [] => []
  end.
Definition random_router_ethernet_address (rd : bytes) : EthernetAddress :=
  [Byte.x02; Byte.x00; Byte.x00] ++ drop 3 rd.

(** [summary] of a frame *)
Definition summary (frame : EthernetFrame) : result string :=
  let ret := ethernet_header_to_string (Ethernet.header frame) in
  let type := Ethernet.type (Ethernet.header frame) in
  if type =? Ethernet.TYPE_IPv4 then
    '(r, dgram) ← IPv4Datagram.parse IPv4Datagram.default
                    (Buffer.of_string (Buffer.concatenate (Ethernet.payload frame)));
    if bool_decide (r = Parser.NoError) then
      let h := IPv4Datagram.header dgram in
      let ret := ret <+> " " <+> ip_summary h in
      if IPv4Header.proto h =? IPv4Header.PROTO_TCP then
        '(r, tcp_seg) ← TCPSegment.parse TCPSegment.default
            (Buffer.of_string (Buffer.concatenate (IPv4Datagram.payload dgram)))
            (IPv4Header.pseudo_cksum h);
        Ok (if bool_decide (r = Parser.NoError)
            then ret <+> " " <+> tcp_summary (TCPSegment.header tcp_seg) else ret)
      else Ok ret
    else Ok (ret <+> " (bad IPv4)")
  else if type =? Ethernet.TYPE_ARP then
    b ← Buffer.to_buffer (Ethernet.payload frame);
    '(r, arp) ← ARPMessage.parse ARPMessage.default b;
    Ok (if bool_decide (r = Parser.NoError) then ret <+> " " <+> arp_to_string arp
        else ret <+> " (bad ARP)")
  else Ok ret.

(** ** The host *)

(** [class NetworkInterfaceAdapter] *)
Record NetworkInterfaceAdapter := mkAdapter {
  base : FdAdapterBase;
  host_interface : NetworkInterface;
  next_hop : Address;
  first : FileDescriptor;        (* _data_socket_pair.first *)
  frame_fd : FileDescriptor      (* _data_socket_pair.second *)
}.

Definition set_base (b : FdAdapterBase) (a : NetworkInterfaceAdapter) : NetworkInterfaceAdapter :=
  mkAdapter b (host_interface a) (next_hop a) (first a) (frame_fd a).
Definition set_interface (n : NetworkInterface) (a : NetworkInterfaceAdapter)
    : NetworkInterfaceAdapter :=
  mkAdapter (base a) n (next_hop a) (first a) (frame_fd a).

Section Adapter.
Context {K : Type} `{NetKernel K} `{Resolver}.

(** The loop of [send_pending] *)
Fixpoint write_frames (frames : list EthernetFrame) (h : FileDescriptor) : IO K unit :=
  match frames with
  | [] => mret tt
  | f :: frames =>
      _ ← write (Buffer.bvl_of_list (Ethernet.serialize f)) true h;
      write_frames frames h
  end.
Definition send_pending (a : NetworkInterfaceAdapter) : IO K NetworkInterfaceAdapter :=
  _ ← write_frames (NetworkInterface.frames_out (host_interface a)) (first a);
  mret (set_interface (NetworkInterface.set_frames_out [] (host_interface a)) a).

(** The constructor; [rd] are the random bytes. *)
Definition adapter_new (rd : bytes) (ip_address hop : Address) : IO K NetworkInterfaceAdapter :=
  b ← lift SpongeSocket.default_base;
  '(h0, h1) ← SpongeSocket.socket_pair_helper Socket.SOCK_DGRAM;
  mret (mkAdapter b (NetworkInterface.construct (random_host_ethernet_address rd) ip_address)
          hop h0 h1).

Definition adapter_read (a : NetworkInterfaceAdapter)
    : IO K (option TCPSegment * NetworkInterfaceAdapter) :=
  data ← read npos (first a);
  '(r, frame) ← lift (Ethernet.parse Ethernet.default (Buffer.of_string data));
  if negb (bool_decide (r = Parser.NoError)) then mret (None, a) else
  '(ip_dgram, n) ← lift (NetworkInterface.recv_frame frame (host_interface a));
  a ← send_pending (set_interface n a);
  match ip_dgram with
  | Some d =>
      '(seg, b) ← lift (Adapters.unwrap_tcp_in_ip d (base a));
      mret (seg, set_base b a)
  | None => mret (None, a)
  end.

(** [garbage] is for [NetworkInterface::send_datagram]. *)
Definition adapter_write (garbage : Z) (seg : TCPSegment) (a : NetworkInterfaceAdapter)
    : IO K NetworkInterfaceAdapter :=
  '(d, _) ← lift (Adapters.wrap_tcp_in_ip seg (base a));
  n ← lift (NetworkInterface.send_datagram garbage d (next_hop a) (host_interface a));
  send_pending (set_interface n a).

Definition adapter_tick (ms_since_last_tick : Z) (a : NetworkInterfaceAdapter)
    : IO K NetworkInterfaceAdapter :=
  send_pending (set_interface (NetworkInterface.tick ms_since_last_tick (host_interface a)) a).

Definition lab7_device (garbage : Z) : DatagramAdapter K NetworkInterfaceAdapter :=
  {| SpongeSocket.ad_fd := first;
     SpongeSocket.ad_set_config := fun c a => set_base (Adapters.set_config c (base a)) a;
     SpongeSocket.ad_set_listening := fun l a => set_base (Adapters.set_listening l (base a)) a;
     SpongeSocket.ad_read := adapter_read;
     SpongeSocket.ad_write := adapter_write garbage;
     SpongeSocket.ad_tick := adapter_tick |}.

(** [class TCPSocketLab7] *)
Record TCPSocketLab7 := mkSocketLab7 {
  socket : TCPSpongeSocket (K := K) (A := NetworkInterfaceAdapter);
  local_address : Address
}.

Definition socket_new (rd : bytes) (ip_address hop : Address) : IO K TCPSocketLab7 :=
  a ← adapter_new rd ip_address hop;
  s ← SpongeSocket.sponge_socket a;
  mret (mkSocketLab7 s ip_address).

(** [Address::ip] is the dotted quad, here the number it stands for. *)
Definition connect (garbage : Z) (address : Address) (random_port random base_time : Z)
    (env : list (bool * Z)) (s : TCPSocketLab7) : IO K (bool * TCPSocketLab7) :=
  ip ← lift (Address.ipv4_numeric (local_address s));
  local ← lift (Adapters.make_address ip (u16 random_port));
  '(ended, k) ← SpongeSocket.connect (Ad := lab7_device garbage) TCPSender.default_config
                  (Adapters.mkConfig local address 0 0) random base_time env (socket s);
  mret (ended, mkSocketLab7 k local).

Definition bind (address : Address) (s : TCPSocketLab7) : result TCPSocketLab7 :=
  ip ← Address.ipv4_numeric address;
  own ← Address.ipv4_numeric (local_address s);
  if negb (ip =? own) then Throw runtime_error else
  p ← Adapters.port address;
  local ← Adapters.make_address own p;
  Ok (mkSocketLab7 (socket s) local).

Definition listen_and_accept (garbage : Z) (random base_time : Z) (env : list (bool * Z))
    (s : TCPSocketLab7) : IO K (bool * TCPSocketLab7) :=
  zero ← lift (Adapters.make_address 0 0);
  '(ended, k) ← SpongeSocket.listen_and_accept (Ad := lab7_device garbage) TCPSender.default_config
                  (Adapters.mkConfig (local_address s) zero 0 0) random base_time env (socket s);
  mret (ended, mkSocketLab7 k (local_address s)).

End Adapter.

(** ** The network *)

(** 192.168.0.1 and so on *)
Definition quad (a b c d : Z) : Z := 16777216 * a + 65536 * b + 256 * c + d.

(** An interface of the router, of [{random_router_ethernet_address(), {ip}}]. *)
Definition router_interface (rd : bytes) (address : Address) : AsyncNetworkInterface :=
  Router.async_of (NetworkInterface.construct (random_router_ethernet_address rd) address).

Section Network.
Context {K : Type} `{NetKernel K} `{Resolver}.

Definition host (a b c d : Z) : result Address := Adapters.make_address (quad a b c d) 0.

(** The set-up of the router: [host_side], [internet_side] and the router.  [rd1] and
    [rd2] are the random bytes. *)
Definition set_up_router (is_client : bool) (rd1 rd2 : bytes) : result (Z * Z * Router) :=
  if is_client then
    a1 ← host 192 168 0 1;
    let '(host_side, r) := Router.add_interface (router_interface rd1 a1) Router.construct in
    a2 ← host 10 0 0 192;
    let '(internet_side, r) := Router.add_interface (router_interface rd2 a2) r in
    p1 ← (a ← host 192 168 0 0; Address.ipv4_numeric a);
    let r := Router.add_route p1 16 None host_side r in
    p2 ← (a ← host 10 0 0 0; Address.ipv4_numeric a);
    let r := Router.add_route p2 8 None internet_side r in
    p3 ← (a ← host 172 16 0 0; Address.ipv4_numeric a);
    hop ← host 10 0 0 172;
    let r := Router.add_route p3 12 (Some hop) internet_side r in
    Ok (host_side, internet_side, r)
  else
    a1 ← host 172 16 0 1;
    let '(host_side, r) := Router.add_interface (router_interface rd1 a1) Router.construct in
    a2 ← host 10 0 0 172;
    let '(internet_side, r) := Router.add_interface (router_interface rd2 a2) r in
    p1 ← (a ← host 172 16 0 0; Address.ipv4_numeric a);
    let r := Router.add_route p1 12 None host_side r in
    p2 ← (a ← host 10 0 0 0; Address.ipv4_numeric a);
    let r := Router.add_route p2 8 None internet_side r in
    p3 ← (a ← host 192 168 0 0; Address.ipv4_numeric a);
    hop ← host 10 0 0 192;
    let r := Router.add_route p3 16 (Some hop) internet_side r in
    Ok (host_side, internet_side, r).

(** What the callbacks of the network thread capture: the router, and what was printed
    on [cerr]. *)
Record Locals := mkLocals { router : Router; cerr : string }.

Variables (host_side internet_side : Z) (debug : bool) (garbage : Z).

(** The line that is printed when debugging. *)
Definition report (prefix : string) (frame : EthernetFrame) (l : Locals) : result Locals :=
  if debug then
    s ← summary frame;
    Ok (mkLocals (router l) (cerr l <+> prefix <+> s <+> newline))
  else Ok l.

(** [frames_out()] of an interface, and the same without its first frame. *)
Definition frames (side : Z) (r : Router) : result (list EthernetFrame) :=
  i ← Router.interface side r;
  Ok (NetworkInterface.frames_out (Router.base i)).
Definition pop (side : Z) (r : Router) : result Router :=
  i ← Router.interface side r;
  let n := Router.base i in
  Ok (Router.set_interface side
        (Router.mkAsync (NetworkInterface.set_frames_out (tail (NetworkInterface.frames_out n)) n)
           (Router.datagrams_out i)) r).

(** What the first and the last rule do with the bytes they have read: the frame goes to
    an interface, and then the router routes. *)
Definition arrive (side : Z) (prefix : string) (data : bytes) (l : Locals) : result Locals :=
  '(r, frame) ← Ethernet.parse Ethernet.default (Buffer.of_string data);
  if negb (bool_decide (r = Parser.NoError)) then Ok l else
  l ← report prefix frame l;
  i ← Router.interface side (router l);
  i ← Router.recv_frame frame i;
  r ← Router.route garbage (Router.set_interface side i (router l));
  Ok (mkLocals r (cerr l)).

(** What the other two do: [front()], which is undefined on an empty queue, and [pop()]. *)
Definition depart (side : Z) (prefix : string) (l : Locals) : result (EthernetFrame * Locals) :=
  q ← frames side (router l);
  match q with
  | [] => Throw undefined_behaviour
  | f :: _ =>
      l ← report prefix f l;
      r ← pop side (router l);
      Ok (f, mkLocals r (cerr l))
  end.

(** The callbacks of the four rules. *)
Definition host_to_router (frame_fd : FileDescriptor) (l : Locals) : IO K Locals :=
  data ← read npos frame_fd;
  lift (arrive host_side "     Host->router:     " data l).
Definition router_to_host (frame_fd : FileDescriptor) (l : Locals) : IO K Locals :=
  '(f, l) ← lift (depart host_side "     Router->host:     " l);
  _ ← write (Buffer.bvl_of_list (Ethernet.serialize f)) true frame_fd;
  mret l.
Definition router_to_internet (internet_socket : FileDescriptor) (bounce_address : Address)
    (l : Locals) : IO K Locals :=
  '(f, l) ← lift (depart internet_side "     Router->Internet: " l);
  _ ← Socket.sendto bounce_address (Buffer.bvl_of_list (Ethernet.serialize f)) internet_socket;
  mret l.
Definition internet_to_router (internet_socket : FileDescriptor) (l : Locals) : IO K Locals :=
  data ← read npos internet_socket;
  lift (arrive internet_side "     Internet->router: " data l).

(** The conditions of the rules from the router; [interface] does not throw for the two
    sides. *)
Definition pending (side : Z) (l : Locals) (_ : world K) : bool :=
  match frames side (router l) with Ok (_ :: _) => true | _ => false end.

Definition network_rules (frame_fd internet_socket : FileDescriptor) (bounce_address : Address)
    : IO K (list (Rule K Locals)) :=
  rules ← add_rule frame_fd In (host_to_router frame_fd) (fun _ _ => true) mret [];
  rules ← add_rule frame_fd Out (router_to_host frame_fd) (pending host_side) mret rules;
  rules ← add_rule internet_socket Out (router_to_internet internet_socket bounce_address)
            (pending internet_side) mret rules;
  add_rule internet_socket In (internet_to_router internet_socket) (fun _ _ => true) mret rules.

(** [router.interface(side).tick(ms)] *)
Definition tick_side (side ms : Z) (r : Router) : result Router :=
  i ← Router.interface side r;
  Ok (Router.set_interface side
        (Router.mkAsync (NetworkInterface.tick ms (Router.base i)) (Router.datagrams_out i)) r).

(** The loop of the network thread.  Each element of [env] is the value of [exit_flag] in
    one round; the flag of the result says that the loop has ended. *)
Fixpoint network_loop (env : list bool) (rules : list (Rule K Locals)) (l : Locals)
    : IO K (bool * list (Rule K Locals) * Locals) :=
  match env with
  | [] => mret (false, rules, l)
  | exit_flag :: env =>
      '(ret, rules, l) ← wait_next_event 50 rules l;
      match ret with
      | Exit => mret (true, rules, mkLocals (router l) (cerr l <+> "Exiting..." <+> newline))
      | _ =>
          r ← lift (tick_side host_side 50 (router l));
          r ← lift (tick_side internet_side 50 r);
          let l := mkLocals r (cerr l) in
          if exit_flag : bool then mret (true, rules, l) else network_loop env rules l
      end
  end.

Definition network_thread (env : list bool) (frame_fd internet_socket : FileDescriptor)
    (bounce_address : Address) (l : Locals) : IO K (bool * list (Rule K Locals) * Locals) :=
  rules ← network_rules frame_fd internet_socket bounce_address;
  network_loop env rules l.

End Network.

(** The part of [program_body] before the threads start: the bouncer, whose address is
    [bounce], learns where we are, and the router and the socket are made.  [rd] are the
    random bytes of the three Ethernet addresses. *)
Definition start {K} `{NetKernel K} `{Resolver} (is_client : bool) (bounce : result Address)
    (rd : bytes * bytes * bytes)
    : IO K (FileDescriptor * Address * (Z * Z * Router) * TCPSocketLab7 (K := K)) :=
  internet_socket ← Socket.UDPSocket_new;
  bounce_address ← lift bounce;
  _ ← Socket.sendto bounce_address (Buffer.bvl_of_view []) internet_socket;
  _ ← Socket.sendto bounce_address (Buffer.bvl_of_view []) internet_socket;
  _ ← Socket.sendto bounce_address (Buffer.bvl_of_view []) internet_socket;
  let '(rd1, rd2, rd3) := rd in
  r ← lift (set_up_router is_client rd1 rd2);
  ip ← lift (if is_client then host 192 168 0 50 else host 172 16 0 100);
  hop ← lift (if is_client then host 192 168 0 1 else host 172 16 0 1);
  s ← socket_new rd3 ip hop;
  mret (internet_socket, bounce_address, r, s).

(** The main thread of [program_body] up to the connection, and the calls that follow. *)
Definition open_connection {K} `{NetKernel K} `{Resolver} (is_client : bool)
    (garbage random_port random base_time : Z) (env : list (bool * Z)) (s : TCPSocketLab7 (K := K))
    : IO K (bool * TCPSocketLab7 (K := K)) :=
  server ← lift (Adapters.make_address (quad 172 16 0 100) 1234);
  if is_client then connect garbage server random_port random base_time env s
  else
    s ← lift (bind server s);
    listen_and_accept garbage random base_time env s.

(** ** The socket of the host runs its connection *)

Section AdapterProofs.
Context {K : Type} `{Laws : NetLaws K} `{Resolver}.
Implicit Types (w : world K) (a : NetworkInterfaceAdapter).

Lemma send_pending_confined a w s :
  heap w !! first a = Some s ->
  outcome (send_pending a) w
    (fun a' w' => SpongeSocket.confined (first a) s w w' /\ first a' = first a) SpongeSocket.any.
Proof using Laws.
  intros Hs. unfold send_pending. apply SpongeSocket.confined_bind.
  generalize (NetworkInterface.frames_out (host_interface a)). intros q.
  assert (Hq : forall w s, heap w !! first a = Some s -> outcome (write_frames q (first a)) w
    (fun _ w' => SpongeSocket.confined (first a) s w w' /\ True) SpongeSocket.any).
  { clear w s Hs. induction q as [|f q IH]; intros w s Hs; [by apply SpongeSocket.confined_ret|].
    cbn [write_frames]. apply SpongeSocket.confined_bind.
    eapply outcome_mono; [by apply SpongeSocket.write_confined| |done].
    intros u w' Hc. split; [done|]. auto. }
  eapply outcome_mono; [by apply Hq| |done]. intros u w' [Hc _]. split; [done|].
  intros s' Hs'. by apply SpongeSocket.confined_ret.
Qed.

Definition in_range (x : option TCPSegment * NetworkInterfaceAdapter) : Prop :=
  forall g, x.1 = Some g -> TCPHeader.in_range (TCPSegment.header g).

Lemma adapter_read_confined a w s :
  heap w !! first a = Some s ->
  outcome (adapter_read a) w
    (fun x w' => SpongeSocket.confined (first a) s w w' /\ (first x.2 = first a /\ in_range x))
    SpongeSocket.any.
Proof using Laws.
  intros Hs. unfold adapter_read. apply SpongeSocket.confined_bind.
  eapply outcome_mono; [by apply SpongeSocket.read_confined| |done]. intros data w1 Hc1.
  split; [done|]. intros s1 Hs1. apply SpongeSocket.confined_bind.
  eapply outcome_mono; [by apply (SpongeSocket.confined_lift (first a) s1 w1 _ (fun _ => True))| |done].
  intros [r f] w2 [Hc2 _]. split; [done|]. intros s2 Hs2.
  destruct (negb _); [by apply SpongeSocket.confined_ret|]. apply SpongeSocket.confined_bind.
  eapply outcome_mono; [by apply (SpongeSocket.confined_lift (first a) s2 w2 _ (fun _ => True))| |done].
  intros [d n] w3 [Hc3 _]. split; [done|]. intros s3 Hs3. apply SpongeSocket.confined_bind.
  eapply outcome_mono; [by apply (send_pending_confined (set_interface n a))| |done].
  intros a' w4 [Hc4 Ha']. split; [done|]. intros s4 Hs4.
  destruct d as [d|]; [|by apply SpongeSocket.confined_ret]. apply SpongeSocket.confined_bind.
  eapply outcome_mono; [apply (SpongeSocket.confined_lift (first a) s4 w4 _ (fun '(seg, _) =>
    forall g, seg = Some g -> TCPHeader.in_range (TCPSegment.header g))); [done|]| |done].
  - intros [seg b] E g ->. by eapply Adapters.unwrap_in_range.
  - intros [seg b] w5 [Hc5 Hg]. split; [done|]. intros s5 Hs5. by apply SpongeSocket.confined_ret.
Qed.

(** The adapter keeps to its own end of the socket pair, so that
    [SpongeSocket.socket_runs_connection] holds of the socket of this program. *)
#[export] Instance lab7_device_laws garbage :
  AdapterLaws (Ad := lab7_device garbage) K NetworkInterfaceAdapter.
Proof using Laws.
  constructor; try done.
  - intros a w s Hs. eapply outcome_mono; [by apply adapter_read_confined| |done].
    by intros [seg a'] w' (Hc & Ha & Hg).
  - intros g a w s Hs. cbn [SpongeSocket.ad_write ad_fd lab7_device] in *. unfold adapter_write.
    apply (SpongeSocket.confined_bind (first a) s w _ _ (fun a' => first a' = first a)).
    eapply outcome_mono; [by apply (SpongeSocket.confined_lift (first a) s w _ (fun _ => True))| |done].
    intros [d g'] w1 [Hc1 _]. split; [done|]. intros s1 Hs1. apply SpongeSocket.confined_bind.
    eapply outcome_mono; [by apply (SpongeSocket.confined_lift (first a) s1 w1 _ (fun _ => True))| |done].
    intros n w2 [Hc2 _]. split; [done|]. intros s2 Hs2.
    by apply (send_pending_confined (set_interface n a)).
  - intros ms a w s Hs. by apply (send_pending_confined (set_interface _ a)).
Qed.

End AdapterProofs.

(** ** The network thread is a router *)

Lemma summary_defined f : defined (summary f).
Proof.
  unfold summary. case_Z.
  - apply yields_then; [auto with safety|]. intros [r d]. destruct (bool_decide _); [|done].
    case_Z; [|done]. apply yields_then; [auto with safety|]. by intros [r' seg].
  - case_Z; [|done]. apply yields_then; [auto with safety|]. intros b.
    apply bind_yields. eapply yields_mono; [apply arp_parse_small|]. by intros [r m].
Qed.

(** The bytes of a frame. *)
Definition wire (f : EthernetFrame) : bytes := Buffer.concatenate (Ethernet.serialize f).

Lemma wire_views f : List.concat (Buffer.bvl_of_list (Ethernet.serialize f)) = wire f.
Proof.
  unfold wire, Buffer.bvl_of_list. generalize (Ethernet.serialize f). intros l.
  induction l as [|b l IH]; [done|]. cbn. by rewrite IH.
Qed.

Section Events.
Variables (host_side internet_side garbage : Z).

(** What can happen to the router: bytes come in at an interface, a frame leaves it, or
    time passes. *)
Inductive event :=
  | Arrived (side : Z) (data : bytes)
  | Departed (side : Z) (f : EthernetFrame)
  | Ticked.

(** What these do to a router, independently of the callbacks.  Bytes that are a frame are
    received by the interface, and then every datagram that waits at an interface is routed;
    other bytes are dropped. *)
Definition receive (side : Z) (data : bytes) (r : Router) : result Router :=
  '(status, frame) ← Ethernet.parse Ethernet.default (Buffer.of_string data);
  match status with
  | Parser.NoError =>
      i ← Router.interface side r;
      i' ← Router.recv_frame frame i;
      Router.route garbage (Router.set_interface side i' r)
  | _ => Ok r
  end.

(** An interface without its first frame, and one that is 50 ms older. *)
Definition without_first (q : list EthernetFrame) (i : Router.AsyncNetworkInterface) :=
  Router.mkAsync (NetworkInterface.set_frames_out q (Router.base i)) (Router.datagrams_out i).
Definition aged (i : Router.AsyncNetworkInterface) :=
  Router.mkAsync (NetworkInterface.tick 50 (Router.base i)) (Router.datagrams_out i).
Definition update (f : Router.AsyncNetworkInterface -> Router.AsyncNetworkInterface) (side : Z)
    (r : Router) : Router :=
  Router.mkRouter (Router.routing_table r) (alter f (Z.to_nat side) (Router.interfaces r)).

Definition happens (e : event) (r r' : Router) : Prop :=
  match e with
  | Arrived side data => receive side data r = Ok r'
  | Departed side f => exists i q, Router.interfaces r !! Z.to_nat side = Some i /\
      NetworkInterface.frames_out (Router.base i) = f :: q /\ r' = update (without_first q) side r
  | Ticked => r' = update aged internet_side (update aged host_side r)
  end.

Inductive history (r0 : Router) : list event -> Router -> Prop :=
  | history_nil : history r0 [] r0
  | history_snoc evs e r r' : history r0 evs r -> happens e r r' -> history r0 (evs ++ [e]) r'.

(** What came in at an interface, and what left it. *)
Definition arrived (side : Z) (evs : list event) : bytes :=
  List.concat ((fun e => match e with Arrived s d => if s =? side then d else [] | _ => [] end) <$> evs).
Definition departed (side : Z) (evs : list event) : list EthernetFrame :=
  List.concat ((fun e => match e with Departed s f => if s =? side then [f] else [] | _ => [] end) <$> evs).

Lemma arrived_snoc side evs e :
  arrived side (evs ++ [e])
  = arrived side evs ++ match e with Arrived s d => if s =? side then d else [] | _ => [] end.
Proof. unfold arrived. rewrite fmap_app, List.concat_app. cbn. by rewrite app_nil_r. Qed.
Lemma departed_snoc side evs e :
  departed side (evs ++ [e])
  = departed side evs ++ match e with Departed s f => if s =? side then [f] else [] | _ => [] end.
Proof. unfold departed. rewrite fmap_app, List.concat_app. cbn. by rewrite app_nil_r. Qed.

Lemma report_router debug prefix f l :
  yields (report debug prefix f l) (fun l' => router l' = router l).
Proof.
  unfold report. destruct debug; [|done]. by apply yields_then; [apply summary_defined|].
Qed.

(** Printing does not change what the router does; and that is defined. *)
Lemma arrive_receive debug side prefix data l :
  fit (router l) -> size data <= LIMIT ->
  yields (arrive debug garbage side prefix data l)
    (fun l' => extends (router l) (router l') /\ receive side data (router l) = Ok (router l')).
Proof.
  intros Hr Hd. unfold receive, arrive. apply bind_yields. pose proof (frame_parse_small data Hd) as Hp.
  destruct (Ethernet.parse _ _) as [[r f]|e]; [|done]. cbn [yields mbind result_bind] in *.
  destruct r; try (split; [by apply extends_refl|done]). rewrite bool_decide_true by done.
  cbn [negb]. apply bind_yields.
  eapply yields_mono; [apply report_router|]. intros l1 E1. rewrite E1. cbn [report router].
  pose proof (recv_frame_extends f side (router l) Hr Hp) as Hx.
  destruct (Router.interface side (router l)) as [i|e] eqn:Ei; [|done].
  cbn [mbind result_bind yields] in *.
  destruct (Router.recv_frame f i) as [i'|e] eqn:Ef; [|done]. cbn [mbind result_bind yields] in *.
  pose proof (route_extends garbage _ (proj1 Hx)) as Hy.
  destruct (Router.route _ _) as [r'|e] eqn:Er; [|done]. cbn [mbind result_bind yields router] in *.
  by split; [eapply extends_trans|].
Qed.

Lemma update_interface g side r i :
  Router.interfaces r !! Z.to_nat side = Some i -> Router.set_interface side (g i) r = update g side r.
Proof.
  intros Hi. unfold Router.set_interface, update. f_equal. rewrite list_insert_alter.
  apply list_alter_ext; [|done]. intros x Hx. congruence.
Qed.

(** The interfaces other than the one that is popped are as before. *)
Lemma pop_spec side r f q :
  fit r -> frames side r = Ok (f :: q) ->
  small_frame f /\ exists r', pop side r = Ok r' /\ happens (Departed side f) r r' /\ fit r' /\
    forall s, Z.to_nat s <> Z.to_nat side -> frames s r' = frames s r.
Proof.
  unfold frames, pop, Router.interface. intros Hr Hf.
  destruct (Router.interfaces r !! Z.to_nat side) as [i|] eqn:Hi; [|done]. cbn [mbind result_bind] in *.
  injection Hf as Hf. destruct (fit_interface _ _ _ Hr Hi) as [[S1 S2 S3 S4] Hq]. rewrite Hf in S4 |- *.
  apply Forall_cons in S4 as [Hs S4]. split; [done|]. eexists. split; [done|]. split_and!.
  - exists i, q. split; [done|]. split; [done|]. by apply (update_interface (without_first q)).
  - destruct Hr as [H1 H2]. split; [done|]. apply Forall_insert; [done|]. by split; [constructor|].
  - intros s Hne. cbn. by rewrite list_lookup_insert_ne.
Qed.

Lemma depart_spec debug side prefix l f q :
  fit (router l) -> frames side (router l) = Ok (f :: q) ->
  yields (depart debug side prefix l) (fun '(f', l') => f' = f /\ small_frame f /\
    happens (Departed side f) (router l) (router l') /\ fit (router l') /\
    forall s, Z.to_nat s <> Z.to_nat side -> frames s (router l') = frames s (router l)).
Proof.
  intros Hr Hf. destruct (pop_spec side (router l) f q Hr Hf) as (Hs & r' & Hp & He & Hr' & Ho).
  unfold depart. rewrite Hf. cbn [mbind result_bind]. apply bind_yields.
  eapply yields_mono; [apply report_router|]. intros l1 ->. rewrite Hp. cbn.
  done.
Qed.

Lemma tick_side_ages side r r' : tick_side side 50 r = Ok r' -> r' = update aged side r.
Proof.
  unfold tick_side, Router.interface.
  destruct (Router.interfaces r !! Z.to_nat side) as [i|] eqn:Hi; [|done]. cbn [mbind result_bind].
  intros [= <-]. by apply (update_interface aged).
Qed.

Lemma tick_side_fit side r :
  fit r -> yields (tick_side side 50 r) (fun r' => fit r').
Proof.
  intros Hr. unfold tick_side, Router.interface.
  destruct (Router.interfaces r !! Z.to_nat side) as [i|] eqn:Hi; [|done]. cbn.
  destruct (fit_interface _ _ _ Hr Hi) as [[S1 S2 S3 S4] Hq]. destruct Hr as [H1 H2].
  split; [done|]. apply Forall_insert; [done|]. by split; [constructor|].
Qed.

End Events.

Section Relay.
Context {K : Type} `{SL : SentLaws K}.
Variables (host_side internet_side : Z) (debug : bool) (garbage : Z).
Variables (frame_fd internet_socket : FileDescriptor) (bounce_address : Address).
Variables (nh ni : Z) (w0 : world K) (r0 : Router).
Hypothesis Hsides : Z.to_nat host_side <> Z.to_nat internet_side.
Hypothesis Hhandles : frame_fd <> internet_socket.
Hypothesis Hnumbers : nh <> ni.
Implicit Types (w : world K) (l : Locals) (evs : list event).

(** What the descriptors have seen since [w0] is what the events say. *)
Record accounts evs w : Prop := {
  host_in : taken (kernel w) nh = taken (kernel w0) nh ++ arrived host_side evs;
  host_out : given (kernel w) nh
    = given (kernel w0) nh ++ List.concat (wire <$> departed host_side evs);
  internet_in : taken (kernel w) ni = taken (kernel w0) ni ++ arrived internet_side evs;
  internet_out : sent (kernel w) ni = sent (kernel w0) ni ++
    ((fun f => (Some (Address.storage bounce_address, Address.addr_size bounce_address), wire f))
       <$> departed internet_side evs)
}.

Record relayed l w : Prop := {
  relayed_fit : fit (router l);
  relayed_host : numbered w frame_fd nh;
  relayed_internet : numbered w internet_socket ni;
  relayed_events : exists evs,
    history host_side internet_side garbage r0 evs (router l) /\ accounts evs w
}.

(** The exceptions that the callbacks may throw. *)
Definition harmless (e : exn) : Prop := e <> undefined_behaviour.

Definition own (h : FileDescriptor) : nat :=
  if bool_decide (h = frame_fd \/ h = internet_socket) then 1 else 0.

Lemma own_both : (0 < own frame_fd /\ 0 < own internet_socket)%nat.
Proof using Type. unfold own. rewrite !bool_decide_true by auto. split; apply Nat.lt_0_1. Qed.

Lemma io_error_harmless e : io_error e -> harmless e.
Proof using Type. by intros [-> |[n ->]]. Qed.

Lemma lift_outcome {A} (r : result A) w (Q : A -> Prop) :
  yields r Q -> outcome (lift r) w (fun a w' => w' = w /\ Q a) harmless.
Proof using Type. unfold outcome, lift. by destruct r. Qed.

(** A step after which the router is in the state that one more event leads to. *)
Lemma relayed_step l l' w w' e :
  relayed l w -> fit (router l') ->
  happens host_side internet_side garbage e (router l) (router l') -> same_fds w w' ->
  (forall evs, accounts evs w -> accounts (evs ++ [e]) w') -> relayed l' w'.
Proof using Type.
  intros [_ H2 H3 (evs & Hh & Ha)] Hf He Hs Hacc.
  constructor; [done|by eapply numbered_same..|]. exists (evs ++ [e]). split; [|by apply Hacc].
  by eapply history_snoc.
Qed.

(** Reading from a descriptor and giving the bytes to the router. *)
Lemma relay_arrival side prefix h n l w :
  (h = frame_fd /\ side = host_side /\ n = nh \/
   h = internet_socket /\ side = internet_side /\ n = ni) ->
  relayed l w -> alive own w ->
  outcome (data ← read npos h; lift (arrive debug garbage side prefix data l)) w
    (fun l' w' => relayed l' w' /\ refs_kept w w' /\ extends (router l) (router l')) harmless.
Proof using All.
  intros Hcase Hr Ha. destruct (Ha h) as [s Hs].
  { destruct Hcase as [(-> & _)|(-> & _)]; apply own_both. }
  assert (Hn : fd (wrapper s) = n).
  { destruct Hcase as [(-> & _ & ->)|(-> & _ & ->)]; by apply Hr. }
  apply outcome_bind. unfold outcome at 1.
  pose proof (read_outcome npos h w s Hs ltac:(done)) as Ho. unfold outcome in Ho.
  destruct (read npos h w) as [[data w1]|e] eqn:Er.
  2: { destruct Ho as [x ->]. done. }
  destruct Ho as (Hd & [Ht Hg] & Hh). pose proof (Socket.read_silent _ _ _ _ _ Er) as Hsilent.
  assert (Htouch : touched h s w w1) by (eexists; by split; [|exact Hh]).
  eapply outcome_mono; [apply lift_outcome, (arrive_receive garbage); [apply Hr|]| |done].
  { unfold BUFFER_SIZE in Hd. unfold LIMIT. lia. }
  intros l' w2 [-> [Hx He]]. split; [|split; [by eapply touched_kept|done]].
  apply (relayed_step l l' w w1 (Arrived side data) Hr); [apply Hx|exact He|by eapply same_fds_touched|].
  assert (Hkey : forall m, taken (kernel w1) m = taken (kernel w) m ++ (if decide (m = n) then data else []))
    by (intros m; by rewrite Ht, Hn).
  intros evs [A1 A2 A3 A4]. constructor; rewrite ?Hkey, ?Hg, ?Hsilent, ?A1, ?A2, ?A3, ?A4,
    ?arrived_snoc, ?departed_snoc, ?app_nil_r, <- ?app_assoc; try done; try (by case_decide; rewrite ?app_nil_r).
  all: f_equal; f_equal; destruct Hcase as [(_ & -> & ->)|(_ & -> & ->)]; case_decide; case_Z; congruence.
Qed.

(** A frame leaves for the host. *)
Lemma router_to_host_ok l w f q :
  relayed l w -> alive own w -> frames host_side (router l) = Ok (f :: q) ->
  outcome (router_to_host host_side debug frame_fd l) w
    (fun l' w' => relayed l' w' /\ refs_kept w w' /\
       frames internet_side (router l') = frames internet_side (router l)) harmless.
Proof using All.
  intros Hr Ha Hf. destruct (Ha frame_fd) as [s Hs]; [apply own_both|].
  assert (Hn : fd (wrapper s) = nh) by by apply Hr. unfold router_to_host. apply outcome_bind.
  eapply outcome_mono; [eapply lift_outcome, depart_spec; [apply Hr|exact Hf]| |done].
  intros [f' l'] w' [-> (-> & Hsm & He & Hfit & Ho)]. apply outcome_bind. unfold outcome at 1.
  pose proof (write_outcome (Buffer.bvl_of_list (Ethernet.serialize f)) true frame_fd w s Hs) as Hw.
  rewrite wire_views in Hw. unfold small_frame, LIMIT in Hsm. fold (wire f) in Hsm.
  specialize (Hw ltac:(lia)). unfold outcome in Hw.
  destruct (write _ _ _ w) as [[n w1]|e] eqn:Ew; [|by apply io_error_harmless].
  destruct Hw as (_ & _ & Hall & Ht & k & _ & _ & Hh). specialize (Hall eq_refl).
  rewrite wire_views in *. subst n. rewrite take_ge in Ht by (unfold size; lia).
  destruct Ht as [Ht Hg]. pose proof (Socket.write_silent _ _ _ _ _ _ Ew) as Hsilent.
  assert (Htouch : touched frame_fd s w w1) by (eexists; by split; [|exact Hh]).
  split; [|split; [by eapply touched_kept|by apply Ho]].
  apply (relayed_step l l' w w1 (Departed host_side f) Hr); [done|exact He|by eapply same_fds_touched|].
  rewrite Hn in Ht, Hg. intros evs [A1 A2 A3 A4].
  assert (Hne : (host_side =? internet_side) = false) by (apply Z.eqb_neq; congruence).
  constructor; rewrite ?Ht, ?Hg, ?Hsilent, ?A1, ?A2, ?A3, ?A4, ?arrived_snoc, ?departed_snoc,
    ?Z.eqb_refl, ?Hne, ?app_nil_r; try done; try (by case_decide; rewrite ?app_nil_r).
  rewrite decide_True by done. rewrite fmap_app, List.concat_app. cbn. by rewrite app_nil_r, <- !app_assoc.
Qed.

(** A frame leaves for the bouncer. *)
Lemma router_to_internet_ok l w f q :
  relayed l w -> alive own w -> frames internet_side (router l) = Ok (f :: q) ->
  outcome (router_to_internet internet_side debug internet_socket bounce_address l) w
    (fun l' w' => relayed l' w' /\ refs_kept w w') harmless.
Proof using All.
  intros Hr Ha Hf. destruct (Ha internet_socket) as [s Hs]; [apply own_both|].
  assert (Hn : fd (wrapper s) = ni) by by apply Hr. unfold router_to_internet. apply outcome_bind.
  eapply outcome_mono; [eapply lift_outcome, depart_spec; [apply Hr|exact Hf]| |done].
  intros [f' l'] w' [-> (-> & Hsm & He & Hfit & Ho)]. apply outcome_bind.
  pose proof (Socket.sendto_whole_datagram bounce_address (Buffer.bvl_of_list (Ethernet.serialize f))
    internet_socket w s Hs) as Hw.
  rewrite wire_views in Hw. unfold small_frame, LIMIT in Hsm. fold (wire f) in Hsm.
  specialize (Hw ltac:(lia)).
  eapply outcome_mono; [exact Hw| |apply io_error_harmless]. intros _ w1 (Hsent & Hz & Hh).
  assert (Htouch : touched internet_socket s w w1) by (eexists; by split; [|exact Hh]).
  split; [|by eapply touched_kept].
  apply (relayed_step l l' w w1 (Departed internet_side f) Hr);
    [done|exact He|by eapply same_fds_touched|].
  destruct (Hz 0) as [Ht Hg]. rewrite Hn in Hsent. intros evs [A1 A2 A3 A4].
  assert (Hne : (internet_side =? host_side) = false) by (apply Z.eqb_neq; congruence).
  constructor; rewrite ?Ht, ?Hg, ?Hsent, ?A1, ?A2, ?A3, ?A4, ?arrived_snoc, ?departed_snoc,
    ?Z.eqb_refl, ?Hne, ?app_nil_r; try done; try (by case_decide; rewrite ?app_nil_r).
  rewrite fmap_app. by rewrite <- app_assoc.
Qed.

(** What the callback of a rule from the router relies on: there is a frame to take. *)
Definition nonempty (side : Z) l : Prop := exists f q, frames side (router l) = Ok (f :: q).
Definition ready (r : Rule K Locals) l (_ : world K) : Prop :=
  direction r = Out -> nonempty (if bool_decide (rule_fd r = frame_fd) then host_side else internet_side) l.

Definition the_rules : list (Rule K Locals) :=
  [mkRule frame_fd In (host_to_router host_side debug garbage frame_fd) (fun _ _ => true) mret;
   mkRule frame_fd Out (router_to_host host_side debug frame_fd) (pending host_side) mret;
   mkRule internet_socket Out (router_to_internet internet_side debug internet_socket bounce_address)
     (pending internet_side) mret;
   mkRule internet_socket In (internet_to_router internet_side debug garbage internet_socket)
     (fun _ _ => true) mret].

Lemma pending_nonempty side l w : pending side l w = true -> nonempty side l.
Proof using Type.
  unfold pending, nonempty. destruct (frames side (router l)) as [[|f q]|]; [done| |done]. eauto.
Qed.

Lemma extends_nonempty side l l' :
  extends (router l) (router l') -> nonempty side l -> nonempty side l'.
Proof using Type.
  intros (_ & _ & HF) (f & q & Hq). unfold nonempty, frames, Router.interface in *.
  destruct (Router.interfaces (router l) !! Z.to_nat side) as [i|] eqn:Hi; [|done].
  destruct (Forall2_lookup_l _ _ _ _ _ HF Hi) as (i' & -> & [k Hk]). cbn in *.
  injection Hq as Hq. rewrite Hk, Hq. by exists f, (q ++ k).
Qed.

Lemma ready_host r l w :
  ready r l w -> direction r = Out -> rule_fd r = frame_fd -> nonempty host_side l.
Proof using Type. intros Hr Hd Hf. specialize (Hr Hd). by rewrite bool_decide_true in Hr. Qed.
Lemma ready_internet r l w :
  ready r l w -> direction r = Out -> rule_fd r = internet_socket -> nonempty internet_side l.
Proof using Hhandles.
  intros Hr Hd Hf. specialize (Hr Hd). rewrite bool_decide_false in Hr; congruence.
Qed.

(** The callbacks keep the invariant. *)
Lemma the_rules_callbacks : Forall (fun r =>
  takes own harmless (callback r) (fun l w => relayed l w /\ ready r l w) relayed) the_rules.
Proof using All.
  repeat apply Forall_cons_2; try apply Forall_nil_2; intros l w [Hr Hp] Ha.
  - eapply outcome_mono; [apply (relay_arrival host_side _ frame_fd nh); by auto| |done].
    by intros l' w' (H1' & H2' & _).
  - destruct (ready_host _ _ _ Hp eq_refl eq_refl) as (f & q & Hf).
    eapply outcome_mono; [by eapply router_to_host_ok| |done]. by intros l' w' (H1' & H2' & _).
  - destruct (ready_internet _ _ _ Hp eq_refl eq_refl) as (f & q & Hf).
    by eapply router_to_internet_ok.
  - eapply outcome_mono; [apply (relay_arrival internet_side _ internet_socket ni); by auto| |done].
    by intros l' w' (H1' & H2' & _).
Qed.

Lemma network_rules_ok : Forall (rule_ok own relayed ready harmless) the_rules.
Proof using All.
  pose proof the_rules_callbacks as Hcb. rewrite Forall_forall in Hcb |- *. intros r Hr.
  split; [|split; [|split; [by apply Hcb|]]].
  - unfold the_rules in Hr. rewrite !elem_of_cons in Hr.
    destruct Hr as [->|[->|[->|[->|Hr]]]]; [apply own_both..|by apply not_elem_of_nil in Hr].
  - intros l w _ Hi _ Hd. unfold the_rules in Hr. rewrite !elem_of_cons in Hr.
    destruct Hr as [->|[->|[->|[->|Hr]]]]; try done; [| |by apply not_elem_of_nil in Hr].
    + rewrite bool_decide_true by done. by apply (pending_nonempty _ _ w).
    + rewrite bool_decide_false by (cbn; congruence). by apply (pending_nonempty _ _ w).
  - intros l w Hl _. unfold the_rules in Hr. rewrite !elem_of_cons in Hr.
    destruct Hr as [->|[->|[->|[->|Hr]]]];
      [by (split; [exact Hl|apply refs_kept_refl])..|by apply not_elem_of_nil in Hr].
Qed.

(** Nothing is cancelled, and a rule with nothing to rely on is respected. *)
Lemma respects_plain r r' :
  cancel r = mret -> cancel r' = mret ->
  takes own harmless (callback r) (fun l w => relayed l w /\ ready r l w /\ ready r' l w) (ready r') ->
  respects own relayed ready harmless r r'.
Proof using Type.
  intros Hc Hc' Hcb. split; [done|]. rewrite Hc, Hc'.
  split; intros l w [_ Hp] _; (split; [exact Hp|apply refs_kept_refl]).
Qed.

Lemma respects_in r r' :
  r ∈ the_rules -> r' ∈ the_rules -> direction r' = In -> respects own relayed ready harmless r r'.
Proof using All.
  intros Hr Hr' Hd. pose proof the_rules_callbacks as Hcb. rewrite Forall_forall in Hcb.
  assert (Hc : forall x, x ∈ the_rules -> cancel x = mret).
  { intros x Hx. unfold the_rules in Hx. rewrite !elem_of_cons in Hx.
    destruct Hx as [->|[->|[->|[->|Hx]]]]; [done..|by apply not_elem_of_nil in Hx]. }
  apply respects_plain; [by apply Hc..|]. intros l w (Hl & Hp & _) Ha.
  eapply outcome_mono; [by apply (Hcb r Hr)| |done]. intros l' w' [_ Hk]. split; [|done].
  intros Hd'. congruence.
Qed.

Lemma the_rules_respect : ForallOrdPairs (respects own relayed ready harmless) the_rules.
Proof using All.
  assert (Hin : forall r, r ∈ the_rules -> respects own relayed ready harmless r
    (mkRule internet_socket In (internet_to_router internet_side debug garbage internet_socket)
       (fun _ _ => true) mret)).
  { intros r Hr. apply respects_in; [done| |done]. unfold the_rules. rewrite !elem_of_cons. auto. }
  assert (Hfirst : forall r', direction r' = Out -> cancel r' = mret -> respects own relayed ready harmless
    (mkRule frame_fd In (host_to_router host_side debug garbage frame_fd) (fun _ _ => true) mret) r').
  { intros r' Hd Hc. apply respects_plain; [done|done|]. intros l w (Hl & _ & Hp) Ha.
    eapply outcome_mono; [apply (relay_arrival host_side _ frame_fd nh); by auto| |done].
    intros l' w' (_ & Hk & Hx). split; [|done]. intros Hd'.
    eapply extends_nonempty; [exact Hx|by apply Hp]. }
  unfold the_rules in *. repeat apply FOP_cons; try apply FOP_nil;
    repeat apply Forall_cons_2; try apply Forall_nil_2;
    try (by apply Hfirst); try (by apply Hin; rewrite !elem_of_cons; auto).
  apply respects_plain; [done|done|]. intros l w (Hl & Hp & Hp') Ha.
  destruct (ready_host _ _ _ Hp eq_refl eq_refl) as (f & q & Hf).
  destruct (ready_internet _ _ _ Hp' eq_refl eq_refl) as (f' & q' & Hf').
  eapply outcome_mono; [by eapply router_to_host_ok| |done]. intros l' w' (_ & Hk & Hsame).
  split; [|done]. intros _. rewrite bool_decide_false by (cbn; congruence).
  exists f', q'. by rewrite Hsame.
Qed.

Lemma relayed_still l l' w w' :
  relayed l w -> router l' = router l -> same_fds w w' ->
  (forall x, taken (kernel w') x = taken (kernel w) x /\ given (kernel w') x = given (kernel w) x /\
     sent (kernel w') x = sent (kernel w) x) -> relayed l' w'.
Proof using Type.
  intros [F1 F2 F3 (evs & Hh & [A1 A2 A3 A4])] El Hs Hk.
  constructor; [by rewrite El|by eapply numbered_same..|]. exists evs. rewrite El. split; [done|].
  destruct (Hk nh) as (K1 & K2 & K3), (Hk ni) as (K4 & K5 & K6). constructor; congruence.
Qed.

Lemma relayed_same l w w' : relayed l w -> same_wrappers w w' -> relayed l w'.
Proof using Type.
  intros Hr Hs. apply (relayed_still l l w w' Hr eq_refl); [by apply same_fds_wrappers|].
  destruct Hs as [-> _]. done.
Qed.

Lemma relayed_poll l w fds t : relayed l w -> relayed l (set_kernel (sys_poll fds t (kernel w)).2 w).
Proof using SL.
  intros Hr. apply (relayed_still l l w _ Hr eq_refl); [intros h s Hs; by exists s|].
  intros x. cbn. destruct (sys_poll_law fds t (kernel w) x) as [L1 L2].
  split; [done|]. split; [done|apply Socket.poll_quiet].
Qed.

Lemma relayed_tick l w r1 r2 c :
  relayed l w -> tick_side host_side 50 (router l) = Ok r1 -> tick_side internet_side 50 r1 = Ok r2 ->
  fit r2 -> relayed (mkLocals r2 c) w.
Proof using Type.
  intros Hr E1 E2 Hf. apply (relayed_step l _ w w Ticked Hr); [done| |apply same_fds_refl|].
  - cbn. by rewrite <- (tick_side_ages _ _ _ E1), (tick_side_ages _ _ _ E2).
  - intros evs [A1 A2 A3 A4]. constructor; rewrite ?arrived_snoc, ?departed_snoc, ?app_nil_r; done.
Qed.

Lemma network_loop_outcome : forall env rules l w,
  rules_ok own relayed ready harmless rules -> relayed l w -> owns own rules w ->
  outcome (network_loop host_side internet_side env rules l) w
    (fun '(_, _, l') w' => relayed l' w') harmless.
Proof using SL.
  induction env as [|exit_flag env IH]; intros rules l w Hok Hr Ho; [done|]. cbn [network_loop].
  apply outcome_bind.
  eapply outcome_mono; [apply (wait_next_event_outcome own relayed ready harmless
    relayed_same ltac:(done) relayed_poll ltac:(done)); done| |].
  2: { intros e [He| ->]; done. }
  intros [[ret rules'] l'] w' (Hs & Hr' & Ho'). pose proof (rules_ok_sublist _ _ _ _ _ _ Hs Hok) as Hok'.
  assert (Hgo : outcome (r ← lift (tick_side host_side 50 (router l'));
    r ← lift (tick_side internet_side 50 r);
    let l := mkLocals r (cerr l') in
    if exit_flag : bool then mret (true, rules', l) else network_loop host_side internet_side env rules' l)
    w' (fun '(_, _, l') w' => relayed l' w') harmless).
  { pose proof (tick_side_fit host_side (router l') (relayed_fit _ _ Hr')) as F1.
    unfold outcome, mbind, io_bind, lift.
    destruct (tick_side host_side 50 (router l')) as [r1|e] eqn:E1; [|done]. cbn [mbind result_bind].
    pose proof (tick_side_fit internet_side r1 F1) as F2.
    destruct (tick_side internet_side 50 r1) as [r2|e] eqn:E2; [|done]. cbn [mbind result_bind].
    pose proof (relayed_tick l' w' r1 r2 (cerr l') Hr' E1 E2 F2) as Hr2.
    destruct exit_flag; [exact Hr2|by apply IH]. }
  destruct ret; [exact Hgo..|]. by eapply relayed_still; [exact Hr'|done|apply same_fds_refl|].
Qed.

Lemma network_rules_outcome w :
  owns own ([] : list (Rule K Locals)) w ->
  outcome (network_rules host_side internet_side debug garbage frame_fd internet_socket bounce_address) w
    (fun rules w' => rules = the_rules /\ owns own rules w' /\ forall l, relayed l w -> relayed l w')
    harmless.
Proof using Type.
  intros Ho. destruct own_both as [O1 O2]. unfold network_rules.
  apply outcome_bind. eapply outcome_mono; [by apply add_rule_outcome| |done]. intros rs1 w1 (-> & Ho1 & S1).
  apply outcome_bind. eapply outcome_mono; [by apply add_rule_outcome| |done]. intros rs2 w2 (-> & Ho2 & S2).
  apply outcome_bind. eapply outcome_mono; [by apply add_rule_outcome| |done]. intros rs3 w3 (-> & Ho3 & S3).
  eapply outcome_mono; [by apply add_rule_outcome| |done]. intros rs4 w4 (-> & Ho4 & S4).
  split; [done|]. split; [done|]. intros l Hl. do 4 (eapply relayed_same; [|done]). done.
Qed.

End Relay.

(** C12: the network thread does what a router does, for any kernel and any number of rounds:
    its router is in a state that a sequence of events leads to, where a frame that arrives is
    received by its interface and everything is then routed, a frame that departs was the first
    of its interface's queue, and the clocks of both interfaces advance together; in it, the bytes that
    came in from the host and from the Internet are those read from the two descriptors,
    the frames that left for the host are those written to its descriptor, in order and
    whole, and those that left for the Internet were each sent to the bouncer as one
    datagram.  If the thread ends with an exception, it is one that the code or the standard
    library throws: [front()] is never called on an empty queue, and no index or reference is out
    of bounds.  The end iterators that [send_datagram] reads through are not excluded; what they
    yield is the arbitrary [garbage]. *)
Theorem network_thread_routes {K} `{SL : SentLaws K} host_side internet_side debug garbage env
    frame_fd internet_socket bounce_address r0 c (w : world K) sh si :
  Z.to_nat host_side <> Z.to_nat internet_side -> fit r0 ->
  heap w !! frame_fd = Some sh -> heap w !! internet_socket = Some si ->
  (0 < use_count sh)%nat -> (0 < use_count si)%nat -> fd (wrapper sh) <> fd (wrapper si) ->
  match network_thread host_side internet_side debug garbage env frame_fd internet_socket
          bounce_address (mkLocals r0 c) w with
  | Ok ((_, _, l'), w') => exists evs,
      history host_side internet_side garbage r0 evs (router l') /\
      accounts host_side internet_side bounce_address (fd (wrapper sh)) (fd (wrapper si)) w evs w'
  | Throw e => e <> undefined_behaviour
  end.
Proof.
  intros Hs Hf Hh Hi Uh Ui Hn. assert (Hne : frame_fd <> internet_socket) by congruence.
  set (Inv := relayed host_side internet_side garbage frame_fd internet_socket bounce_address
                (fd (wrapper sh)) (fd (wrapper si)) w r0).
  assert (H0' : Inv (mkLocals r0 c) w).
  { constructor; [done| | |].
    - intros s Hs'. congruence.
    - intros s Hs'. congruence.
    - exists []. split; [constructor|]. by constructor; rewrite ?app_nil_r. }
  assert (Ho : owns (own frame_fd internet_socket) ([] : list (Rule K Locals)) w).
  { intros h Hown. unfold own in *. case_bool_decide as Hin; [|lia].
    destruct Hin as [-> | ->]; eexists; (split; [eassumption|cbn; lia]). }
  assert (Hall : outcome (network_thread host_side internet_side debug garbage env frame_fd
    internet_socket bounce_address (mkLocals r0 c)) w (fun '(_, _, l') w' => Inv l' w') harmless).
  { unfold network_thread. apply outcome_bind.
    eapply outcome_mono; [by apply (network_rules_outcome host_side internet_side debug garbage frame_fd
      internet_socket bounce_address (fd (wrapper sh)) (fd (wrapper si)) w r0)| |done].
    intros rules w1 (-> & Ho1 & Hkeep). apply network_loop_outcome; [|by apply Hkeep|done].
    split; [by apply network_rules_ok|by apply the_rules_respect]. }
  unfold outcome in Hall. destruct (network_thread _ _ _ _ _ _ _ _ _ w) as [[[[b rs] l'] w']|e]; [|done].
  apply Hall.
Qed.

(** ** The two programs together *)

(** The networks of the two hosts, and the one between the routers. *)
Definition client_net (ip : Z) : Prop := ip / 2 ^ 16 = 192 * 256 + 168.
Definition server_net (ip : Z) : Prop := ip / 2 ^ 20 = 172 * 16 + 1.
Definition between_net (ip : Z) : Prop := ip / 2 ^ 24 = 10.

(** The route that the table of a program has for an address: its index. *)
Definition route_of (is_client : bool) (dst : Z) (best : option nat) : Prop :=
  match best with
  | Some 0%nat => if is_client then client_net dst else server_net dst
  | Some 1%nat => between_net dst
  | Some 2%nat => if is_client then server_net dst else client_net dst
  | Some _ => False
  | None => ~ client_net dst /\ ~ server_net dst /\ ~ between_net dst
  end.

Lemma prefix_matches_div p len hop num dst :
  0 < len <= 32 ->
  Router.prefix_matches (Router.mkRoute p len hop num) dst
  = Ok (p / 2 ^ (32 - len) =? dst / 2 ^ (32 - len)).
Proof.
  intros Hl. unfold Router.prefix_matches. cbn [Router.prefix_length Router.route_prefix].
  rewrite u64_id by lia. case_Z; [|lia]. case_Z; [lia|]. by rewrite !Z.shiftr_div_pow2 by lia.
Qed.

(** The routes that the program sets up, and the interfaces they lead to. *)
Lemma set_up_router_result `{Resolver} `{!Adapters.ResolverLaws} is_client rd1 rd2 :
  exists a1 a2 hop,
    set_up_router is_client rd1 rd2 = Ok (0, 1,
      Router.mkRouter
        (if is_client then
           [Router.mkRoute (quad 192 168 0 0) 16 None 0; Router.mkRoute (quad 10 0 0 0) 8 None 1;
            Router.mkRoute (quad 172 16 0 0) 12 (Some hop) 1]
         else
           [Router.mkRoute (quad 172 16 0 0) 12 None 0; Router.mkRoute (quad 10 0 0 0) 8 None 1;
            Router.mkRoute (quad 192 168 0 0) 16 (Some hop) 1])
        [router_interface rd1 a1; router_interface rd2 a2]) /\
    Address.ipv4_numeric a1 = Ok (if is_client then quad 192 168 0 1 else quad 172 16 0 1) /\
    Address.ipv4_numeric a2 = Ok (if is_client then quad 10 0 0 192 else quad 10 0 0 172) /\
    Address.ipv4_numeric hop = Ok (if is_client then quad 10 0 0 172 else quad 10 0 0 192).
Proof.
  assert (Hmake : forall a b c d, 0 <= quad a b c d < M32 ->
    exists x, host a b c d = Ok x /\ Address.ipv4_numeric x = Ok (quad a b c d)).
  { intros a b c d Hq. destruct (Adapters.make_address_spec (quad a b c d) 0 Hq) as (x & E & En & _); [lia|].
    by exists x. }
  destruct (Hmake 192 168 0 1) as (c1 & C1 & N1); [done|]. destruct (Hmake 10 0 0 192) as (c2 & C2 & N2); [done|].
  destruct (Hmake 172 16 0 1) as (s1 & S1 & M1); [done|]. destruct (Hmake 10 0 0 172) as (s2 & S2 & M2); [done|].
  destruct (Hmake 192 168 0 0) as (p1 & P1 & Q1); [done|]. destruct (Hmake 10 0 0 0) as (p2 & P2 & Q2); [done|].
  destruct (Hmake 172 16 0 0) as (p3 & P3 & Q3); [done|]. unfold set_up_router. destruct is_client.
  - exists c1, c2, s2. rewrite C1, C2, S2, P1, P2, P3. cbn [mbind result_bind].
    rewrite Q1, Q2, Q3. done.
  - exists s1, s2, c2. rewrite S1, C2, S2, P1, P2, P3. cbn [mbind result_bind].
    rewrite Q1, Q2, Q3. done.
Qed.

(** The router sends a datagram the right way: to its own host's network directly, to the
    network between the routers directly, and to the other host's network by the other
    router, 10.0.0.172 or 10.0.0.192; everything else has no route. *)
Theorem set_up_routes `{Resolver} `{!Adapters.ResolverLaws} is_client rd1 rd2 dst :
  0 <= dst < M32 -> Datatypes.length rd1 = 6%nat -> Datatypes.length rd2 = 6%nat ->
  exists r, set_up_router is_client rd1 rd2 = Ok (0, 1, r) /\ fit r /\
    exists max best, Router.search dst (Router.routing_table r) 0 (-1) 0 = Ok (max, best) /\
      route_of is_client dst (if max =? -1 then None else Some best).
Proof.
  intros Hd L1 L2. destruct (set_up_router_result is_client rd1 rd2) as (a1 & a2 & hop & -> & _).
  eexists. split; [done|]. split.
  { split; [destruct is_client; repeat constructor; cbn; lia|].
    repeat constructor; cbn; rewrite ?length_drop; lia || done. }
  destruct is_client; cbn [Router.routing_table Router.search];
    rewrite !prefix_matches_div by lia; cbn [mbind result_bind Router.prefix_length];
    unfold route_of, client_net, server_net, between_net; change (32 - 16) with 16;
    change (32 - 12) with 20; change (32 - 8) with 24;
    change (quad 192 168 0 0 / 2 ^ 16) with (192 * 256 + 168);
    change (quad 172 16 0 0 / 2 ^ 20) with (172 * 16 + 1);
    change (quad 10 0 0 0 / 2 ^ 24) with 10;
    repeat case_Z; cbn [andb]; do 2 eexists; (split; [done|]); cbn; lia.
Qed.

(** The frames that wait at an interface of a router, in the bytes that leave, and the
    router without them. *)
Definition collect (side : Z) (r : Router) : result (list bytes * Router) :=
  i ← Router.interface side r;
  let n := Router.base i in
  Ok (wire <$> NetworkInterface.frames_out n,
      Router.set_interface side
        (Router.mkAsync (NetworkInterface.set_frames_out [] n) (Router.datagrams_out i)) r).

Fixpoint receive_all (side : Z) (l : list bytes) (r : Router) : result Router :=
  match l with
  | [] => Ok r
  | d :: l => r ← receive 1 side d r; receive_all side l r
  end.

(** A host with what it has received. *)
Fixpoint host_receive (l : list bytes) (n : NetworkInterface)
    : result (list IPv4Datagram.IPv4Datagram * NetworkInterface) :=
  match l with
  | [] => Ok ([], n)
  | d :: l =>
      '(_, f) ← Ethernet.parse Ethernet.default (Buffer.of_string d);
      '(dgram, n) ← NetworkInterface.recv_frame f n;
      '(rest, n) ← host_receive l n;
      Ok (match dgram with Some x => x :: rest | None => rest end, n)
  end.

(** The client's host and router, and the server's router and host. *)
Definition both : Type := NetworkInterface * Router * Router * NetworkInterface.

(** Every frame that waits crosses its link once; a bouncer connects the routers.  The
    result has the datagrams that the server's host received. *)
Definition exchange (s : both) : result (list IPv4Datagram.IPv4Datagram * both) :=
  let '(ch, cr, sr, sh) := s in
  let from_ch := wire <$> NetworkInterface.frames_out ch in
  let from_sh := wire <$> NetworkInterface.frames_out sh in
  '(to_ch, cr) ← collect 0 cr;
  '(to_sr, cr) ← collect 1 cr;
  '(to_sh, sr) ← collect 0 sr;
  '(to_cr, sr) ← collect 1 sr;
  '(_, ch) ← host_receive to_ch (NetworkInterface.set_frames_out [] ch);
  cr ← receive_all 0 from_ch cr;
  cr ← receive_all 1 to_cr cr;
  sr ← receive_all 1 to_sr sr;
  sr ← receive_all 0 from_sh sr;
  '(got, sh) ← host_receive to_sh (NetworkInterface.set_frames_out [] sh);
  Ok (got, (ch, cr, sr, sh)).

Fixpoint exchanges (n : nat) (s : both) : result (list IPv4Datagram.IPv4Datagram * both) :=
  match n with
  | O => Ok ([], s)
  | S n =>
      '(got, s) ← exchange s;
      '(rest, s) ← exchanges n s;
      Ok (got ++ rest, s)
  end.

#[local] Existing Instance Adapters.sockaddr_resolver.
#[local] Existing Instance Adapters.sockaddr_resolver_laws.

Definition sample_host (x : byte) (a b c d : Z) : NetworkInterface :=
  NetworkInterface.construct (random_host_ethernet_address (replicate 6 x))
    (Adapters.sockaddr_address (quad a b c d) 0).

Definition sample_crossing : result (nat * list bytes * nat) :=
  n ← NetworkInterface.send_datagram 1 (Router.sample_datagram 64 (quad 172 16 0 100))
        (Adapters.sockaddr_address (quad 192 168 0 1) 0) (sample_host Byte.x0a 192 168 0 50);
  '(_, _, cr) ← set_up_router true (replicate 6 Byte.x01) (replicate 6 Byte.x03);
  '(_, _, sr) ← set_up_router false (replicate 6 Byte.x05) (replicate 6 Byte.x07);
  '(early, s) ← exchanges 8 (n, cr, sr, sample_host Byte.x0b 172 16 0 100);
  '(got, s) ← exchange s;
  '(late, s) ← exchanges 3 s;
  Ok (Datatypes.length early,
      (fun d => Buffer.concatenate (IPv4Datagram.payload d)) <$> (got : list _),
      Datatypes.length late).

(** The client's host sends a datagram to the server's, and nobody knows any Ethernet
    address.  It takes three ARP exchanges, one on each link, and nine crossings; then
    the datagram has arrived, once, with its payload. *)
Example datagram_crosses : sample_crossing = Ok (0%nat, [[Byte.x61]], 0%nat).
Proof. vm_compute. reflexivity. Qed.

#[local] Existing Instances Socket.mail_kernel Socket.mail_laws Socket.mail_net Socket.mail_net_laws Socket.mail_sent_laws.

(** The client's router, a world in which its host has sent it a datagram for the server,
    and the bouncer's address. *)
Definition sample_router : Router :=
  match set_up_router true (replicate 6 Byte.x01) (replicate 6 Byte.x03) with
  | Ok (_, _, r) => r
  | Throw _ => Router.construct
  end.
Definition sample_bytes : bytes :=
  match IPv4Datagram.serialize (Router.sample_datagram 64 (quad 172 16 0 100)) with
  | Ok l => wire (NetworkInterface.frame (random_router_ethernet_address (replicate 6 Byte.x01))
                    (replicate 6 Byte.x0a) Ethernet.TYPE_IPv4 l)
  | Throw _ => []
  end.
Definition sample_world : world Socket.mail :=
  mkWorld (Socket.mkMail (fun x => if x =? 5 then [(sample_bytes, ([], 0))] else [])
             (fun _ => []) (fun _ => []) (fun _ => []) (fun _ => []))
    (<[0%nat := mkShared (mkFDWrapper 5 false false 0 0) 1]>
       {[ 1%nat := mkShared (mkFDWrapper 6 false false 0 0) 1 ]}).

Lemma sample_router_fit : fit sample_router.
Proof.
  destruct (set_up_routes true (replicate 6 Byte.x01) (replicate 6 Byte.x03) 0) as (r & E & Hf & _);
    [lia|done|done|]. unfold sample_router. by rewrite E.
Qed.

(** In three rounds the datagram comes in from the host, and a frame, the ARP request for
    the other router, goes out to the bouncer. *)
Lemma network_thread_routes_witness :
  exists evs r, history 0 1 1 sample_router evs r /\ arrived 0 evs = sample_bytes /\
    Datatypes.length (departed 1 evs) = 1%nat.
Proof.
  pose proof (network_thread_routes 0 1 true 1 [false; false; false] 0%nat 1%nat (Address.of_ip 1)
    sample_router EmptyString sample_world (mkShared (mkFDWrapper 5 false false 0 0) 1)
    (mkShared (mkFDWrapper 6 false false 0 0) 1) ltac:(discriminate) sample_router_fit eq_refl eq_refl
    Nat.lt_0_1 Nat.lt_0_1 ltac:(discriminate)) as Hn.
  assert (E : (fun '(_, w') => (Socket.mail_taken (kernel w') 5,
                                Datatypes.length (Socket.mail_sent (kernel w') 6))) <$>
    network_thread 0 1 true 1 [false; false; false] 0%nat 1%nat (Address.of_ip 1)
      (mkLocals sample_router EmptyString) sample_world = Ok (sample_bytes, 1%nat))
    by (vm_compute; reflexivity).
  destruct (network_thread _ _ _ _ _ _ _ _ _ sample_world) as [[[[b rs] l'] w']|e]; [|discriminate E].
  cbn in E. injection E as E1 E2. destruct Hn as (evs & Hh & [A1 _ _ A4]). cbn in A1, A4.
  exists evs, (router l'). split; [exact Hh|]. split; [congruence|].
  rewrite A4 in E2. by rewrite length_fmap in E2.
Defined.
