(* ===== verification/CommandLine.v ===== *)
(** Command lines: [get_config] of [apps/tcp_udp.cc], [apps/tcp_ipv4.cc] and
    [apps/tcp_ip_ethernet.cc].  [argv] is a list of strings, and reading an argument
    that does not exist is undefined. *)
From S2P Require Import Prelude.
From S2P Require Address TCPSender Adapters Show.
From Stdlib Require Import Ascii String.
Import Address(Address).
Import TCPSender(TCPConfig).
Import Adapters(FdAdapterConfig).
Import Show.
Open Scope Z_scope.

(** ** Programs that may call [exit] *)

(** A computation returns, calls [exit] after [show_usage] with a message, or fails. *)
Inductive prog (A : Type) :=
  | Return (a : A)
  | Exit (status : Z) (message : option string)
  | Fail (e : exn).
Arguments Return {A} _.
Arguments Exit {A} _ _.
Arguments Fail {A} _.

#[export] Instance prog_ret : MRet prog := fun A a => Return a.
#[export] Instance prog_bind : MBind prog := fun A B f m =>
  match m with Return a => f a | Exit s msg => Exit s msg | Fail e => Fail e end.

Definition of_result {A} (r : result A) : prog A :=
  match r with Ok a => Return a | Throw e => Fail e end.

(** [argv[i]] *)
Definition arg (argv : list string) (i : Z) : prog string :=
  match argv !! Z.to_nat i with Some s => Return s | None => Fail undefined_behaviour end.

(** ** The C library *)

(** [strncmp(a, s, n) == 0] *)
Definition strncmp_eq (a s : string) (n : nat) : bool :=
  let terminated x := String.list_ascii_of_string x ++ [ascii_of_nat 0] in
  bool_decide (take n (terminated a) = take n (terminated s)).

Definition code (c : ascii) : Z := Z.of_N (N_of_ascii c).
Definition isspace (c : ascii) : bool := (code c =? 32) || ((9 <=? code c) && (code c <=? 13)).

(** The value of a digit in base [b]. *)
Definition digit_of (b : Z) (c : ascii) : option Z :=
  let n := code c in
  let d := if (48 <=? n) && (n <=? 57) then n - 48
           else if (97 <=? n) && (n <=? 122) then n - 87
           else if (65 <=? n) && (n <=? 90) then n - 55 else b in
  if d <? b then Some d else None.

Fixpoint skip_space (s : string) : string :=
  match s with String c s' => if isspace c then skip_space s' else s | _ => s end.

Fixpoint accumulate (b : Z) (s : string) (n : Z) : Z :=
  match s with
  | String c s' => match digit_of b c with Some d => accumulate b s' (n * b + d) | None => n end
  | EmptyString => n
  end.

(** [strtol(s, nullptr, 0)]: the base is found from the prefix, and the value is
    clamped to the range of [long]. *)
Definition unsigned_value (s : string) : Z :=
  match s with
  | String c s' =>
      if code c =? 48 then
        match s' with
        | String x (String y _ as s'') =>
            if ((code x =? 120) || (code x =? 88)) && bool_decide (is_Some (digit_of 16 y))
            then accumulate 16 s'' 0 else accumulate 8 s' 0
        | _ => accumulate 8 s' 0
        end
      else accumulate 10 s 0
  | EmptyString => 0
  end.
Definition LONG_MAX : Z := 9223372036854775807.
Definition strtol (s : string) : Z :=
  let n := match skip_space s with
           | String c s' as t =>
               if code c =? 45 then - unsigned_value s'
               else if code c =? 43 then unsigned_value s' else unsigned_value t
           | EmptyString => 0
           end in
  Z.max (- LONG_MAX - 1) (Z.min LONG_MAX n).

(** ** Options *)

(** The local variables of the three functions. *)
Record Options := mkOptions {
  c_fsm : TCPConfig;
  loss_rate_dn : Z;             (* c_filt.loss_rate_dn *)
  loss_rate_up : Z;             (* c_filt.loss_rate_up *)
  listen : bool;
  device : option string;       (* tundev, tapdev *)
  source_address : string;
  source_port : string;
  next_hop_address : string
}.

Definition set_c_fsm (c : TCPConfig) (o : Options) : Options :=
  mkOptions c (loss_rate_dn o) (loss_rate_up o) (listen o) (device o) (source_address o)
    (source_port o) (next_hop_address o).
Definition set_recv_capacity (n : Z) (o : Options) : Options :=
  let c := c_fsm o in
  set_c_fsm (TCPSender.mkTCPConfig (TCPSender.rt_timeout c) n (TCPSender.send_capacity c)
               (TCPSender.fixed_isn c)) o.
Definition set_rt_timeout (n : Z) (o : Options) : Options :=
  let c := c_fsm o in
  set_c_fsm (TCPSender.mkTCPConfig n (TCPSender.recv_capacity c) (TCPSender.send_capacity c)
               (TCPSender.fixed_isn c)) o.
Definition set_loss (dn up : Z) (o : Options) : Options :=
  mkOptions (c_fsm o) dn up (listen o) (device o) (source_address o) (source_port o)
    (next_hop_address o).
Definition set_listen (o : Options) : Options :=
  mkOptions (c_fsm o) (loss_rate_dn o) (loss_rate_up o) true (device o) (source_address o)
    (source_port o) (next_hop_address o).
Definition set_device (d : string) (o : Options) : Options :=
  mkOptions (c_fsm o) (loss_rate_dn o) (loss_rate_up o) (listen o) (Some d) (source_address o)
    (source_port o) (next_hop_address o).
Definition set_source (a p : string) (o : Options) : Options :=
  mkOptions (c_fsm o) (loss_rate_dn o) (loss_rate_up o) (listen o) (device o) a p
    (next_hop_address o).
Definition set_next_hop (a : string) (o : Options) : Options :=
  mkOptions (c_fsm o) (loss_rate_dn o) (loss_rate_up o) (listen o) (device o) (source_address o)
    (source_port o) a.

(** [LOCAL_ADDRESS_DFLT], [GATEWAY_DFLT] and the initial values. *)
Definition LOCAL_ADDRESS_DFLT : string := "169.254.144.9".
Definition TAP_LOCAL_ADDRESS_DFLT : string := "169.254.10.9".
Definition GATEWAY_DFLT : string := "169.254.10.1".
Definition TAP_DFLT : string := "tap10".

(** [check_argc] *)
Definition check_argc (argv : list string) (curr : Z) (err : string) : prog unit :=
  if size argv <=? curr + 3 then Exit 1 (Some err) else Return tt.

(** An option with one argument. *)
Definition with_value (argv : list string) (curr : Z) (err : string) (f : string -> Options)
    : prog (Z * Options) :=
  _ ← check_argc argv curr err;
  v ← arg argv (curr + 1);
  Return (curr + 2, f v).

Definition unrecognized (a : string) : prog (Z * Options) :=
  Exit 1 (Some ("ERROR: unrecognized option " <+> a)).

(** The loop [while (argc - curr > 2)] around the body [step]. *)
Fixpoint options_loop (step : Z -> Options -> prog (Z * Options)) (argc : Z) (fuel : nat)
    (curr : Z) (o : Options) : prog (Z * Options) :=
  match fuel with
  | O => Fail undefined_behaviour
  | S fuel =>
      if 2 <? argc - curr then
        '(curr, o) ← step curr o;
        options_loop step argc fuel curr o
      else Return (curr, o)
  end.
Definition parse_options (step : Z -> Options -> prog (Z * Options)) (argv : list string)
    (o : Options) : prog (Z * Options) :=
  options_loop step (size argv) (S (Datatypes.length argv)) 1 o.

Section Config.
(** The two constructors of [Address] from a host and a service or port number, and
    [port], through the C library's resolver, and the loss rate for an argument,
    [uint16_t(65535.0f * strtof(s, nullptr))]. *)
Context (resolve : string -> string -> result Address) (numeric : string -> Z -> result Address)
  (port : Address -> result Z) (loss_rate : string -> Z).

Definition ERR (x : string) : string := "ERROR: " <+> x <+> " requires one argument.".

(** The body of the loop of [apps/tcp_udp.cc]. *)
Definition udp_step (argv : list string) (curr : Z) (o : Options) : prog (Z * Options) :=
  a ← arg argv curr;
  if strncmp_eq "-l" a 3 then Return (curr + 1, set_listen o)
  else if strncmp_eq "-w" a 3 then
    with_value argv curr (ERR "-w") (fun v => set_recv_capacity (u64 (strtol v)) o)
  else if strncmp_eq "-t" a 3 then
    with_value argv curr (ERR "-t") (fun v => set_rt_timeout (u16 (strtol v)) o)
  else if strncmp_eq "-Lu" a 3 then
    with_value argv curr (ERR "-Lu") (fun v => set_loss (loss_rate_dn o) (loss_rate v) o)
  else if strncmp_eq "-Ld" a 3 then
    with_value argv curr (ERR "-Lu") (fun v => set_loss (loss_rate v) (loss_rate_up o) o)
  else if strncmp_eq "-h" a 3 then Exit 0 None
  else unrecognized a.

(** The initial addresses of [FdAdapterConfig]. *)
Definition zero_address : result Address := numeric "0" 0.

(** The configuration of the adapter that the options give. *)
Definition c_filt (source destination : Address) (o : Options) : FdAdapterConfig :=
  Adapters.mkConfig source destination (loss_rate_dn o) (loss_rate_up o).

(** [get_config] of [apps/tcp_udp.cc] *)
Definition udp_get_config (argv : list string) : prog (TCPConfig * FdAdapterConfig * bool) :=
  zero ← of_result zero_address;
  '(_, o) ← parse_options (udp_step argv) argv
              (mkOptions TCPSender.default_config 0 0 false None "" "" "");
  if listen o then
    last ← arg argv (size argv - 1);
    source ← of_result (resolve "0" last);
    Return (c_fsm o, c_filt source zero o, listen o)
  else
    host ← arg argv (size argv - 2);
    last ← arg argv (size argv - 1);
    destination ← of_result (resolve host last);
    Return (c_fsm o, c_filt zero destination o, listen o).

(** The body of the loop of [apps/tcp_ipv4.cc]. *)
Definition ipv4_step (argv : list string) (curr : Z) (o : Options) : prog (Z * Options) :=
  a ← arg argv curr;
  if strncmp_eq "-l" a 3 then Return (curr + 1, set_listen o)
  else if strncmp_eq "-a" a 3 then
    with_value argv curr (ERR "-a") (fun v => set_source v (source_port o) o)
  else if strncmp_eq "-s" a 3 then
    with_value argv curr (ERR "-s") (fun v => set_source (source_address o) v o)
  else if strncmp_eq "-w" a 3 then
    with_value argv curr (ERR "-w") (fun v => set_recv_capacity (u64 (strtol v)) o)
  else if strncmp_eq "-t" a 3 then
    with_value argv curr (ERR "-t") (fun v => set_rt_timeout (u16 (strtol v)) o)
  else if strncmp_eq "-d" a 3 then
    with_value argv curr (ERR "-t") (fun v => set_device v o)
  else if strncmp_eq "-Lu" a 3 then
    with_value argv curr (ERR "-Lu") (fun v => set_loss (loss_rate_dn o) (loss_rate v) o)
  else if strncmp_eq "-Ld" a 3 then
    with_value argv curr (ERR "-Lu") (fun v => set_loss (loss_rate v) (loss_rate_up o) o)
  else if strncmp_eq "-h" a 3 then Exit 0 None
  else unrecognized a.

(** [get_config] of [apps/tcp_ipv4.cc]; [random] is the random source port. *)
Definition ipv4_get_config (random : Z) (argv : list string)
    : prog (TCPConfig * FdAdapterConfig * bool * option string) :=
  zero ← of_result zero_address;
  '(curr, o) ← parse_options (ipv4_step argv) argv
                 (mkOptions TCPSender.default_config 0 0 false None LOCAL_ADDRESS_DFLT
                    (dec (u16 random)) "");
  if listen o then
    p ← arg argv (curr + 1);
    source ← of_result (resolve "0" p);
    n ← of_result (port source);
    if n =? 0 then Exit 1 (Some "ERROR: listen port cannot be zero in server mode.")
    else Return (c_fsm o, c_filt source zero o, listen o, device o)
  else
    host ← arg argv curr;
    p ← arg argv (curr + 1);
    destination ← of_result (resolve host p);
    source ← of_result (resolve (source_address o) (source_port o));
    Return (c_fsm o, c_filt source destination o, listen o, device o).

(** The body of the loop of [apps/tcp_ip_ethernet.cc]. *)
Definition ethernet_step (argv : list string) (curr : Z) (o : Options) : prog (Z * Options) :=
  a ← arg argv curr;
  if strncmp_eq "-a" a 3 then
    with_value argv curr (ERR "-a") (fun v => set_source v (source_port o) o)
  else if strncmp_eq "-s" a 3 then
    with_value argv curr (ERR "-s") (fun v => set_source (source_address o) v o)
  else if strncmp_eq "-n" a 3 then
    with_value argv curr (ERR "-n") (fun v => set_next_hop v o)
  else if strncmp_eq "-w" a 3 then
    with_value argv curr (ERR "-w") (fun v => set_recv_capacity (u64 (strtol v)) o)
  else if strncmp_eq "-t" a 3 then
    with_value argv curr (ERR "-t") (fun v => set_rt_timeout (u16 (strtol v)) o)
  else if strncmp_eq "-d" a 3 then
    with_value argv curr (ERR "-t") (fun v => set_device v o)
  else if strncmp_eq "-h" a 3 then Exit 0 None
  else unrecognized a.

(** [get_config] of [apps/tcp_ip_ethernet.cc] *)
Definition ethernet_get_config (random : Z) (argv : list string)
    : prog (TCPConfig * FdAdapterConfig * Address * option string) :=
  zero ← of_result zero_address;
  '(curr, o) ← parse_options (ethernet_step argv) argv
                 (mkOptions TCPSender.default_config 0 0 false (Some TAP_DFLT) TAP_LOCAL_ADDRESS_DFLT
                    (dec (u16 random)) GATEWAY_DFLT);
  host ← arg argv curr;
  p ← arg argv (curr + 1);
  destination ← of_result (resolve host p);
  source ← of_result (resolve (source_address o) (source_port o));
  next_hop ← of_result (resolve (next_hop_address o) "0");
  Return (c_fsm o, c_filt source destination o, next_hop, device o).

End Config.

(** ** Every argument that is read exists *)

Lemma arg_Return argv i : 0 <= i < size argv -> exists s, arg argv i = Return s.
Proof.
  intros Hi. unfold arg. destruct (lookup_lt_is_Some_2 argv (Z.to_nat i)) as [s ->];
    [unfold size in Hi; lia|]. by exists s.
Qed.

(** The outcome is not a failure; a value satisfies [Q]. *)
Definition safe {A} (Q : A -> Prop) (m : prog A) : Prop :=
  match m with Return a => Q a | Exit _ _ => True | Fail e => e <> undefined_behaviour end.

Lemma safe_bind {A B} (P : A -> Prop) (Q : B -> Prop) m (f : A -> prog B) :
  safe P m -> (forall a, P a -> safe Q (f a)) -> safe Q (m ≫= f).
Proof. destruct m; cbn; auto. Qed.

Lemma safe_arg argv i : 0 <= i < size argv -> safe (fun _ => True) (arg argv i).
Proof. intros Hi. by destruct (arg_Return argv i Hi) as [s ->]. Qed.

Lemma safe_result {A} (r : result A) : r <> Throw undefined_behaviour -> safe (fun _ => True) (of_result r).
Proof. destruct r as [|e]; cbn; [done|]. intros H ->. by apply H. Qed.

(** The position after an option: it has moved, and two arguments are left. *)
Definition moved (argv : list string) (curr : Z) (p : Z * Options) : Prop :=
  curr < p.1 <= size argv - 2.

Lemma safe_with_value argv curr err f :
  0 <= curr -> safe (moved argv curr) (with_value argv curr err f).
Proof.
  intros Hc. unfold with_value, check_argc. case_Z; [done|]. cbn.
  apply (safe_bind (fun _ => True)); [by apply safe_arg; lia|]. intros v _.
  unfold moved. cbn. lia.
Qed.

Lemma safe_options_loop step argv fuel curr o :
  (forall curr o, 1 <= curr -> 2 < size argv - curr -> safe (moved argv curr) (step curr o)) ->
  1 <= curr <= size argv - 2 -> size argv - curr <= Z.of_nat fuel -> 
  safe (fun p => p.1 = size argv - 2) (options_loop step (size argv) fuel curr o).
Proof.
  intros Hstep. revert curr o. induction fuel as [|fuel IH]; intros curr o Hc Hf; [lia|].
  cbn [options_loop]. case_Z; [|cbn; lia].
  apply (safe_bind (moved argv curr)); [apply Hstep; lia|]. intros [c o'] [? ?]. cbn in *.
  apply IH; lia.
Qed.

Lemma safe_parse_options step argv o :
  3 <= size argv ->
  (forall curr o, 1 <= curr -> 2 < size argv - curr -> safe (moved argv curr) (step curr o)) ->
  safe (fun p => p.1 = size argv - 2) (parse_options step argv o).
Proof. intros Ha Hs. apply safe_options_loop; [done|lia|]. unfold size. lia. Qed.

Ltac safe_step :=
  intros curr o Hc Hl; apply (safe_bind (fun _ => True)); [by apply safe_arg; lia|]; intros a _;
  repeat match goal with |- safe _ (if ?b then _ else _) => destruct b end;
  first [ done | apply safe_with_value; lia | unfold moved; cbn; lia ].

Lemma safe_udp_step rate argv curr o :
  1 <= curr -> 2 < size argv - curr -> safe (moved argv curr) (udp_step rate argv curr o).
Proof. revert curr o. safe_step. Qed.
Lemma safe_ipv4_step rate argv curr o :
  1 <= curr -> 2 < size argv - curr -> safe (moved argv curr) (ipv4_step rate argv curr o).
Proof. revert curr o. safe_step. Qed.
Lemma safe_ethernet_step argv curr o :
  1 <= curr -> 2 < size argv - curr -> safe (moved argv curr) (ethernet_step argv curr o).
Proof. revert curr o. safe_step. Qed.

Section Bounds.
Context (resolve : string -> string -> result Address) (numeric : string -> Z -> result Address)
  (port : Address -> result Z) (loss_rate : string -> Z).

(** Closes the reads and the calls of the resolver, one after the other. *)
Ltac safe_bounds :=
  repeat first
    [ done
    | match goal with |- safe _ (if ?b then _ else _) => destruct b end
    | apply (safe_bind (fun _ => True));
        [first [apply safe_arg; cbn in *; lia | apply safe_result; auto] | intros ? _] ].

(** With the three arguments that [main] insists on, [get_config] of each of the three
    programs ends and never reads an argument that does not exist, whatever the
    arguments are. *)
Theorem config_in_bounds random argv :
  3 <= size argv ->
  (forall h s, resolve h s <> Throw undefined_behaviour) ->
  (forall h p, numeric h p <> Throw undefined_behaviour) ->
  (forall a, port a <> Throw undefined_behaviour) ->
  udp_get_config resolve numeric loss_rate argv <> Fail undefined_behaviour /\
  ipv4_get_config resolve numeric port loss_rate random argv <> Fail undefined_behaviour /\
  ethernet_get_config resolve numeric random argv <> Fail undefined_behaviour.
Proof.
  intros Ha Hr Hz Hp.
  assert (Safe : forall A (m : prog A), safe (fun _ => True) m -> m <> Fail undefined_behaviour).
  { by intros A [| |]; cbn; congruence. }
  split_and!; apply Safe; (apply (safe_bind (fun _ => True)); [apply safe_result, Hz|]); intros zero _;
    (apply (safe_bind (fun p => p.1 = size argv - 2));
      [apply safe_parse_options; [done|]; intros; 
       first [by apply safe_udp_step | by apply safe_ipv4_step | by apply safe_ethernet_step]|]);
    intros [curr o] Hcurr; cbn in Hcurr; subst curr; safe_bounds.
Qed.

End Bounds.

(** ** What a well-formed command line means *)

(** The options, with their arguments. *)
Inductive opt :=
  | Listen | SourceAddress (a : string) | SourcePort (p : string) | NextHop (a : string)
  | Window (w : string) | Timeout (t : string) | Dev (d : string)
  | LossUp (r : string) | LossDown (r : string).

(** How an option is written, and what it does. *)
Definition words (x : opt) : list string :=
  match x with
  | Listen => ["-l"] | SourceAddress a => ["-a"; a] | SourcePort p => ["-s"; p]
  | NextHop a => ["-n"; a] | Window w => ["-w"; w] | Timeout t => ["-t"; t] | Dev d => ["-d"; d]
  | LossUp r => ["-Lu"; r] | LossDown r => ["-Ld"; r]
  end%string.
Definition effect (rate : string -> Z) (o : Options) (x : opt) : Options :=
  match x with
  | Listen => set_listen o
  | SourceAddress a => set_source a (source_port o) o
  | SourcePort p => set_source (source_address o) p o
  | NextHop a => set_next_hop a o
  | Window w => set_recv_capacity (u64 (strtol w)) o
  | Timeout t => set_rt_timeout (u16 (strtol t)) o
  | Dev d => set_device d o
  | LossUp r => set_loss (loss_rate_dn o) (rate r) o
  | LossDown r => set_loss (rate r) (loss_rate_up o) o
  end.

(** Which options each program has. *)
Definition udp_option (x : opt) : bool :=
  match x with Listen | Window _ | Timeout _ | LossUp _ | LossDown _ => true | _ => false end.
Definition ipv4_option (x : opt) : bool := match x with NextHop _ => false | _ => true end.
Definition ethernet_option (x : opt) : bool :=
  match x with Listen | LossUp _ | LossDown _ => false | _ => true end.

(** The command line of a program named [p]. *)
Definition command_line (p : string) (opts : list opt) (host port : string) : list string :=
  p :: (opts ≫= words) ++ [host; port].

(** [step] takes the options that [accepts] selects. *)
Definition takes_options (step : list string -> Z -> Options -> prog (Z * Options))
    (accepts : opt -> bool) (rate : string -> Z) : Prop :=
  forall pre x rest o, accepts x = true -> (2 <= Datatypes.length rest)%nat ->
  step (pre ++ words x ++ rest) (size pre) o = Return (size pre + size (words x), effect rate o x).

Lemma arg_app pre rest k : arg (pre ++ rest) (size pre + Z.of_nat k) = arg rest (Z.of_nat k).
Proof.
  unfold arg, size. rewrite lookup_app_r by lia.
  by replace (Z.to_nat (Z.of_nat (Datatypes.length pre) + Z.of_nat k) - Datatypes.length pre)%nat
    with (Z.to_nat (Z.of_nat k)) by lia.
Qed.

Lemma arg_first pre a rest : arg (pre ++ a :: rest) (size pre) = Return a.
Proof. rewrite <- (Z.add_0_r (size pre)). change 0 with (Z.of_nat 0). by rewrite arg_app. Qed.

Lemma with_value_eq pre a v rest err f :
  (2 <= Datatypes.length rest)%nat ->
  with_value (pre ++ a :: v :: rest) (size pre) err f = Return (size pre + 2, f v).
Proof.
  intros Hr. unfold with_value, check_argc. case_Z.
  - rewrite size_app, !size_cons in *. unfold size in *. lia.
  - cbn [mbind prog_bind]. change 1 with (Z.of_nat 1). by rewrite arg_app.
Qed.

Ltac takes :=
  intros pre x rest o Hx Hr; destruct x; try discriminate Hx; unfold words;
  cbn [app]; rewrite arg_first; cbn [mbind prog_bind];
  repeat match goal with
  | |- context [strncmp_eq ?a ?b ?n] => 
      let v := eval vm_compute in (strncmp_eq a b n) in change (strncmp_eq a b n) with v; cbv match
  end;
  rewrite ?with_value_eq by done; done.

Lemma udp_takes rate : takes_options (udp_step rate) udp_option rate.
Proof. unfold takes_options, udp_step. takes. Qed.
Lemma ipv4_takes rate : takes_options (ipv4_step rate) ipv4_option rate.
Proof. unfold takes_options, ipv4_step. takes. Qed.
Lemma ethernet_takes rate : takes_options ethernet_step ethernet_option rate.
Proof. unfold takes_options, ethernet_step. takes. Qed.

Lemma words_size x : 1 <= size (words x).
Proof. destruct x; unfold size; cbn; lia. Qed.

Lemma options_loop_takes step accepts rate opts host port :
  takes_options step accepts rate -> Forall (fun x => accepts x = true) opts ->
  forall pre o fuel,
  let argv := pre ++ (opts ≫= words) ++ [host; port] in
  size argv - size pre <= Z.of_nat fuel ->
  options_loop (step argv) (size argv) fuel (size pre) o =
  Return (size argv - 2, foldl (effect rate) o opts).
Proof.
  intros Hstep. induction 1 as [|x opts Hx _ IH]; intros pre o fuel argv Hf.
  - unfold argv in *. cbn [mbind list_bind app] in *. rewrite size_app, !size_cons in *.
    change (size (@nil string)) with 0 in *. destruct fuel as [|fuel]; [lia|]. cbn [options_loop].
    case_Z; [lia|]. cbn. f_equal. f_equal. lia.
  - unfold argv in *. clear argv. cbn [mbind list_bind] in *. fold (mbind words opts) in *.
    rewrite <- (assoc_L (++)) in *. pose proof (words_size x).
    assert (Hl : 2 <= size ((opts ≫= words) ++ [host; port])).
    { rewrite size_app, !size_cons. pose proof (size_nonneg (opts ≫= words)).
      pose proof (size_nonneg (@nil string)). lia. }
    destruct fuel as [|fuel]; [rewrite !size_app in *; lia|]. cbn [options_loop]. case_Z.
    2: { rewrite (size_app pre), (size_app (words x)) in *. lia. }
    rewrite Hstep by (done || unfold size in Hl; lia). cbn [mbind prog_bind foldl].
    specialize (IH (pre ++ words x) (effect rate o x) fuel).
    cbv zeta in IH. rewrite <- (assoc_L (++)), (size_app pre (words x)) in IH.
    apply IH. rewrite (size_app pre), (size_app (words x)) in *. lia.
Qed.

Lemma parse_options_takes step accepts rate opts p host port o :
  takes_options step accepts rate -> Forall (fun x => accepts x = true) opts ->
  let argv := command_line p opts host port in
  parse_options (step argv) argv o = Return (size argv - 2, foldl (effect rate) o opts).
Proof.
  intros Hs Ho argv. apply (options_loop_takes step accepts rate opts host port Hs Ho [p]).
  cbv zeta. change ([p] ++ (opts ≫= words) ++ [host; port]) with argv. unfold size. lia.
Qed.

(** The two arguments at the end. *)
Lemma last_arguments p opts host port :
  let argv := command_line p opts host port in
  3 <= size argv /\ arg argv (size argv - 2) = Return host /\ arg argv (size argv - 1) = Return port.
Proof.
  intros argv. set (pre := p :: (opts ≫= words)).
  assert (E : argv = pre ++ [host; port]) by done. assert (Hp : 1 <= size pre).
  { unfold pre. rewrite size_cons. pose proof (size_nonneg (opts ≫= words)). lia. }
  assert (Hs : size argv = size pre + 2) by (rewrite E, size_app; done).
  split; [lia|]. rewrite Hs, E. replace (size pre + 2 - 2) with (size pre) by lia.
  rewrite arg_first. replace (size pre + 2 - 1) with (size pre + Z.of_nat 1) by lia. by rewrite arg_app.
Qed.

(** Each of the three programs understands every command line made of its options, in
    any number and order, followed by a host and a port: the loop of its [get_config]
    stops at these two, having applied the effects of the options from left to right. *)
Theorem options_understood rate opts p host port o :
  let argv := command_line p opts host port in
  (Forall (fun x => udp_option x = true) opts ->
   parse_options (udp_step rate argv) argv o = Return (size argv - 2, foldl (effect rate) o opts)) /\
  (Forall (fun x => ipv4_option x = true) opts ->
   parse_options (ipv4_step rate argv) argv o = Return (size argv - 2, foldl (effect rate) o opts)) /\
  (Forall (fun x => ethernet_option x = true) opts ->
   parse_options (ethernet_step argv) argv o = Return (size argv - 2, foldl (effect rate) o opts)).
Proof.
  intros argv. split_and!; intros Ho.
  - by apply (parse_options_takes _ udp_option rate), Ho; apply udp_takes.
  - by apply (parse_options_takes _ ipv4_option rate), Ho; apply ipv4_takes.
  - by apply (parse_options_takes _ ethernet_option rate), Ho; apply ethernet_takes.
Qed.

(** ** Numbers *)

Lemma digit_of_digit d : 0 <= d < 10 -> digit_of 10 (digit d) = Some d /\ code (digit d) = 48 + d.
Proof.
  intros Hd. assert (In d (Z.of_nat <$> seq 0 10)) as H.
  { apply list_elem_of_In, list_elem_of_fmap. exists (Z.to_nat d). rewrite elem_of_seq. lia. }
  cbn in H. repeat (destruct H as [<-|H]; [done|]). done.
Qed.

(** A printed number starts with a digit that is not zero, and is read back. *)
Lemma accumulate_digits f n acc :
  0 < n -> (Z.to_nat (Z.log2 n) < f)%nat ->
  exists d s, 0 < d < 10 /\ digits f 10 n acc = String (digit d) s /\
    accumulate 10 (digits f 10 n acc) 0 = accumulate 10 acc n.
Proof.
  revert n acc. induction f as [|f IH]; intros n acc Hn Hf; [lia|]. cbn [digits].
  assert (Hm : 0 <= n mod 10 < 10) by (apply Z.mod_pos_bound; lia).
  destruct (digit_of_digit (n mod 10) Hm) as [Hd _]. case_Z.
  - rewrite Z.mod_small in Hd by lia. rewrite Z.mod_small by lia.
    exists n, acc. split; [lia|]. split; [done|]. cbn [accumulate]. by rewrite Hd.
  - assert (0 < n / 10) by (apply Z.div_str_pos; lia).
    destruct (IH (n / 10) (String (digit (n mod 10)) acc)) as (d & s & ? & ? & E); [done| |].
    + assert (n / 10 <= n / 2) by (apply Z.div_le_compat_l; lia).
      assert (Hlog : Z.log2 (n / 10) <= Z.log2 (n / 2)) by (by apply Z.log2_le_mono).
      rewrite <- (Z.div2_div n), Z.div2_spec, Z.log2_shiftr in Hlog by lia.
      assert (1 <= Z.log2 n) by (apply Z.log2_le_pow2; cbn; lia). lia.
    + exists d, s. split; [done|]. split; [done|]. rewrite E. cbn [accumulate]. rewrite Hd.
      f_equal. rewrite (Z.div_mod n 10) at 3 by lia. lia.
Qed.

(** [strtol] reads a printed number back. *)
Lemma strtol_dec n : 0 <= n <= LONG_MAX -> strtol (dec n) = n.
Proof.
  intros [Hn Hm]. destruct (Z.eq_dec n 0) as [->|Hn0]; [done|].
  destruct (accumulate_digits (S (Z.to_nat (Z.log2 n))) n EmptyString) as (d & s & Hd & E & Ea);
    [lia..|].
  unfold dec, show. cbn [accumulate] in Ea. rewrite E in Ea |- *.
  destruct (digit_of_digit d) as [_ Hc]; [lia|]. unfold strtol. cbn [skip_space].
  unfold isspace. rewrite Hc. replace (_ || _) with false by lia. rewrite Hc.
  replace (48 + d =? 45) with false by lia. replace (48 + d =? 43) with false by lia.
  unfold unsigned_value. rewrite Hc. replace (48 + d =? 48) with false by lia.
  rewrite Ea. unfold LONG_MAX in *. lia.
Qed.

(** ** Samples *)

Definition sample_resolve (host service : string) : result Address :=
  Ok (Address.of_ip (strtol service)).
Definition sample_numeric (host : string) (p : Z) : result Address := Ok (Address.of_ip p).
Definition sample_options : list opt := [Listen; Window "512"; Timeout "0x10"].

Lemma config_in_bounds_witness :
  udp_get_config sample_resolve sample_numeric (fun _ => 0) ["tcp"; "-w"; "9"]
    <> Fail undefined_behaviour.
Proof.
  by apply (config_in_bounds sample_resolve sample_numeric (fun _ => Ok 7) (fun _ => 0) 0).
Defined.

Lemma options_understood_witness :
  let argv := command_line "tcp" sample_options "0" "80" in
  let o := mkOptions TCPSender.default_config 0 0 false None "" "" "" in
  exists o', parse_options (udp_step (fun _ => 0) argv) argv o = Return (5 + 1, o') /\
    listen o' = true /\ TCPSender.recv_capacity (c_fsm o') = 512 /\
    TCPSender.rt_timeout (c_fsm o') = 16.
Proof.
  intros argv o. eexists. split.
  - apply (options_understood (fun _ => 0) sample_options "tcp" "0" "80" o).
    by repeat constructor.
  - split_and!; vm_compute; reflexivity.
Defined.

(** Four surprises of the command lines.  Every argument that starts with [-Lu] is
    taken for [-Lu], since only three characters are compared; a missing argument of
    [-Ld] is reported as one of [-Lu], and a missing argument of [-d] as one of [-t];
    and a retransmission time-out of 65536 ms is silently taken for 0 ms. *)
Theorem option_surprises :
  (forall rate s argv curr o, arg argv curr = Return ("-Lu" <+> s) ->
     udp_step rate argv curr o =
     with_value argv curr (ERR "-Lu") (fun v => set_loss (loss_rate_dn o) (rate v) o)) /\
  (forall rate o, udp_step rate ["tcp"; "-Ld"; "0.1"; "80"] 1 o = Exit 1 (Some (ERR "-Lu"))) /\
  (forall rate o, ipv4_step rate ["tcp"; "-d"; "tun1"; "80"] 1 o = Exit 1 (Some (ERR "-t"))) /\
  (forall rate o, effect rate o (Timeout "65536") = set_rt_timeout 0 o).
Proof.
  split_and!; [|done..]. intros rate s argv curr o Ha. unfold udp_step. rewrite Ha.
  cbn [mbind prog_bind]. done.
Qed.

Lemma option_surprises_witness :
  udp_step (fun _ => 5) ["tcp"; "-Lunar"; "0.1"; "host"; "80"] 1
    (mkOptions TCPSender.default_config 0 0 false None "" "" "") =
  Return (3, mkOptions TCPSender.default_config 0 5 false None "" "" "").
Proof.
  destruct option_surprises as [H _].
  by rewrite (H (fun _ => 5) "nar"%string ["tcp"; "-Lunar"; "0.1"; "host"; "80"]%string 1).
Defined.
