(* ===== verification/Names.v ===== *)
(** Names of hosts and services: the members of [Address] in
    [libsponge/util/address.hh] and [address.cc] that call [getaddrinfo] and
    [getnameinfo].  The two library functions are parameters; a C string is a
    [string] without null characters. *)
From S2P Require Import Prelude Parser.
From S2P Require Address Adapters Show CommandLine.
From Stdlib Require Import Ascii String.
Import Address(Address).
Import Show.
Import CommandLine(code, digit_of, skip_space, accumulate, digit_of_digit, accumulate_digits, isspace).
Open Scope Z_scope.

(** The fields of [struct addrinfo] that [make_hints] sets; the others are zero. *)
Record addrinfo := mkAddrinfo { ai_flags : Z; ai_family : Z }.

Definition AI_NUMERICHOST : Z := 4.
Definition AI_ALL : Z := 16.
Definition AI_NUMERICSERV : Z := 1024.
Definition NI_NUMERICHOST : Z := 1.
Definition NI_NUMERICSERV : Z := 2.

(** [getaddrinfo]: an error code, or the first entry of the list, if there is one,
    as the bytes at [ai_addr] and [ai_addrlen].  [getnameinfo]: an error code, or
    the host and the service. *)
Class NameService := {
  getaddrinfo : string -> string -> addrinfo -> Z + option (bytes * Z);
  getnameinfo : bytes -> Z -> Z -> Z + (string * string)
}.

(** [std::string::c_str], as a C function reads it. *)
Fixpoint c_str (s : string) : string :=
  match s with
  | EmptyString => EmptyString
  | String c s' => if code c =? 0 then EmptyString else String c (c_str s')
  end.

(** [std::stoi] *)
Definition INT_MAX : Z := 2147483647.
Definition stoi (s : string) : result Z :=
  let s := skip_space s in
  let '(negative, s) :=
    match s with
    | String c s' => if code c =? 45 then (true, s') else if code c =? 43 then (false, s') else (false, s)
    | EmptyString => (false, s)
    end in
  match s with
  | String c _ =>
      match digit_of 10 c with
      | Some _ =>
          let v := if negative : bool then - accumulate 10 s 0 else accumulate 10 s 0 in
          if (v <? - INT_MAX - 1) || (INT_MAX <? v) then Throw out_of_range else Ok v
      | None => Throw invalid_argument
      end
  | EmptyString => Throw invalid_argument
  end.

Definition make_hints (flags family : Z) : addrinfo := mkAddrinfo flags family.

Section Names.
Context `{NameService}.

(** The private constructor from a node, a service and hints. *)
Definition of_hints (node service : string) (hints : addrinfo) : result Address :=
  match getaddrinfo (c_str node) (c_str service) hints with
  | inl gai_ret => Throw (gai_error gai_ret)
  | inr None => Throw runtime_error
  | inr (Some (ai_addr, ai_addrlen)) => Address.of_sockaddr ai_addr ai_addrlen
  end.

(** The constructor from a hostname and a service. *)
Definition of_name (hostname service : string) : result Address :=
  of_hints hostname service (make_hints AI_ALL Address.AF_INET).

(** The constructor from a dotted quad and a port. *)
Definition of_quad (ip : string) (port : Z) : result Address :=
  of_hints ip (dec port) (make_hints (Z.lor AI_NUMERICHOST AI_NUMERICSERV) Address.AF_INET).

Definition ip_port (a : Address) : result (string * Z) :=
  match getnameinfo (Address.storage a) (Address.addr_size a) (Z.lor NI_NUMERICHOST NI_NUMERICSERV) with
  | inl gni_ret => Throw (gai_error gni_ret)
  | inr (ip, port) => n ← stoi port; Ok (ip, u16 n)
  end.

Definition ip (a : Address) : result string := p ← ip_port a; Ok p.1.
Definition port (a : Address) : result Z := p ← ip_port a; Ok p.2.
Definition to_string (a : Address) : result string :=
  ip_and_port ← ip_port a;
  Ok (ip_and_port.1 <+> ":" <+> dec ip_and_port.2).

(** [operator!=] *)
Definition neqb (a b : Address) : bool := negb (Address.eqb a b).

(** What the rest of the program uses of it; see [Adapters.Resolver]. *)
Definition resolver : Adapters.Resolver := {|
  Adapters.make_address n p := of_quad (inet_ntoa n) p;
  Adapters.port := port
|}.
End Names.

(** What the manual pages say of numeric names.  A numeric host and service are
    not looked up; the answer is the socket address that holds them.  A single
    number is a host too.  [getnameinfo] with the numeric flags prints the
    address and the port. *)
Class NameLaws `{NameService} : Prop := {
  numeric_host n p h : 0 <= n < M32 -> 0 <= p < 65536 -> ai_family h = Address.AF_INET ->
    getaddrinfo (inet_ntoa n) (dec p) h =
      inr (Some (Address.sockaddr_in Address.AF_INET p n, Address.sockaddr_in_size));
  number_host n p h : 0 <= n < M32 -> 0 <= p < 65536 -> ai_family h = Address.AF_INET ->
    getaddrinfo (dec n) (dec p) h =
      inr (Some (Address.sockaddr_in Address.AF_INET p n, Address.sockaddr_in_size));
  numeric_name n p pad : 0 <= n < M32 -> 0 <= p < 65536 ->
    getnameinfo (Address.sockaddr_in Address.AF_INET p n ++ pad) Address.sockaddr_in_size
      (Z.lor NI_NUMERICHOST NI_NUMERICSERV) = inr (inet_ntoa n, dec p)
}.

(** ** Printed numbers are C strings, and are read back *)

Lemma c_str_digits f n acc : 0 <= n -> c_str (digits f 10 n acc) = digits f 10 n (c_str acc).
Proof.
  revert n acc. induction f as [|f IH]; intros n acc Hn; [done|]. cbn [digits].
  assert (Hd : c_str (String (digit (n mod 10)) acc) = String (digit (n mod 10)) (c_str acc)).
  { cbn [c_str]. destruct (digit_of_digit (n mod 10)) as [_ ->]; [apply Z.mod_pos_bound; lia|].
    case_Z; [|done]. pose proof (Z.mod_pos_bound n 10). lia. }
  destruct (n <? 10); [done|]. rewrite IH, Hd by (apply Z.div_pos; lia). done.
Qed.

Lemma c_str_dec n s : 0 <= n -> c_str (dec n <+> s) = dec n <+> c_str s.
Proof. intros Hn. unfold dec, show. rewrite !append_digits, c_str_digits by done. done. Qed.

Lemma c_str_dec_only n : 0 <= n -> c_str (dec n) = dec n.
Proof. intros Hn. rewrite <- (append_nil_r (dec n)). by rewrite c_str_dec. Qed.

Lemma c_str_inet_ntoa n : c_str (inet_ntoa n) = inet_ntoa n.
Proof.
  assert (Hp : forall y, 0 <= Z.land y 255) by (intros; apply Z.land_nonneg; lia).
  assert (Hdot : forall s, c_str ("." <+> s) = "." <+> c_str s) by done.
  unfold inet_ntoa. by rewrite !c_str_dec, !Hdot, !c_str_dec, !Hdot, !c_str_dec, !Hdot, c_str_dec_only
    by apply Hp.
Qed.

Lemma stoi_dec n : 0 <= n <= INT_MAX -> stoi (dec n) = Ok n.
Proof.
  intros [Hn Hm]. destruct (Z.eq_dec n 0) as [->|Hn0]; [done|].
  destruct (accumulate_digits (S (Z.to_nat (Z.log2 n))) n EmptyString) as (d & s & Hd & E & Ea);
    [lia..|].
  unfold dec, show. cbn [accumulate] in Ea. rewrite E in Ea |- *.
  destruct (digit_of_digit d) as [Hv Hc]; [lia|]. unfold stoi. cbn [skip_space].
  unfold isspace. rewrite Hc. replace (_ || _) with false by lia. cbv zeta. rewrite Hc.
  replace (48 + d =? 45) with false by lia. replace (48 + d =? 43) with false by lia.
  rewrite Hv, Ea. unfold INT_MAX in *. by replace (_ || _) with false by lia.
Qed.

(** ** Numeric addresses *)

Section Numeric.
Context `{NL : NameLaws}.

Lemma of_hints_quad n p flags :
  0 <= n < M32 -> 0 <= p < 65536 ->
  of_hints (inet_ntoa n) (dec p) (make_hints flags Address.AF_INET)
    = Ok (Adapters.sockaddr_address n p).
Proof using NL.
  intros Hn Hp. unfold of_hints. rewrite c_str_inet_ntoa, c_str_dec_only by lia.
  by rewrite numeric_host.
Qed.

Lemma ip_port_sockaddr n p :
  0 <= n < M32 -> 0 <= p < 65536 ->
  ip_port (Adapters.sockaddr_address n p) = Ok (inet_ntoa n, p).
Proof using NL.
  intros Hn Hp. unfold ip_port. cbn [Address.storage Address.addr_size Adapters.sockaddr_address].
  rewrite numeric_name by done. rewrite stoi_dec by (unfold INT_MAX; lia). cbn.
  by rewrite u16_id by lia.
Qed.

(** A numeric address survives the round trip through the system's resolver.
    Constructed from a dotted quad and a port, or from a dotted quad and a
    decimal service, the address holds exactly these; [ip], [port], [to_string]
    and [ipv4_numeric] give them back; and two such addresses are equal only if
    both the hosts and the ports are. *)
Theorem numeric_address_roundtrip n p :
  0 <= n < M32 -> 0 <= p < 65536 ->
  exists a, of_quad (inet_ntoa n) p = Ok a /\ of_name (inet_ntoa n) (dec p) = Ok a /\
    ip a = Ok (inet_ntoa n) /\ port a = Ok p /\
    to_string a = Ok (inet_ntoa n <+> ":" <+> dec p) /\ Address.ipv4_numeric a = Ok n /\
    forall n' p' a', 0 <= n' < M32 -> 0 <= p' < 65536 -> of_quad (inet_ntoa n') p' = Ok a' ->
      neqb a a' = false -> n' = n /\ p' = p.
Proof using NL.
  intros Hn Hp. exists (Adapters.sockaddr_address n p).
  split; [by apply of_hints_quad|]. split; [by apply of_hints_quad|].
  unfold ip, port, to_string. rewrite ip_port_sockaddr by done. cbn [mbind result_bind fst snd].
  do 3 (split; [done|]).
  destruct (Adapters.sockaddr_resolver_laws n p Hn Hp) as (a & Ea & Hi & _).
  injection Ea as <-. split; [done|]. intros n' p' a' Hn' Hp' E He.
  unfold of_quad in E. rewrite of_hints_quad in E by done. injection E as <-.
  apply negb_false_iff in He. unfold Address.eqb in He. cbn [Address.addr_size Adapters.sockaddr_address] in He.
  change (negb (16 =? 16)) with false in He. cbn iota in He. apply bool_decide_eq_true in He.
  assert (E1 : be_bytes 2 p = be_bytes 2 p').
  { apply (f_equal (fun l => take 2 (drop 2 l))) in He. exact He. }
  assert (E2 : be_bytes 4 n = be_bytes 4 n').
  { apply (f_equal (fun l => take 4 (drop 4 l))) in He. exact He. }
  apply (f_equal (be_value 0)) in E1, E2. rewrite !be_value_be_bytes in E1, E2.
  change (256 ^ Z.of_nat 2) with 65536 in E1. change (256 ^ Z.of_nat 4) with M32 in E2.
  rewrite !Z.mod_small in E1, E2 by done. lia.
Qed.

(** The resolver keeps the contract the adapters rely on. *)
#[export] Instance resolver_laws : @Adapters.ResolverLaws resolver.
Proof using NL.
  intros n p Hn Hp. exists (Adapters.sockaddr_address n p).
  split; [exact (of_hints_quad n p _ Hn Hp)|]. split.
  - destruct (Adapters.sockaddr_resolver_laws n p Hn Hp) as (a & Ea & Hi & _). by injection Ea as <-.
  - change (port (Adapters.sockaddr_address n p) = Ok p). unfold port. by rewrite ip_port_sockaddr.
Qed.

(** The address ["0"] of the default configuration. *)
Lemma of_quad_zero p : 0 <= p < 65536 -> of_quad "0" p = Ok (Adapters.sockaddr_address 0 p).
Proof using NL.
  intros Hp. unfold of_quad, of_hints. rewrite (c_str_dec_only p) by lia.
  change (c_str "0") with (dec 0). by rewrite number_host.
Qed.
End Numeric.

(** Every outcome of the constructor from a name: the resolver's error code, an
    error for an empty list and for an answer that does not fit, and otherwise
    an address with exactly the bytes of the answer. *)
Theorem name_resolution_outcome `{NameService} node service hints :
  match getaddrinfo (c_str node) (c_str service) hints with
  | inl e => of_hints node service hints = Throw (gai_error e)
  | inr None => of_hints node service hints = Throw runtime_error
  | inr (Some (addr, n)) =>
      if 128 <? n then of_hints node service hints = Throw runtime_error
      else exists a, of_hints node service hints = Ok a /\ Address.addr_size a = n /\
        (size addr = n -> take (Z.to_nat n) (Address.storage a) = addr)
  end.
Proof.
  unfold of_hints. destruct (getaddrinfo _ _ _) as [e|[[addr n]|]]; [done| |done].
  unfold Address.of_sockaddr. change (Z.of_nat Address.storage_size) with 128.
  case_Z; [done|]. eexists. split; [reflexivity|]. split; [done|]. cbn. intros <-.
  rewrite (take_ge addr) by (unfold size; lia). apply take_app_length'. unfold size. lia.
Qed.

(** ** A resolver that knows only numbers *)

#[export] Instance numeric_names : NameService := {|
  getaddrinfo node service _ :=
    inr (Some (Address.sockaddr_in Address.AF_INET (CommandLine.strtol service)
                 (Show.quad (scan 10 "." node 0)), Address.sockaddr_in_size));
  getnameinfo addr _ _ :=
    inr (inet_ntoa (be_value 0 (take 4 (drop 4 addr))), dec (be_value 0 (take 2 (drop 2 addr))))
|}.

#[export] Instance numeric_names_laws : NameLaws.
Proof.
  constructor.
  - intros n p h Hn Hp _. cbn [getaddrinfo numeric_names].
    rewrite CommandLine.strtol_dec by (unfold CommandLine.LONG_MAX; lia).
    by rewrite inet_ntoa_scan, quad_bytes.
  - intros n p h Hn Hp _. cbn [getaddrinfo numeric_names].
    rewrite CommandLine.strtol_dec by (unfold CommandLine.LONG_MAX; lia).
    rewrite <- (append_nil_r (dec n)). unfold dec. rewrite scan_show by (lia || cbn; tauto). done.
  - intros n p pad Hn Hp. cbn [getnameinfo numeric_names].
    change (take 4 (drop 4 (Address.sockaddr_in Address.AF_INET p n ++ pad))) with (be_bytes 4 n).
    change (take 2 (drop 2 (Address.sockaddr_in Address.AF_INET p n ++ pad))) with (be_bytes 2 p).
    rewrite !be_value_be_bytes. change (256 ^ Z.of_nat 4) with M32.
    change (256 ^ Z.of_nat 2) with 65536. rewrite !Z.mod_small by lia. done.
Qed.

Lemma numeric_address_roundtrip_witness :
  exists a, of_quad "18.71.0.151" 53 = Ok a /\ to_string a = Ok "18.71.0.151:53"%string /\
    Address.ipv4_numeric a = Ok 306643095.
Proof.
  destruct (numeric_address_roundtrip 306643095 53 ltac:(lia) ltac:(lia))
    as (a & E & _ & _ & _ & Es & En & _).
  exists a. split; [exact E|]. split; [exact Es|exact En].
Defined.
