(* ===== verification/Doctests.v ===== *)
(** The examples of the documentation, [doctests/]: [parser_example.cc], the three
    [address_example] files and the three [socket_example] files, with the programs that
    run them.  The sockets talk over a loopback kernel. *)
From S2P Require Import Prelude.
From S2P Require Buffer Parser Address Adapters Show FileDescriptor Socket Names.
From Stdlib Require Import Ascii String.
Import FileDescriptor.
Import Socket(NetKernel).
Import Names(NameService, NameLaws).
Open Scope Z_scope.
#[local] Existing Instances io_ret io_bind Parser.P_ret Parser.P_bind.

(** ** Numbers *)

(** [parser_example.cc], for any values instead of the four constants. *)
Definition example_string (val0 val1 val2 val3 val4 : Z) : bytes :=
  let buffer := [byte.of_Z val0] in
  let buffer := Parser.un_u32 val1 buffer in
  let buffer := Parser.un_u16 val2 buffer in
  let buffer := Parser.un_u8 val3 buffer in
  Parser.un_u32 val4 buffer.

Definition example_parse : Parser.P (Z * Z * Z * Z * Z) :=
  out0 ← Parser.p_u8;
  out1 ← Parser.p_u32;
  out2 ← Parser.p_u16;
  out3 ← Parser.p_u8;
  out4 ← Parser.p_u32;
  mret (out0, out1, out2, out3, out4).

Definition parser_example (val0 val1 val2 val3 val4 : Z) : result unit :=
  let buffer := example_string val0 val1 val2 val3 val4 in
  '((out0, out1, out2, out3, out4), _) ← example_parse (Parser.construct (Buffer.of_string buffer));
  if negb (out0 =? val0) || negb (out1 =? val1) || negb (out2 =? val2) || negb (out3 =? val3)
     || negb (out4 =? val4)
  then Throw runtime_error else Ok tt.

(** The status of a [main] that catches everything. *)
Definition status {A} (r : result A) : option Z :=
  match r with Ok _ => Some 0 | Throw undefined_behaviour => None | Throw _ => Some 1 end.

(** [parser_dt.cc] *)
Definition parser_dt : option Z :=
  status (parser_example 0x32 0xdeadbeef 0xc0c0 0xff 0x0c05fefe).

(** The example works for all values of the right widths. *)
Theorem parser_example_works val0 val1 val2 val3 val4 :
  0 <= val0 < 256 -> 0 <= val1 < M32 -> 0 <= val2 < 65536 -> 0 <= val3 < 256 -> 0 <= val4 < M32 ->
  parser_example val0 val1 val2 val3 val4 = Ok tt.
Proof.
  intros H0 H1 H2 H3 H4. unfold parser_example, example_string, Parser.un_u32, Parser.un_u16, Parser.un_u8.
  rewrite !Parser.unparse_int_be, <- !app_assoc.
  set (s := _ ++ _). assert (Hr : Parser.runs example_parse s (val0, val1, val2, val3, val4) []).
  { unfold example_parse, s. replace [byte.of_Z val0] with (Parser.be_bytes 1 val0) by (cbn; by rewrite Z.div_1_r).
    rewrite <- (app_nil_r (Parser.be_bytes 4 val4)).
    do 5 (eapply Parser.runs_bind; [by apply Parser.runs_int|]). apply Parser.runs_ret. }
  destruct (Hr (Parser.construct (Buffer.of_string s))) as (p & E & _).
  { apply Parser.construct_holds. unfold s. rewrite !size_app, !Parser.be_bytes_size. by cbn. }
  rewrite E. cbn [mbind result_bind]. by rewrite !Z.eqb_refl.
Qed.

(** ** Addresses *)

Section Addresses.
Context `{NameService}.

(** [address_example_1.cc] to [address_example_3.cc] *)
Definition google_webserver : result Address.Address := Names.of_name "www.google.com" "https".
Definition a_dns_server : result Address.Address := Names.of_quad "18.71.0.151" 53.
Definition a_dns_server_numeric : result Z := a ← a_dns_server; Address.ipv4_numeric a.

(** [address_dt.cc] *)
Definition address_dt : option Z :=
  status (google ← google_webserver;
          numeric ← a_dns_server_numeric;
          p ← Names.port google;
          if negb (p =? 443) || negb (numeric =? 0x12470097) then Throw runtime_error else Ok tt).

(** The example works with any resolver that keeps its laws and knows the web server. *)
Theorem address_example_works `{!NameLaws} n :
  0 <= n < M32 ->
  Names.getaddrinfo "www.google.com" "https" (Names.make_hints Names.AI_ALL Address.AF_INET) =
    inr (Some (Address.sockaddr_in Address.AF_INET 443 n, Address.sockaddr_in_size)) ->
  address_dt = Some 0.
Proof.
  intros Hn Hg. unfold address_dt, google_webserver, a_dns_server_numeric, a_dns_server.
  assert (Eg : Names.of_name "www.google.com" "https" = Ok (Adapters.sockaddr_address n 443)).
  { unfold Names.of_name, Names.of_hints. change (Names.c_str "https") with "https"%string.
    change (Names.c_str _) with "www.google.com"%string. by rewrite Hg. }
  rewrite Eg. cbn [mbind result_bind].
  unfold Names.of_quad. change "18.71.0.151"%string with (Show.inet_ntoa 0x12470097).
  rewrite Names.of_hints_quad by lia. cbn [mbind result_bind].
  change (Address.ipv4_numeric _) with (Ok 0x12470097). cbn [mbind result_bind].
  unfold Names.port. by rewrite Names.ip_port_sockaddr by lia.
Qed.
End Addresses.

(** ** Sockets *)

Section Examples.
Context {K : Type} `{NetKernel K} `{NameService}.

Definition text (s : string) : bytes := String.list_byte_of_string s.
Definition hi_there : bytes := text "hi there".
Definition hi_yourself : bytes := text "hi yourself".

(** [if (recvd != "hi there" || recvd2 != "hi yourself") throw ...] *)
Definition check (recvd recvd2 : bytes) : IO K unit :=
  if bool_decide (recvd = hi_there) && bool_decide (recvd2 = hi_yourself) then mret tt
  else throw runtime_error.

(** [portnum], from a random number *)
Definition portnum (random : Z) : Z := u16 (random mod 50000 + 1025).

(** [socket_example_1.cc] *)
Definition socket_example_1 (random : Z) : IO K unit :=
  sock1 ← Socket.UDPSocket_new;
  a ← lift (Names.of_quad "127.0.0.1" (portnum random));
  _ ← Socket.bind a sock1;
  sock2 ← Socket.UDPSocket_new;
  a ← lift (Names.of_quad "127.0.0.1" (portnum random));
  _ ← Socket.sendto a (Buffer.bvl_of_view hi_there) sock2;
  recvd ← Socket.recv 65536 sock1;
  _ ← Socket.connect (Socket.source_address recvd) sock1;
  _ ← Socket.send (Buffer.bvl_of_view hi_yourself) sock1;
  recvd2 ← Socket.recv 65536 sock2;
  _ ← check (Socket.payload recvd) (Socket.payload recvd2);
  _ ← release sock2;
  release sock1.

(** [socket_example_2.cc] *)
Definition socket_example_2 (random : Z) : IO K unit :=
  sock1 ← Socket.TCPSocket_new;
  a ← lift (Names.of_quad "127.0.0.1" (portnum random));
  _ ← Socket.bind a sock1;
  _ ← Socket.listen 1 sock1;
  sock2 ← Socket.TCPSocket_new;
  a ← lift (Names.of_quad "127.0.0.1" (portnum random));
  _ ← Socket.connect a sock2;
  sock3 ← Socket.accept sock1;
  _ ← write (Buffer.bvl_of_view hi_there) true sock3;
  recvd ← read npos sock2;
  _ ← write (Buffer.bvl_of_view hi_yourself) true sock2;
  recvd2 ← read npos sock3;
  _ ← close sock1;
  _ ← close sock2;
  _ ← Socket.shutdown Socket.SHUT_RDWR sock3;
  _ ← check recvd recvd2;
  _ ← release sock3;
  _ ← release sock2;
  release sock1.

(** [socket_example_3.cc] *)
Definition socket_example_3 : IO K unit :=
  '(r, (fd0, fd1)) ← syscall (Socket.sys_socketpair Socket.AF_UNIX Socket.SOCK_STREAM);
  _ ← lift (SystemCall r 0);
  h0 ← construct fd0;
  pipe1 ← Socket.LocalStreamSocket_of h0;
  h1 ← construct fd1;
  pipe2 ← Socket.LocalStreamSocket_of h1;
  _ ← write (Buffer.bvl_of_view hi_there) true pipe1;
  recvd ← read npos pipe2;
  _ ← write (Buffer.bvl_of_view hi_yourself) true pipe2;
  recvd2 ← read npos pipe1;
  _ ← check recvd recvd2;
  _ ← release pipe2;
  release pipe1.

(** [socket_dt.cc] *)
Definition socket_dt (r1 r2 : Z) (w : world K) : option Z :=
  status ((_ ← socket_example_1 r1; _ ← socket_example_2 r2; socket_example_3) w).
End Examples.

(** *** The loopback kernel *)

(** A socket: its domain and type, its name, the stream socket at the other end or the
    address it is connected to, the bytes and datagrams that wait, and the connections that
    wait to be accepted. *)
Record sock := mkSock {
  domain : Z;
  type : Z;
  name : bytes;
  peer : option Z;
  target : option bytes;
  bytes_in : bytes;
  mail_in : list (bytes * bytes);
  backlog : list Z
}.
Record loopback := mkLoopback { socks : list (Z * sock); next : Z }.

Definition new_sock (d t : Z) : sock := mkSock d t [] None None [] [] [].
Definition find (n : Z) (k : loopback) : option sock :=
  snd <$> List.find (fun p => p.1 =? n) (socks k).
(** The socket with a name. *)
Definition named (t : Z) (a : bytes) (k : loopback) : option Z :=
  fst <$> List.find (fun p => (type p.2 =? t) && bool_decide (name p.2 = a)) (socks k).
Definition update (n : Z) (f : sock -> sock) (k : loopback) : loopback :=
  mkLoopback ((fun p => if p.1 =? n then (p.1, f p.2) else p) <$> socks k) (next k).
Definition add (s : sock) (k : loopback) : Z * loopback :=
  (next k, mkLoopback (socks k ++ [(next k, s)]) (next k + 1)).

Definition set_name (a : bytes) (s : sock) : sock :=
  mkSock (domain s) (type s) a (peer s) (target s) (bytes_in s) (mail_in s) (backlog s).
Definition set_peer (n : Z) (s : sock) : sock :=
  mkSock (domain s) (type s) (name s) (Some n) (target s) (bytes_in s) (mail_in s) (backlog s).
Definition set_target (a : bytes) (s : sock) : sock :=
  mkSock (domain s) (type s) (name s) (peer s) (Some a) (bytes_in s) (mail_in s) (backlog s).
Definition set_bytes (b : bytes) (s : sock) : sock :=
  mkSock (domain s) (type s) (name s) (peer s) (target s) b (mail_in s) (backlog s).
Definition set_mail (l : list (bytes * bytes)) (s : sock) : sock :=
  mkSock (domain s) (type s) (name s) (peer s) (target s) (bytes_in s) l (backlog s).
Definition set_backlog (l : list Z) (s : sock) : sock :=
  mkSock (domain s) (type s) (name s) (peer s) (target s) (bytes_in s) (mail_in s) l.

Definition ok (n : Z) : sysret := mkRet n 0.
Definition bad : sysret := mkRet (-1) 11.

#[local] Instance loopback_kernel : Kernel loopback := {|
  sys_read n len k :=
    match find n k with
    | Some s => let d := take (Z.to_nat len) (bytes_in s) in
                (ok (size d), d, update n (set_bytes (drop (Datatypes.length d) (bytes_in s))) k)
    | None => (bad, [], k)
    end;
  sys_writev n iov k :=
    let d := List.concat (fst <$> iov) in
    match find n k ≫= peer with
    | Some p => (ok (size d), update p (fun s => set_bytes (bytes_in s ++ d) s) k)
    | None => (bad, k)
    end;
  sys_close n k := (ok 0, mkLoopback (List.filter (fun p => negb (p.1 =? n)) (socks k)) (next k));
  sys_getfl _ k := (ok 0, k);
  sys_setfl _ _ k := (ok 0, k);
  sys_poll fds _ k := (ok 0, events <$> fds, k)
|}.

(** The name an unnamed socket gets when it sends. *)
Definition own_name (n : Z) : bytes :=
  Address.sockaddr_in Address.AF_INET (40000 + n) 2130706433.

Definition datagram (n : Z) (a d : bytes) (k : loopback) : sysret * loopback :=
  match find n k, named Socket.SOCK_DGRAM a k with
  | Some s, Some m =>
      let from := match name s with [] => own_name n | a => a end in
      (ok (size d), update m (fun s => set_mail (mail_in s ++ [(d, from)]) s) (update n (set_name from) k))
  | _, _ => (bad, k)
  end.

#[local] Instance loopback_net : NetKernel loopback := {|
  Socket.sys_socket d t k := let '(n, k) := add (new_sock d t) k in (ok n, k);
  Socket.sys_socketpair d t k :=
    let '(n, k) := add (new_sock d t) k in
    let '(m, k) := add (set_peer n (new_sock d t)) k in
    (ok 0, (n, m), update n (set_peer m) k);
  Socket.sys_getsockopt n _ o k :=
    match find n k with
    | Some s => (ok 0, (if o =? Socket.SO_DOMAIN then domain s else type s, 4), k)
    | None => (bad, (0, 0), k)
    end;
  Socket.sys_setsockopt _ _ _ _ k := (ok 0, k);
  Socket.sys_getsockname _ k := (bad, ([], 0), k);
  Socket.sys_getpeername _ k := (bad, ([], 0), k);
  Socket.sys_bind n a l k := (ok 0, update n (set_name (take (Z.to_nat l) a)) k);
  Socket.sys_connect n a l k :=
    let a := take (Z.to_nat l) a in
    match find n k with
    | Some s =>
        if type s =? Socket.SOCK_DGRAM then (ok 0, update n (set_target a) k)
        else match named Socket.SOCK_STREAM a k with
             | Some m =>
                 let '(c, k) := add (set_peer n (new_sock (domain s) (type s))) k in
                 (ok 0, update m (fun s => set_backlog (backlog s ++ [c]) s) (update n (set_peer c) k))
             | None => (bad, k)
             end
    | None => (bad, k)
    end;
  Socket.sys_shutdown _ _ k := (ok 0, k);
  Socket.sys_recvfrom n len _ k :=
    match mail_in <$> find n k with
    | Some ((d, a) :: rest) =>
        (ok (size d), (take (Z.to_nat len) d, (a, size a)), update n (set_mail rest) k)
    | _ => (bad, ([], ([], 0)), k)
    end;
  Socket.sys_sendmsg n a iov k :=
    let d := List.concat (fst <$> iov) in
    match a, find n k ≫= target with
    | Some (a, l), _ => datagram n (take (Z.to_nat l) a) d k
    | None, Some a => datagram n a d k
    | None, None => (bad, k)
    end;
  Socket.sys_listen _ _ k := (ok 0, k);
  Socket.sys_accept n k :=
    match backlog <$> find n k with
    | Some (c :: rest) => (ok c, update n (set_backlog rest) k)
    | _ => (bad, k)
    end;
  Socket.sys_open _ _ k := (bad, k);
  Socket.sys_tunsetiff _ _ _ k := (bad, k)
|}.

(** Every program under [doctests/] that needs no outside world ends with success. *)
Example doctests_pass :
  parser_dt = Some 0 /\
  socket_dt (K := loopback) (H1 := Names.numeric_names) 123456 7 (mkWorld (mkLoopback [] 3) ∅) = Some 0.
Proof. split; vm_compute; reflexivity. Qed.
