(* ===== verification/Tcpdump.v ===== *)
(** The packet sniffer [apps/udp_tcpdump.cc]: finding the UDP payload of a captured
    packet and printing it as a TCP segment.  The pcap library is represented by the
    packets it captures. *)
From S2P Require Import Prelude.
From S2P Require WrappingIntegers Buffer Parser Checksum TCPHeader TCPSegment Show.
From S2P Require Import CommandLine.
From Stdlib Require Import Ascii String.
Import Show.
#[local] Existing Instance Parser.ParseResult_eq_dec.
Open Scope Z_scope.

(** [data[i]] for a pointer to captured data. *)
Definition index (data : bytes) (i : Z) : result Z :=
  match data !! Z.to_nat i with
  | Some b => Ok (byte.unsigned b)
  | None => Throw undefined_behaviour
  end.

(** The [n] bytes at [data + i], which the C library reads. *)
Definition bytes_at (data : bytes) (i : Z) (n : nat) : result bytes :=
  let b := take n (drop (Z.to_nat i) data) in
  if bool_decide (Datatypes.length b = n) then Ok b else Throw undefined_behaviour.

(** [check_arg] *)
Definition check_arg (argv : list string) (curr : Z) (errmsg : string) : prog unit :=
  if size argv <=? curr + 1 then Exit 1 (Some errmsg) else Return tt.

(** [parse_arguments]: the loop, from [curr] on, returning the new [curr] and the
    interface. *)
Fixpoint parse_arguments_loop (fuel : nat) (argv : list string) (curr : Z) (dev : option string)
    : prog (Z * option string) :=
  match fuel with
  | O => Fail undefined_behaviour
  | S fuel =>
      if curr <? size argv then
        a ← arg argv curr;
        if strncmp_eq "-i" a 3 then
          _ ← check_arg argv curr "ERROR: -i requires an argument";
          d ← arg argv (curr + 1);
          parse_arguments_loop fuel argv (curr + 2) (Some d)
        else if strncmp_eq "-h" a 3 || strncmp_eq "--help" a 7 then Exit 0 None
        else Return (curr, dev)
      else Return (curr, dev)
  end.
Definition parse_arguments (argv : list string) : prog (Z * option string) :=
  parse_arguments_loop (S (Datatypes.length argv)) argv 1 None.

Section Sniffer.
(** The text form of an IPv6 address, from [inet_ntop]. *)
Context (inet_ntop6 : bytes -> string).

Definition inet4_addr (data : bytes) (i : Z) : result string :=
  b ← bytes_at data i 4;
  Ok (inet_ntoa (Parser.be_value 0 b)).
Definition inet6_addr (data : bytes) (i : Z) : result string :=
  b ← bytes_at data i 16;
  Ok (inet_ntop6 b).

(** The loop over the extension headers of an IPv6 packet; [None] is a return of -1. *)
Fixpoint skip_extensions (fuel : nat) (len : Z) (data : bytes) (nxt data_offset : Z)
    : result (option Z) :=
  match fuel with
  | O => Throw undefined_behaviour
  | S fuel =>
      if nxt =? 17 then Ok (Some data_offset)
      else if negb (nxt =? 0) && negb (nxt =? 43) && negb (nxt =? 60) then Ok None
      else
        nxt ← index data data_offset;
        l ← index data (data_offset + 1);
        let data_offset := data_offset + 8 * (1 + l) in
        if len <? data_offset + 2 then Ok None
        else skip_extensions fuel len data nxt data_offset
  end.

(** [process_ipv4_ipv6]: the offset of the UDP payload and the two addresses; [None]
    is a return of -1. *)
Definition process_ipv4_ipv6 (len : Z) (data : bytes) : result (option (Z * string * string)) :=
  if len <? 1 then Ok None else
  b0 ← index data 0;
  let pt := Z.land b0 240 in
  if pt =? 64 then
    let data_offset := Z.land b0 15 * 4 in
    if len <? data_offset then Ok None else
    proto ← index data 9;
    if negb (proto =? 17) then Ok None else
    src_addr ← inet4_addr data 12;
    dst_addr ← inet4_addr data 16;
    Ok (Some (data_offset + 8, src_addr, dst_addr))
  else if pt =? 96 then
    if len <? 42 then Ok None else
    nxt ← index data 6;
    o ← skip_extensions (S (Z.to_nat len)) len data nxt 40;
    match o with
    | None => Ok None
    | Some data_offset =>
        src_addr ← inet6_addr data 8;
        dst_addr ← inet6_addr data 24;
        Ok (Some (data_offset + 8, src_addr, dst_addr))
    end
  else Ok None.

(** The link types the program handles. *)
Inductive datalink := DLT_RAW | DLT_NULL | DLT_EN10MB | DLT_LINUX_SLL | DLT_LINUX_SLL2.

(** The 16-bit protocol number at [i], and the test for IP. *)
Definition is_ip (pkt_data : bytes) (i : Z) : result bool :=
  a ← index pkt_data i;
  b ← index pkt_data (i + 1);
  let pt := u16 (Z.lor (Z.shiftl a 8) b) in
  Ok ((pt =? 2048) || (pt =? 34525)).

(** The length of the link-layer header; [None] for a packet that is skipped. *)
Definition header_offset (dl_type : datalink) (pkt_data : bytes) : result (option Z) :=
  let caplen := size pkt_data in
  let past hdr_off (ip : result bool) :=
    if caplen <? hdr_off then Ok None else
    ok ← ip;
    Ok (if ok : bool then Some hdr_off else None) in
  match dl_type with
  | DLT_RAW => Ok (Some 0)
  | DLT_NULL =>
      past 4 (pt ← index pkt_data 3;
              Ok ((pt =? 2) || (pt =? 24) || (pt =? 28) || (pt =? 30)))
  | DLT_EN10MB => past 14 (is_ip pkt_data 12)
  | DLT_LINUX_SLL => past 16 (is_ip pkt_data 14)
  | DLT_LINUX_SLL2 => past 20 (is_ip pkt_data 0)
  end.

(** [string(payload)] for the view of [payload_len] bytes from [payload_off] on: a
    length above [max_size()] is refused before anything is read. *)
Definition payload_string (pkt_data : bytes) (payload_off payload_len : Z) : result bytes :=
  if 2 ^ 63 - 1 <? payload_len then Throw length_error
  else bytes_at pkt_data payload_off (Z.to_nat payload_len).

Definition flag (b : bool) (s : string) : string := if b then s else EmptyString.

(** What is printed for a payload. *)
Definition describe (src dst : string) (payload : bytes) : result string :=
  '(res, seg) ← TCPSegment.parse TCPSegment.default (Buffer.of_string payload) 0;
  let first :=
    if (1 <? Z.of_nat (Parser.ParseResult_index res)) then
      "(did not recognize TCP header) src: " <+> src <+> " dst: " <+> dst <+> newline
    else
      let tcp_hdr := TCPSegment.header seg in
      let seqlen := u32 (TCPSegment.length_in_sequence_space seg) in
      src <+> ":" <+> dec (TCPHeader.sport tcp_hdr) <+> " > " <+> dst <+> ":" <+>
      dec (TCPHeader.dport tcp_hdr) <+> newline <+> "    Flags [" <+>
      flag (TCPHeader.urg tcp_hdr) "U" <+> flag (TCPHeader.psh tcp_hdr) "P" <+>
      flag (TCPHeader.rst tcp_hdr) "R" <+> flag (TCPHeader.syn tcp_hdr) "S" <+>
      flag (TCPHeader.fin tcp_hdr) "F" <+> flag (TCPHeader.ack tcp_hdr) "." <+>
      "] cksum 0x" <+> setw 4 "0" (hex (TCPHeader.cksum tcp_hdr)) <+>
      (if bool_decide (res = Parser.NoError) then " (correct)" else " (incorrect!)") <+>
      " seq " <+> dec (WrappingIntegers.raw_value (TCPHeader.seqno tcp_hdr)) <+>
      flag (0 <? seqlen)
        (":" <+> dec (WrappingIntegers.raw_value (WrappingIntegers.wi_add (TCPHeader.seqno tcp_hdr) seqlen))) <+>
      " ack " <+> dec (WrappingIntegers.raw_value (TCPHeader.ackno tcp_hdr)) <+>
      " win " <+> dec (TCPHeader.win tcp_hdr) <+> " length " <+> dec (size payload) <+> newline in
  Ok (first <+> hexdump payload 8).

(** One turn of the loop of [main]: what it prints on [cout]. *)
Definition packet (dl_type : datalink) (pkt_data : bytes) : result string :=
  o ← header_offset dl_type pkt_data;
  match o with
  | None => Ok EmptyString
  | Some hdr_off =>
      r ← process_ipv4_ipv6 (i32 (u64 (size pkt_data - hdr_off))) (drop (Z.to_nat hdr_off) pkt_data);
      match r with
      | None => Ok EmptyString
      | Some (start_off, src, dst) =>
          let payload_off := u64 (hdr_off + start_off) in
          let payload_len := u64 (size pkt_data - payload_off) in
          payload ← payload_string pkt_data payload_off payload_len;
          describe src dst payload
      end
  end.

(** What [pcap_next_ex] returns: a timeout or a packet; the list ends when it fails. *)
Fixpoint capture (dl_type : datalink) (l : list (option bytes)) : result string :=
  match l with
  | [] => Ok EmptyString
  | None :: l => capture dl_type l
  | Some pkt :: l =>
      s ← packet dl_type pkt;
      s' ← capture dl_type l;
      Ok (s <+> s')
  end.

End Sniffer.

(** ** Bounds *)

Lemma index_Ok data i : 0 <= i < size data -> exists b, index data i = Ok (byte.unsigned b) /\
  data !! Z.to_nat i = Some b.
Proof.
  intros Hi. unfold index, size in *. destruct (data !! Z.to_nat i) as [b|] eqn:E; [by exists b|].
  apply lookup_ge_None in E. lia.
Qed.

Lemma bytes_at_eq data i n :
  0 <= i -> i + Z.of_nat n <= size data ->
  bytes_at data i n = Ok (take n (drop (Z.to_nat i) data)).
Proof.
  intros Hi Hn. unfold bytes_at, size in *. rewrite bool_decide_true; [done|].
  rewrite length_take, length_drop. lia.
Qed.


(** Every argument [parse_arguments] reads exists, and its loop ends. *)
Lemma safe_parse_arguments_loop fuel argv curr dev :
  0 <= curr -> size argv - curr < Z.of_nat fuel -> (0 < fuel)%nat ->
  safe (fun p => curr <= p.1) (parse_arguments_loop fuel argv curr dev).
Proof.
  revert curr dev. induction fuel as [|fuel IH]; intros curr dev Hc Hf Hp; [lia|].
  cbn [parse_arguments_loop]. case_Z; [|cbn; lia].
  apply (safe_bind (fun _ => True)); [by apply safe_arg; lia|]. intros a _.
  destruct (strncmp_eq _ a 3); [|destruct (_ || _); cbn; auto; lia].
  unfold check_arg. case_Z; [done|]. cbn [mbind prog_bind].
  apply (safe_bind (fun _ => True)); [by apply safe_arg; lia|]. intros d _.
  specialize (IH (curr + 2) (Some d)). destruct (parse_arguments_loop _ _ _ _) as [[c ?]| |]; cbn in *;
    [|done|]; [enough (curr + 2 <= c) by lia|]; apply IH; lia.
Qed.

Lemma safe_parse_arguments argv : safe (fun p => 1 <= p.1) (parse_arguments argv).
Proof. apply safe_parse_arguments_loop; [lia| |lia]. unfold size. lia. Qed.

Section Bounds.
Context (inet_ntop6 : bytes -> string).

(** The extension-header loop reads inside the packet, advances by at least eight bytes
    in each turn and stops at a place where two more bytes exist. *)
Lemma skip_extensions_total fuel data nxt off :
  40 <= off -> off + 2 <= size data -> (size data - off) < 8 * Z.of_nat fuel ->
  exists o, skip_extensions fuel (size data) data nxt off = Ok o /\
    from_option (fun off' => off <= off' /\ off' + 2 <= size data) True o.
Proof.
  revert nxt off. induction fuel as [|fuel IH]; intros nxt off Ho Hs Hf; [lia|]. cbn [skip_extensions].
  destruct (nxt =? 17); [eexists; split; [done|]; cbn; lia|].
  destruct (_ && _); [by exists None|].
  destruct (index_Ok data off) as (b & -> & _); [lia|].
  destruct (index_Ok data (off + 1)) as (l & -> & _); [lia|]. cbn [mbind result_bind].
  pose proof (byte.unsigned_range l). case_Z; [by exists None|].
  destruct (IH (byte.unsigned b) (off + 8 * (1 + byte.unsigned l))) as (o & -> & Ho'); [lia..|].
  exists o. split; [done|]. destruct o; cbn in *; lia.
Qed.

(** C40: [process_ipv4_ipv6] reads only inside the packet and returns, whatever the packet
    holds, provided that an IPv4 packet does not claim a header of fewer than five
    words; the offset it returns lies at most eight bytes behind the end.  The loop
    over IPv6 extension headers is included. *)
Theorem process_in_bounds data :
  (forall b, data !! 0%nat = Some b -> Z.land (byte.unsigned b) 240 = 64 ->
             5 <= Z.land (byte.unsigned b) 15) ->
  exists r, process_ipv4_ipv6 inet_ntop6 (size data) data = Ok r /\
    from_option (fun '(off, _, _) => 28 <= off <= size data + 8) True r.
Proof.
  intros Hv. unfold process_ipv4_ipv6. case_Z; [by exists None|].
  destruct (index_Ok data 0) as (b0 & -> & Hb0); [lia|]. specialize (Hv b0 Hb0).
  cbn [mbind result_bind]. destruct (Z.eqb_spec (Z.land (byte.unsigned b0) 240) 64) as [E|_].
  - specialize (Hv E). case_Z; [by exists None|].
    destruct (index_Ok data 9) as (p & -> & _); [lia|]. cbn [mbind result_bind].
    destruct (negb _); [by exists None|]. unfold inet4_addr. rewrite !bytes_at_eq by lia.
    eexists. split; [done|]. cbn. lia.
  - destruct (_ =? 96); [|by exists None]. case_Z; [by exists None|].
    destruct (index_Ok data 6) as (p & -> & _); [lia|]. cbn [mbind result_bind].
    destruct (skip_extensions_total (S (Z.to_nat (size data))) data (byte.unsigned p) 40)
      as ([off|] & -> & Ho); [lia..| |by exists None].
    cbn [mbind result_bind]. cbn in Ho. unfold inet6_addr. rewrite !bytes_at_eq by lia.
    eexists. split; [done|]. cbn. lia.
Qed.

(** ** What is shown is the UDP payload *)











End Bounds.

(** ** Sample packets *)

Definition sample_inet6 (b : bytes) : string := "v6".

(** An IPv4 header, an IPv6 header with one extension header, a UDP header. *)
Definition sample_ipv4 : bytes :=
  [Byte.x45; Byte.x00; Byte.x00; Byte.x00; Byte.x00; Byte.x00; Byte.x00; Byte.x00; Byte.x40; Byte.x11;
   Byte.x00; Byte.x00; Byte.x0a; Byte.x00; Byte.x00; Byte.x01; Byte.x0a; Byte.x00; Byte.x00; Byte.x02].
Definition sample_ethernet : bytes := replicate 12 Byte.x02 ++ [Byte.x08; Byte.x00].

Lemma process_in_bounds_witness :
  exists r, process_ipv4_ipv6 sample_inet6 (size sample_ipv4) sample_ipv4 = Ok r.
Proof.
  destruct (process_in_bounds sample_inet6 sample_ipv4) as (r & Hr & _).
  - intros b [= <-] _. vm_compute. discriminate.
  - by exists r.
Defined.


(** A datagram of one byte, 9 with its UDP header, that came in an Ethernet frame: the frame has the
    minimal length of 60 bytes, and the sniffer shows the byte with the padding behind it. *)
Definition short_udp : bytes :=
  [Byte.x00; Byte.x07; Byte.x00; Byte.x07; Byte.x00; Byte.x09; Byte.x00; Byte.x00].

Example padding_shown :
  let frame := sample_ethernet ++ sample_ipv4 ++ short_udp ++ [Byte.x61] ++ replicate 17 Byte.x00 in
  size frame = 60 /\
  packet sample_inet6 DLT_EN10MB frame = describe "10.0.0.1" "10.0.0.2" (Byte.x61 :: replicate 17 Byte.x00) /\
  packet sample_inet6 DLT_EN10MB frame <> describe "10.0.0.1" "10.0.0.2" [Byte.x61].
Proof. vm_compute. split; [done|]. split; [done|discriminate]. Qed.

(** Three captured packets on which the sniffer fails: an IPv4 packet that ends before
    its UDP header does makes [payload_len] wrap around, and the conversion to a string
    throws [length_error], which nothing catches; an IPv4 packet that claims a header of
    no words is read past its end; and a segment with a bad checksum is shown with the
    fields of an empty header instead of its own. *)
Theorem sniffer_failures :
  packet sample_inet6 DLT_RAW sample_ipv4 = Throw length_error /\
  packet sample_inet6 DLT_RAW [Byte.x40] = Throw undefined_behaviour /\
  forall src dst payload, size payload < M64 ->
    Checksum.value (Checksum.add payload (Checksum.construct 0)) <> 0 ->
    describe src dst payload =
    Ok ((src <+> ":0 > " <+> dst <+> ":0" <+> newline <+>
         "    Flags [] cksum 0x0000 (incorrect!) seq 0 ack 0 win 0 length " <+>
         dec (size payload) <+> newline) <+> hexdump payload 8).
Proof.
  split; [done|]. split; [done|]. intros src dst payload Hs Hc. unfold describe, TCPSegment.parse.
  rewrite Buffer.str_of_string by done.
  destruct (Z.eqb_spec (Checksum.value (Checksum.add payload (Checksum.construct 0))) 0) as [E|_];
    [done|]. cbn [negb mbind result_bind]. done.
Qed.

Lemma sniffer_failures_witness :
  describe "a" "b" [Byte.x61] =
  Ok (("a:0 > b:0" <+> newline <+>
       "    Flags [] cksum 0x0000 (incorrect!) seq 0 ack 0 win 0 length 1" <+> newline) <+>
      hexdump [Byte.x61] 8).
Proof.
  destruct sniffer_failures as (_ & _ & H). rewrite (H "a"%string "b"%string [Byte.x61]); [done..|].
  vm_compute. discriminate.
Defined.
