(* ===== verification/Usage.v ===== *)
(** The texts that the programs print when they are asked for help or called wrongly:
    [show_usage] of the programs under [apps/], and what they say of the options. *)
From S2P Require Import Prelude.
From S2P Require TCPSender Show.
From S2P Require Import CommandLine.
From Stdlib Require Import Ascii String.
Import Show.
Open Scope Z_scope.

Definition line (s : string) : string := s <+> newline.
Definition para (s : string) : string := line (line s).

(** [if (msg != nullptr) cout << msg; cout << endl;] *)
Definition ending_line (msg : option string) : string := default EmptyString msg <+> newline.

Definition first_line (argv0 : string) : string :=
  para ("Usage: " <+> argv0 <+> " [options] <host> <port>").

(** What the three programs print of the options they share. *)
Definition columns : string :=
  line "   Option                                                          Default" <+>
  para "   --                                                              --".
Definition listen_text : string :=
  line "   -l              Server (listen) mode.                           (client mode)" <+>
  para "                   In server mode, <host>:<port> is the address to bind.".
Definition window_text : string :=
  para ("   -w <winsz>      Use a window of <winsz> bytes                   " <+>
        dec TCPSender.MAX_PAYLOAD_SIZE).
Definition timeout_text : string :=
  para ("   -t <tmout>      Set rt_timeout to tmout                         " <+>
        dec TCPSender.TIMEOUT_DFLT).
Definition loss_text : string :=
  line "   -Lu <loss>      Set uplink loss to <rate> (float in 0..1)       (no loss)" <+>
  para "   -Ld <loss>      Set downlink loss to <rate> (float in 0..1)     (no loss)".

(** [apps/tcp_udp.cc] *)
Definition udp_options : string :=
  columns <+> listen_text <+> window_text <+> timeout_text <+> loss_text <+>
  para "   -h              Show this message and quit.".
Definition udp_usage (argv0 : string) (msg : option string) : string :=
  first_line argv0 <+> udp_options <+> ending_line msg.

(** [apps/tcp_ipv4.cc] *)
Definition TUN_DFLT : string := "tun144".
Definition ipv4_options : string :=
  columns <+> listen_text <+>
  line ("   -a <addr>       Set source address (client mode only)           " <+> LOCAL_ADDRESS_DFLT) <+>
  para "   -s <port>       Set source port (client mode only)              (random)" <+>
  window_text <+> timeout_text <+>
  para ("   -d <tundev>     Connect to tun <tundev>                         " <+> TUN_DFLT) <+>
  loss_text <+>
  para "   -h              Show this message.".
Definition ipv4_usage (argv0 : string) (msg : option string) : string :=
  first_line argv0 <+> ipv4_options <+> ending_line msg.

(** [apps/tcp_ip_ethernet.cc] *)
Definition ethernet_options : string :=
  columns <+>
  line ("   -a <addr>       Set IP source address (client mode only)        " <+> TAP_LOCAL_ADDRESS_DFLT) <+>
  para "   -s <port>       Set TCP source port (client mode only)          (random)" <+>
  line ("   -n <addr>       Set IP next-hop address                         " <+> GATEWAY_DFLT) <+>
  window_text <+> timeout_text <+>
  para ("   -d <tapdev>     Connect to tap <tapdev>                         " <+> TAP_DFLT) <+>
  para "   -h              Show this message.".
Definition ethernet_usage (argv0 : string) (msg : option string) : string :=
  first_line argv0 <+> ethernet_options <+> ending_line msg.

(** [apps/tcp_native.cc] *)
Definition native_usage (argv0 : string) : string :=
  para ("Usage: " <+> argv0 <+> " [-l] <host> <port>") <+>
  line "  -l specifies listen mode; <host>:<port> is the listening address.".

(** [apps/webget.cc] *)
Definition tab : string := String (ascii_of_nat 9) EmptyString.
Definition webget_usage (argv0 : string) : string :=
  line ("Usage: " <+> argv0 <+> " HOST PATH") <+>
  line (tab <+> "Example: " <+> argv0 <+> " stanford.edu /class/cs144").

(** [apps/lab7.cc] *)
Definition lab7_usage (argv0 : string) : string :=
  line ("Usage: " <+> argv0 <+> " client HOST PORT [debug]") <+>
  line ("or     " <+> argv0 <+> " server HOST PORT [debug]").

(** [apps/udp_tcpdump.cc] *)
Definition tcpdump_usage (arg0 : string) (errmsg : option string) : string :=
  para ("Usage: " <+> arg0 <+> " [-i <intf>] [-F <file>] [-h|--help] <expression>") <+>
  para "  -i <intf>    only capture packets from <intf> (default: all)" <+>
  line "  -F <file>    reads in a filter expression from <file>" <+>
  para "               <expression> is ignored if -F is supplied." <+>
  para "  -h, --help   show this message" <+>
  line "  <expression> a filter expression in pcap-filter(7) syntax" <+>
  match errmsg with Some m => newline <+> m | None => EmptyString end <+> newline.

(** ** The texts name the options that the programs take *)

(** The lines of a text. *)
Fixpoint text_lines (s acc : string) : list string :=
  match s with
  | EmptyString => [acc]
  | String c s' =>
      if code c =? 10 then acc :: text_lines s' EmptyString
      else text_lines s' (acc <+> String c EmptyString)
  end.

(** The characters before the first space. *)
Fixpoint word (s : string) : string :=
  match s with
  | String c s' => if isspace c then EmptyString else String c (word s')
  | EmptyString => EmptyString
  end.

(** The flag that a line describes: three spaces, a dash and a letter. *)
Definition flag (l : string) : option string :=
  match l with
  | String a (String b (String c (String d (String e _ as l') as f))) =>
      if isspace a && isspace b && isspace c && (code d =? 45) && negb (code e =? 45)
      then Some (word f) else None
  | _ => None
  end.
Definition flags (text : string) : list string := omap flag (text_lines text EmptyString).

(** [a] is taken for one of the flags. *)
Definition named (text a : string) : bool := existsb (fun f => strncmp_eq f a 3) (flags text).

Lemma with_value_recognized argv curr x f a :
  with_value argv curr (ERR ("-" <+> x)) f <> unrecognized a.
Proof.
  unfold with_value, check_argc, unrecognized, ERR. destruct (_ <=? _); cbn; [discriminate|].
  unfold arg. by destruct (argv !! _).
Qed.

Ltac documented Ha :=
  rewrite Ha; cbn [mbind prog_bind];
  repeat match goal with
  | |- context [if strncmp_eq ?f ?a 3 then _ else _] => destruct (strncmp_eq f a 3) eqn:?
  end;
  cbn [existsb orb]; split; intros E; try reflexivity; try discriminate E; exfalso;
  try (unfold unrecognized in E; discriminate E);
  revert E; first [apply (with_value_recognized _ _ "w") | apply (with_value_recognized _ _ "t")
                  | apply (with_value_recognized _ _ "Lu") | apply (with_value_recognized _ _ "a")
                  | apply (with_value_recognized _ _ "s") | apply (with_value_recognized _ _ "n")].

(** The help texts and the programs agree on the options.  Each of the three
    programs refuses an argument as an unrecognized option exactly when its help text
    describes no flag that the argument is taken for. *)
Theorem usage_names_options rate argv curr a o :
  arg argv curr = Return a ->
  (udp_step rate argv curr o = unrecognized a <-> named udp_options a = false) /\
  (ipv4_step rate argv curr o = unrecognized a <-> named ipv4_options a = false) /\
  (ethernet_step argv curr o = unrecognized a <-> named ethernet_options a = false).
Proof.
  intros Ha. unfold named.
  assert (Eu : flags udp_options = ["-l"; "-w"; "-t"; "-Lu"; "-Ld"; "-h"]%string) by (vm_compute; reflexivity).
  assert (Ei : flags ipv4_options = ["-l"; "-a"; "-s"; "-w"; "-t"; "-d"; "-Lu"; "-Ld"; "-h"]%string)
    by (vm_compute; reflexivity).
  assert (Ee : flags ethernet_options = ["-a"; "-s"; "-n"; "-w"; "-t"; "-d"; "-h"]%string)
    by (vm_compute; reflexivity).
  rewrite Eu, Ei, Ee. cbn [existsb]. unfold udp_step, ipv4_step, ethernet_step.
  split_and!; documented Ha.
Qed.

Lemma usage_names_options_witness :
  udp_step (fun _ => 0) ["tcp"; "-d"; "tun1"; "host"; "80"] 1
    (mkOptions TCPSender.default_config 0 0 false None "" "" "") = unrecognized "-d" /\
  ipv4_step (fun _ => 0) ["tcp"; "-d"; "tun1"; "host"; "80"] 1
    (mkOptions TCPSender.default_config 0 0 false None "" "" "") <> unrecognized "-d".
Proof.
  destruct (usage_names_options (fun _ => 0) ["tcp"; "-d"; "tun1"; "host"; "80"]%string 1 "-d"
    (mkOptions TCPSender.default_config 0 0 false None "" "" "") eq_refl) as (Hu & Hi & _).
  split; [apply Hu; vm_compute; reflexivity|]. intros E. apply Hi in E. vm_compute in E. discriminate E.
Defined.

(** The help texts say things of the defaults and of server mode that the programs do not
    do: the window is not [MAX_PAYLOAD_SIZE] but [DEFAULT_CAPACITY], and the host on the
    command line of a server is ignored. *)
Theorem usage_divergences :
  TCPSender.recv_capacity TCPSender.default_config <> TCPSender.MAX_PAYLOAD_SIZE /\
  forall resolve numeric rate p host host' port,
    udp_get_config resolve numeric rate [p; "-l"; host; port]%string =
    udp_get_config resolve numeric rate [p; "-l"; host'; port]%string.
Proof. split; [by vm_compute|]. intros. reflexivity. Qed.
