(* ===== verification/Sniffer.v ===== *)
(** [main] of [apps/udp_tcpdump.cc]: the set-up of a capture and its loop.  The pcap
    library is a parameter; the treatment of a packet is in [Tcpdump]. *)
From S2P Require Import Prelude.
From S2P Require Show Tcpdump Usage.
From S2P Require Import CommandLine.
From Stdlib Require Import Ascii String.
Import Show.
Import Tcpdump(parse_arguments, datalink, DLT_RAW, DLT_NULL, DLT_EN10MB, DLT_LINUX_SLL, DLT_LINUX_SLL2).
Open Scope Z_scope.

(** The calls of the library that the program makes, on a handle.  [pcap_open_live] gives a
    handle or a message; [pcap_next_ex] gives its return value and, if that is 1, a packet. *)
Class Pcap (P : Type) := {
  pcap_open_live : option string -> string + P;
  pcap_datalink : P -> Z;
  pcap_datalink_val_to_description : Z -> option string;
  pcap_compile : string -> P -> Z * P;
  pcap_setfilter : P -> Z * P;
  pcap_geterr : P -> string;
  pcap_next_ex : P -> Z * bytes * P
}.

(** The numbers of the link types. *)
Definition datalink_of (dlt : Z) : option datalink :=
  if dlt =? 12 then Some DLT_RAW else if dlt =? 0 then Some DLT_NULL
  else if dlt =? 1 then Some DLT_EN10MB else if dlt =? 113 then Some DLT_LINUX_SLL
  else if dlt =? 276 then Some DLT_LINUX_SLL2 else None.

(** How the program ends: with a status, having printed; by an exception, which nothing
    catches; it is still listening; or its behaviour is undefined. *)
Inductive ending :=
  | Ended (status : Z) (cout : string)
  | Terminated (e : exn)
  | Listening (cout : string)
  | Undefined.

Section Main.
Context {P : Type} `{Pcap P} (inet_ntop6 : bytes -> string).

(** Printing a C string, which must exist. *)
Definition print (s : option string) (k : string -> ending) : ending :=
  match s with Some s => k s | None => Undefined end.

(** The loop around [pcap_next_ex], for a number of rounds, and what follows it: the handle
    is closed, and then asked for its error. *)
Fixpoint listen (rounds : nat) (dl_type : datalink) (p_hdl : P) (cout : string) : ending :=
  match rounds with
  | O => Listening cout
  | S rounds =>
      let '(next_ret, pkt_data, p_hdl) := pcap_next_ex p_hdl in
      if next_ret <? 0 then
        if next_ret =? -1 then Undefined else Ended 0 cout
      else if next_ret =? 0 then listen rounds dl_type p_hdl cout
      else
        match Tcpdump.packet inet_ntop6 dl_type pkt_data with
        | Ok s => listen rounds dl_type p_hdl (cout <+> s)
        | Throw undefined_behaviour => Undefined
        | Throw e => Terminated e
        end
  end.

(** The filter: the arguments from [exp_start] on, each followed by a space. *)
Fixpoint filter_text (args : list string) : string :=
  match args with [] => EmptyString | a :: args => a <+> " " <+> filter_text args end.
Definition filter_expression (exp_start : Z) (argv : list string) : string :=
  filter_text (drop (Z.to_nat exp_start) argv).

(** "compile and set filter" *)
Definition with_filter (exp_start : Z) (argv : list string) (p_hdl : P) (cout : string)
    (k : P -> string -> ending) : ending :=
  let cout := cout <+> "Using filter expression: " <+> filter_expression exp_start argv <+> newline in
  let '(r, p_hdl) := pcap_compile (filter_expression exp_start argv) p_hdl in
  if negb (r =? 0) then
    Ended 1 (cout <+> "Error compiling filter expression: " <+> pcap_geterr p_hdl <+> newline)
  else
    let '(r, p_hdl) := pcap_setfilter p_hdl in
    if negb (r =? 0) then
      Ended 1 (cout <+> "Error configuring packet filter: " <+> pcap_geterr p_hdl <+> newline)
    else k p_hdl cout.

(** "create pcap handle" *)
Definition with_handle (dev : option string) (k : P -> datalink -> string -> ending) : ending :=
  let cout := match dev with
              | Some dev => "Capturing on interface " <+> dev
              | None => "Capturing on all interfaces"
              end in
  match pcap_open_live dev with
  | inl errbuf => Ended 1 (cout <+> newline <+> "Error initiating capture: " <+> errbuf <+> newline)
  | inr p_hdl =>
      let dlt := pcap_datalink p_hdl in
      print (pcap_datalink_val_to_description dlt) (fun description =>
        match datalink_of dlt with
        | None => Ended 1 (cout <+> newline <+> "Error: unsupported datalink type " <+> description <+> newline)
        | Some dl_type => k p_hdl dl_type (cout <+> " (type: " <+> description <+> ")" <+> newline)
        end)
  end.

Definition tcpdump_main (rounds : nat) (argv : list string) : ending :=
  match parse_arguments argv with
  | Exit s errmsg =>
      print (argv !! 0%nat) (fun arg0 => Ended s (Usage.tcpdump_usage arg0 errmsg))
  | Fail _ => Undefined
  | Return (exp_start, dev) =>
      with_handle dev (fun p_hdl dl_type cout =>
        with_filter exp_start argv p_hdl cout (fun p_hdl cout => listen rounds dl_type p_hdl cout))
  end.

(** ** What the sniffer prints *)

(** From the handle [p], [pcap_next_ex] gives time-outs ([None]) and packets, and then fails
    with [r]. *)
Inductive delivers : P -> list (option bytes) -> Z -> Prop :=
  | delivers_end p p' b r : pcap_next_ex p = (r, b, p') -> r < 0 -> delivers p [] r
  | delivers_timeout p p' b l r : pcap_next_ex p = (0, b, p') -> delivers p' l r ->
      delivers p (None :: l) r
  | delivers_packet p p' b l r : pcap_next_ex p = (1, b, p') -> delivers p' l r ->
      delivers p (Some b :: l) r.

Lemma listen_delivers p l r dl_type text :
  delivers p l r -> Tcpdump.capture inet_ntop6 dl_type l = Ok text ->
  forall rounds cout, (Datatypes.length l < rounds)%nat ->
  listen rounds dl_type p cout = if r =? -1 then Undefined else Ended 0 (cout <+> text).
Proof.
  intros Hd. revert text. induction Hd as [p p' b r E Hr|p p' b l r E _ IH|p p' b l r E _ IH];
    intros text Et [|rounds] cout Hl; try (cbn in Hl; lia); cbn [listen]; rewrite E.
  - injection Et as <-. replace (r <? 0) with true by lia. by rewrite append_nil_r.
  - apply IH; [done|]. cbn in Hl. lia.
  - cbn [Tcpdump.capture] in Et. change (1 <? 0) with false. change (1 =? 0) with false. cbv iota.
    destruct (Tcpdump.packet inet_ntop6 dl_type b) as [s|]; [|done]. cbn [mbind result_bind] in Et.
    destruct (Tcpdump.capture inet_ntop6 dl_type l) as [s'|]; [|done]. injection Et as <-.
    rewrite (IH s' eq_refl) by (cbn in Hl; lia). by rewrite append_assoc.
Qed.

(** The first line, with the link type. *)
Definition banner (dev : option string) (description : string) : string :=
  match dev with
  | Some dev => "Capturing on interface " <+> dev
  | None => "Capturing on all interfaces"
  end <+> " (type: " <+> description <+> ")" <+> newline.

(** When the capture can be set up, the program prints what it is doing and then the text of
    every packet that the library delivers, in order and with nothing in between, and
    succeeds; but if the library reports an error, the closed handle is used. *)
Theorem sniffer_prints argv exp_start dev h description dl_type h1 h2 l r text rounds :
  parse_arguments argv = Return (exp_start, dev) ->
  pcap_open_live dev = inr h ->
  pcap_datalink_val_to_description (pcap_datalink h) = Some description ->
  datalink_of (pcap_datalink h) = Some dl_type ->
  pcap_compile (filter_expression exp_start argv) h = (0, h1) -> pcap_setfilter h1 = (0, h2) ->
  delivers h2 l r -> Tcpdump.capture inet_ntop6 dl_type l = Ok text ->
  (Datatypes.length l < rounds)%nat ->
  tcpdump_main rounds argv =
    if r =? -1 then Undefined
    else Ended 0 (banner dev description <+> "Using filter expression: " <+>
                  filter_expression exp_start argv <+> newline <+> text).
Proof.
  intros Ea Eo Ed El Ec Es Hd Et Hr. unfold tcpdump_main, with_handle, with_filter, print, banner.
  rewrite Ea, Eo, Ed, El, Ec, Es. cbn [Z.eqb negb].
  rewrite (listen_delivers h2 l r dl_type text Hd Et) by done. case_Z; [done|].
  f_equal. by destruct dev; rewrite !append_assoc.
Qed.

(** [-F], which the help text describes, is not an option: it becomes part of the filter. *)
Theorem filter_file_ignored p f :
  parse_arguments [p; "-F"; f]%string = Return (1, None) /\
  filter_expression 1 [p; "-F"; f]%string = "-F " <+> f <+> " ".
Proof. done. Qed.

End Main.

(** ** A sample *)

(** A library that delivers a list of events and then ends. *)
#[local] Instance recorded : Pcap (list (option bytes)) := {|
  pcap_open_live _ := inr [None; Some [Byte.x50]; None];
  pcap_datalink _ := 12;
  pcap_datalink_val_to_description _ := Some "Raw IP"%string;
  pcap_compile _ h := (0, h);
  pcap_setfilter h := (0, h);
  pcap_geterr _ := EmptyString;
  pcap_next_ex h := match h with
                    | [] => (-2, [], [])
                    | None :: h => (0, [], h)
                    | Some b :: h => (1, b, h)
                    end
|}.

Lemma sniffer_prints_witness :
  tcpdump_main (fun _ => EmptyString) 4 ["udp_tcpdump"; "-i"; "lo"; "udp"]%string =
  Ended 0 ("Capturing on interface lo (type: Raw IP)" <+> newline <+>
           "Using filter expression: udp " <+> newline).
Proof.
  rewrite (sniffer_prints (fun _ => EmptyString) ["udp_tcpdump"; "-i"; "lo"; "udp"]%string 3
    (Some "lo"%string) [None; Some [Byte.x50]; None] "Raw IP" DLT_RAW [None; Some [Byte.x50]; None]
    [None; Some [Byte.x50]; None] [None; Some [Byte.x50]; None] (-2) EmptyString 4);
    [done..| |vm_compute; reflexivity|cbn; lia].
  eapply delivers_timeout; [done|]. eapply delivers_packet; [done|]. eapply delivers_timeout; [done|].
  by eapply delivers_end.
Defined.
