(* ===== verification/Tools.v ===== *)
(** Three small programs: [apps/webget.cc], which fetches a page, [apps/tun.cc], which
    prints the packets of a TUN device, and [apps/tcp_native.cc], which copies between
    standard streams and a TCP socket of the kernel. *)
From S2P Require Import Prelude.
From S2P Require Buffer Parser Address IPv4Header IPv4Datagram TCPHeader TCPSegment Show.
From S2P Require FileDescriptor Socket CommandLine Safety.
From Stdlib Require Import Ascii String.
Import Address(Address).
Import FileDescriptor Show.
Import Socket(NetKernel, NetLaws).
Import Safety(yields, defined, yields_then, bind_yields, yields_mono).
#[local] Existing Instance Parser.ParseResult_eq_dec.
Open Scope Z_scope.

(** ** [webget] *)

(** Carriage return and line feed. *)
Definition crlf : string :=
  String.String (ascii_of_nat 13) (String.String (ascii_of_nat 10) EmptyString).

(** The two strings that are written. *)
Definition request_line (host path : string) : bytes :=
  String.list_byte_of_string ("GET " <+> path <+> " HTTP/1.1" <+> crlf <+> "Host: " <+> host <+> crlf).
Definition closing_line : bytes := String.list_byte_of_string ("Connection: close" <+> crlf <+> crlf).

Section Webget.
Context {K : Type} `{NetKernel K}.

(** The loop that prints what is read, until the end of the file.  It takes a number of
    rounds; the result is what was printed, and whether the end was reached. *)
Fixpoint print_all (rounds : nat) (h : FileDescriptor) (cout : bytes) : IO K (bool * bytes) :=
  wr ← get h;
  if eof wr then mret (true, cout) else
  match rounds with
  | O => mret (false, cout)
  | S rounds =>
      data ← read npos h;
      print_all rounds h (cout ++ data)
  end.

(** [get_URL] once the socket is connected: [h] is the owner's end of the socket.  Joining
    the thread of the connection, at the end of [wait_until_closed], does nothing to it. *)
Definition fetch (rounds : nat) (host path : string) (h : FileDescriptor) : IO K (bool * bytes) :=
  _ ← write (Buffer.bvl_of_view (request_line host path)) true h;
  _ ← write (Buffer.bvl_of_view closing_line) true h;
  '(ended, cout) ← print_all rounds h [];
  if ended : bool then
    _ ← Socket.shutdown Socket.SHUT_WR h;
    _ ← Socket.shutdown Socket.SHUT_RDWR h;
    mret (true, cout)
  else mret (false, cout).

(** ** [tcp_native] *)

(** The socket of [main]; [resolve] is the constructor of [Address] from a host and a
    service. *)
Definition native_socket (resolve : string -> string -> result Address) (server_mode : bool)
    (argv : list string) : IO K FileDescriptor :=
  let arg i := default EmptyString (argv !! i) in
  if server_mode then
    listening_socket ← Socket.TCPSocket_new;
    _ ← Socket.set_reuseaddr listening_socket;
    a ← lift (resolve (arg 2%nat) (arg 3%nat));
    _ ← Socket.bind a listening_socket;
    _ ← Socket.listen 16 listening_socket;
    s ← Socket.accept listening_socket;
    _ ← release listening_socket;
    mret s
  else
    connecting_socket ← Socket.TCPSocket_new;
    a ← lift (resolve (arg 1%nat) (arg 2%nat));
    _ ← Socket.connect a connecting_socket;
    mret connecting_socket.

End Webget.

(** The check of the arguments: [None] prints the usage and fails, otherwise the result is
    [server_mode]. *)
Definition native_arguments (argv : list string) : option bool :=
  let argc := Z.of_nat (Datatypes.length argv) in
  if argc <? 3 then None else
  let server_mode := CommandLine.strncmp_eq "-l" (default EmptyString (argv !! 1%nat)) 3 in
  if server_mode && (argc <? 4) then None else Some server_mode.

(** ** [tun] *)

(** One turn of the loop of [main] on what was read: what it prints on [cout]. *)
Definition show_packet (buffer : bytes) : result string :=
  let cout := newline <+> newline <+> "***" <+> newline <+> "*** Got packet:" <+> newline <+>
              "***" <+> newline <+> hexdump buffer 0 <+>
              "attempting to parse as ipv4 datagram... " in
  '(r, ip_dgram) ← IPv4Datagram.parse IPv4Datagram.default (Buffer.of_string buffer);
  if negb (bool_decide (r = Parser.NoError)) then Ok (cout <+> "failed." <+> newline) else
  let header := IPv4Datagram.header ip_dgram in
  let cout := cout <+> "success! totlen=" <+> dec (IPv4Header.len header) <+>
              ", IPv4 header contents:" <+> newline <+> ip_to_string header in
  if negb (IPv4Header.proto header =? IPv4Header.PROTO_TCP)
  then Ok (cout <+> newline <+> "Not TCP, skipping." <+> newline) else
  let cout := cout <+> newline <+> "Attempting to parse as a TCP segment... " in
  b ← Buffer.to_buffer (IPv4Datagram.payload ip_dgram);
  '(r, tcp_seg) ← TCPSegment.parse TCPSegment.default b (IPv4Header.pseudo_cksum header);
  if negb (bool_decide (r = Parser.NoError)) then Ok (cout <+> "failed." <+> newline) else
  Ok (cout <+> "success! payload len=" <+> dec (Buffer.buf_size (TCPSegment.payload tcp_seg)) <+>
      ", TCP header contents:" <+> newline <+> tcp_to_string (TCPSegment.header tcp_seg) <+> newline).

(** The loop of [main], for a number of rounds. *)
Fixpoint show_packets {K} `{NetKernel K} (rounds : nat) (tun : FileDescriptor) (cout : string)
    : IO K string :=
  match rounds with
  | O => mret cout
  | S rounds =>
      buffer ← read npos tun;
      s ← lift (show_packet buffer);
      show_packets rounds tun (cout <+> s)
  end.

(** ** What the programs do *)

Section Proofs.
Context {K : Type} `{Laws : NetLaws K}.
Implicit Types w : world K.

Lemma send_line b h w s :
  heap w !! h = Some s -> size b < 2 ^ 63 ->
  outcome (write (Buffer.bvl_of_view b) true h) w
    (fun _ w' => transferred (fd (wrapper s)) [] b w w' /\
       exists s', heap w' !! h = Some s' /\ fd (wrapper s') = fd (wrapper s)) io_error.
Proof using Type.
  intros Hs Hb. eapply outcome_mono; [apply write_outcome; [done|]| |done]; cbn; rewrite ?app_nil_r; [done|].
  intros n w' (_ & _ & Hall & Ht & k & _ & _ & Hh). specialize (Hall eq_refl). cbn in Hall, Ht.
  rewrite app_nil_r in Hall, Ht. subst n. rewrite take_ge in Ht by (unfold size; lia).
  split; [done|]. rewrite Hh, lookup_insert_eq. by eexists.
Qed.

Lemma print_all_outcome rounds : forall h cout w s,
  heap w !! h = Some s ->
  outcome (print_all rounds h cout) w
    (fun '(_, cout') w' => (exists d, cout' = cout ++ d /\ transferred (fd (wrapper s)) d [] w w') /\
       exists s', heap w' !! h = Some s' /\ fd (wrapper s') = fd (wrapper s)) io_error.
Proof using Type.
  assert (Hstop : forall h cout w s (b : bool), heap w !! h = Some s ->
    outcome (mret (b, cout)) w
      (fun '(_, cout') w' => (exists d, cout' = cout ++ d /\ transferred (fd (wrapper s)) d [] w w') /\
         exists s', heap w' !! h = Some s' /\ fd (wrapper s') = fd (wrapper s)) io_error).
  { intros h cout w s b Hs. split; [|by exists s]. exists []. rewrite app_nil_r.
    split; [done|]. by apply transferred_refl. }
  induction rounds as [|rounds IH]; intros h cout w s Hs; cbn [print_all]; apply outcome_bind;
    (eapply get_outcome; [done|]); (destruct (eof (wrapper s)); [by apply Hstop|]); [by apply Hstop|].
  apply outcome_bind. eapply outcome_mono; [by apply read_outcome| |by right].
  intros data w1 (_ & Ht & Hh).
  assert (Hs1 : heap w1 !! h = Some (mkShared (after_read npos data (wrapper s)) (use_count s)))
    by (rewrite Hh; apply lookup_insert_eq).
  eapply outcome_mono; [by apply (IH h (cout ++ data) w1)| |done].
  intros [b cout'] w2 [(d & -> & Ht2) Hs2]. split; [|exact Hs2].
  exists (data ++ d). rewrite app_assoc. split; [done|]. by apply (transferred_trans _ _ _ [] [] w w1 w2).
Qed.

Lemma shutdown_still how h w s :
  heap w !! h = Some s ->
  outcome (Socket.shutdown how h) w
    (fun _ w' => (forall n, transferred n [] [] w w') /\
       exists s', heap w' !! h = Some s' /\ fd (wrapper s') = fd (wrapper s)) io_error.
Proof using Laws.
  intros Hs. unfold Socket.shutdown, Socket.call_on. apply outcome_bind, outcome_bind.
  eapply get_outcome; [done|]. apply outcome_bind. unfold outcome at 1, syscall.
  pose proof (Socket.sys_shutdown_law (fd (wrapper s)) how (kernel w)) as Law.
  destruct (Socket.sys_shutdown _ _ _) as [r k']. destruct Law as [Lx Lr].
  unfold outcome at 1, lift. destruct Lr as [L0|[L1 L2]].
  2: { rewrite SystemCall_fails by done. right. by eexists. }
  rewrite SystemCall_succeeds by lia. cbn [mbind result_bind].
  assert (Hone : forall f w1 s1, heap w1 !! h = Some s1 -> fd (wrapper s1) = fd (wrapper s) ->
    (forall n, transferred n [] [] w w1) -> (forall wr, fd (f wr) = fd wr) ->
    outcome (modify h f) w1 (fun _ w' => (forall n, transferred n [] [] w w') /\
       exists s', heap w' !! h = Some s' /\ fd (wrapper s') = fd (wrapper s)) io_error).
  { intros f w1 s1 Hs1 Hf1 Ht1 Hf. apply modify_outcome with (s := s1); [done|]. split; [done|].
    cbn. rewrite lookup_insert_eq. eexists. split; [done|]. cbn. by rewrite Hf. }
  assert (Ht : forall n, transferred n [] [] w (set_kernel k' w)).
  { intros n. apply transferred_refl; intros x; apply Lx. }
  destruct (how =? Socket.SHUT_RD); [by apply (Hone _ _ s)|].
  destruct (how =? Socket.SHUT_WR); [by apply (Hone _ _ s)|].
  destruct (how =? Socket.SHUT_RDWR); [|by left]. apply outcome_bind.
  eapply outcome_mono; [by apply (Hone _ _ s)| |done]. intros _ w1 [Ht1 (s1 & Hs1 & Hf1)].
  by apply (Hone _ _ s1).
Qed.

(** [webget] sends the request, nothing more and nothing less, and prints exactly the bytes
    it has read from the socket, in order; it stops only at the end of the file. *)
Theorem fetch_prints_answer rounds host path h w s :
  heap w !! h = Some s -> size (request_line host path) < 2 ^ 63 ->
  outcome (fetch rounds host path h) w
    (fun '(_, cout) w' =>
       transferred (fd (wrapper s)) cout (request_line host path ++ closing_line) w w') io_error.
Proof using Laws.
  intros Hs Hb. unfold fetch. apply outcome_bind.
  eapply outcome_mono; [by apply send_line| |done]. intros _ w1 [T1 (s1 & Hs1 & F1)]. apply outcome_bind.
  eapply outcome_mono; [by apply send_line| |done]. intros _ w2 [T2 (s2 & Hs2 & F2)]. rewrite F1 in T2.
  apply outcome_bind. eapply outcome_mono; [by apply print_all_outcome| |done].
  intros [ended cout] w3 [(d & -> & T3) (s3 & Hs3 & F3)]. cbn [app]. rewrite F2, F1 in T3.
  pose proof (transferred_trans _ _ _ _ _ _ _ _ (transferred_trans _ _ _ _ _ _ _ _ T1 T2) T3) as T.
  cbn [app] in T. rewrite app_nil_r in T. destruct ended; [|done]. apply outcome_bind.
  eapply outcome_mono; [by apply shutdown_still| |done]. intros _ w4 [T4 (s4 & Hs4 & F4)].
  apply outcome_bind. eapply outcome_mono; [by apply shutdown_still| |done]. intros _ w5 [T5 _].
  pose proof (transferred_trans _ _ _ _ _ _ _ _ T
    (transferred_trans _ _ _ _ _ _ _ _ (T4 _) (T5 _))) as T6.
  cbn [app] in T6. rewrite !app_nil_r in T6. exact T6.
Qed.

End Proofs.

(** Whatever comes from the device, printing it is defined. *)
Theorem show_packet_defined buffer : defined (show_packet buffer).
Proof.
  unfold show_packet. apply yields_then; [apply Safety.datagram_parse_defined|]. intros [r d].
  destruct (negb _); [done|]. destruct (negb _); [done|].
  apply yields_then; [apply Safety.to_buffer_defined|]. intros b.
  apply yields_then; [apply Safety.segment_parse_defined|]. intros [r' seg]. by destruct (negb _).
Qed.

(** The arguments of [tcp_native]. *)
Example native_arguments_cases :
  native_arguments ["tcp_native"; "host"] = None /\
  native_arguments ["tcp_native"; "host"; "80"] = Some false /\
  native_arguments ["tcp_native"; "-l"; "host"] = None /\
  native_arguments ["tcp_native"; "-l"; "host"; "80"] = Some true.
Proof. by vm_compute. Qed.

#[local] Existing Instances Socket.toy_net Socket.toy_net_laws.

(** The server's answer is "ab", in two reads, and then the end of the file. *)
Lemma fetch_prints_answer_witness :
  exists w', fetch 5 "a" "/" 0%nat (toy_world [Byte.x61; Byte.x62] 1) = Ok ((true, [Byte.x61; Byte.x62]), w') /\
    given (kernel w') 5 = request_line "a" "/" ++ closing_line.
Proof.
  pose proof (fetch_prints_answer 5 "a" "/" 0%nat (toy_world [Byte.x61; Byte.x62] 1)
    (mkShared (mkFDWrapper 5 false false 0 0) 1) eq_refl ltac:(reflexivity)) as Hf.
  assert (E : fst <$> fetch 5 "a" "/" 0%nat (toy_world [Byte.x61; Byte.x62] 1)
              = Ok (true, [Byte.x61; Byte.x62])) by (vm_compute; reflexivity).
  unfold outcome in Hf. destruct (fetch _ _ _ _ _) as [[[b cout] w']|e]; [|discriminate E].
  cbn in E. injection E as -> ->. exists w'. split; [done|]. destruct Hf as [_ Hg].
  specialize (Hg 5). exact Hg.
Defined.
