(* ===== verification/Setup.v ===== *)
(** Opening devices and sockets: the constructors of [libsponge/util/socket.cc],
    [tun.cc] and [tcp_helpers/tcp_sponge_socket.cc] seen from the state they leave,
    and [tcp_helpers/lossy_fd_adapter.hh] over a device. *)
From S2P Require Import Prelude.
From S2P Require Buffer Address TCPHeader TCPSegment TCPSender TCPConnection Adapters FileDescriptor EventLoop Socket SpongeSocket.
Import Address(Address).
Import TCPSegment(TCPSegment).
Import Adapters(Resolver, FdAdapterConfig, FdAdapterBase).
Import FileDescriptor EventLoop.
Import Socket(NetKernel, NetLaws).
Import SpongeSocket.
#[local] Existing Instances io_ret io_bind.

(** ** [LossyFdAdapter] over a socket or a TUN device *)

Section Lossy.
Context {K G : Type} (Ad : DatagramAdapter K (Device FdAdapterBase)) (rand : G -> Z * G).

Definition lossy_device_read (x : Device FdAdapterBase * G)
    : IO K (option TCPSegment * (Device FdAdapterBase * G)) :=
  '(ret, d) ← ad_read x.1;
  let '(drop, g) := Adapters.should_drop rand false (base d) x.2 in
  mret (if drop : bool then None else ret, (d, g)).

Definition lossy_device_write (seg : TCPSegment) (x : Device FdAdapterBase * G)
    : IO K (Device FdAdapterBase * G) :=
  let '(drop, g) := Adapters.should_drop rand true (base x.1) x.2 in
  if drop : bool then mret (x.1, g)
  else d ← ad_write seg x.1; mret (d, g).

Definition lossy_device_tick (ms : Z) (x : Device FdAdapterBase * G) : IO K (Device FdAdapterBase * G) :=
  d ← ad_tick ms x.1; mret (d, x.2).

(** The conversion to a descriptor and the other members are passed through. *)
Definition lossy_device : DatagramAdapter K (Device FdAdapterBase * G) :=
  {| ad_fd := fun x => ad_fd x.1;
     ad_set_config := fun c x => (ad_set_config c x.1, x.2);
     ad_set_listening := fun l x => (ad_set_listening l x.1, x.2);
     ad_read := lossy_device_read; ad_write := lossy_device_write; ad_tick := lossy_device_tick |}.
End Lossy.

#[export] Instance lossy_device_laws {K G : Type} `{NetLaws K}
    (Ad : DatagramAdapter K (Device FdAdapterBase)) (rand : G -> Z * G)
    `{AL : !AdapterLaws (Ad := Ad) K (Device FdAdapterBase)} :
  AdapterLaws (Ad := lossy_device Ad rand) K (Device FdAdapterBase * G).
Proof.
  constructor.
  - intros [d g] w s Hs. cbn [ad_read ad_fd lossy_device fst] in *. unfold lossy_device_read.
    apply outcome_bind. eapply outcome_mono; [by apply ad_read_law| |done]. cbn.
    intros [ret d'] w' (Hc & Hf & Hg). destruct (Adapters.should_drop _ _ _ _) as [drop g'].
    unfold outcome. cbn. split; [done|]. split; [done|]. by destruct drop.
  - intros seg [d g] w s Hs. cbn [ad_write ad_fd lossy_device fst] in *. unfold lossy_device_write.
    cbn [fst snd]. destruct (Adapters.should_drop _ _ _ _) as [drop g']. destruct drop.
    + unfold outcome. cbn. split; [by apply confined_refl|done].
    + apply outcome_bind. eapply outcome_mono; [by apply ad_write_law| |done]. by intros d' w' [Hc Hf].
  - intros ms [d g] w s Hs. cbn [ad_tick ad_fd lossy_device fst] in *. unfold lossy_device_tick.
    apply outcome_bind. eapply outcome_mono; [by apply ad_tick_law| |done]. by intros d' w' [Hc Hf].
  - intros c [d g]. exact (ad_config_law c d).
  - intros l [d g]. exact (ad_listening_law l d).
Qed.

(** ** What the calls that open descriptors promise *)

(** Nothing was transferred and no descriptor was closed. *)
Section Keeps.
Context {K : Type} `{NetLaws K}.
Definition keeps (opened : K -> Z -> Prop) (k k' : K) : Prop :=
  (forall x, taken k' x = taken k x /\ given k' x = given k x) /\
  (forall x, opened k x -> opened k' x).
(** [r] is a new descriptor, or the error value. *)
Definition opens (opened : K -> Z -> Prop) (r : sysret) (k k' : K) : Prop :=
  keeps opened k k' /\
  (0 <= return_value r -> return_value r < 2147483648 /\
     ~ opened k (return_value r) /\ opened k' (return_value r)).
End Keeps.

Class OpenLaws (K : Type) `{NetLaws K} := {
  opened : K -> Z -> Prop;             (* the descriptors in use *)
  sys_socket_law d t k : let '(r, k') := Socket.sys_socket d t k in opens opened r k k';
  sys_open_law path flags k : let '(r, k') := Socket.sys_open path flags k in opens opened r k k';
  sys_socketpair_law d t k : let '(r, (n0, n1), k') := Socket.sys_socketpair d t k in
    keeps opened k k' /\
    (0 <= return_value r -> n0 <> n1 /\ ~ opened k n0 /\ ~ opened k n1 /\ opened k' n0 /\ opened k' n1);
  sys_getsockopt_law n l o k : keeps opened k (Socket.sys_getsockopt n l o k).2;
  sys_bind_law n a l k : keeps opened k (Socket.sys_bind n a l k).2;
  sys_tunsetiff_law n name flags k : keeps opened k (Socket.sys_tunsetiff n name flags k).2;
  getfl_law n k : keeps opened k (sys_getfl n k).2;
  setfl_law n f k : keeps opened k (sys_setfl n f k).2;
  sys_writev_opened n iov k x : opened k x -> opened (sys_writev n iov k).2 x;
  sys_socket_error d t k : return_value (Socket.sys_socket d t k).1 < 0 ->
    return_value (Socket.sys_socket d t k).1 = -1 /\ errno (Socket.sys_socket d t k).1 <> 0;
  sys_open_error p f k : return_value (Socket.sys_open p f k).1 < 0 ->
    return_value (Socket.sys_open p f k).1 = -1 /\ errno (Socket.sys_open p f k).1 <> 0;
  sys_socketpair_error d t k : return_value (Socket.sys_socketpair d t k).1.1 < 0 ->
    return_value (Socket.sys_socketpair d t k).1.1 = -1 /\
    errno (Socket.sys_socketpair d t k).1.1 <> 0
}.

Section Opening.
Context {K : Type} `{OL : OpenLaws K}.
Implicit Types (w : world K) (s : Shared).

(** From [w] to [w'] only new things were opened. *)
Definition extends w w' : Prop :=
  keeps opened (kernel w) (kernel w') /\ heap w ⊆ heap w'.

Lemma keeps_trans (k1 k2 k3 : K) : keeps opened k1 k2 -> keeps opened k2 k3 -> keeps opened k1 k3.
Proof using.
  intros [A1 A2] [B1 B2]. split; [|auto]. intros x. destruct (A1 x), (B1 x). split; congruence.
Qed.
Lemma opening_refl w : extends w w.
Proof using. by split; [split|]. Qed.
Lemma opening_trans w1 w2 w3 : extends w1 w2 -> extends w2 w3 -> extends w1 w3.
Proof using. intros [A1 A2] [B1 B2]. split; [by eapply keeps_trans|by etrans]. Qed.

(** A call that keeps what is open. *)
Lemma syscall_extends {A} (f : K -> A * K) w :
  (forall k, keeps opened k (f k).2) ->
  outcome (syscall f) w (fun a w' => extends w w' /\ heap w' = heap w /\ a = (f (kernel w)).1) any.
Proof using.
  intros Hf. unfold outcome, syscall. specialize (Hf (kernel w)). destruct (f (kernel w)) as [a k].
  split; [by split|done].
Qed.

(** Sequencing steps that only open things. *)
Lemma extends_bind {A B} (m : IO K A) (f : A -> IO K B) w (P : A -> world K -> Prop)
    (Q : B -> world K -> Prop) :
  outcome m w (fun a w' => extends w w' /\ P a w') any ->
  (forall a w', extends w w' -> P a w' -> outcome (f a) w' (fun b w2 => extends w' w2 /\ Q b w2) any) ->
  outcome (m ≫= f) w (fun b w2 => extends w w2 /\ Q b w2) any.
Proof using.
  intros Hm Hf. apply outcome_bind. eapply outcome_mono; [exact Hm| |done].
  intros a w' [He HP]. eapply outcome_mono; [by apply Hf| |done].
  intros b w2 [He2 HQ]. split; [by eapply opening_trans|done].
Qed.

Lemma lift_extends {A} (r : result A) w :
  outcome (lift r) w (fun a w' => extends w w' /\ (w' = w /\ r = Ok a)) any.
Proof using.
  unfold outcome, lift. destruct r; [|done]. cbn. split; [apply opening_refl|done].
Qed.

Lemma ret_extends {A} (a : A) w (Q : A -> world K -> Prop) :
  Q a w -> outcome (mret a) w (fun b w' => extends w w' /\ Q b w') any.
Proof using. intros HQ. split; [apply opening_refl|done]. Qed.

(** [h] is a descriptor for [n], which is open. *)
Definition holds w (h : FileDescriptor) (n : Z) : Prop :=
  opened (kernel w) n /\ exists s, heap w !! h = Some s /\ fd (wrapper s) = n /\ (0 < use_count s)%nat.

Lemma holds_extends w w' h n : extends w w' -> holds w h n -> holds w' h n.
Proof using.
  intros [[_ Hk] Hh] [Ho (s & Hs & Hf)]. split; [by apply Hk|]. exists s.
  split; [by eapply lookup_weaken|done].
Qed.

Lemma construct_extends n w :
  opened (kernel w) n -> outcome (construct n) w (fun h w' => extends w w' /\ holds w' h n) any.
Proof using.
  intros Ho. destruct (Z.lt_ge_cases n 0).
  { unfold outcome, construct, FDWrapper_of. by destruct (Z.ltb_spec n 0); [|lia]. }
  apply construct_outcome; [lia|]. intros h Hh. split.
  - split; [by split|]. cbn. by apply insert_subseteq.
  - split; [done|]. eexists. cbn. rewrite lookup_insert_eq. split; [done|]. split; [done|cbn; lia].
Qed.

Lemma call_on_extends (f : Z -> K -> sysret * K) h n w :
  holds w h n -> (forall k, keeps opened k (f n k).2) ->
  outcome (Socket.call_on f h) w (fun _ w' => extends w w' /\ True) any.
Proof using.
  intros (Ho & s & Hs & Hn & _) Hf. unfold Socket.call_on. apply outcome_bind.
  eapply get_outcome; [done|]. rewrite Hn.
  apply (extends_bind _ _ w (fun _ _ => True)).
  - eapply outcome_mono; [by apply syscall_extends| |done]. by intros a w' [He _].
  - intros a w' _ _. eapply outcome_mono; [apply lift_extends| |done]. by intros b w2 [He _].
Qed.

(** The result of a call that opens a descriptor, when it is a valid one. *)
Lemma new_descriptor (r : sysret) (k k' : K) n :
  opens opened r k k' -> (return_value r < 0 -> return_value r = -1 /\ errno r <> 0) ->
  SystemCall r 0 = Ok n -> ~ opened k n /\ opened k' n.
Proof using.
  intros [_ Ho] Hneg E. destruct (Z.lt_ge_cases (return_value r) 0) as [Hl|Hl].
  - destruct (Hneg Hl) as [E1 E2]. rewrite (SystemCall_fails r E1 E2) in E. done.
  - destruct (Ho Hl) as [Hb [Hn Ho']]. rewrite SystemCall_succeeds in E by lia. by injection E as <-.
Qed.

Lemma Socket_new_extends d t w :
  outcome (Socket.Socket_new d t) w
    (fun h w' => extends w w' /\ exists n, holds w' h n /\ ~ opened (kernel w) n) any.
Proof using.
  unfold Socket.Socket_new. pose proof (sys_socket_law d t (kernel w)) as Law.
  pose proof (sys_socket_error d t (kernel w)) as Herr.
  apply outcome_bind. unfold outcome at 1, syscall. destruct (Socket.sys_socket d t (kernel w)) as [r k'].
  cbn in Herr. apply outcome_bind. unfold outcome at 1, lift.
  destruct (SystemCall r 0) as [n|] eqn:E; [|done]. cbn [mbind result_bind].
  destruct (new_descriptor r _ _ n Law Herr E) as [Hn Ho].
  eapply outcome_mono; [by apply construct_extends| |done]. intros h w' [He Hh].
  split; [|by exists n]. eapply opening_trans; [|exact He]. split; [by destruct Law|done].
Qed.

Lemma TunTapFD_extends name is_tun w :
  outcome (Socket.TunTapFD name is_tun) w
    (fun h w' => extends w w' /\ exists n, holds w' h n /\ ~ opened (kernel w) n) any.
Proof using.
  unfold Socket.TunTapFD. pose proof (sys_open_law "/dev/net/tun" Socket.O_RDWR (kernel w)) as Law.
  pose proof (sys_open_error "/dev/net/tun" Socket.O_RDWR (kernel w)) as Herr.
  apply outcome_bind. unfold outcome at 1, syscall. destruct (Socket.sys_open _ _ (kernel w)) as [r k'].
  cbn in Herr. apply outcome_bind. unfold outcome at 1, lift.
  destruct (SystemCall r 0) as [n|] eqn:E; [|done]. cbn [mbind result_bind].
  destruct (new_descriptor r _ _ n Law Herr E) as [Hn Ho].
  assert (He0 : extends w (set_kernel k' w)) by (split; [by destruct Law|done]).
  apply outcome_bind. eapply outcome_mono; [by apply construct_extends| |done]. intros h w' [He Hh].
  apply outcome_bind. eapply outcome_mono; [eapply call_on_extends; [exact Hh|]| |done].
  - intros k. apply sys_tunsetiff_law.
  - intros v w2 [He2 _]. unfold outcome. cbn. split; [apply (opening_trans _ _ _ He0), (opening_trans _ _ _ He He2)|].
    exists n. split; [by eapply holds_extends|done].
Qed.

Lemma bind_extends a h n w :
  holds w h n -> outcome (Socket.bind a h) w (fun _ w' => extends w w' /\ True) any.
Proof using.
  intros Hh. unfold Socket.bind. eapply extends_bind; [eapply call_on_extends; [exact Hh|]|].
  - intros k. apply sys_bind_law.
  - intros x w' _ _. by apply ret_extends.
Qed.

Lemma verify_extends o e h n w :
  holds w h n -> outcome (Socket.verify o e h) w (fun _ w' => extends w w' /\ True) any.
Proof using.
  intros (Ho & s & Hs & Hn & _). unfold Socket.verify. apply outcome_bind.
  eapply get_outcome; [done|]. apply (extends_bind _ _ w (fun _ _ => True)).
  - eapply outcome_mono; [apply syscall_extends|by intros a w' [He _]|done].
    intros k. apply sys_getsockopt_law.
  - intros [r [v l]] w' _ _. apply (extends_bind _ _ w' (fun _ _ => True)).
    + eapply outcome_mono; [apply lift_extends|by intros b w2 [He _]|done].
    + intros b w2 _ _. destruct (_ || _); [done|by apply ret_extends].
Qed.

Lemma Socket_of_extends h d t n w :
  holds w h n -> outcome (Socket.Socket_of h d t) w (fun h' w' => extends w w' /\ h' = h) any.
Proof using.
  intros Hh. unfold Socket.Socket_of. eapply extends_bind; [by eapply verify_extends|].
  intros x w' He _. eapply extends_bind; [by eapply verify_extends, holds_extends|].
  intros y w2 He2 _. by apply ret_extends.
Qed.

Lemma set_blocking_extends b h n w :
  holds w h n -> outcome (set_blocking b h) w (fun _ w' => extends w w' /\ True) any.
Proof using.
  intros (Ho & s & Hs & Hn & _). unfold set_blocking. apply outcome_bind.
  eapply get_outcome; [done|]. apply (extends_bind _ _ w (fun _ _ => True)).
  { eapply outcome_mono; [apply syscall_extends|by intros a w' [He _]|done].
    intros k. apply getfl_law. }
  intros r w1 _ _. apply (extends_bind _ _ w1 (fun _ _ => True)).
  { eapply outcome_mono; [apply lift_extends|by intros v w2 [He _]|done]. }
  intros flags w2 _ _. apply (extends_bind _ _ w2 (fun _ _ => True)).
  { eapply outcome_mono; [apply syscall_extends|by intros a w' [He _]|done].
    intros k. apply setfl_law. }
  intros r' w3 _ _. apply (extends_bind _ _ w3 (fun _ _ => True)).
  { eapply outcome_mono; [apply lift_extends|by intros v w4 [He _]|done]. }
  intros v w4 _ _. by apply ret_extends.
Qed.

Lemma pair_extends t w :
  outcome (socket_pair_helper t) w (fun '(h0, h1) w' => extends w w' /\
    exists n0 n1, holds w' h0 n0 /\ holds w' h1 n1 /\ n0 <> n1 /\
      ~ opened (kernel w) n0 /\ ~ opened (kernel w) n1) any.
Proof using.
  unfold socket_pair_helper. pose proof (sys_socketpair_law Socket.AF_UNIX t (kernel w)) as Law.
  pose proof (sys_socketpair_error Socket.AF_UNIX t (kernel w)) as Herr.
  apply outcome_bind. unfold outcome at 1, syscall.
  destruct (Socket.sys_socketpair _ _ (kernel w)) as [[r [n0 n1]] k']. cbn in Herr.
  apply outcome_bind. unfold outcome at 1, lift. destruct (SystemCall r 0) as [v|] eqn:E; [|done].
  cbn [mbind result_bind]. destruct Law as [Hk Ho].
  destruct (Z.lt_ge_cases (return_value r) 0) as [Hl|Hl].
  { destruct (Herr Hl) as [E1 E2]. rewrite (SystemCall_fails r E1 E2) in E. done. }
  destruct (Ho Hl) as (Hne & Hn0 & Hn1 & Ho0 & Ho1).
  assert (He0 : extends w (set_kernel k' w)) by (by split).
  apply outcome_bind. eapply outcome_mono; [by apply (construct_extends n0)| |done].
  intros h0 w1 [He1 Hh0]. apply outcome_bind.
  eapply outcome_mono; [apply (construct_extends n1); by apply He1| |done].
  intros h1 w2 [He2 Hh1]. unfold outcome. cbn. split; [apply (opening_trans _ _ _ He0), (opening_trans _ _ _ He1 He2)|].
  exists n0, n1. split; [by eapply holds_extends|]. done.
Qed.

(** A new [TCPSpongeSocket] over a device that is open. *)
Definition socket_ready {A} `{DatagramAdapter K A} (a : A) (s : TCPSpongeSocket (K := K) (A := A)) w n
    : Prop :=
  thread s = mkThread None a false false false /\ eventloop s = [] /\ holds w (thread_data s) n.

Lemma sponge_socket_extends {A} `{Ad : DatagramAdapter K A} (a : A) m w :
  holds w (ad_fd a) m ->
  outcome (sponge_socket a) w (fun x w' => extends w w' /\ exists n, n <> m /\
    socket_ready a x w' n) any.
Proof using.
  intros Ha. unfold sponge_socket, of_pair.
  apply (extends_bind _ _ w (fun '(h0, h1) w' => exists n0 n1, holds w' h0 n0 /\ holds w' h1 n1 /\
    n1 <> m)).
  { eapply outcome_mono; [apply pair_extends| |done]. intros [h0 h1] w' (He & n0 & n1 & P0 & P1 & _ & _ & Hn1).
    split; [done|]. exists n0, n1. split; [done|]. split; [done|]. intros ->. apply Hn1, Ha. }
  intros [h0 h1] w1 _ (n0 & n1 & Hh0 & Hh1 & Hne). cbn [fst snd].
  eapply extends_bind; [by eapply Socket_of_extends|]. intros own w2 He2 ->.
  eapply extends_bind; [by eapply Socket_of_extends, holds_extends|]. intros td w3 He3 ->.
  assert (Hh3 : holds w3 h1 n1) by (by eapply holds_extends, holds_extends).
  apply outcome_bind. eapply outcome_mono; [by eapply set_blocking_extends| |done].
  intros u w4 [He4 _]. unfold outcome. cbn. split; [done|]. exists n1. split; [done|].
  split; [done|]. split; [done|]. by eapply holds_extends.
Qed.

(** ** From the creation of the socket through the life of its thread *)

(** What the thread of [x] has done between [w] and [w'], if the stream stayed below 2^62
    bytes; [n] is the number of its end of the pair. *)
Definition served {A} `{DatagramAdapter K A} (c_tcp : TCPSender.TCPConfig) (random : Z) w w'
    (x : TCPSpongeSocket (K := K) (A := A)) : Prop :=
  exists n, numbered w' (thread_data x) n /\
    (size (taken (kernel w') n) < 4611686018427387904 ->
     exists c W R, tcp (thread x) = Some c /\
       rtc thread_step ([], [], TCPConnection.construct c_tcp random) (W, R, c) /\
       taken (kernel w') n = taken (kernel w) n ++ W /\ given (kernel w') n = given (kernel w) n ++ R).

(** The descriptors of a socket stay the same. *)
Lemma session_thread_data {A} `{Ad : DatagramAdapter K A} active_open c_tcp c_ad random base1 env1
    base2 env2 (s x : TCPSpongeSocket (K := K) (A := A)) w w' :
  session active_open c_tcp c_ad random base1 env1 base2 env2 s w = Ok (x, w') ->
  thread_data x = thread_data s.
Proof using.
  unfold session. intros E. apply io_bind_Ok in E as ([ended s1] & w1 & E1 & E).
  assert (E1' : thread_data s1 = thread_data s).
  { destruct active_open; unfold connect, listen_and_accept in E1; destruct (tcp (thread s)); try done;
      apply io_bind_Ok in E1 as ([rules t] & w2 & _ & E1).
    - apply io_bind_Ok in E1 as (c & w3 & _ & E1). destruct (negb _); [done|].
      apply io_bind_Ok in E1 as ([[e r] t'] & w4 & _ & E1). injection E1 as _ <- _. by destruct e.
    - apply io_bind_Ok in E1 as ([[e r] t'] & w4 & _ & E1). injection E1 as _ <- _. by destruct e. }
  destruct ended; [|by injection E as <- _].
  apply io_bind_Ok in E as ([[e r] t] & w2 & _ & E). by injection E as <- _.
Qed.

(** The device that [h] names is open as [m], and only it has been used. *)
Definition device_open w w' (h : FileDescriptor) (m : Z) : Prop :=
  holds w' h m /\ forall x, x <> m ->
    taken (kernel w') x = taken (kernel w) x /\ given (kernel w') x = given (kernel w) x.

Lemma extends_device w w' h m : extends w w' -> holds w' h m -> device_open w w' h m.
Proof using. intros [[Hk _] _] Hh. split; [done|]. intros x _. apply Hk. Qed.

(** Nothing is closed by writing. *)
Lemma write_opened b all h w a w' n :
  write b all h w = Ok (a, w') -> opened (kernel w) n -> opened (kernel w') n.
Proof using.
  unfold write. generalize (S (Z.to_nat (Buffer.bvl_size b))), 0. intros fuel. revert b w.
  induction fuel as [|fuel IH]; intros b w total E Ho; [done|]. cbn [write_loop] in E.
  apply io_bind_Ok in E as ([m b'] & w1 & E1 & E). assert (Ho1 : opened (kernel w1) n).
  - unfold write_once in E1. apply io_bind_Ok in E1 as (wr & w2 & Eg & E1). unfold get in Eg.
    destruct (heap w !! h) as [sh|]; [|done]. injection Eg as <- <-.
    apply io_bind_Ok in E1 as (r & w3 & Es & E1). unfold syscall in Es.
    pose proof (sys_writev_opened (fd (wrapper sh)) (Buffer.as_iovecs b) (kernel w) n Ho) as Ho3.
    destruct (sys_writev _ _ _) as [res k]. injection Es as -> <-. cbn in Ho3.
    apply io_bind_Ok in E1 as (k1 & w4 & El & E1). unfold lift in El.
    destruct (SystemCall _ _); [|done]. injection El as -> <-.
    destruct ((_ =? _) && _); [done|]. destruct (_ <? _); [done|].
    apply io_bind_Ok in E1 as (u & w5 & Em & E1). unfold modify in Em.
    destruct (heap _ !! h); [|done]. injection Em as _ <-.
    apply io_bind_Ok in E1 as (b1 & w6 & El & E1). unfold lift in El.
    destruct (Buffer.bvl_remove_prefix _ _); [|done]. injection El as -> <-. by injection E1 as _ _ <-.
  - destruct (_ && _); [by eapply IH|]. by injection E as _ <-.
Qed.

Lemma program_outcome {A} `{Ad : DatagramAdapter K A} `{AL : !AdapterLaws K A} (mk : IO K A)
    active_open c_tcp c_ad random base1 env1 base2 env2 w :
  outcome mk w (fun a w' => exists m, device_open w w' (ad_fd a) m) any ->
  outcome (a ← mk; x ← sponge_socket a;
           session active_open c_tcp c_ad random base1 env1 base2 env2 x) w
    (fun x w' => served c_tcp random w w' x) any.
Proof using.
  intros Hmk. apply outcome_bind. eapply outcome_mono; [exact Hmk| |done].
  intros a w1 (m & Hm & Hk1). apply outcome_bind.
  eapply outcome_mono; [by apply (sponge_socket_extends a m)| |done].
  intros s w2 (He2 & n & Hne & Et & El & Hn).
  pose proof (holds_extends _ _ _ _ He2 Hm) as (_ & sd & Hsd & Hfd & Hud).
  destruct Hn as (_ & sh & Hsh & Hfh & Huh).
  pose proof (session_outcome c_tcp c_ad random s w2 sh sd) as So.
  rewrite Et in So. cbn [tcp outbound_shutdown datagram_adapter] in So.
  specialize (So ltac:(done) El ltac:(done) Hsh Hsd Huh Hud ltac:(congruence)
    active_open base1 env1 base2 env2).
  pose proof (session_thread_data active_open c_tcp c_ad random base1 env1 base2 env2 s) as Htd.
  unfold outcome in *. destruct (session _ _ _ _ _ _ _ _ s w2) as [[s' w']|] eqn:Es; [|done].
  specialize (Htd s' w2 w' Es). rename So into Hi. exists n.
  split; [rewrite Htd, <- Hfh; apply Hi|]. intros Hb. rewrite <- Hfh in Hb.
  destruct (inv_relays _ _ _ _ _ _ _ _ Hi Hb) as (c & W & R & Ec & Hrun & HW & HR & _).
  exists c, W, R. split; [done|]. split; [done|]. rewrite Hfh in *.
  destruct He2 as [[Hk _] _]. destruct (Hk n) as [E1 E2]. destruct (Hk1 n Hne) as [E3 E4].
  by rewrite <- E3, <- E4, <- E1, <- E2.
Qed.
End Opening.

(** ** A kernel that numbers descriptors *)

(** A kernel, and the next descriptor number. *)
Record counted (K : Type) := mkCounted { inner : K; next : Z }.
Arguments mkCounted {K} _ _.
Arguments inner {K} _.
Arguments next {K} _.

Section Counted.
Context {K : Type} `{NetLaws K}.

Definition within {A} (f : K -> A * K) (c : counted K) : A * counted K :=
  let '(a, k) := f (inner c) in (a, mkCounted k (next c)).

(** [count] new descriptors; there are none past the largest number. *)
Definition allot (count : Z) (c : counted K) : sysret * counted K :=
  if (0 <=? next c) && (next c + count <=? 2147483647)
  then (mkRet (next c) 0, mkCounted (inner c) (next c + count))
  else (mkRet (-1) 24, c).

#[export] Instance counted_kernel : Kernel (counted K) := {|
  sys_read n len := within (sys_read n len);
  sys_writev n iov := within (sys_writev n iov);
  sys_close n := within (sys_close n);
  sys_getfl n := within (sys_getfl n);
  sys_setfl n f := within (sys_setfl n f);
  sys_poll fds t := within (sys_poll fds t)
|}.

#[export] Instance counted_net : NetKernel (counted K) := {|
  Socket.sys_socket _ _ := allot 1;
  Socket.sys_socketpair _ _ c := let '(r, c') := allot 2 c in (r, (next c, next c + 1), c');
  Socket.sys_getsockopt _ _ _ c := (mkRet 0 0, (1, 4), c);
  Socket.sys_setsockopt _ _ _ _ c := (mkRet 0 0, c);
  Socket.sys_getsockname n := within (Socket.sys_getsockname n);
  Socket.sys_getpeername n := within (Socket.sys_getpeername n);
  Socket.sys_bind _ _ _ c := (mkRet 0 0, c);
  Socket.sys_connect n a l := within (Socket.sys_connect n a l);
  Socket.sys_shutdown n how := within (Socket.sys_shutdown n how);
  Socket.sys_recvfrom n len f := within (Socket.sys_recvfrom n len f);
  Socket.sys_sendmsg n a iov := within (Socket.sys_sendmsg n a iov);
  Socket.sys_listen n b := within (Socket.sys_listen n b);
  Socket.sys_accept n := allot 1;
  Socket.sys_open _ _ := allot 1;
  Socket.sys_tunsetiff _ _ _ c := (mkRet 0 0, c)
|}.

#[export] Instance counted_laws : KernelLaws (counted K).
Proof using All.
  refine {| taken c := taken (inner c); given c := given (inner c) |}; cbn; unfold within.
  - intros n len c Hn. pose proof (sys_read_law n len (inner c) Hn) as Hl.
    by destruct (sys_read n len (inner c)) as [[r data] k].
  - intros n iov c. pose proof (sys_writev_law n iov (inner c)) as Hl.
    by destruct (sys_writev n iov (inner c)) as [r k].
  - intros n c x. pose proof (sys_close_law n (inner c) x) as Hl. by destruct (sys_close _ _).
  - intros n c x. pose proof (sys_getfl_law n (inner c) x) as Hl. by destruct (sys_getfl _ _).
  - intros n f c x. pose proof (sys_setfl_law n f (inner c) x) as Hl. by destruct (sys_setfl _ _ _).
  - intros fds t c x. pose proof (sys_poll_law fds t (inner c) x) as Hl.
    by destruct (sys_poll _ _ _) as [[r rs] k].
Defined.

#[export] Instance counted_net_laws : NetLaws (counted K).
Proof using All.
  refine {| Socket.received c := Socket.received (inner c); Socket.sent c := Socket.sent (inner c) |};
    cbn; unfold within.
  - intros n len c Hn. pose proof (Socket.sys_recvfrom_law n len (inner c) Hn) as Hl.
    by destruct (Socket.sys_recvfrom n len Socket.MSG_TRUNC (inner c)) as [[r [data a]] k].
  - intros n dest iov c. pose proof (Socket.sys_sendmsg_law n dest iov (inner c)) as Hl.
    by destruct (Socket.sys_sendmsg n dest iov (inner c)) as [r k].
  - intros n how c. pose proof (Socket.sys_shutdown_law n how (inner c)) as Hl.
    by destruct (Socket.sys_shutdown n how (inner c)) as [r k].
Defined.

(** The numbers below the next one are in use. *)
Definition below (c : counted K) (x : Z) : Prop := x < next c.

Lemma keeps_below (c c' : counted K) :
  (forall x, taken (inner c') x = taken (inner c) x /\ given (inner c') x = given (inner c) x) ->
  next c <= next c' -> keeps below c c'.
Proof using Type. intros Hx Hn. split; [exact Hx|]. unfold below. lia. Qed.

Lemma allot_opens (c : counted K) : let '(r, c') := allot 1 c in opens below r c c'.
Proof using Type.
  unfold allot. destruct (_ && _) eqn:E.
  - split; [apply keeps_below; [done|cbn; lia]|]. unfold below. cbn. lia.
  - split; [by apply keeps_below|]. cbn. lia.
Qed.

Lemma allot_error count (c : counted K) : return_value (allot count c).1 < 0 ->
  return_value (allot count c).1 = -1 /\ errno (allot count c).1 <> 0.
Proof using Type. unfold allot. destruct (_ && _) eqn:E; cbn; lia. Qed.

#[export] Instance counted_open_laws : OpenLaws (counted K).
Proof using All.
  refine {| opened := below |}; cbn.
  - intros _ _ c. apply allot_opens.
  - intros _ _ c. apply allot_opens.
  - intros _ _ c. unfold allot. destruct (_ && _) eqn:E.
    + split; [apply keeps_below; [done|cbn; lia]|]. unfold below. cbn. lia.
    + split; [by apply keeps_below|]. cbn. lia.
  - intros. by apply keeps_below.
  - intros. by apply keeps_below.
  - intros. by apply keeps_below.
  - intros n c. unfold within. pose proof (sys_getfl_law n (inner c)) as Hl.
    destruct (sys_getfl _ _). by apply keeps_below.
  - intros n f c. unfold within. pose proof (sys_setfl_law n f (inner c)) as Hl.
    destruct (sys_setfl _ _ _). by apply keeps_below.
  - intros n iov c x Hx. unfold within, below in *. by destruct (sys_writev _ _ _).
  - intros _ _ c. apply allot_error.
  - intros _ _ c. apply allot_error.
  - intros _ _ c. pose proof (allot_error 2 c) as Hl. by destruct (allot 2 c).
Defined.
End Counted.
