(* ===== verification/Programs.v ===== *)
(** The programs: [main] of [apps/tcp_udp.cc], [tcp_ipv4.cc], [tcp_ip_ethernet.cc],
    [webget.cc], [tcp_native.cc], [tun.cc], [bouncer.cc], [lab7.cc] and
    [tcp_benchmark.cc], and [get_URL] and [program_body].

    A program that waits for the network runs for a number of rounds.  What [main]
    leaves open is closed when the process ends.  The thread that a socket starts runs
    beside [main]; the calls of [main] see what it does through the kernel. *)
From S2P Require Import Prelude.
From S2P Require Buffer Address TCPSender TCPConnection Ethernet Adapters FileDescriptor Socket.
From S2P Require EventLoop BidirectionalCopy Bouncer SpongeSocket Benchmark Lab7 Names Tools Setup.
From S2P Require Import CommandLine Usage.
From Stdlib Require Import Ascii String.
Import Address(Address).
Import TCPSender(TCPConfig).
Import Adapters(Resolver, FdAdapterConfig, FdAdapterBase, EthernetAdapter).
Import FileDescriptor.
Import Socket(NetKernel, NetLaws).
Import SpongeSocket(Device, DatagramAdapter, TCPSpongeSocket).
Import Names(NameService).
Open Scope Z_scope.
#[local] Existing Instances io_ret io_bind Names.resolver.
#[local] Existing Instances SpongeSocket.udp_device_laws SpongeSocket.tun_device_laws.
#[local] Existing Instances SpongeSocket.eth_device_laws Setup.lossy_device_laws.

(** ** How a program ends *)

Definition EXIT_SUCCESS : Z := 0.
Definition EXIT_FAILURE : Z := 1.

(** [main] returns success (in no known state, if an exception was caught on the way);
    prints a text and ends with a status; catches an exception and fails; calls [abort];
    is still running after the given rounds; or its behaviour is undefined. *)
Inductive ending (K : Type) :=
  | Completed (w : option (world K))
  | Printed (status : Z) (text : string)
  | Caught (e : exn)
  | Aborted
  | Running (w : world K)
  | Undefined.
Arguments Completed {K} _.
Arguments Printed {K} _ _.
Arguments Caught {K} _.
Arguments Aborted {K}.
Arguments Running {K} _.
Arguments Undefined {K}.

(** The status of the process. *)
Definition exit_status {K} (x : ending K) : option Z :=
  match x with
  | Completed _ => Some EXIT_SUCCESS
  | Printed s _ => Some s
  | Caught _ => Some EXIT_FAILURE
  | _ => None
  end.

(** [catch (const exception &e)]; the behaviour may be undefined, and that is not caught. *)
Definition caught {K} (e : exn) : ending K :=
  match e with undefined_behaviour => Undefined | _ => Caught e end.

(** [try { m } catch ... return EXIT_SUCCESS]; [m] tells whether it has ended. *)
Definition try_catch {K} (m : IO K bool) (w : world K) : ending K :=
  match m w with
  | Ok (true, w') => Completed (Some w')
  | Ok (false, w') => Running w'
  | Throw e => caught e
  end.

(** The beginning that the three TCP programs share: the number of arguments, and
    [get_config], which may end the program. *)
Definition configured {K C} (usage : string -> option string -> string) (argv : list string)
    (config : prog C) (body : C -> IO K bool) (w : world K) : ending K :=
  match argv with
  | [] => Undefined
  | argv0 :: _ =>
      if size argv <? 3
      then Printed EXIT_FAILURE (usage argv0 (Some "ERROR: required arguments are missing."%string))
      else match config with
           | Return c => try_catch (body c) w
           | Exit s msg => Printed s (usage argv0 msg)
           | Fail e => caught e
           end
  end.

(** ** The TCP programs *)

Section Programs.
Context {K G : Type} `{NetKernel K} `{NameService} (rand : G -> Z * G) (loss_rate : string -> Z).

(** Opens a socket over a device, actively or passively. *)
Definition open_socket {A} `{Ad : DatagramAdapter K A} (mk : IO K A) (active_open : bool)
    (c_tcp : TCPConfig) (c_ad : FdAdapterConfig) (random base_time : Z) (env : list (bool * Z))
    : IO K (bool * TCPSpongeSocket (K := K) (A := A)) :=
  a ← mk;
  s ← SpongeSocket.sponge_socket a;
  if active_open then SpongeSocket.connect c_tcp c_ad random base_time env s
  else SpongeSocket.listen_and_accept c_tcp c_ad random base_time env s.

(** What the owner does with the open socket. *)
Definition copy_and_close {A} (rounds : nat) (x : bool * TCPSpongeSocket (K := K) (A := A))
    : IO K bool :=
  let '(ended, s) := x in
  if ended then
    '(ended, _) ← BidirectionalCopy.bidirectional_stream_copy rounds (SpongeSocket.data_socket s);
    if ended : bool then
      _ ← SpongeSocket.wait_until_closed s;
      mret true
    else mret false
  else mret false.

(** [tcp_udp]: the device is a UDP socket, bound in server mode. *)
Definition udp_open (listen : bool) (c_filt : FdAdapterConfig) (g : G)
    : IO K (Device FdAdapterBase * G) :=
  udp_sock ← Socket.UDPSocket_new;
  _ ← (if listen then Socket.bind (Adapters.source c_filt) udp_sock else mret tt);
  b ← lift SpongeSocket.default_base;
  mret (SpongeSocket.mkDevice b udp_sock, g).

Definition udp_socket (g : G) (random base_time : Z) (env : list (bool * Z))
    (config : TCPConfig * FdAdapterConfig * bool)
    : IO K (bool * TCPSpongeSocket (K := K) (A := Device FdAdapterBase * G)) :=
  let '(c_fsm, c_filt, listen) := config in
  open_socket (Ad := Setup.lossy_device SpongeSocket.udp_device rand) (udp_open listen c_filt g)
    (negb listen) c_fsm c_filt random base_time env.

Definition udp_main (g : G) (random base_time : Z) (env : list (bool * Z)) (rounds : nat)
    (argv : list string) : world K -> ending K :=
  configured udp_usage argv (udp_get_config Names.of_name Names.of_quad loss_rate argv)
    (fun config => x ← udp_socket g random base_time env config; copy_and_close rounds x).

(** [tcp_ipv4]: the device is a TUN device. *)
Definition tun_open (name : option string) (g : G) : IO K (Device FdAdapterBase * G) :=
  tun ← Socket.TunFD (String.list_ascii_of_string (default TUN_DFLT name));
  b ← lift SpongeSocket.default_base;
  mret (SpongeSocket.mkDevice b tun, g).

Definition ipv4_socket (g : G) (random base_time : Z) (env : list (bool * Z))
    (config : TCPConfig * FdAdapterConfig * bool * option string)
    : IO K (bool * TCPSpongeSocket (K := K) (A := Device FdAdapterBase * G)) :=
  let '(c_fsm, c_filt, listen, tun_dev_name) := config in
  open_socket (Ad := Setup.lossy_device SpongeSocket.tun_device rand) (tun_open tun_dev_name g)
    (negb listen) c_fsm c_filt random base_time env.

Definition ipv4_main (g : G) (random_port random base_time : Z) (env : list (bool * Z))
    (rounds : nat) (argv : list string) : world K -> ending K :=
  configured ipv4_usage argv
    (ipv4_get_config Names.of_name Names.of_quad Names.port loss_rate random_port argv)
    (fun config => x ← ipv4_socket g random base_time env config; copy_and_close rounds x).

(** [tcp_ip_ethernet]: the device is a TAP device, with a random Ethernet address made of
    the bytes [address]; [garbage] is for [NetworkInterface::send_datagram]. *)
Definition tap_open (name : string) (address : list byte) (source next_hop : Address)
    : IO K (Device EthernetAdapter) :=
  tap ← Socket.TapFD (String.list_ascii_of_string name);
  b ← lift SpongeSocket.default_base;
  SpongeSocket.eth_device_new tap b (SpongeSocket.random_private_ethernet_address address)
    source next_hop.

Definition ethernet_socket (garbage : Z) (address : list byte) (random base_time : Z)
    (env : list (bool * Z)) (config : TCPConfig * FdAdapterConfig * Address * option string)
    : IO K (bool * TCPSpongeSocket (K := K) (A := Device EthernetAdapter)) :=
  let '(c_fsm, c_filt, next_hop, tap_dev_name) := config in
  open_socket (Ad := SpongeSocket.eth_device garbage)
    (tap_open (default TAP_DFLT tap_dev_name) address (Adapters.source c_filt) next_hop)
    true c_fsm c_filt random base_time env.

Definition ethernet_main (garbage : Z) (address : list byte) (random_port random base_time : Z)
    (env : list (bool * Z)) (rounds : nat) (argv : list string) : world K -> ending K :=
  configured ethernet_usage argv
    (ethernet_get_config Names.of_name Names.of_quad random_port argv)
    (fun config => x ← ethernet_socket garbage address random base_time env config;
                   copy_and_close rounds x).

(** ** The other programs *)

(** [get_URL] of [apps/webget.cc] *)
Definition get_URL (garbage : Z) (address : list byte) (random_port random base_time : Z)
    (env : list (bool * Z)) (rounds : nat) (host path : string) : IO K (bool * bytes) :=
  a ← lift (Names.of_name host "http"%string);
  s ← SpongeSocket.FullStackSocket address;
  '(ended, s) ← SpongeSocket.FullStackSocket_connect garbage a random_port random base_time env s;
  if ended : bool then Tools.fetch rounds host path (SpongeSocket.data_socket s)
  else mret (false, []).

Definition webget_main (garbage : Z) (address : list byte) (random_port random base_time : Z)
    (env : list (bool * Z)) (rounds : nat) (argv : list string) : world K -> ending K := fun w =>
  match argv with
  | [] => Aborted
  | [_; host; path] =>
      try_catch ('(ended, _) ← get_URL garbage address random_port random base_time env rounds host path;
                 mret ended) w
  | argv0 :: _ => Printed EXIT_FAILURE (webget_usage argv0)
  end.

(** [main] of [apps/tcp_native.cc] *)
Definition native_main (rounds : nat) (argv : list string) : world K -> ending K := fun w =>
  match Tools.native_arguments argv, argv with
  | None, argv0 :: _ => Printed EXIT_FAILURE (native_usage argv0)
  | None, [] => Undefined
  | Some server_mode, _ =>
      try_catch (socket ← Tools.native_socket Names.of_name server_mode argv;
                 '(ended, _) ← BidirectionalCopy.bidirectional_stream_copy rounds socket;
                 mret ended) w
  end.

(** [main] of [apps/tun.cc], which never ends by itself *)
Definition tun_main (rounds : nat) : world K -> ending K :=
  try_catch (tun ← Socket.TunFD (String.list_ascii_of_string "tun144");
             _ ← Tools.show_packets rounds tun EmptyString;
             mret false).

(** [main] of [apps/bouncer.cc] *)
Definition bouncer_main (rounds : nat) : world K -> ending K :=
  try_catch ('(ended, _, _) ← Bouncer.program_body Names.to_string rounds; mret ended).

(** The main thread of [program_body] of [apps/lab7.cc] once the network thread has
    started.  Whatever is thrown is caught there; the program then waits for the network
    thread, which has seen [exit_flag], and ends. *)
Definition lab7_session (is_client : bool) (garbage random_port random base_time : Z)
    (env : list (bool * Z)) (rounds : nat) (s : Lab7.TCPSocketLab7 (K := K)) : IO K bool :=
  '(ended, s) ← Lab7.open_connection is_client garbage random_port random base_time env s;
  copy_and_close rounds (ended, Lab7.socket s).

Definition lab7_body (is_client : bool) (bounce_host bounce_port : string)
    (rd : bytes * bytes * bytes) (garbage random_port random base_time : Z)
    (env : list (bool * Z)) (rounds : nat) (w : world K) : ending K :=
  match Lab7.start is_client (Names.of_name bounce_host bounce_port) rd w with
  | Ok ((_, _, _, s), w') =>
      match try_catch (lab7_session is_client garbage random_port random base_time env rounds s) w' with
      | Caught _ => Completed None
      | x => x
      end
  | Throw e => caught e
  end.

Definition lab7_main (rd : bytes * bytes * bytes) (garbage random_port random base_time : Z)
    (env : list (bool * Z)) (rounds : nat) (argv : list string) (w : world K) : ending K :=
  match argv with
  | [] => Aborted
  | argv0 :: mode :: host :: port :: rest =>
      if (2 <=? Datatypes.length rest)%nat then Printed EXIT_FAILURE (lab7_usage argv0)
      else if negb (String.eqb mode "client") && negb (String.eqb mode "server")
      then Printed EXIT_FAILURE (lab7_usage argv0)
      else lab7_body (String.eqb mode "client") host port rd garbage random_port random base_time
             env rounds w
  | argv0 :: _ => Printed EXIT_FAILURE (lab7_usage argv0)
  end.

(** [main] of [apps/tcp_benchmark.cc] *)
Definition benchmark_main (fuel : nat) (s1 s2 : bytes) (r1 r2 r3 r4 : Z) : world K -> ending K :=
  try_catch ('(ended1, _) ← lift (Benchmark.main_loop fuel s1 r1 r2 false);
             if ended1 : bool then
               '(ended2, _) ← lift (Benchmark.main_loop fuel s2 r3 r4 true);
               mret (ended2 : bool)
             else mret false).

End Programs.

(** ** Well-formed command lines are served *)

Section Served.
Context {K G : Type} `{OL : Setup.OpenLaws K} `{NameService} (rand : G -> Z * G)
  (loss_rate : string -> Z).
Implicit Types w : world K.

(** The thread of the socket, from its opening through its loop. *)
Definition life {A} `{Ad : DatagramAdapter K A} (m : IO K (bool * TCPSpongeSocket (K := K) (A := A)))
    (base_time : Z) (env : list (bool * Z)) : IO K (TCPSpongeSocket (K := K) (A := A)) :=
  '(ended, s) ← m;
  if ended : bool then
    '(_, rules, t) ← SpongeSocket.tcp_loop (fun _ => true) base_time env (SpongeSocket.eventloop s)
                       (SpongeSocket.thread s);
    mret (SpongeSocket.set_thread rules t s)
  else mret s.

Lemma life_session {A} `{Ad : DatagramAdapter K A} (mk : IO K A) active_open c_tcp c_ad random
    base1 env1 base2 env2 w :
  life (open_socket mk active_open c_tcp c_ad random base1 env1) base2 env2 w =
  (a ← mk; x ← SpongeSocket.sponge_socket a;
   SpongeSocket.session active_open c_tcp c_ad random base1 env1 base2 env2 x) w.
Proof using.
  unfold life, open_socket, SpongeSocket.session, mbind, io_bind.
  destruct (mk w) as [[a w1]|]; [|done]. cbn [mbind result_bind].
  destruct (SpongeSocket.sponge_socket a w1) as [[s w2]|]; [|done].
  by destruct active_open.
Qed.

(** Run with these arguments, [main] opens [socket] and copies; and the thread of the
    socket serves a connection with the configuration [c_tcp]. *)
Definition serves {A} `{Ad : DatagramAdapter K A} (main : nat -> list string -> world K -> ending K)
    (argv : list string) (socket : IO K (bool * TCPSpongeSocket (K := K) (A := A)))
    (c_tcp : TCPConfig) (random : Z) : Prop :=
  (forall rounds w, main rounds argv w = try_catch (x ← socket; copy_and_close rounds x) w) /\
  (forall base_time env w, outcome (life socket base_time env) w
     (fun x w' => Setup.served c_tcp random w w' x)
     SpongeSocket.any).

Lemma open_socket_serves {A} `{Ad : DatagramAdapter K A} `{AL : !SpongeSocket.AdapterLaws K A}
    {C} (usage : string -> option string -> string) (get_config : list string -> prog C) argv config
    (body : C -> IO K (bool * TCPSpongeSocket (K := K) (A := A)))
    (mk : IO K A) active_open c_tcp c_ad random base env :
  3 <= size argv -> get_config argv = Return config ->
  body config = open_socket mk active_open c_tcp c_ad random base env ->
  (forall w, outcome mk w (fun a w' => exists m, Setup.device_open w w' (SpongeSocket.ad_fd a) m)
               SpongeSocket.any) ->
  serves (fun rounds argv => configured usage argv (get_config argv)
                               (fun config => x ← body config; copy_and_close rounds x))
    argv (open_socket mk active_open c_tcp c_ad random base env) c_tcp random.
Proof using.
  intros Ha Hc Hb Hmk. split.
  - intros rounds w. unfold configured. rewrite Hc, <- Hb. destruct argv as [|p argv]; [by cbv in Ha|].
    by destruct (Z.ltb_spec (size (p :: argv)) 3); [lia|].
  - intros base2 env2 w. pose proof (life_session mk active_open c_tcp c_ad random base env
      base2 env2 w) as E.
    pose proof (Setup.program_outcome mk active_open c_tcp c_ad random base env base2 env2 w (Hmk w)) as Ho.
    unfold outcome in *. by rewrite E.
Qed.

(** The devices. *)
Lemma udp_open_device listen c_filt (g : G) w :
  outcome (udp_open listen c_filt g) w
    (fun a w' => exists m, Setup.device_open w w' (SpongeSocket.device a.1) m) SpongeSocket.any.
Proof using OL.
  unfold udp_open. apply outcome_bind. eapply outcome_mono; [apply Setup.Socket_new_extends| |done].
  intros h w1 (He1 & n & Hh & _). apply outcome_bind.
  assert (Hb : outcome (if listen then Socket.bind (Adapters.source c_filt) h else mret tt) w1
    (fun _ w2 => Setup.extends w1 w2) SpongeSocket.any).
  { destruct listen; [|unfold outcome; cbn; apply Setup.opening_refl].
    eapply outcome_mono; [by eapply Setup.bind_extends| |done]. by intros u w2 [He2 _]. }
  eapply outcome_mono; [exact Hb| |done]. intros u w2 He2.
  apply outcome_bind. eapply outcome_mono; [apply Setup.lift_extends| |done].
  intros b w3 (_ & -> & _). unfold outcome. cbn. exists n.
  apply Setup.extends_device; [exact (Setup.opening_trans _ _ _ He1 He2)|exact (Setup.holds_extends _ _ _ _ He2 Hh)].
Qed.

Lemma tun_open_device name (g : G) w :
  outcome (tun_open name g) w
    (fun a w' => exists m, Setup.device_open w w' (SpongeSocket.device a.1) m) SpongeSocket.any.
Proof using OL.
  unfold tun_open, Socket.TunFD. apply outcome_bind.
  eapply outcome_mono; [apply Setup.TunTapFD_extends| |done].
  intros h w1 (He1 & n & Hh & _). apply outcome_bind.
  eapply outcome_mono; [apply Setup.lift_extends| |done].
  intros b w3 (_ & -> & _). unfold outcome. cbn. exists n. by apply Setup.extends_device.
Qed.

Lemma tap_open_device name address source next_hop w :
  outcome (tap_open name address source next_hop) w
    (fun a w' => exists m, Setup.device_open w w' (SpongeSocket.device a) m) SpongeSocket.any.
Proof using OL.
  unfold tap_open, Socket.TapFD. apply outcome_bind.
  eapply outcome_mono; [apply Setup.TunTapFD_extends| |done].
  intros h w1 ([[He1 _] _] & n & (Hon & s & Hs & Hn & Hu) & _). apply outcome_bind.
  eapply outcome_mono; [apply Setup.lift_extends| |done].
  intros b w3 (_ & -> & _). unfold SpongeSocket.eth_device_new, SpongeSocket.tap_sent.
  cbn [Adapters.tap_out Adapters.eth_construct SpongeSocket.tap_flush].
  set (frame := [Buffer.concatenate _]).
  pose proof (SpongeSocket.write_confined frame true h w1 s Hs) as Hc.
  pose proof (fun a w' => Setup.write_opened frame true h w1 a w' n) as Hk.
  unfold outcome in *. unfold mbind, io_bind.
  destruct (write frame true h w1) as [[a w2]|]; [|done]. cbn. exists n.
  destruct Hc as [(wr & Hwr & Hh) Hx]. split.
  - split; [by eapply Hk|]. exists (mkShared wr (use_count s)). rewrite Hh, lookup_insert_eq.
    split; [done|]. split; [cbn; congruence|done].
  - intros x Hne. destruct (Hx x) as [-> ->]; [congruence|]. apply He1.
Qed.

(** The options of a command line, from the initial ones of the program. *)
Definition options (o : Options) (opts : list opt) : Options := foldl (effect loss_rate) o opts.

Lemma udp_config opts p host port config :
  Forall (fun x => udp_option x = true) opts ->
  let argv := command_line p opts host port in
  let o := options (mkOptions TCPSender.default_config 0 0 false None "" "" "") opts in
  udp_get_config Names.of_name Names.of_quad loss_rate argv = Return config ->
  exists source destination, config = (c_fsm o, c_filt source destination o, listen o) /\
    (if listen o then Names.of_name "0" port = Ok source else Names.of_name host port = Ok destination).
Proof using.
  intros Ho argv o E. destruct (last_arguments p opts host port) as (_ & Eh & Ep). fold argv in Eh, Ep.
  unfold udp_get_config in E. fold argv in E.
  destruct (zero_address Names.of_quad) as [zero|]; [|done]. cbn [of_result mbind prog_bind] in E.
  pose proof (fun o => parse_options_takes (udp_step loss_rate) udp_option loss_rate opts p host port o
    (udp_takes loss_rate) Ho) as Eo. cbv zeta in Eo. fold argv in Eo. rewrite Eo in E.
  cbn [mbind prog_bind] in E.
  change (foldl _ _ opts) with o in E. rewrite Eh, Ep in E. cbn [mbind prog_bind] in E.
  destruct (listen o) eqn:El.
  - destruct (Names.of_name "0" port) as [a|]; [|done]. injection E as <-. by exists a, zero.
  - destruct (Names.of_name host port) as [a|]; [|done]. injection E as <-. by exists zero, a.
Qed.

Lemma ipv4_config random opts p host port config :
  Forall (fun x => ipv4_option x = true) opts ->
  let argv := command_line p opts host port in
  let o := options (mkOptions TCPSender.default_config 0 0 false None LOCAL_ADDRESS_DFLT
                      (Show.dec (u16 random)) "") opts in
  ipv4_get_config Names.of_name Names.of_quad Names.port loss_rate random argv = Return config ->
  exists source destination, config = (c_fsm o, c_filt source destination o, listen o, device o) /\
    (if listen o then Names.of_name "0" port = Ok source
     else Names.of_name host port = Ok destination /\
          Names.of_name (source_address o) (source_port o) = Ok source).
Proof using.
  intros Ho argv o E. destruct (last_arguments p opts host port) as (_ & Eh & Ep). fold argv in Eh, Ep.
  unfold ipv4_get_config in E. fold argv in E.
  destruct (zero_address Names.of_quad) as [zero|]; [|done]. cbn [of_result mbind prog_bind] in E.
  pose proof (fun o => parse_options_takes (ipv4_step loss_rate) ipv4_option loss_rate opts p host port o
    (ipv4_takes loss_rate) Ho) as Eo. cbv zeta in Eo. fold argv in Eo. rewrite Eo in E.
  cbn [mbind prog_bind] in E.
  change (foldl _ _ opts) with o in E. replace (size argv - 2 + 1) with (size argv - 1) in E by lia.
  rewrite Eh, Ep in E. cbn [mbind prog_bind] in E. destruct (listen o) eqn:El.
  - destruct (Names.of_name "0" port) as [a|]; [|done]. cbn [of_result mbind prog_bind] in E.
    destruct (Names.port a) as [n|]; [|done]. cbn [of_result mbind prog_bind] in E.
    destruct (n =? 0); [done|]. injection E as <-. by exists a, zero.
  - destruct (Names.of_name host port) as [a|]; [|done]. cbn [of_result mbind prog_bind] in E.
    destruct (Names.of_name (source_address o) _) as [b|]; [|done]. injection E as <-. by exists b, a.
Qed.

Lemma ethernet_config random opts p host port config :
  Forall (fun x => ethernet_option x = true) opts ->
  let argv := command_line p opts host port in
  let o := options (mkOptions TCPSender.default_config 0 0 false (Some TAP_DFLT) TAP_LOCAL_ADDRESS_DFLT
                      (Show.dec (u16 random)) GATEWAY_DFLT) opts in
  ethernet_get_config Names.of_name Names.of_quad random argv = Return config ->
  exists source destination next_hop,
    config = (c_fsm o, c_filt source destination o, next_hop, device o) /\
    Names.of_name host port = Ok destination /\
    Names.of_name (source_address o) (source_port o) = Ok source /\
    Names.of_name (next_hop_address o) "0" = Ok next_hop.
Proof using.
  intros Ho argv o E. destruct (last_arguments p opts host port) as (_ & Eh & Ep). fold argv in Eh, Ep.
  unfold ethernet_get_config in E. fold argv in E.
  destruct (zero_address Names.of_quad) as [zero|]; [|done]. cbn [of_result mbind prog_bind] in E.
  pose proof (fun o => parse_options_takes ethernet_step ethernet_option loss_rate opts p host port o
    (ethernet_takes loss_rate) Ho) as Eo. cbv zeta in Eo. fold argv in Eo. rewrite Eo in E.
  cbn [mbind prog_bind] in E.
  change (foldl _ _ opts) with o in E. replace (size argv - 2 + 1) with (size argv - 1) in E by lia.
  rewrite Eh, Ep in E. cbn [mbind prog_bind] in E.
  destruct (Names.of_name host port) as [a|]; [|done]. cbn [of_result mbind prog_bind] in E.
  destruct (Names.of_name (source_address o) _) as [b|]; [|done]. cbn [of_result mbind prog_bind] in E.
  destruct (Names.of_name (next_hop_address o) _) as [c|]; [|done]. injection E as <-.
  by exists b, a, c.
Qed.

(** C6: the TCP programs do what their command lines say.  Take any options of the program, in
    any number and order, then a host and a port, on which [get_config] returns.  The
    configuration has the window, the time-out and the loss rates of the options, and the
    addresses that the names resolve to; [main] opens the device, and a socket on it with this
    configuration, passively if [-l] was given and actively otherwise, and copies between the
    socket and the standard streams; and the thread of that socket, for any kernel, clock and
    number of rounds, serves a connection constructed with exactly this configuration: it
    writes to it what it takes from the owner and hands over what it reads. *)
Theorem programs_serve opts p host port :
  let argv := command_line p opts host port in
  (Forall (fun x => udp_option x = true) opts ->
   let o := options (mkOptions TCPSender.default_config 0 0 false None "" "" "") opts in
   forall g random base env config,
   udp_get_config Names.of_name Names.of_quad loss_rate argv = Return config ->
   exists source destination, config = (c_fsm o, c_filt source destination o, listen o) /\
     (if listen o then Names.of_name "0" port = Ok source
      else Names.of_name host port = Ok destination) /\
     serves (Ad := Setup.lossy_device SpongeSocket.udp_device rand)
       (udp_main rand loss_rate g random base env) argv
       (open_socket (Ad := Setup.lossy_device SpongeSocket.udp_device rand)
          (udp_open (listen o) (c_filt source destination o) g) (negb (listen o)) (c_fsm o)
          (c_filt source destination o) random base env)
       (c_fsm o) random) /\
  (Forall (fun x => ipv4_option x = true) opts ->
   forall g random_port random base env config,
   let o := options (mkOptions TCPSender.default_config 0 0 false None LOCAL_ADDRESS_DFLT
                       (Show.dec (u16 random_port)) "") opts in
   ipv4_get_config Names.of_name Names.of_quad Names.port loss_rate random_port argv = Return config ->
   exists source destination, config = (c_fsm o, c_filt source destination o, listen o, device o) /\
     (if listen o then Names.of_name "0" port = Ok source
      else Names.of_name host port = Ok destination /\
           Names.of_name (source_address o) (source_port o) = Ok source) /\
     serves (Ad := Setup.lossy_device SpongeSocket.tun_device rand)
       (ipv4_main rand loss_rate g random_port random base env) argv
       (open_socket (Ad := Setup.lossy_device SpongeSocket.tun_device rand)
          (tun_open (device o) g) (negb (listen o)) (c_fsm o)
          (c_filt source destination o) random base env)
       (c_fsm o) random) /\
  (Forall (fun x => ethernet_option x = true) opts ->
   forall garbage address random_port random base env config,
   let o := options (mkOptions TCPSender.default_config 0 0 false (Some TAP_DFLT)
                       TAP_LOCAL_ADDRESS_DFLT (Show.dec (u16 random_port)) GATEWAY_DFLT) opts in
   ethernet_get_config Names.of_name Names.of_quad random_port argv = Return config ->
   exists source destination next_hop,
     config = (c_fsm o, c_filt source destination o, next_hop, device o) /\
     (Names.of_name host port = Ok destination /\
      Names.of_name (source_address o) (source_port o) = Ok source /\
      Names.of_name (next_hop_address o) "0" = Ok next_hop) /\
     serves (Ad := SpongeSocket.eth_device garbage)
       (ethernet_main garbage address random_port random base env) argv
       (open_socket (Ad := SpongeSocket.eth_device garbage)
          (tap_open (default TAP_DFLT (device o)) address source next_hop) true (c_fsm o)
          (c_filt source destination o) random base env)
       (c_fsm o) random).
Proof using OL.
  intros argv. destruct (last_arguments p opts host port) as (Ha & _). fold argv in Ha.
  split_and!.
  - intros Ho o g random base env config E.
    destruct (udp_config opts p host port config Ho E) as (a & b & -> & Hab). exists a, b.
    split; [done|]. split; [exact Hab|].
    eapply (open_socket_serves udp_usage (udp_get_config Names.of_name Names.of_quad loss_rate) argv _
              (udp_socket rand g random base env)); [done|exact E|done|].
    intros w. apply udp_open_device.
  - intros Ho g random_port random base env config o E.
    destruct (ipv4_config random_port opts p host port config Ho E) as (a & b & -> & Hab). exists a, b.
    split; [done|]. split; [exact Hab|].
    eapply (open_socket_serves ipv4_usage
              (ipv4_get_config Names.of_name Names.of_quad Names.port loss_rate random_port) argv _
              (ipv4_socket rand g random base env)); [done|exact E|done|].
    intros w. apply tun_open_device.
  - intros Ho garbage address random_port random base env config o E.
    destruct (ethernet_config random_port opts p host port config Ho E) as (a & b & c & -> & Hab).
    exists a, b, c. split; [done|]. split; [exact Hab|].
    eapply (open_socket_serves ethernet_usage
              (ethernet_get_config Names.of_name Names.of_quad random_port) argv _
              (ethernet_socket garbage address random base env)); [done|exact E|done|].
    intros w. apply tap_open_device.
Qed.

End Served.

(** ** Two surprises *)

(** A program that is only asked for help ends with a failure, since two more arguments are
    required; and [lab7] ends with success although its connection failed. *)
Theorem program_surprises {K G} `{NetKernel K} `{NameService} (rand : G -> Z * G) loss_rate g random
    base env rounds p (w : world K) :
  exit_status (udp_main rand loss_rate g random base env rounds [p; "-h"]%string w) = Some EXIT_FAILURE /\
  forall is_client host port rd garbage random_port i a r s w' e,
    Lab7.start is_client (Names.of_name host port) rd w = Ok ((i, a, r, s), w') ->
    lab7_session is_client garbage random_port random base env rounds s w' = Throw e ->
    e <> undefined_behaviour ->
    exit_status (lab7_body is_client host port rd garbage random_port random base env rounds w)
      = Some EXIT_SUCCESS.
Proof.
  split; [done|]. intros * Es Et He. unfold lab7_body. rewrite Es. unfold try_catch. rewrite Et.
  by destruct e.
Qed.

(** ** A sample *)

#[local] Existing Instances Socket.mail_kernel Socket.mail_laws Socket.mail_net Socket.mail_net_laws.
#[local] Existing Instances Setup.counted_kernel Setup.counted_net Setup.counted_laws.
#[local] Existing Instances Setup.counted_net_laws Setup.counted_open_laws Names.numeric_names.

(** The three standard streams are open.  The next descriptors are the UDP socket, 3, and
    the pair of the socket, 4 and 5; the owner's three bytes wait at the thread's end. *)
Definition sample_world : world (Setup.counted Socket.mail) :=
  mkWorld (Setup.mkCounted
    (Socket.mkMail (fun x => if x =? 5 then [([Byte.x61; Byte.x62; Byte.x63], ([], 0))] else [])
       (fun _ => []) (fun _ => []) (fun _ => []) (fun _ => [])) 3) ∅.

Definition no_loss (g : unit) : Z * unit := (65535, g).

Lemma programs_serve_witness :
  exists c R, rtc SpongeSocket.thread_step
    ([], [], TCPConnection.construct
       (TCPSender.mkTCPConfig 1000 512 TCPSender.DEFAULT_CAPACITY None) 7)
    ([Byte.x61; Byte.x62; Byte.x63], R, c).
Proof.
  destruct (programs_serve (K := Setup.counted Socket.mail) no_loss (fun _ => 0) [Window "512"] "tcp"
    "10.0.0.1" "80") as [Hudp _]. cbv zeta in Hudp.
  specialize (Hudp ltac:(by repeat constructor) tt 7 0 [(false, 10); (false, 20)]).
  destruct (udp_get_config Names.of_name Names.of_quad (fun _ => 0)
    (command_line "tcp" [Window "512"] "10.0.0.1" "80")) as [config| |] eqn:E;
    [|by vm_compute in E|by vm_compute in E].
  destruct (Hudp config eq_refl) as (a & b & Ec & _ & _ & Hlife). specialize (Hlife 0 [] sample_world).
  assert (Et : (fun '(x, w') => (SpongeSocket.thread_data x, fd ∘ wrapper <$> heap w' !! SpongeSocket.thread_data x,
      taken (kernel w') 5)) <$>
    life (Ad := Setup.lossy_device SpongeSocket.udp_device no_loss)
      (udp_socket no_loss tt 7 0 [(false, 10); (false, 20)] config) 0 [] sample_world =
    Ok (2%nat, Some 5, [Byte.x61; Byte.x62; Byte.x63])).
  { vm_compute in E. injection E as <-. vm_compute. reflexivity. }
  rewrite Ec in Et. match type of Hlife with outcome (life ?m _ _) _ _ _ =>
    change (udp_socket _ _ _ _ _ _) with m in Et end.
  unfold outcome in Hlife. destruct (life _ _ _ _) as [[x w']|]; [|discriminate Et].
  cbn in Et. injection Et as Ex Eh Et. destruct Hlife as (n & Hn & Hs).
  destruct (heap w' !! SpongeSocket.thread_data x) as [sh|] eqn:Esh; [|discriminate Eh].
  injection Eh as Eh. assert (n = 5) as -> by (rewrite <- (Hn sh Esh); exact Eh).
  cbn in Hs. rewrite Et in Hs. destruct (Hs ltac:(reflexivity)) as (c & W & R & _ & Hrun & HW & _).
  cbn in HW. subst W. exists c, R. exact Hrun.
Defined.
