(* ===== verification/Threads.v ===== *)
(** The two threads of a program.

    A program that opens a [TCPSpongeSocket] runs two threads: [main] copies between the
    standard streams and its end of a pair of local sockets, and [_tcp_main] serves the
    connection at the other end ([TCPSpongeSocket::connect] and [listen_and_accept] in
    [tcp_sponge_socket.cc]).  They share the kernel and nothing else but the flags of the
    socket.  The first part lets another thread change the kernel before every system call,
    and keeps a log of the calls of one thread; this is again a kernel with the documented
    effects, so what was proved of a thread on its own holds while the other one runs; the
    same is true of the two threads of lab7.  The second part puts the two threads of a
    socket together. *)
From S2P Require Import Prelude.
From S2P Require Buffer Address ByteStream TCPSender TCPConnection Adapters FileDescriptor Socket.
From S2P Require EventLoop BidirectionalCopy SpongeSocket Names Setup Programs.
Import FileDescriptor.
Import BidirectionalCopy(STDIN_FILENO, STDOUT_FILENO).
Import Socket(NetKernel, NetLaws).
Import Setup(OpenLaws, opened, keeps, opens).
Import SpongeSocket(DatagramAdapter, TCPSpongeSocket).
Import Names(NameService).
Open Scope Z_scope.

(** ** One thread among others *)

Section Observed.
Context {K : Type} `{OL : OpenLaws K}.

(** What another thread does between two calls: anything but closing the descriptors of
    this one. *)
Definition quiet (f : K -> K) : Prop := forall k x, opened k x -> opened (f k) x.

(** The kernel, what the other threads will do before each of the next calls, and what this
    thread has transferred. *)
Record observed := mkObserved {
  inside : K;
  others : list (K -> K);
  others_quiet : Forall quiet others;
  log_taken : Z -> bytes;
  log_given : Z -> bytes;
  log_received : Z -> list bytes;
  log_sent : Z -> list (option (bytes * Z) * bytes)
}.

(** The kernel that the next call finds. *)
Definition turn (o : observed) : K :=
  match others o with [] => inside o | f :: _ => f (inside o) end.

Definition after (o : observed) (k : K) : observed :=
  mkObserved k (tail (others o)) (Forall_tail _ _ (others_quiet o))
    (log_taken o) (log_given o) (log_received o) (log_sent o).

Definition observe {A} (call : K -> A * K) (o : observed) : A * observed :=
  let '(a, k) := call (turn o) in (a, after o k).

Definition extend {A} (log : Z -> list A) (n : Z) (l : list A) : Z -> list A :=
  fun x => if decide (x = n) then log x ++ l else log x.

Definition note_taken n (data : bytes) (o : observed) : observed :=
  mkObserved (inside o) (others o) (others_quiet o)
    (extend (log_taken o) n data) (log_given o) (log_received o) (log_sent o).
Definition note_given n (data : bytes) (o : observed) : observed :=
  mkObserved (inside o) (others o) (others_quiet o)
    (log_taken o) (extend (log_given o) n data) (log_received o) (log_sent o).
Definition note_received n (d : bytes) (o : observed) : observed :=
  mkObserved (inside o) (others o) (others_quiet o)
    (log_taken o) (log_given o) (extend (log_received o) n [d]) (log_sent o).
Definition note_sent n d (o : observed) : observed :=
  mkObserved (inside o) (others o) (others_quiet o)
    (log_taken o) (log_given o) (log_received o) (extend (log_sent o) n [d]).

(** [f] is noted if the call succeeded. *)
Definition noted (r : sysret) (f : observed -> observed) (o : observed) : observed :=
  if 0 <=? return_value r then f o else o.

(** The bytes that were sent, of which the buffers hold the first [r]. *)
Definition first_of (r : sysret) (iov : list (bytes * Z)) : bytes :=
  take (Z.to_nat (return_value r)) (concat (fst <$> iov)).

(** A truncated datagram is known by its length and by the part that was kept. *)
Definition whole (r : sysret) (data : bytes) : bytes :=
  data ++ replicate (Z.to_nat (return_value r - size data)) Byte.x00.

#[export] Instance observed_kernel : Kernel observed := {|
  sys_read n len o := let '((r, data), o') := observe (sys_read n len) o in
    (r, data, noted r (note_taken n data) o');
  sys_writev n iov o := let '(r, o') := observe (sys_writev n iov) o in
    (r, noted r (note_given n (first_of r iov)) o');
  sys_close n := observe (sys_close n);
  sys_getfl n := observe (sys_getfl n);
  sys_setfl n f := observe (sys_setfl n f);
  sys_poll fds t := observe (sys_poll fds t)
|}.

#[export] Instance observed_net : NetKernel observed := {|
  Socket.sys_socket d t := observe (Socket.sys_socket d t);
  Socket.sys_socketpair d t := observe (Socket.sys_socketpair d t);
  Socket.sys_getsockopt n l o := observe (Socket.sys_getsockopt n l o);
  Socket.sys_setsockopt n l o v := observe (Socket.sys_setsockopt n l o v);
  Socket.sys_getsockname n := observe (Socket.sys_getsockname n);
  Socket.sys_getpeername n := observe (Socket.sys_getpeername n);
  Socket.sys_bind n a l := observe (Socket.sys_bind n a l);
  Socket.sys_connect n a l := observe (Socket.sys_connect n a l);
  Socket.sys_shutdown n how := observe (Socket.sys_shutdown n how);
  Socket.sys_recvfrom n len flags o :=
    let '((r, (data, a)), o') := observe (Socket.sys_recvfrom n len flags) o in
    (r, (data, a), noted r (note_received n (whole r data)) o');
  Socket.sys_sendmsg n dest iov o := let '(r, o') := observe (Socket.sys_sendmsg n dest iov) o in
    (r, noted r (note_sent n (dest, first_of r iov)) o');
  Socket.sys_listen n b := observe (Socket.sys_listen n b);
  Socket.sys_accept n := observe (Socket.sys_accept n);
  Socket.sys_open path flags := observe (Socket.sys_open path flags);
  Socket.sys_tunsetiff n name flags := observe (Socket.sys_tunsetiff n name flags)
|}.

Lemma extend_eq {A} (log : Z -> list A) n l : extend log n l n = log n ++ l.
Proof using. unfold extend. by rewrite decide_True. Qed.

Lemma extend_ne {A} (log : Z -> list A) n l x : x <> n -> extend log n l x = log x.
Proof using. intros. unfold extend. by rewrite decide_False. Qed.

(** A call that transfers nothing leaves the logs alone. *)
Lemma observe_logs {A} (call : K -> A * K) o x :
  log_taken (observe call o).2 x = log_taken o x /\ log_given (observe call o).2 x = log_given o x.
Proof using. unfold observe. by destruct (call (turn o)). Qed.

#[export] Instance observed_laws : KernelLaws observed.
Proof using All.
  refine {| taken := log_taken; given := log_given |}; cbn.
  - intros n len o Hn. unfold observe. pose proof (sys_read_law n len (turn o) Hn) as Hl.
    destruct (sys_read n len (turn o)) as [[r data] k]. destruct Hl as (_ & _ & Hok & Hbad).
    unfold noted. destruct (Z.leb_spec 0 (return_value r)) as [Hr|Hr]; cbn.
    + destruct (Hok Hr) as (P1 & P2 & _). rewrite extend_eq.
      split_and!; try done; try lia. intros x Hx. by rewrite extend_ne.
    + destruct (Hbad Hr) as (P1 & P2 & _). split_and!; try done; lia.
  - intros n iov o. unfold observe. pose proof (sys_writev_law n iov (turn o)) as Hl.
    destruct (sys_writev n iov (turn o)) as [r k]. destruct Hl as (_ & _ & Hok & Hbad).
    unfold noted. destruct (Z.leb_spec 0 (return_value r)) as [Hr|Hr]; cbn.
    + destruct (Hok Hr) as (P1 & P2 & _). rewrite extend_eq.
      split_and!; try done; try lia. intros x Hx. by rewrite extend_ne.
    + destruct (Hbad Hr) as (P1 & P2 & _). split_and!; try done; lia.
  - intros. apply observe_logs.
  - intros. apply observe_logs.
  - intros. apply observe_logs.
  - intros. apply observe_logs.
Defined.

Lemma whole_spec r d n : 0 <= n -> return_value r = size d ->
  size (whole r (take (Z.to_nat n) d)) = size d /\
  take (Z.to_nat n) (whole r (take (Z.to_nat n) d)) = take (Z.to_nat n) d.
Proof using.
  intros Hn Hr. unfold whole, size in *. rewrite Hr. split.
  - rewrite length_app, length_replicate, length_take. lia.
  - destruct (Nat.le_gt_cases (length d) (Z.to_nat n)).
    + rewrite !(take_ge d), Z.sub_diag by done. cbn. rewrite app_nil_r. by apply take_ge.
    + rewrite take_app_le by (rewrite length_take; lia). by rewrite take_take, Nat.min_id.
Qed.

#[export] Instance observed_net_laws : NetLaws observed.
Proof using All.
  refine {| Socket.received := log_received; Socket.sent := log_sent |}; cbn.
  - intros n len o Hn. unfold observe. pose proof (Socket.sys_recvfrom_law n len (turn o) Hn) as Hl.
    destruct (Socket.sys_recvfrom n len Socket.MSG_TRUNC (turn o)) as [[r [data a]] k].
    destruct Hl as (_ & Hok & Hbad).
    unfold noted. destruct (Z.leb_spec 0 (return_value r)) as [Hr|Hr]; cbn.
    + destruct (Hok Hr) as (d & P1 & P2 & -> & _). destruct (whole_spec r d len Hn P1) as [E1 E2].
      split_and!; [done| |lia]. intros _. exists (whole r (take (Z.to_nat len) d)).
      rewrite E1, E2, extend_eq. done.
    + split_and!; [done|lia|done].
  - intros n dest iov o. unfold observe. pose proof (Socket.sys_sendmsg_law n dest iov (turn o)) as Hl.
    destruct (Socket.sys_sendmsg n dest iov (turn o)) as [r k]. destruct Hl as (_ & Hok & Hbad).
    unfold noted. destruct (Z.leb_spec 0 (return_value r)) as [Hr|Hr]; cbn.
    + destruct (Hok Hr) as (P1 & P2 & _). rewrite extend_eq. split_and!; try done; lia.
    + split_and!; [done|lia|done].
  - intros n how o. unfold observe. pose proof (Socket.sys_shutdown_law n how (turn o)) as Hl.
    destruct (Socket.sys_shutdown n how (turn o)) as [r k]. by destruct Hl as [_ Hl].
Defined.

(** What was sent is logged by [sendmsg] only. *)
Lemma observe_sent {A} (call : K -> A * K) o x : log_sent (observe call o).2 x = log_sent o x.
Proof using. unfold observe. by destruct (call (turn o)). Qed.

#[export] Instance observed_sent_laws : Socket.SentLaws observed.
Proof using All.
  constructor; cbn; intros; try apply observe_sent; unfold observe, noted.
  - destruct (Socket.sys_recvfrom _ _ _ _) as [[r [data a]] k']. by destruct (0 <=? _).
  - destruct (Socket.sys_sendmsg _ _ _ _) as [r k']. destruct (0 <=? _); [|done]. cbn.
    by rewrite extend_ne.
  - destruct (sys_read _ _ _) as [[r data] k']. by destruct (0 <=? _).
  - destruct (sys_writev _ _ _) as [r k']. by destruct (0 <=? _).
Qed.

(** ** Descriptors *)

Definition opened_inside (o : observed) (x : Z) : Prop := opened (inside o) x.

Lemma turn_opened o x : opened (inside o) x -> opened (turn o) x.
Proof using.
  unfold turn. pose proof (others_quiet o) as Hq. destruct (others o) as [|f fs]; [done|].
  apply Forall_cons in Hq as [Hf _]. apply Hf.
Qed.

Lemma observe_keeps {A} (call : K -> A * K) o :
  (forall k x, opened k x -> opened (call k).2 x) -> keeps opened_inside o (observe call o).2.
Proof using.
  intros Hc. split; [intros x; apply observe_logs|]. intros x Hx. unfold observe, opened_inside.
  pose proof (Hc (turn o) x (turn_opened o x Hx)). by destruct (call (turn o)).
Qed.

Lemma observe_opens (call : K -> sysret * K) o :
  (forall k, let '(r, k') := call k in opens opened r k k') ->
  let '(r, o') := observe call o in opens opened_inside r o o'.
Proof using.
  intros Hc. pose proof (observe_keeps call o) as Hk. specialize (Hc (turn o)) as Hc'.
  unfold observe in *. destruct (call (turn o)) as [r k] eqn:E. split.
  - apply Hk. intros k0 x Hx. specialize (Hc k0). destruct (call k0). by apply Hc.
  - intros Hr. destruct Hc' as [_ Hc']. destruct (Hc' Hr) as (P1 & P2 & P3).
    split_and!; [done| |done]. intros Ho. by apply P2, turn_opened.
Qed.

Lemma observe_error {A} (call : K -> A * K) (f : A -> sysret) o :
  (forall k, return_value (f (call k).1) < 0 ->
     return_value (f (call k).1) = -1 /\ errno (f (call k).1) <> 0) ->
  return_value (f (observe call o).1) < 0 ->
  return_value (f (observe call o).1) = -1 /\ errno (f (observe call o).1) <> 0.
Proof using. intros Hc. specialize (Hc (turn o)). unfold observe. by destruct (call (turn o)). Qed.

#[export] Instance observed_open_laws : OpenLaws observed.
Proof using All.
  refine {| opened := opened_inside |}; cbn.
  - intros d t o. apply observe_opens. apply Setup.sys_socket_law.
  - intros p f o. apply observe_opens. apply Setup.sys_open_law.
  - intros d t o. pose proof (observe_keeps (Socket.sys_socketpair d t) o) as Hk.
    pose proof (fun k => Setup.sys_socketpair_law d t k) as Hl. specialize (Hl (turn o)) as Hl'.
    unfold observe in *. destruct (Socket.sys_socketpair d t (turn o)) as [[r [n0 n1]] k]. split.
    + apply Hk. intros k0 x Hx. specialize (Hl k0).
      destruct (Socket.sys_socketpair d t k0) as [[? [? ?]] ?]. by apply Hl.
    + intros Hr. destruct Hl' as [_ Hl']. destruct (Hl' Hr) as (P1 & P2 & P3 & P4 & P5).
      split_and!; [done| | |done|done]; intros Ho; [apply P2|apply P3]; by apply turn_opened.
  - intros n l p o. apply observe_keeps. intros k. apply Setup.sys_getsockopt_law.
  - intros n a l o. apply observe_keeps. intros k. apply Setup.sys_bind_law.
  - intros n name f o. apply observe_keeps. intros k. apply Setup.sys_tunsetiff_law.
  - intros n o. apply observe_keeps. intros k. apply Setup.getfl_law.
  - intros n f o. apply observe_keeps. intros k. apply Setup.setfl_law.
  - intros n iov o x Hx. unfold observe.
    pose proof (Setup.sys_writev_opened n iov (turn o) x (turn_opened o x Hx)) as Ho.
    destruct (sys_writev n iov (turn o)) as [r k]. unfold noted. by destruct (0 <=? _).
  - intros d t o. apply (observe_error _ id). apply Setup.sys_socket_error.
  - intros p f o. apply (observe_error _ id). apply Setup.sys_open_error.
  - intros d t o. apply (observe_error _ fst). apply Setup.sys_socketpair_error.
Defined.

End Observed.
Arguments observed K {_ _ _ _ _}.

(** ** The two threads together *)

Section Threads.
Context {K G : Type} `{OL : OpenLaws K} `{NameService} (rand : G -> Z * G).
#[local] Existing Instances SpongeSocket.udp_device_laws SpongeSocket.tun_device_laws.
#[local] Existing Instances SpongeSocket.eth_device_laws Setup.lossy_device_laws Names.resolver.
Implicit Types wt wo : world (observed K).

(** The thread has not transferred anything yet. *)
Definition fresh_log (w : world (observed K)) : Prop :=
  forall x, taken (kernel w) x = [] /\ given (kernel w) x = [].

(** The handle [h] is of the descriptor [n], and somebody holds it. *)
Definition handle_of (w : world (observed K)) (h : FileDescriptor) (n : Z) : Prop :=
  exists s, heap w !! h = Some s /\ fd (wrapper s) = n.
Definition held_handle (w : world (observed K)) (h : FileDescriptor) (n : Z) : Prop :=
  exists s, heap w !! h = Some s /\ fd (wrapper s) = n /\ (0 < use_count s)%nat.

(** [socketpair]: one end yields what was given to the other end, in order; some of it may
    not have been taken yet. *)
Definition paired (n m : Z) (wt wo : world (observed K)) : Prop :=
  taken (kernel wt) n `prefix_of` given (kernel wo) m /\
  taken (kernel wo) m `prefix_of` given (kernel wt) n.

(** Whatever the two threads of [socket] do, they relay between the standard streams and a
    connection of the given configuration: [W] is all that the connection was asked to send,
    [R] all that was read from it, and what is missing is in one of the two local streams or
    between the two ends of the pair. *)
Definition relays {A} `{Ad : DatagramAdapter (observed K) A}
    (socket : IO (observed K) (bool * TCPSpongeSocket (K := observed K) (A := A)))
    (c_tcp : TCPSender.TCPConfig) (random : Z) : Prop :=
  forall base_time env rounds wt wt' wo wo' x data_socket n m ended l,
  fresh_log wt -> fresh_log wo ->
  Programs.life socket base_time env wt = Ok (x, wt') ->
  BidirectionalCopy.bidirectional_stream_copy rounds data_socket wo = Ok ((ended, l), wo') ->
  handle_of wt' (SpongeSocket.thread_data x) n -> held_handle wo data_socket m ->
  m <> STDIN_FILENO -> m <> STDOUT_FILENO -> paired n m wt' wo' ->
  size (taken (kernel wt') n) < 4611686018427387904 ->
  exists c W R, SpongeSocket.tcp (SpongeSocket.thread x) = Some c /\
    rtc SpongeSocket.thread_step ([], [], TCPConnection.construct c_tcp random) (W, R, c) /\
    (exists q, taken (kernel wo') STDIN_FILENO =
                 W ++ q ++ ByteStream.content (BidirectionalCopy.outbound l)) /\
    (exists q, R = given (kernel wo') STDOUT_FILENO ++
                 ByteStream.content (BidirectionalCopy.inbound l) ++ q).

Lemma open_socket_relays {A} `{Ad : DatagramAdapter (observed K) A}
    `{AL : !SpongeSocket.AdapterLaws (observed K) A} (mk : IO (observed K) A) active_open c_tcp c_ad
    random base env :
  (forall w, outcome mk w (fun a w' => exists m, Setup.device_open w w' (SpongeSocket.ad_fd a) m)
               SpongeSocket.any) ->
  relays (Programs.open_socket mk active_open c_tcp c_ad random base env) c_tcp random.
Proof using.
  intros Hmk base2 env2 rounds wt wt' wo wo' x h n m ended l Ft Fo Et Eo (st & Hst & Hn)
    (so & Hso & Hm & Hu) N0 N1 [Pt Po] Hb.
  rewrite Programs.life_session in Et.
  pose proof (Setup.program_outcome mk active_open c_tcp c_ad random base env base2 env2 wt (Hmk wt)) as Ht.
  unfold outcome in Ht. rewrite Et in Ht. destruct Ht as (n' & Hn' & Hs).
  rewrite (Hn' st Hst) in Hn. subst n'. destruct (Hs Hb) as (c & W & R & Ec & Hrun & HW & HR).
  subst m. pose proof (BidirectionalCopy.copy_outcome rounds h so wo Hso Hu N0 N1) as Ho.
  unfold outcome in Ho. rewrite Eo in Ho. destruct Ho as (_ & _ & (o & Go & To) & (i & Gi & Ti)).
  exists c, W, R. split; [done|]. split; [done|].
  rewrite (proj1 (Ft n)) in HW. rewrite (proj2 (Ft n)) in HR. rewrite (proj2 (Fo _)) in Go.
  rewrite (proj2 (Fo _)) in Gi. rewrite (proj1 (Fo _)) in To. rewrite (proj1 (Fo _)) in Ti. cbn [app] in *.
  rewrite HW, Go in Pt. rewrite Ti, HR in Po. destruct Pt as [q Hq], Po as [q' Hq'].
  split; [exists q|exists q'].
  - by rewrite To, Hq, <- app_assoc.
  - by rewrite Hq', Gi, <- app_assoc.
Qed.

(** C7: the two threads of the TCP programs together connect the standard streams to a
    connection.  Take the thread of the socket of [tcp_udp], [tcp_ipv4] or [tcp_ip_ethernet],
    and the thread that copies, each for any number of rounds, on a kernel that the other
    threads may change before any system call, and let the two ends of the pair of sockets
    behave as documented.  Then the thread serves a connection of the program's configuration;
    the bytes that this connection was asked to send are, in order and without a gap, the
    first ones of those taken from standard input, the rest being in the outbound stream or
    in the pair; and in the same way the bytes given to standard output are the first ones
    of those read from the connection. *)
Theorem threads_relay c_fsm c_filt g random base env :
  (forall listen, relays (Ad := Setup.lossy_device SpongeSocket.udp_device rand)
     (Programs.udp_socket rand g random base env (c_fsm, c_filt, listen)) c_fsm random) /\
  (forall listen tun, relays (Ad := Setup.lossy_device SpongeSocket.tun_device rand)
     (Programs.ipv4_socket rand g random base env (c_fsm, c_filt, listen, tun)) c_fsm random) /\
  (forall garbage address next_hop tap, relays (Ad := SpongeSocket.eth_device garbage)
     (Programs.ethernet_socket garbage address random base env (c_fsm, c_filt, next_hop, tap))
     c_fsm random).
Proof using.
  split_and!; intros; apply open_socket_relays; intros w.
  - apply Programs.udp_open_device.
  - apply Programs.tun_open_device.
  - apply Programs.tap_open_device.
Qed.

End Threads.

(** ** A run *)

#[local] Existing Instances Socket.mail_kernel Socket.mail_laws Socket.mail_net Socket.mail_net_laws.
#[local] Existing Instances Setup.counted_kernel Setup.counted_net Setup.counted_laws.
#[local] Existing Instances Setup.counted_net_laws Setup.counted_open_laws Names.numeric_names.
#[local] Existing Instance Names.resolver.

Definition abc : bytes := [Byte.x61; Byte.x62; Byte.x63].

(** The next number is 3; [l] waits at the descriptor [n]. *)
Definition machine (n : Z) (l : list (bytes * (bytes * Z))) : Setup.counted Socket.mail :=
  Setup.mkCounted (Socket.mkMail (fun x => if x =? n then l else [])
    (fun _ => []) (fun _ => []) (fun _ => []) (fun _ => [])) 3.

(** The owner of the socket writes three bytes, which the thread finds at its end. *)
Definition owner_writes (k : Setup.counted Socket.mail) : Setup.counted Socket.mail :=
  Setup.mkCounted (Socket.mkMail (Socket.change 5 (fun l => l ++ [(abc, ([], 0))]) (Socket.waiting (Setup.inner k)))
    (Socket.mail_taken (Setup.inner k)) (Socket.mail_given (Setup.inner k))
    (Socket.mail_received (Setup.inner k)) (Socket.mail_sent (Setup.inner k))) (Setup.next k).

Lemma owner_writes_later : Forall quiet (replicate 8 id ++ [owner_writes]).
Proof. repeat constructor; intros k x Hx; exact Hx. Qed.

(** The thread starts when nothing has been written; the owner's bytes come later. *)
Definition thread_world : world (observed (Setup.counted Socket.mail)) :=
  mkWorld (mkObserved (machine 5 []) (replicate 8 id ++ [owner_writes]) owner_writes_later
    (fun _ => []) (fun _ => []) (fun _ => []) (fun _ => [])) ∅.

(** The owner's end is descriptor 4; three bytes wait on standard input. *)
Definition owner_world : world (observed (Setup.counted Socket.mail)) :=
  mkWorld (mkObserved (machine 0 [(abc, ([], 0))]) [] (Forall_nil_2 _)
    (fun _ => []) (fun _ => []) (fun _ => []) (fun _ => []))
    {[ 0%nat := mkShared (mkFDWrapper 4 false false 0 0) 1 ]}.

Definition sample_config : Adapters.FdAdapterConfig :=
  Adapters.mkConfig (Adapters.sockaddr_address 167772161 40000) (Adapters.sockaddr_address 167772162 80) 0 0.

Definition thread_run :=
  Programs.life (Ad := Setup.lossy_device SpongeSocket.udp_device Programs.no_loss)
    (Programs.udp_socket Programs.no_loss tt 7 0 [(false, 10); (false, 20); (false, 30)]
       (TCPSender.default_config, sample_config, false)) 0 [] thread_world.

Definition owner_run := BidirectionalCopy.bidirectional_stream_copy 4 0%nat owner_world.

Lemma threads_relay_witness :
  exists c W R q, rtc SpongeSocket.thread_step
    ([], [], TCPConnection.construct TCPSender.default_config 7) (W, R, c) /\ abc = W ++ q.
Proof.
  destruct (threads_relay (K := Setup.counted Socket.mail) Programs.no_loss TCPSender.default_config
    sample_config tt 7 0 [(false, 10); (false, 20); (false, 30)]) as [Hudp _].
  specialize (Hudp false 0 [] 4%nat).
  assert (Et : (fun '(x, w') => (fd ∘ wrapper <$> heap w' !! SpongeSocket.thread_data x,
      taken (kernel w') 5, given (kernel w') 5)) <$> thread_run = Ok (Some 5, abc, []))
    by (vm_compute; reflexivity).
  assert (Eo : (fun '((e, l), w') => (ByteStream.content (BidirectionalCopy.outbound l),
      taken (kernel w') 0, taken (kernel w') 4, given (kernel w') 4)) <$> owner_run
    = Ok ([], abc, [], abc)) by (vm_compute; reflexivity).
  destruct thread_run as [[x wt']|] eqn:Ht; [|discriminate Et].
  destruct owner_run as [[[e l] wo']|] eqn:Ho; [|discriminate Eo].
  cbn [fmap result_fmap] in Et, Eo. injection Et as Eh Et Eg. injection Eo as El E0 E4 Eg4.
  change (taken (kernel wt') 5 = abc) in Et. change (taken (kernel wo') STDIN_FILENO = abc) in E0.
  change (taken (kernel wo') 4 = []) in E4. change (given (kernel wo') 4 = abc) in Eg4.
  destruct (heap wt' !! SpongeSocket.thread_data x) as [sh|] eqn:Esh; [|discriminate Eh].
  injection Eh as Eh.
  destruct (Hudp thread_world wt' owner_world wo' x 0%nat 5 4 e l) as (c & W & R & _ & Hrun & [q Hq] & _).
  - intros n. split; reflexivity.
  - intros n. split; reflexivity.
  - unfold thread_run in Ht. exact Ht.
  - unfold owner_run in Ho. exact Ho.
  - exists sh. split; assumption.
  - eexists. split; [reflexivity|]. split; [reflexivity|apply Nat.lt_0_1].
  - discriminate.
  - discriminate.
  - split; [rewrite Et, Eg4; reflexivity|rewrite E4; apply prefix_nil].
  - rewrite Et. reflexivity.
  - exists c, W, R, q. split; [exact Hrun|].
    rewrite El, app_nil_r in Hq. rewrite <- E0. exact Hq.
Defined.
